(** * rmw_connextdds_common: wait coordinator and request/reply correlation

    A shallow embedding of the parts of [rmw_impl.cpp] that implement the
    wait set ([RMW_Connext_WaitSet]) and the client/service pair
    ([RMW_Connext_Client], [RMW_Connext_Service]), followed by the
    properties proved about them.

    Objects that the C++ code reaches through pointers live in a store
    ([World]) keyed by address; the DDS engine and the methods declared
    in headers are oracles collected in [Engine] and [Heap]. *)

From stdpp Require Import gmap strings list fin_maps functions sorting.
From Stdlib Require Import ZArith Strings.Byte.

(** Addresses of C++ objects. The null pointer is not an address: a
    nullable pointer is an [option ptr]. *)
Abbreviation ptr := nat.
Abbreviation byte := Byte.byte.

Global Instance byte_eq_decision : EqDecision byte := Byte.byte_eq_dec.

(** ** Return codes and enumerations *)

Inductive rmw_ret_t :=
| RMW_RET_OK
| RMW_RET_ERROR
| RMW_RET_TIMEOUT.

Inductive DDS_ReturnCode_t :=
| DDS_RETCODE_OK
| DDS_RETCODE_TIMEOUT
| DDS_RETCODE_OTHER (code : nat).

Inductive rmw_event_type_t :=
| RMW_EVENT_LIVELINESS_CHANGED
| RMW_EVENT_REQUESTED_DEADLINE_MISSED
| RMW_EVENT_REQUESTED_QOS_INCOMPATIBLE
| RMW_EVENT_MESSAGE_LOST
| RMW_EVENT_LIVELINESS_LOST
| RMW_EVENT_OFFERED_DEADLINE_MISSED
| RMW_EVENT_OFFERED_QOS_INCOMPATIBLE
| RMW_EVENT_INVALID.

Inductive DDS_StatusKind :=
| DDS_DATA_AVAILABLE_STATUS
| DDS_LIVELINESS_CHANGED_STATUS
| DDS_REQUESTED_DEADLINE_MISSED_STATUS
| DDS_LIVELINESS_LOST_STATUS
| DDS_OFFERED_DEADLINE_MISSED_STATUS
| DDS_REQUESTED_INCOMPATIBLE_QOS_STATUS
| DDS_OFFERED_INCOMPATIBLE_QOS_STATUS
| DDS_SAMPLE_LOST_STATUS
| DDS_STATUS_UINT32_MAX.

Inductive RMW_Connext_WaitSetState :=
| RMW_CONNEXT_WAITSET_FREE
| RMW_CONNEXT_WAITSET_ACQUIRING
| RMW_CONNEXT_WAITSET_BLOCKED
| RMW_CONNEXT_WAITSET_RELEASING
| RMW_CONNEXT_WAITSET_INVALIDATING.

Global Instance rmw_ret_t_eq_dec : EqDecision rmw_ret_t.
Proof. solve_decision. Defined.
Global Instance DDS_ReturnCode_t_eq_dec : EqDecision DDS_ReturnCode_t.
Proof. solve_decision. Defined.
Global Instance DDS_StatusKind_eq_dec : EqDecision DDS_StatusKind.
Proof. solve_decision. Defined.
Global Instance rmw_event_type_t_eq_dec : EqDecision rmw_event_type_t.
Proof. solve_decision. Defined.
Global Instance RMW_Connext_WaitSetState_eq_dec :
  EqDecision RMW_Connext_WaitSetState.
Proof. solve_decision. Defined.

(** [ros_event_to_dds]; [have_message_lost] is the build switch
    [RMW_CONNEXT_HAVE_MESSAGE_LOST]. The [invalid] out-parameter is not
    used by the callers modelled here. *)
Definition ros_event_to_dds (have_message_lost : bool)
    (ros : rmw_event_type_t) : DDS_StatusKind :=
  match ros with
  | RMW_EVENT_LIVELINESS_CHANGED => DDS_LIVELINESS_CHANGED_STATUS
  | RMW_EVENT_REQUESTED_DEADLINE_MISSED => DDS_REQUESTED_DEADLINE_MISSED_STATUS
  | RMW_EVENT_LIVELINESS_LOST => DDS_LIVELINESS_LOST_STATUS
  | RMW_EVENT_OFFERED_DEADLINE_MISSED => DDS_OFFERED_DEADLINE_MISSED_STATUS
  | RMW_EVENT_REQUESTED_QOS_INCOMPATIBLE => DDS_REQUESTED_INCOMPATIBLE_QOS_STATUS
  | RMW_EVENT_OFFERED_QOS_INCOMPATIBLE => DDS_OFFERED_INCOMPATIBLE_QOS_STATUS
  | RMW_EVENT_MESSAGE_LOST =>
      if have_message_lost then DDS_SAMPLE_LOST_STATUS
      else DDS_STATUS_UINT32_MAX
  | RMW_EVENT_INVALID => DDS_STATUS_UINT32_MAX
  end.

(** ** The object store *)

(** [rmw_event_t]: the entity the event belongs to and the event kind. *)
Record rmw_event_t := {
  event_data : ptr;
  event_type : rmw_event_type_t;
}.

(** The fields of [RMW_Connext_Condition] that the wait set reads and
    writes directly. *)
Record RMW_Connext_Condition := {
  deleted : bool;
  attached_waitset : option ptr;
}.

Record RMW_Connext_WaitSet := {
  state : RMW_Connext_WaitSetState;
  attached_subscribers : list ptr;
  attached_conditions : list ptr;
  attached_clients : list ptr;
  attached_services : list ptr;
  attached_events : list ptr;
  attached_events_cache : gmap ptr rmw_event_t;
  active_conditions : list ptr;
}.

(** Calls made on conditions and wait sets, recorded in program order
    (most recent first). *)
Inductive Call :=
| CallDetach (cond : ptr)
| CallAttach (cond ws : ptr)
| CallAttachData (cond : ptr)
| CallResetStatuses (cond : ptr)
| CallEnableStatuses (cond : ptr) (mask : DDS_StatusKind)
| CallResetTrigger (cond : ptr)
| CallInvalidate (ws cond : ptr).

Record World := {
  conds : gmap ptr RMW_Connext_Condition;
  waitsets : gmap ptr RMW_Connext_WaitSet;
  calls : list Call;
  error_msg : option string;
}.

Global Instance rmw_event_t_inhabited : Inhabited rmw_event_t :=
  populate {| event_data := 0; event_type := RMW_EVENT_INVALID |}.
Global Instance RMW_Connext_Condition_inhabited :
  Inhabited RMW_Connext_Condition :=
  populate {| deleted := false; attached_waitset := None |}.

(** A freshly constructed wait set. *)
Definition new_waitset : RMW_Connext_WaitSet :=
  {| state := RMW_CONNEXT_WAITSET_FREE;
     attached_subscribers := []; attached_conditions := [];
     attached_clients := []; attached_services := [];
     attached_events := []; attached_events_cache := ∅;
     active_conditions := [] |}.
Global Instance RMW_Connext_WaitSet_inhabited :
  Inhabited RMW_Connext_WaitSet := populate new_waitset.

(** The pointer structure that does not change while a wait set is used:
    which status condition a subscriber owns, which subscriber a client
    or service owns, what an [rmw_event_t*] points to. *)
Record Heap := {
  subscriber_condition : ptr → ptr;
  client_subscriber : ptr → ptr;
  service_subscriber : ptr → ptr;
  event_at : ptr → rmw_event_t;
  entity_condition : ptr → ptr;
  owns : ptr → ptr → bool;
  have_message_lost : bool;
}.

(** [RMW_Connext_Event::condition]: the status condition of the entity
    the event refers to. *)
Definition Event_condition (H : Heap) (e : rmw_event_t) : ptr :=
  entity_condition H (event_data e).

Record rmw_time_t := { sec : N; nsec : N }.
Record DDS_Duration_t := { dds_sec : N; dds_nanosec : N }.

(** The DDS engine and the methods whose bodies are outside this file:
    each can fail, or answer a readiness query, independently of the
    wait set's own bookkeeping. [yield] is the effect of the other
    threads between the moment this thread blocks on [state_cond] and
    the moment it owns the mutex again. *)
Record Engine := {
  dds_detach : ptr → rmw_ret_t;
  dds_attach : ptr → ptr → rmw_ret_t;
  dds_attach_data : ptr → rmw_ret_t;
  dds_reset_statuses : ptr → rmw_ret_t;
  dds_enable_statuses : ptr → DDS_StatusKind → rmw_ret_t;
  dds_reset_trigger : ptr → rmw_ret_t;
  has_data : ptr → bool;
  Event_active : rmw_event_t → bool;
  ensure_length : nat → bool;
  DDS_WaitSet_wait :
    World → ptr → option DDS_Duration_t → DDS_ReturnCode_t * list ptr;
  yield : World → World;
}.

(** ** State passing *)

Definition M (A : Type) : Type := World → A * World.

Definition ret {A : Type} (x : A) : M A := λ w, (x, w).
Definition bind {A B : Type} (m : M A) (f : A → M B) : M B := λ w,
  let '(x, w') := m w in f x w'.

Declare Scope M_scope.
Delimit Scope M_scope with M.
Notation "x ← y ; z" := (bind y (λ x : _, z))
  (at level 20, y at level 100, z at level 200, only parsing) : M_scope.
Notation "' x ← y ; z" := (bind y (λ x : _, z))
  (at level 20, x pattern, y at level 100, z at level 200, only parsing)
  : M_scope.
Notation "x ;; z" := (bind x (λ _, z))
  (at level 100, z at level 200, only parsing, right associativity) : M_scope.
Open Scope M_scope.

Definition get : M World := λ w, (w, w).
Definition modify (f : World → World) : M unit := λ w, ((), f w).

(** Continue with [k] when [c] returns [RMW_RET_OK], return [c]'s code
    otherwise: the [if (RMW_RET_OK != rc) return rc;] idiom. *)
Definition check (c : M rmw_ret_t) (k : M rmw_ret_t) : M rmw_ret_t :=
  rc ← c; if decide (rc = RMW_RET_OK) then k else ret rc.

Notation "'check!' c ; k" := (check c k)
  (at level 20, c at level 100, k at level 200, only parsing) : M_scope.

Definition cond_at (w : World) (c : ptr) : RMW_Connext_Condition :=
  conds w !!! c.
Definition ws_at (w : World) (ws : ptr) : RMW_Connext_WaitSet :=
  waitsets w !!! ws.

Definition set_cond (c : ptr) (v : RMW_Connext_Condition) (w : World) : World :=
  {| conds := <[c := v]> (conds w); waitsets := waitsets w;
     calls := calls w; error_msg := error_msg w |}.
Definition set_ws (ws : ptr) (v : RMW_Connext_WaitSet) (w : World) : World :=
  {| conds := conds w; waitsets := <[ws := v]> (waitsets w);
     calls := calls w; error_msg := error_msg w |}.
Definition log_call (c : Call) : M unit :=
  modify (λ w, {| conds := conds w; waitsets := waitsets w;
                  calls := c :: calls w; error_msg := error_msg w |}).

(** [RMW_CONNEXT_LOG_ERROR_SET]: store the message in the error slot. *)
Definition RMW_CONNEXT_LOG_ERROR_SET (msg : string) : M unit :=
  modify (λ w, {| conds := conds w; waitsets := waitsets w;
                  calls := calls w; error_msg := Some msg |}).

Definition set_attached_waitset (c : ptr) (v : option ptr) : M unit :=
  modify (λ w, set_cond c {| deleted := deleted (cond_at w c);
                             attached_waitset := v |} w).

Definition set_state (this : ptr) (s : RMW_Connext_WaitSetState) : M unit :=
  modify (λ w,
    let ws := ws_at w this in
    set_ws this
      {| state := s;
         attached_subscribers := attached_subscribers ws;
         attached_conditions := attached_conditions ws;
         attached_clients := attached_clients ws;
         attached_services := attached_services ws;
         attached_events := attached_events ws;
         attached_events_cache := attached_events_cache ws;
         active_conditions := active_conditions ws |} w).

Definition update_lists (this : ptr)
    (f : RMW_Connext_WaitSet → RMW_Connext_WaitSet) : M unit :=
  modify (λ w, set_ws this (f (ws_at w this)) w).

Definition with_subscribers (l : list ptr) (ws : RMW_Connext_WaitSet) :=
  {| state := state ws; attached_subscribers := l;
     attached_conditions := attached_conditions ws;
     attached_clients := attached_clients ws;
     attached_services := attached_services ws;
     attached_events := attached_events ws;
     attached_events_cache := attached_events_cache ws;
     active_conditions := active_conditions ws |}.
Definition with_conditions (l : list ptr) (ws : RMW_Connext_WaitSet) :=
  {| state := state ws; attached_subscribers := attached_subscribers ws;
     attached_conditions := l;
     attached_clients := attached_clients ws;
     attached_services := attached_services ws;
     attached_events := attached_events ws;
     attached_events_cache := attached_events_cache ws;
     active_conditions := active_conditions ws |}.
Definition with_clients (l : list ptr) (ws : RMW_Connext_WaitSet) :=
  {| state := state ws; attached_subscribers := attached_subscribers ws;
     attached_conditions := attached_conditions ws;
     attached_clients := l;
     attached_services := attached_services ws;
     attached_events := attached_events ws;
     attached_events_cache := attached_events_cache ws;
     active_conditions := active_conditions ws |}.
Definition with_services (l : list ptr) (ws : RMW_Connext_WaitSet) :=
  {| state := state ws; attached_subscribers := attached_subscribers ws;
     attached_conditions := attached_conditions ws;
     attached_clients := attached_clients ws;
     attached_services := l;
     attached_events := attached_events ws;
     attached_events_cache := attached_events_cache ws;
     active_conditions := active_conditions ws |}.
Definition with_events (l : list ptr) (ws : RMW_Connext_WaitSet) :=
  {| state := state ws; attached_subscribers := attached_subscribers ws;
     attached_conditions := attached_conditions ws;
     attached_clients := attached_clients ws;
     attached_services := attached_services ws;
     attached_events := l;
     attached_events_cache := attached_events_cache ws;
     active_conditions := active_conditions ws |}.
Definition with_events_cache (m : gmap ptr rmw_event_t)
    (ws : RMW_Connext_WaitSet) :=
  {| state := state ws; attached_subscribers := attached_subscribers ws;
     attached_conditions := attached_conditions ws;
     attached_clients := attached_clients ws;
     attached_services := attached_services ws;
     attached_events := attached_events ws;
     attached_events_cache := m;
     active_conditions := active_conditions ws |}.
Definition with_active_conditions (l : list ptr) (ws : RMW_Connext_WaitSet) :=
  {| state := state ws; attached_subscribers := attached_subscribers ws;
     attached_conditions := attached_conditions ws;
     attached_clients := attached_clients ws;
     attached_services := attached_services ws;
     attached_events := attached_events ws;
     attached_events_cache := attached_events_cache ws;
     active_conditions := l |}.

(** ** Condition methods *)

Module Condition.

(** Modelled from the spec: [RMW_Connext_Condition::detach] is defined
    in a header. Section 4.1: it succeeds unless the engine rejects the
    detachment, and clears the back-reference. *)
Definition detach (E : Engine) (cond : ptr) : M rmw_ret_t :=
  log_call (CallDetach cond);;
  if decide (dds_detach E cond = RMW_RET_OK)
  then set_attached_waitset cond None;; ret RMW_RET_OK
  else ret (dds_detach E cond).

(** Modelled from the spec: [RMW_Connext_Condition::attach] is defined
    in a header. Section 4.1: it fails if the condition is attached to
    a different coordinator, is idempotent for the same one, and
    otherwise attaches the native handle and records the
    back-reference. *)
Definition attach (E : Engine) (cond this : ptr) : M rmw_ret_t :=
  log_call (CallAttach cond this);;
  w ← get;
  match attached_waitset (cond_at w cond) with
  | Some ws =>
      if decide (ws = this) then ret RMW_RET_OK else ret RMW_RET_ERROR
  | None =>
      if decide (dds_attach E cond this = RMW_RET_OK)
      then set_attached_waitset cond (Some this);; ret RMW_RET_OK
      else ret (dds_attach E cond this)
  end.

(** The remaining condition methods only talk to the engine. *)
Definition attach_data (E : Engine) (cond : ptr) : M rmw_ret_t :=
  log_call (CallAttachData cond);; ret (dds_attach_data E cond).
Definition reset_statuses (E : Engine) (cond : ptr) : M rmw_ret_t :=
  log_call (CallResetStatuses cond);; ret (dds_reset_statuses E cond).
Definition enable_statuses (E : Engine) (cond : ptr)
    (mask : DDS_StatusKind) : M rmw_ret_t :=
  log_call (CallEnableStatuses cond mask);;
  ret (dds_enable_statuses E cond mask).
Definition reset_trigger (E : Engine) (cond : ptr) : M rmw_ret_t :=
  log_call (CallResetTrigger cond);; ret (dds_reset_trigger E cond).

End Condition.

(** ** Arguments of [wait] *)

Definition INT32_MAX : N := 2147483647.
Definition UINT32_MAX : N := 4294967295.

(** [rmw_connextdds_duration_from_ros_time]; [None] stands for the
    error return. *)
Definition rmw_connextdds_duration_from_ros_time (ros_time : rmw_time_t)
    : option DDS_Duration_t :=
  if bool_decide (INT32_MAX < sec ros_time ∨ UINT32_MAX < nsec ros_time)%N
  then None
  else Some {| dds_sec := sec ros_time; dds_nanosec := nsec ros_time |}.

(** The five source lists as the caller hands them in. A field is
    [None] when the caller passes a null struct pointer; the list is the
    array of the struct, as long as its count, and every slot holds an
    address (the caller fills each slot before the call, and [attach]
    dereferences each one). *)
Record wait_args := {
  subs : option (list ptr);
  gcs : option (list ptr);
  srvs : option (list ptr);
  cls : option (list ptr);
  evs : option (list ptr);
}.

(** The same five arrays while [process_wait] writes nulls into them. *)
Record wait_arrays := {
  subscribers : option (list (option ptr));
  guard_conditions : option (list (option ptr));
  services : option (list (option ptr));
  clients : option (list (option ptr));
  events : option (list (option ptr));
}.

(** The array as the caller filled it: every slot non-null. *)
Definition filled (xs : option (list ptr)) : option (list (option ptr)) :=
  match xs with Some l => Some (map Some l) | None => None end.

Definition arrays_of (a : wait_args) : wait_arrays :=
  {| subscribers := filled (subs a);
     guard_conditions := filled (gcs a);
     services := filled (srvs a);
     clients := filled (cls a);
     events := filled (evs a) |}.

(** [array[i] = nullptr]. *)
Definition null_out (i : nat) (array : option (list (option ptr)))
    : option (list (option ptr)) :=
  match array with Some l => Some (<[i := None]> l) | None => None end.

(** How a call of [wait] ends. [RMW_CONNEXT_ASSERT] is a macro defined
    in a header, so what a failed check does is not in this file: a run
    that fails the check at the end of [wait] is kept apart from the
    runs that return a code, as [AssertionFailed]. Modelled from the
    spec: section 4.2 calls the condition "an explicit invariant checked
    at the end of the routine". *)
Inductive wait_outcome :=
| Returned (rc : rmw_ret_t)
| AssertionFailed.

(** What the loops of [process_wait] compute. *)
Record demux := {
  dm_arrays : wait_arrays;
  dm_active : nat;
  dm_failed : bool;
  dm_valid : bool;
}.

(** The [switch (this->state)] at the head of [wait]. *)
Inductive entry := Enter | Sleep | Taken.

Definition wait_entry (s : RMW_Connext_WaitSetState) : entry :=
  match s with
  | RMW_CONNEXT_WAITSET_FREE => Enter
  | RMW_CONNEXT_WAITSET_INVALIDATING => Sleep
  | _ => Taken
  end.

(** ** RMW_Connext_WaitSet *)

Module WaitSet.
Section with_engine.
Context (E : Engine) (H : Heap).

(** [this->attached_events_cache[e]]: [std::map::operator[]] inserts a
    value-initialised entry when the key is missing. *)
Definition cache_index (this e : ptr) : M rmw_event_t := λ w,
  let ws := ws_at w this in
  match attached_events_cache ws !! e with
  | Some e_cached => (e_cached, w)
  | None =>
      (inhabitant,
       set_ws this
         (with_events_cache (<[e := inhabitant]> (attached_events_cache ws)) ws)
         w)
  end.

(** One [for] loop of [detach] over conditions that are already known. *)
Fixpoint detach_each (conds : list ptr) (failed : bool) : M bool :=
  match conds with
  | [] => ret failed
  | cond :: rest =>
      rc ← Condition.detach E cond;
      detach_each rest
        (if decide (rc = RMW_RET_OK) then failed else true)
  end.

(** The loop of [detach] over the attached events, which looks each
    event up in the cache first. *)
Fixpoint detach_events (this : ptr) (es : list ptr) (failed : bool) : M bool :=
  match es with
  | [] => ret failed
  | e :: rest =>
      e_cached ← cache_index this e;
      rc ← Condition.detach E (Event_condition H e_cached);
      detach_events this rest
        (if decide (rc = RMW_RET_OK) then failed else true)
  end.

Definition detach (this : ptr) : M rmw_ret_t :=
  w ← get;
  failed ← detach_each
    (subscriber_condition H <$> attached_subscribers (ws_at w this)) false;
  update_lists this (with_subscribers []);;
  w ← get;
  failed ← detach_each (attached_conditions (ws_at w this)) failed;
  update_lists this (with_conditions []);;
  w ← get;
  failed ← detach_each
    ((λ client, subscriber_condition H (client_subscriber H client))
       <$> attached_clients (ws_at w this)) failed;
  update_lists this (with_clients []);;
  w ← get;
  failed ← detach_each
    ((λ service, subscriber_condition H (service_subscriber H service))
       <$> attached_services (ws_at w this)) failed;
  update_lists this (with_services []);;
  w ← get;
  failed ← detach_events this (attached_events (ws_at w this)) failed;
  update_lists this (with_events []);;
  update_lists this (with_events_cache ∅);;
  ret (if failed : bool then RMW_RET_ERROR else RMW_RET_OK).

(** The last loop of [is_attached]. *)
Fixpoint is_attached_events (this : ptr) (es : list ptr) (cond : ptr)
    : M bool :=
  match es with
  | [] => ret false
  | e :: rest =>
      e_cached ← cache_index this e;
      if decide (Event_condition H e_cached = cond) then ret true
      else is_attached_events this rest cond
  end.

Definition is_attached (this cond : ptr) : M bool :=
  w ← get;
  let ws := ws_at w this in
  if existsb (λ sub, bool_decide (subscriber_condition H sub = cond))
       (attached_subscribers ws) then ret true
  else if existsb (λ gc, bool_decide (gc = cond))
       (attached_conditions ws) then ret true
  else if existsb
       (λ client, bool_decide
          (subscriber_condition H (client_subscriber H client) = cond))
       (attached_clients ws) then ret true
  else if existsb
       (λ service, bool_decide
          (subscriber_condition H (service_subscriber H service) = cond))
       (attached_services ws) then ret true
  else is_attached_events this (attached_events ws) cond.

(** [state_cond.wait(lock)]: the thread sleeps and the other threads
    run. *)
Definition state_cond_wait : M unit := modify (yield E).

Definition invalidate (this condition : ptr) : M rmw_ret_t :=
  attached ← is_attached this condition;
  if negb attached then ret RMW_RET_OK
  else
    w ← get;
    if decide (state (ws_at w this) = RMW_CONNEXT_WAITSET_FREE) then
      set_state this RMW_CONNEXT_WAITSET_INVALIDATING;;
      rc ← detach this;
      set_state this RMW_CONNEXT_WAITSET_FREE;;
      ret rc
    else if decide (state (ws_at w this) ≠ RMW_CONNEXT_WAITSET_ACQUIRING) then
      RMW_CONNEXT_LOG_ERROR_SET "cannot delete and wait on the same object";;
      ret RMW_RET_ERROR
    else
      state_cond_wait;;
      attached ← is_attached this condition;
      if attached then
        RMW_CONNEXT_LOG_ERROR_SET "deleted condition not detached";;
        ret RMW_RET_ERROR
      else ret RMW_RET_OK.

(** [memcmp] of two pointer arrays of [n] slots each. *)
Fixpoint memcmp_eq (n : nat) (a b : list ptr) : bool :=
  match n with
  | 0 => true
  | S n' =>
      match a, b with
      | x :: a', y :: b' => bool_decide (x = y) && memcmp_eq n' a' b'
      | _, _ => false
      end
  end.

Definition require_attach (attached_els : list ptr) (new_els_count : nat)
    (new_els : option (list ptr)) : bool :=
  match new_els with
  | None => bool_decide (0 < length attached_els)
  | Some els =>
      if decide (new_els_count = 0) then bool_decide (0 < length attached_els)
      else if decide (new_els_count ≠ length attached_els) then true
      else negb (memcmp_eq new_els_count attached_els els)
  end.

(** [(nullptr != xs) ? xs->count : 0] and
    [(nullptr != xs) ? xs->array : nullptr]. *)
Definition count_of (xs : option (list ptr)) : nat :=
  match xs with Some l => length l | None => 0 end.

(** The test at the head of each per-source block of [attach]: when the
    condition points back to another wait set, invalidate it there. The
    code returned by [invalidate] is dropped. *)
Definition displace (this cond : ptr) : M bool :=
  w ← get;
  match attached_waitset (cond_at w cond) with
  | Some otherws =>
      if decide (this ≠ otherws) then
        log_call (CallInvalidate otherws cond);;
        invalidate otherws cond;;
        ret true
      else ret false
  | None => ret false
  end.

(** The locked block for a subscriber, client or service. *)
Definition attach_reader (this cond : ptr) : M rmw_ret_t :=
  detached ← displace this cond;
  w ← get;
  if deleted (cond_at w cond) then ret RMW_RET_ERROR
  else
    (if detached : bool then set_attached_waitset cond None else ret ());;
    check! Condition.reset_statuses E cond;
    check! Condition.enable_statuses E cond DDS_DATA_AVAILABLE_STATUS;
    check! Condition.attach E cond this;
    check! Condition.attach_data E cond;
    ret RMW_RET_OK.

Fixpoint attach_subscribers (this : ptr) (l : list ptr) : M rmw_ret_t :=
  match l with
  | [] => ret RMW_RET_OK
  | sub :: rest =>
      check! attach_reader this (subscriber_condition H sub);
      w ← get;
      update_lists this
        (with_subscribers (attached_subscribers (ws_at w this) ++ [sub]));;
      attach_subscribers this rest
  end.

Fixpoint attach_clients (this : ptr) (l : list ptr) : M rmw_ret_t :=
  match l with
  | [] => ret RMW_RET_OK
  | client :: rest =>
      check! attach_reader this
        (subscriber_condition H (client_subscriber H client));
      w ← get;
      update_lists this
        (with_clients (attached_clients (ws_at w this) ++ [client]));;
      attach_clients this rest
  end.

Fixpoint attach_services (this : ptr) (l : list ptr) : M rmw_ret_t :=
  match l with
  | [] => ret RMW_RET_OK
  | svc :: rest =>
      check! attach_reader this
        (subscriber_condition H (service_subscriber H svc));
      w ← get;
      update_lists this
        (with_services (attached_services (ws_at w this) ++ [svc]));;
      attach_services this rest
  end.

(** First loop over the events: reset the enabled statuses. *)
Fixpoint reset_events (this : ptr) (l : list ptr) : M rmw_ret_t :=
  match l with
  | [] => ret RMW_RET_OK
  | event :: rest =>
      let cond := Event_condition H (event_at H event) in
      detached ← displace this cond;
      w ← get;
      if deleted (cond_at w cond) then ret RMW_RET_ERROR
      else
        (if detached : bool then set_attached_waitset cond None else ret ());;
        check! Condition.reset_statuses E cond;
        reset_events this rest
  end.

(** Second loop over the events: enable, attach and cache. *)
Fixpoint attach_events (this : ptr) (l : list ptr) : M rmw_ret_t :=
  match l with
  | [] => ret RMW_RET_OK
  | event :: rest =>
      let cond := Event_condition H (event_at H event) in
      w ← get;
      if deleted (cond_at w cond) then ret RMW_RET_ERROR
      else
        check! Condition.enable_statuses E cond
          (ros_event_to_dds (have_message_lost H)
             (event_type (event_at H event)));
        check! Condition.attach E cond this;
        w ← get;
        update_lists this
          (with_events (attached_events (ws_at w this) ++ [event]));;
        w ← get;
        update_lists this
          (with_events_cache
             (match attached_events_cache (ws_at w this) !! event with
              | Some _ => attached_events_cache (ws_at w this)
              | None =>
                  <[event := event_at H event]>
                    (attached_events_cache (ws_at w this))
              end));;
        attach_events this rest
  end.

Fixpoint attach_guard_conditions (this : ptr) (l : list ptr) : M rmw_ret_t :=
  match l with
  | [] => ret RMW_RET_OK
  | gcond :: rest =>
      detached ← displace this gcond;
      w ← get;
      if deleted (cond_at w gcond) then ret RMW_RET_ERROR
      else
        (if detached : bool then set_attached_waitset gcond None else ret ());;
        check! Condition.attach E gcond this;
        w ← get;
        update_lists this
          (with_conditions (attached_conditions (ws_at w this) ++ [gcond]));;
        attach_guard_conditions this rest
  end.

(** [if (nullptr != xs) { for ... }]. *)
Definition for_each (loop : list ptr → M rmw_ret_t) (xs : option (list ptr))
    : M rmw_ret_t :=
  match xs with Some l => loop l | None => ret RMW_RET_OK end.

(** The part of [attach] after the early return. *)
Definition reattach (this : ptr) (a : wait_args) : M rmw_ret_t :=
  check! detach this;
  check! for_each (reset_events this) (evs a);
  check! for_each (attach_subscribers this) (subs a);
  check! for_each (attach_clients this) (cls a);
  check! for_each (attach_services this) (srvs a);
  check! for_each (attach_events this) (evs a);
  check! for_each (attach_guard_conditions this) (gcs a);
  ret RMW_RET_OK.

Definition refresh_attach (ws : RMW_Connext_WaitSet) (a : wait_args) : bool :=
  let refresh_attach_subs :=
    require_attach (attached_subscribers ws) (count_of (subs a)) (subs a) in
  let refresh_attach_gcs :=
    require_attach (attached_conditions ws) (count_of (gcs a)) (gcs a) in
  let refresh_attach_srvs :=
    require_attach (attached_services ws) (count_of (srvs a)) (srvs a) in
  let refresh_attach_cls :=
    require_attach (attached_clients ws) (count_of (cls a)) (cls a) in
  let refresh_attach_evs :=
    require_attach (attached_events ws) (count_of (evs a)) (evs a) in
  refresh_attach_subs || refresh_attach_gcs || refresh_attach_evs ||
  refresh_attach_srvs || refresh_attach_cls.

Definition attach (this : ptr) (a : wait_args) : M rmw_ret_t :=
  w ← get;
  if negb (refresh_attach (ws_at w this) a) then ret RMW_RET_OK
  else reattach this a.

(** [active_condition]: scan the sequence filled by the engine for a
    handle that the condition owns. *)
Definition active_condition (ws : RMW_Connext_WaitSet) (cond : ptr) : bool :=
  existsb (λ acond, owns H cond acond) (active_conditions ws).

(** The five loops of [process_wait]. [i] is the running index into the
    caller's array. *)
Fixpoint process_subscribers (w : World) (l : list ptr) (i : nat)
    (array : option (list (option ptr))) (active : nat) (valid : bool)
    : option (list (option ptr)) * nat * bool :=
  match l with
  | [] => (array, active, valid)
  | sub :: rest =>
      process_subscribers w rest (i + 1)
        (if negb (has_data E sub) then null_out i array else array)
        (if negb (has_data E sub) then active else active + 1)
        (valid && negb (deleted (cond_at w (subscriber_condition H sub))))
  end.

Fixpoint process_guard_conditions (this : ptr) (l : list ptr) (i : nat)
    (array : option (list (option ptr))) (active : nat)
    (failed valid : bool)
    : M (option (list (option ptr)) * nat * bool * bool) :=
  match l with
  | [] => ret (array, active, failed, valid)
  | gc :: rest =>
      w ← get;
      if negb (active_condition (ws_at w this) gc) then
        process_guard_conditions this rest (i + 1) (null_out i array) active
          failed (valid && negb (deleted (cond_at w gc)))
      else
        rc ← Condition.reset_trigger E gc;
        process_guard_conditions this rest (i + 1) array (active + 1)
          (if decide (rc = RMW_RET_OK) then failed else true)
          (valid && negb (deleted (cond_at w gc)))
  end.

Fixpoint process_clients (w : World) (l : list ptr) (i : nat)
    (array : option (list (option ptr))) (active : nat) (valid : bool)
    : option (list (option ptr)) * nat * bool :=
  match l with
  | [] => (array, active, valid)
  | client :: rest =>
      process_clients w rest (i + 1)
        (if negb (has_data E (client_subscriber H client))
         then null_out i array else array)
        (if negb (has_data E (client_subscriber H client))
         then active else active + 1)
        (valid &&
         negb (deleted
           (cond_at w (subscriber_condition H (client_subscriber H client)))))
  end.

(** The loop over the services leaves [valid] alone. *)
Fixpoint process_services (l : list ptr) (i : nat)
    (array : option (list (option ptr))) (active : nat)
    : option (list (option ptr)) * nat :=
  match l with
  | [] => (array, active)
  | service :: rest =>
      process_services rest (i + 1)
        (if negb (has_data E (service_subscriber H service))
         then null_out i array else array)
        (if negb (has_data E (service_subscriber H service))
         then active else active + 1)
  end.

Fixpoint process_events (this : ptr) (l : list ptr) (i : nat)
    (array : option (list (option ptr))) (active : nat) (valid : bool)
    : M (option (list (option ptr)) * nat * bool) :=
  match l with
  | [] => ret (array, active, valid)
  | e :: rest =>
      e_cached ← cache_index this e;
      w ← get;
      process_events this rest (i + 1)
        (if negb (Event_active E e_cached) then null_out i array else array)
        (if negb (Event_active E e_cached) then active else active + 1)
        (valid && negb (deleted (cond_at w (Event_condition H e_cached))))
  end.

Definition process_wait_loops (this : ptr) (a : wait_arrays)
    (active_conditions : nat) : M demux :=
  w ← get;
  let '(a_subs, active, valid) :=
    process_subscribers w (attached_subscribers (ws_at w this)) 0
      (subscribers a) active_conditions true in
  '(a_gcs, active, failed, valid) ←
    process_guard_conditions this (attached_conditions (ws_at w this)) 0
      (guard_conditions a) active false valid;
  w ← get;
  let '(a_cls, active, valid) :=
    process_clients w (attached_clients (ws_at w this)) 0
      (clients a) active valid in
  let '(a_srvs, active) :=
    process_services (attached_services (ws_at w this)) 0
      (services a) active in
  '(a_evs, active, valid) ←
    process_events this (attached_events (ws_at w this)) 0
      (events a) active valid;
  ret {| dm_arrays :=
           {| subscribers := a_subs; guard_conditions := a_gcs;
              services := a_srvs; clients := a_cls; events := a_evs |};
         dm_active := active; dm_failed := failed; dm_valid := valid |}.

(** [process_wait]: the code, the arrays and the [active_conditions]
    out-parameter. *)
Definition process_wait (this : ptr) (a : wait_arrays)
    (active_conditions : nat) : M (rmw_ret_t * wait_arrays * nat) :=
  d ← process_wait_loops this a active_conditions;
  ret (if negb (dm_failed d) && dm_valid d then RMW_RET_OK else RMW_RET_ERROR,
       dm_arrays d, dm_active d).

(** The two scope-exit handlers of [wait], in the order in which C++
    runs them when the function returns: [scope_exit], declared last,
    first; then [scope_exit_detach] unless it was cancelled. *)
Definition leave (this : ptr) (detach_armed : bool) (rc : rmw_ret_t)
    (a : wait_arrays) : M (wait_outcome * wait_arrays) :=
  set_state this RMW_CONNEXT_WAITSET_FREE;;
  (if detach_armed then detach this;; ret () else ret ());;
  ret (Returned rc, a).

(** The critical section at the head of [wait]: [true] when the wait
    set is owned by another thread. *)
Definition already_taken (this : ptr) : M bool :=
  w ← get;
  match wait_entry (state (ws_at w this)) with
  | Enter => ret false
  | Sleep =>
      state_cond_wait;;
      w ← get;
      ret (bool_decide (RMW_CONNEXT_WAITSET_FREE ≠ state (ws_at w this)))
  | Taken => ret true
  end.

Definition attached_count (ws : RMW_Connext_WaitSet) : nat :=
  length (attached_subscribers ws) + length (attached_conditions ws) +
  length (attached_clients ws) + length (attached_services ws) +
  length (attached_events ws).

(** [wait] from the call of [DDS_WaitSet_wait] on. *)
Definition wait_blocked (this : ptr) (a : wait_args)
    (wait_duration : option DDS_Duration_t)
    : M (wait_outcome * wait_arrays) :=
  set_state this RMW_CONNEXT_WAITSET_BLOCKED;;
  w ← get;
  let '(wait_rc, active) := DDS_WaitSet_wait E w this wait_duration in
  update_lists this (with_active_conditions active);;
  if decide (wait_rc ≠ DDS_RETCODE_OK ∧ wait_rc ≠ DDS_RETCODE_TIMEOUT) then
    RMW_CONNEXT_LOG_ERROR_SET "DDS wait failed: %d";;
    leave this true RMW_RET_ERROR (arrays_of a)
  else
    set_state this RMW_CONNEXT_WAITSET_RELEASING;;
    '(rc, arrays, active_conditions) ← process_wait this (arrays_of a) 0;
    if decide (rc ≠ RMW_RET_OK) then leave this true rc arrays
    else if negb (bool_decide (0 < active_conditions) ||
                  bool_decide (DDS_RETCODE_TIMEOUT = wait_rc))
    then ret (AssertionFailed, arrays)
    else if decide (DDS_RETCODE_TIMEOUT = wait_rc) then
      RMW_CONNEXT_LOG_ERROR_SET "DDS wait timed out";;
      leave this false RMW_RET_TIMEOUT arrays
    else leave this false RMW_RET_OK arrays.

(** [wait] between the critical section and the blocking call: [inl]
    is an early return, [inr] the duration handed to the engine. *)
Definition wait_acquire (this : ptr) (a : wait_args)
    (wait_timeout : option rmw_time_t)
    : M (rmw_ret_t + option DDS_Duration_t) :=
  set_state this RMW_CONNEXT_WAITSET_ACQUIRING;;
  rc ← attach this a;
  if decide (rc ≠ RMW_RET_OK) then ret (inl rc)
  else
    w ← get;
    if bool_decide (INT32_MAX < N.of_nat (attached_count (ws_at w this)))%N
    then ret (inl RMW_RET_ERROR)
    else if negb (ensure_length E (attached_count (ws_at w this)))
    then ret (inl RMW_RET_ERROR)
    else
      match wait_timeout with
      | None => ret (inr None)
      | Some t =>
          match rmw_connextdds_duration_from_ros_time t with
          | None => ret (inl RMW_RET_ERROR)
          | Some d => ret (inr (Some d))
          end
      end.

Definition wait (this : ptr) (a : wait_args)
    (wait_timeout : option rmw_time_t) : M (wait_outcome * wait_arrays) :=
  taken ← already_taken this;
  if taken : bool then
    RMW_CONNEXT_LOG_ERROR_SET "multiple concurrent wait()s not supported";;
    ret (Returned RMW_RET_ERROR, arrays_of a)
  else
    r ← wait_acquire this a wait_timeout;
    match r with
    | inl rc => leave this true rc (arrays_of a)
    | inr wait_duration => wait_blocked this a wait_duration
    end.

End with_engine.
End WaitSet.

(** ** The state machine seen by several threads

    Every write to [state] happens with [mutex_internal] held, so the
    threads interleave at the granularity of the locked blocks of [wait]
    and [invalidate]. A thread is outside both functions ([Idle]),
    asleep on [state_cond] inside [wait] ([Parked]), past the critical
    section of [wait] and before the handler [scope_exit] ([Waiting]),
    still inside [wait] running the handler [scope_exit_detach], which
    calls [detach] without the mutex after [scope_exit] has put the
    state back to [FREE] ([Detaching]), or between the two locked blocks
    of [invalidate] ([Invalidating]). *)

Module Protocol.

Inductive pc := Idle | Parked | Waiting | Detaching | Invalidating.

Global Instance pc_eq_dec : EqDecision pc.
Proof. solve_decision. Defined.

Record sys := {
  st : RMW_Connext_WaitSetState;
  pcs : nat → pc;
}.

(** [Leave t detach_armed] is the handler [scope_exit] of thread [t];
    [detach_armed] tells whether [scope_exit_detach] is still to run,
    which is the case on every return before
    [scope_exit_detach.cancel()]. [Detached t] is the end of that
    handler. *)
Inductive action :=
| CallWait (t : nat)
| Wake (t : nat)
| Blocked (t : nat)
| Releasing (t : nat)
| Leave (t : nat) (detach_armed : bool)
| Detached (t : nat)
| InvalidateBegin (t : nat)
| InvalidateEnd (t : nat).

Definition initial : sys :=
  {| st := RMW_CONNEXT_WAITSET_FREE; pcs := λ _, Idle |}.

(** One locked block. [None]: the action is not enabled. A call of
    [wait] that finds the wait set taken returns at once and leaves the
    system as it was. *)
Definition exec (a : action) (s : sys) : option sys :=
  match a with
  | CallWait t =>
      if decide (pcs s t = Idle) then
        match wait_entry (st s) with
        | Enter => Some {| st := RMW_CONNEXT_WAITSET_ACQUIRING;
                           pcs := <[t := Waiting]> (pcs s) |}
        | Sleep => Some {| st := st s; pcs := <[t := Parked]> (pcs s) |}
        | Taken => Some s
        end
      else None
  | Wake t =>
      if decide (pcs s t = Parked) then
        if bool_decide (RMW_CONNEXT_WAITSET_FREE ≠ st s)
        then Some {| st := st s; pcs := <[t := Idle]> (pcs s) |}
        else Some {| st := RMW_CONNEXT_WAITSET_ACQUIRING;
                     pcs := <[t := Waiting]> (pcs s) |}
      else None
  | Blocked t =>
      if decide (pcs s t = Waiting)
      then Some {| st := RMW_CONNEXT_WAITSET_BLOCKED; pcs := pcs s |}
      else None
  | Releasing t =>
      if decide (pcs s t = Waiting)
      then Some {| st := RMW_CONNEXT_WAITSET_RELEASING; pcs := pcs s |}
      else None
  | Leave t detach_armed =>
      if decide (pcs s t = Waiting)
      then Some {| st := RMW_CONNEXT_WAITSET_FREE;
                   pcs := <[t := if detach_armed : bool then Detaching
                                 else Idle]> (pcs s) |}
      else None
  | Detached t =>
      if decide (pcs s t = Detaching)
      then Some {| st := st s; pcs := <[t := Idle]> (pcs s) |}
      else None
  | InvalidateBegin t =>
      if decide (pcs s t = Idle ∧ st s = RMW_CONNEXT_WAITSET_FREE)
      then Some {| st := RMW_CONNEXT_WAITSET_INVALIDATING;
                   pcs := <[t := Invalidating]> (pcs s) |}
      else None
  | InvalidateEnd t =>
      if decide (pcs s t = Invalidating)
      then Some {| st := RMW_CONNEXT_WAITSET_FREE;
                   pcs := <[t := Idle]> (pcs s) |}
      else None
  end.

Fixpoint run (trace : list action) (s : sys) : option sys :=
  match trace with
  | [] => Some s
  | a :: rest =>
      match exec a s with
      | Some s' => run rest s'
      | None => None
      end
  end.





End Protocol.

(** ** Request/reply correlation *)

Module RequestReply.

(** Modelled from the spec: the build switch
    [RMW_CONNEXT_EMULATE_REQUESTREPLY] is defined in a header. Section
    4.3 describes the build in which the client keeps its own counter
    and stamps it into the header, which is the branch taken when the
    switch is on. *)
Definition RMW_CONNEXT_EMULATE_REQUESTREPLY : bool := true.

(** Two's-complement wrap-around of a signed 64-bit integer. *)
Definition wrap_int64 (z : Z) : Z := ((z + 2 ^ 63) mod 2 ^ 64 - 2 ^ 63)%Z.

Definition INT64_MAX : Z := (2 ^ 63 - 1)%Z.

Definition GUID_SIZE : nat := 16.
Definition RMW_GID_STORAGE_SIZE : nat := 24.

Record DDS_SampleIdentity_t := {
  writer_guid : list byte;
  sequence_number : Z;
}.

Definition DDS_GUID_INITIALIZER : list byte := replicate GUID_SIZE Byte.x00.
Definition DDS_SEQUENCE_NUMBER_UNKNOWN : Z := (-1)%Z.
Definition DDS_SAMPLE_IDENTITY_UNKNOWN : DDS_SampleIdentity_t :=
  {| writer_guid := DDS_GUID_INITIALIZER;
     sequence_number := DDS_SEQUENCE_NUMBER_UNKNOWN |}.

(** [rmw_request_id_t]. *)
Record rmw_request_id_t := {
  request_writer_guid : list byte;
  request_sequence_number : Z;
}.

Record RMW_Connext_RequestReplyMessage := {
  request : bool;
  gid : list byte;
  sn : Z;
  payload : list byte;
}.

(** A sample on the wire: the two identities of the header and the
    serialised user data. *)
Record Sample := {
  identity : DDS_SampleIdentity_t;
  related_sample_identity : DDS_SampleIdentity_t;
  user_data : list byte;
}.

(** [rmw_connextdds_gid_to_guid]: [memcpy] of the first 16 bytes. *)
Definition rmw_connextdds_gid_to_guid (gid : list byte) : list byte :=
  take GUID_SIZE gid.

(** [rmw_connextdds_guid_to_gid]: [memset] to zero, then [memcpy] of the
    16 bytes. *)
Definition rmw_connextdds_guid_to_gid (guid : list byte) : list byte :=
  take GUID_SIZE guid ++
  replicate (RMW_GID_STORAGE_SIZE - GUID_SIZE) Byte.x00.

(** [RMW_Connext_Publisher::requestreply_header_to_dds]. *)
Definition requestreply_header_to_dds (rr_msg : RMW_Connext_RequestReplyMessage)
    (sample_identity related : DDS_SampleIdentity_t)
    : DDS_SampleIdentity_t * DDS_SampleIdentity_t :=
  let src := {| writer_guid := rmw_connextdds_gid_to_guid (gid rr_msg);
                sequence_number := sn rr_msg |} in
  if request rr_msg then (src, related) else (sample_identity, src).

(** [RMW_Connext_Subscriber::requestreply_header_from_dds]. *)
Definition requestreply_header_from_dds (rr_msg : RMW_Connext_RequestReplyMessage)
    (sample_identity related : DDS_SampleIdentity_t)
    : RMW_Connext_RequestReplyMessage :=
  let src := if request rr_msg then sample_identity else related in
  {| request := request rr_msg;
     gid := rmw_connextdds_guid_to_gid (writer_guid src);
     sn := sequence_number src;
     payload := payload rr_msg |}.

Record RMW_Connext_Publisher := {
  pub_gid : list byte;
  writer_ok : bool;
  dds_sn : Z;
}.

Record RMW_Connext_Subscriber := {
  reader_queue : list Sample;
  reader_ok : bool;
}.

(** [RMW_Connext_Publisher::instance_handle], which identifies the
    writer by its GUID. *)
Definition instance_handle (pub : RMW_Connext_Publisher) : list byte :=
  rmw_connextdds_gid_to_guid (pub_gid pub).

(** Modelled from the spec: [RMW_Connext_Publisher::write] forwards to
    [rmw_connextdds_write_message], defined in another file. Sections
    4.3 and 6: the header travels with the payload as a 16-byte origin
    and a sequence number, a reply carrying them as the related fields.
    With the emulation off the engine numbers a request itself and
    reports the number through [sn_out]. The result is the code, the
    value left in [sn_out], the publisher and the sample put on the
    wire. *)
Definition write (pub : RMW_Connext_Publisher)
    (rr_msg : RMW_Connext_RequestReplyMessage) (sn_out : Z)
    : rmw_ret_t * Z * RMW_Connext_Publisher * option Sample :=
  if negb (writer_ok pub) then (RMW_RET_ERROR, sn_out, pub, None)
  else
    let '(id, related) :=
      requestreply_header_to_dds rr_msg
        DDS_SAMPLE_IDENTITY_UNKNOWN DDS_SAMPLE_IDENTITY_UNKNOWN in
    if RMW_CONNEXT_EMULATE_REQUESTREPLY || negb (request rr_msg) then
      (RMW_RET_OK, sn_out, pub,
       Some {| identity := id; related_sample_identity := related;
               user_data := payload rr_msg |})
    else
      let n := wrap_int64 (dds_sn pub + 1) in
      (RMW_RET_OK, n,
       {| pub_gid := pub_gid pub; writer_ok := writer_ok pub; dds_sn := n |},
       Some {| identity := {| writer_guid := instance_handle pub;
                              sequence_number := n |};
               related_sample_identity := related;
               user_data := payload rr_msg |}).

(** Modelled from the spec: [rmw_connextdds_filter_sample] and the
    content filter of the reply reader are outside this file. Section
    4.3: a reply is delivered to a client only when its related origin
    equals the identity of the client's request publisher; a reader
    without a request writer sees every sample. *)
Definition filter_sample (request_writer_handle : option (list byte))
    (smp : Sample) : bool :=
  match request_writer_handle with
  | None => true
  | Some guid =>
      bool_decide (writer_guid (related_sample_identity smp) = guid)
  end.

(** The loop of [RMW_Connext_Subscriber::take_next] for one message:
    samples that the filter rejects are dropped, the first accepted one
    is taken. *)
Fixpoint take_next (queue : list Sample) (accepted : Sample → bool)
    : option Sample * list Sample :=
  match queue with
  | [] => (None, [])
  | smp :: rest =>
      if accepted smp then (Some smp, rest) else take_next rest accepted
  end.

(** Modelled from the spec: [type_support->deserialize] is defined in
    another file. It fills the payload of the message; with the
    emulation on it also fills the header, which then travels inside the
    message and not in the sample info. Sections 4.3 and 6: the header
    is a 16-byte origin and a sequence number, which a reply carries as
    the related fields. The bytes of [gid] past the origin are left as
    they were. *)
Definition deserialize (rr_msg : RMW_Connext_RequestReplyMessage)
    (smp : Sample) : RMW_Connext_RequestReplyMessage :=
  if RMW_CONNEXT_EMULATE_REQUESTREPLY then
    let src :=
      if request rr_msg then identity smp else related_sample_identity smp in
    {| request := request rr_msg;
       gid := take GUID_SIZE (writer_guid src) ++ drop GUID_SIZE (gid rr_msg);
       sn := sequence_number src;
       payload := user_data smp |}
  else
    {| request := request rr_msg; gid := gid rr_msg; sn := sn rr_msg;
       payload := user_data smp |}.

(** [RMW_Connext_Subscriber::take_message] for a request/reply type:
    [rr_msg] comes in with [request] set by the caller and goes out
    with the header and payload of the sample taken. [take_next] reads
    the header from the sample info only in the build without the
    emulation. *)
Definition take_message (sub : RMW_Connext_Subscriber)
    (rr_msg : RMW_Connext_RequestReplyMessage)
    (request_writer_handle : option (list byte))
    : rmw_ret_t * option RMW_Connext_RequestReplyMessage *
      RMW_Connext_Subscriber :=
  if negb (reader_ok sub) then (RMW_RET_ERROR, None, sub)
  else
    match take_next (reader_queue sub) (filter_sample request_writer_handle) with
    | (Some smp, rest) =>
        let m :=
          if negb RMW_CONNEXT_EMULATE_REQUESTREPLY
          then requestreply_header_from_dds rr_msg
                 (identity smp) (related_sample_identity smp)
          else rr_msg in
        (RMW_RET_OK, Some (deserialize m smp),
         {| reader_queue := rest; reader_ok := reader_ok sub |})
    | (None, rest) =>
        (RMW_RET_OK, None,
         {| reader_queue := rest; reader_ok := reader_ok sub |})
    end.

(** Modelled from the spec: the engine hands a written sample to the
    matched reader, in the order of the writes. *)
Definition deliver (smp : option Sample) (sub : RMW_Connext_Subscriber)
    : RMW_Connext_Subscriber :=
  match smp with
  | Some x => {| reader_queue := reader_queue sub ++ [x];
                 reader_ok := reader_ok sub |}
  | None => sub
  end.

(** A default-constructed message. No field is read before the code
    assigns it, except the bytes of [gid] past the GUID, which nothing
    reads. *)
Definition rr_msg_init : RMW_Connext_RequestReplyMessage :=
  {| request := false; gid := replicate RMW_GID_STORAGE_SIZE Byte.x00;
     sn := 0; payload := [] |}.

Record RMW_Connext_Client := {
  request_pub : RMW_Connext_Publisher;
  reply_sub : RMW_Connext_Subscriber;
  next_request_id : Z;
}.

Record RMW_Connext_Service := {
  reply_pub : RMW_Connext_Publisher;
  request_sub : RMW_Connext_Subscriber;
}.

Module Client.

(** [RMW_Connext_Client::send_request]: the code, [*sequence_id], the
    client and the sample written. [sequence_id] is the value the
    caller's variable held before the call. *)
Definition send_request (c : RMW_Connext_Client) (ros_request : list byte)
    (sequence_id : Z)
    : rmw_ret_t * Z * RMW_Connext_Client * option Sample :=
  let counter :=
    if RMW_CONNEXT_EMULATE_REQUESTREPLY
    then wrap_int64 (next_request_id c + 1) else next_request_id c in
  let sequence_id :=
    if RMW_CONNEXT_EMULATE_REQUESTREPLY then counter else sequence_id in
  let rr_msg :=
    {| request := true;
       gid := pub_gid (request_pub c);
       sn := if RMW_CONNEXT_EMULATE_REQUESTREPLY then sequence_id else (-1)%Z;
       payload := ros_request |} in
  let '(rc, sequence_id, pub, smp) := write (request_pub c) rr_msg sequence_id in
  (rc, sequence_id,
   {| request_pub := pub; reply_sub := reply_sub c;
      next_request_id := counter |},
   smp).

(** [RMW_Connext_Client::take_response]: the code, the header and
    payload when [*taken] is true, and the client. *)
Definition take_response (c : RMW_Connext_Client)
    : rmw_ret_t * option (rmw_request_id_t * list byte) * RMW_Connext_Client :=
  let rr_msg :=
    {| request := false; gid := gid rr_msg_init; sn := sn rr_msg_init;
       payload := [] |} in
  let req_writer_handle := instance_handle (request_pub c) in
  let '(rc, taken_msg, sub) :=
    take_message (reply_sub c) rr_msg (Some req_writer_handle) in
  let c' := {| request_pub := request_pub c; reply_sub := sub;
               next_request_id := next_request_id c |} in
  if decide (rc ≠ RMW_RET_OK) then (rc, None, c')
  else
    match taken_msg with
    | Some m =>
        (RMW_RET_OK,
         Some ({| request_sequence_number := sn m;
                  request_writer_guid := take 16 (gid m) |}, payload m),
         c')
    | None => (RMW_RET_OK, None, c')
    end.

End Client.

Module Service.

(** [RMW_Connext_Service::take_request]. *)
Definition take_request (s : RMW_Connext_Service)
    : rmw_ret_t * option (rmw_request_id_t * list byte) * RMW_Connext_Service :=
  let rr_msg :=
    {| request := true; gid := gid rr_msg_init; sn := sn rr_msg_init;
       payload := [] |} in
  let '(rc, taken_msg, sub) := take_message (request_sub s) rr_msg None in
  let s' := {| reply_pub := reply_pub s; request_sub := sub |} in
  if decide (rc ≠ RMW_RET_OK) then (rc, None, s')
  else
    match taken_msg with
    | Some m =>
        (RMW_RET_OK,
         Some ({| request_sequence_number := sn m;
                  request_writer_guid := take 16 (gid m) |}, payload m),
         s')
    | None => (RMW_RET_OK, None, s')
    end.

(** [RMW_Connext_Service::send_response]. *)
Definition send_response (s : RMW_Connext_Service)
    (request_id : rmw_request_id_t) (ros_response : list byte)
    : rmw_ret_t * RMW_Connext_Service * option Sample :=
  let rr_msg :=
    {| request := false;
       sn := request_sequence_number request_id;
       gid := take 16 (request_writer_guid request_id) ++
              drop 16 (gid rr_msg_init);
       payload := ros_response |} in
  let '(rc, _, pub, smp) := write (reply_pub s) rr_msg 0 in
  (rc, {| reply_pub := pub; request_sub := request_sub s |}, smp).

End Service.

(** The correlation handle of a request: the origin stamped into its
    header and the sequence number returned to the caller. *)
Definition handle_of (c : RMW_Connext_Client) (sequence_id : Z)
    : rmw_request_id_t :=
  {| request_writer_guid := instance_handle (request_pub c);
     request_sequence_number := sequence_id |}.

(** The sequence numbers returned by [n] successive calls of
    [send_request] with the given payloads. *)
Fixpoint send_requests (c : RMW_Connext_Client) (payloads : list (list byte))
    : list Z :=
  match payloads with
  | [] => []
  | p :: rest =>
      let '(_, sequence_id, c', _) := Client.send_request c p 0 in
      sequence_id :: send_requests c' rest
  end.

(** One exchange: the client sends [P]; the service takes the request,
    answers it with [R] under the handle it took, and the client takes
    the reply. The result is the sequence number returned to the
    client, what the service took, and what the client's
    [take_response] returned. *)
Definition round_trip (c : RMW_Connext_Client) (s : RMW_Connext_Service)
    (P R : list byte) (sequence_id : Z)
    : option (Z * (rmw_request_id_t * list byte) *
              (rmw_ret_t * option (rmw_request_id_t * list byte))) :=
  let '(rc, sequence_id, c1, smp) := Client.send_request c P sequence_id in
  if decide (rc ≠ RMW_RET_OK) then None
  else
    let '(_, taken, s1) :=
      Service.take_request
        {| reply_pub := reply_pub s;
           request_sub := deliver smp (request_sub s) |} in
    match taken with
    | Some (H', P') =>
        let '(_, _, smp') := Service.send_response s1 H' R in
        let '(rc3, taken3, _) :=
          Client.take_response
            {| request_pub := request_pub c1;
               reply_sub := deliver smp' (reply_sub c1);
               next_request_id := next_request_id c1 |} in
        Some (sequence_id, (H', P'), (rc3, taken3))
    | None => None
    end.

End RequestReply.

(** ** Construction of clients and services *)

Module Create.

(** What the collaborators answer during one call of [create]:
    allocation of the implementation object, the type-support lookup,
    the two endpoint constructors, the two string allocations of the
    client, and [finalize] of an endpoint. *)
Record Factory := {
  new_impl : option ptr;
  type_supports_found : bool;
  Publisher_create : option ptr;
  alloc_cft_name : bool;
  alloc_cft_filter : bool;
  Subscriber_create : option ptr;
  Publisher_finalize : ptr → rmw_ret_t;
  Subscriber_finalize : ptr → rmw_ret_t;
}.

(** The objects that exist: implementation objects and endpoints that
    were allocated and not deleted, and the endpoints whose DDS entities
    were finalized. *)
Record Store := {
  impls : gset ptr;
  endpoints : gset ptr;
  finalized : gset ptr;
}.

Definition allocate_impl (p : ptr) (s : Store) : Store :=
  {| impls := {[p]} ∪ impls s; endpoints := endpoints s;
     finalized := finalized s |}.
Definition delete_impl (p : ptr) (s : Store) : Store :=
  {| impls := impls s ∖ {[p]}; endpoints := endpoints s;
     finalized := finalized s |}.
Definition allocate_endpoint (p : ptr) (s : Store) : Store :=
  {| impls := impls s; endpoints := {[p]} ∪ endpoints s;
     finalized := finalized s |}.
Definition delete_endpoint (p : ptr) (s : Store) : Store :=
  {| impls := impls s; endpoints := endpoints s ∖ {[p]};
     finalized := finalized s |}.
Definition mark_finalized (p : ptr) (s : Store) : Store :=
  {| impls := impls s; endpoints := endpoints s;
     finalized := {[p]} ∪ finalized s |}.

(** The two endpoint pointers of a client or service object; the
    constructor leaves them null. *)
Record impl := {
  pub : option ptr;
  sub : option ptr;
}.

(** [RMW_Connext_Client::finalize]. *)
Definition Client_finalize (F : Factory) (c : impl) (s : Store)
    : rmw_ret_t * Store :=
  let after_pub :=
    match pub c with
    | Some p =>
        if decide (Publisher_finalize F p ≠ RMW_RET_OK) then inl s
        else inr (delete_endpoint p (mark_finalized p s))
    | None => inr s
    end in
  match after_pub with
  | inl s => (RMW_RET_ERROR, s)
  | inr s =>
      match sub c with
      | Some p =>
          if decide (Subscriber_finalize F p ≠ RMW_RET_OK)
          then (RMW_RET_ERROR, s)
          else (RMW_RET_OK, delete_endpoint p (mark_finalized p s))
      | None => (RMW_RET_OK, s)
      end
  end.

(** [scope_exit_client_impl_delete]: finalize, then delete the object. *)
Definition client_scope_exit (F : Factory) (client_impl : ptr) (c : impl)
    (s : Store) : Store :=
  delete_impl client_impl (snd (Client_finalize F c s)).

(** [RMW_Connext_Client::create]: the pointer returned and the store. *)
Definition Client_create (F : Factory) (s : Store)
    : option (ptr * impl) * Store :=
  match new_impl F with
  | None => (None, s)
  | Some client_impl =>
      let s := allocate_impl client_impl s in
      let c := {| pub := None; sub := None |} in
      if negb (type_supports_found F)
      then (None, client_scope_exit F client_impl c s)
      else
        match Publisher_create F with
        | None => (None, client_scope_exit F client_impl c s)
        | Some request_pub =>
            let s := allocate_endpoint request_pub s in
            let c := {| pub := Some request_pub; sub := None |} in
            if negb (alloc_cft_name F)
            then (None, client_scope_exit F client_impl c s)
            else if negb (alloc_cft_filter F)
            then (None, client_scope_exit F client_impl c s)
            else
              match Subscriber_create F with
              | None => (None, client_scope_exit F client_impl c s)
              | Some reply_sub =>
                  (Some (client_impl,
                         {| pub := Some request_pub; sub := Some reply_sub |}),
                   allocate_endpoint reply_sub s)
              end
        end
  end.

(** [scope_exit_svc_impl_delete]: [delete svc_impl] and nothing else.
    The class is declared in a header; its endpoints are released by
    [finalize], which deletes them itself, so deleting the object does
    not release them a second time. *)
Definition service_scope_exit (svc_impl : ptr) (s : Store) : Store :=
  delete_impl svc_impl s.

(** [RMW_Connext_Service::create]. *)
Definition Service_create (F : Factory) (s : Store)
    : option (ptr * impl) * Store :=
  match new_impl F with
  | None => (None, s)
  | Some svc_impl =>
      let s := allocate_impl svc_impl s in
      if negb (type_supports_found F)
      then (None, service_scope_exit svc_impl s)
      else
        match Publisher_create F with
        | None => (None, service_scope_exit svc_impl s)
        | Some reply_pub =>
            let s := allocate_endpoint reply_pub s in
            match Subscriber_create F with
            | None => (None, service_scope_exit svc_impl s)
            | Some request_sub =>
                (Some (svc_impl,
                       {| pub := Some reply_pub; sub := Some request_sub |}),
                 allocate_endpoint request_sub s)
            end
        end
  end.

End Create.

(** ** Properties in the words of the specification *)

(** [cond] is the condition of a source held in one of the five
    attached lists of [ws]; an event's condition is the one of its
    cached copy. *)
Definition condition_attached (H : Heap) (ws : RMW_Connext_WaitSet)
    (cond : ptr) : Prop :=
  (∃ sub, sub ∈ attached_subscribers ws ∧ subscriber_condition H sub = cond) ∨
  cond ∈ attached_conditions ws ∨
  (∃ client, client ∈ attached_clients ws ∧
     subscriber_condition H (client_subscriber H client) = cond) ∨
  (∃ service, service ∈ attached_services ws ∧
     subscriber_condition H (service_subscriber H service) = cond) ∨
  (∃ e e_cached, e ∈ attached_events ws ∧
     attached_events_cache ws !! e = Some e_cached ∧
     Event_condition H e_cached = cond).

(** Every attached event has its snapshot in the cache: [attach] pushes
    the event and caches it in the same iteration, [detach] clears
    both. *)
Definition events_cached (ws : RMW_Connext_WaitSet) : Prop :=
  ∀ e, e ∈ attached_events ws → is_Some (attached_events_cache ws !! e).

(** The cache still covers the attached events of [this] in the end
    world if it did in the start world. *)
Definition cached_kept (this : ptr) (w w' : World) : Prop :=
  events_cached (ws_at w this) → events_cached (ws_at w' this).

(** The world after [RMW_CONNEXT_LOG_ERROR_SET msg]. *)
Definition with_error (msg : string) (w : World) : World :=
  {| conds := conds w; waitsets := waitsets w; calls := calls w;
     error_msg := Some msg |}.

(** [m] relates every start world to its end world by [R]. *)
Definition keeps {A : Type} (R : World → World → Prop) (m : M A) : Prop :=
  ∀ w x w', m w = (x, w') → R w w'.

(** The wait set at [this] is the same in both worlds. *)
Definition same_waitset (this : ptr) (w w' : World) : Prop :=
  ws_at w' this = ws_at w this.

(** The conditions are the same in both worlds. *)
Definition same_conds (w w' : World) : Prop := conds w' = conds w.

(** The wait set at [this] is the same in both worlds, except possibly
    for its event cache. *)
Definition same_but_cache (this : ptr) (w w' : World) : Prop :=
  ∃ m, ws_at w' this = with_events_cache m (ws_at w this).

(** A wait set with its five lists and its cache cleared. *)
Definition cleared (ws : RMW_Connext_WaitSet) : RMW_Connext_WaitSet :=
  {| state := state ws;
     attached_subscribers := []; attached_conditions := [];
     attached_clients := []; attached_services := [];
     attached_events := []; attached_events_cache := ∅;
     active_conditions := active_conditions ws |}.

(** Every call logged between [w] and [w'] resets the trigger of a guard
    condition. *)
Definition only_reset_triggers (w w' : World) : Prop :=
  ∃ new, calls w' = new ++ calls w ∧
         Forall (λ c, ∃ gc, c = CallResetTrigger gc) new.

(** While this thread sleeps inside another wait set's [invalidate],
    no other thread changes the wait set the thread is working on: its
    state is then [ACQUIRING], in which a concurrent [wait] fails and a
    concurrent [invalidate] only waits. *)
Definition yield_keeps (E : Engine) (this : ptr) : Prop :=
  ∀ w, same_waitset this w (yield E w).

(** The list a caller's struct pointer stands for: empty for null. *)
Definition requested (xs : option (list ptr)) : list ptr :=
  match xs with Some l => l | None => [] end.

(** "Same size and same element pointers, compared positionally". *)
Definition identical (attached_els : list ptr) (new_els : option (list ptr))
    : Prop :=
  length attached_els = length (requested new_els) ∧
  ∀ i, i < length attached_els → attached_els !! i = requested new_els !! i.

(** The five requested lists are identical to the attached ones. *)
Definition unchanged_sources (ws : RMW_Connext_WaitSet) (a : wait_args)
    : Prop :=
  identical (attached_subscribers ws) (subs a) ∧
  identical (attached_conditions ws) (gcs a) ∧
  identical (attached_services ws) (srvs a) ∧
  identical (attached_clients ws) (cls a) ∧
  identical (attached_events ws) (evs a).

(** The five attached lists are exactly the requested ones. *)
Definition attached_as_requested (ws : RMW_Connext_WaitSet) (a : wait_args)
    : Prop :=
  attached_subscribers ws = requested (subs a) ∧
  attached_conditions ws = requested (gcs a) ∧
  attached_services ws = requested (srvs a) ∧
  attached_clients ws = requested (cls a) ∧
  attached_events ws = requested (evs a).

(** Nothing is attached. *)
Definition nothing_attached (ws : RMW_Connext_WaitSet) : Prop :=
  attached_subscribers ws = [] ∧ attached_conditions ws = [] ∧
  attached_services ws = [] ∧ attached_clients ws = [] ∧
  attached_events ws = [] ∧ attached_events_cache ws = ∅.

(** The conditions of the sources attached to [ws], list by list, with
    the cache consulted for the events. *)
Definition attached_conds (H : Heap) (ws : RMW_Connext_WaitSet) : list ptr :=
  (subscriber_condition H <$> attached_subscribers ws) ++
  attached_conditions ws ++
  ((λ c, subscriber_condition H (client_subscriber H c))
     <$> attached_clients ws) ++
  ((λ s, subscriber_condition H (service_subscriber H s))
     <$> attached_services ws) ++
  ((λ e, Event_condition H (default inhabitant (attached_events_cache ws !! e)))
     <$> attached_events ws).

(** An array after [process_wait]: slot by slot either what it was or
    null, in the same positions. *)
Definition nulled_in_place (before after : option (list (option ptr)))
    : Prop :=
  match before, after with
  | Some l, Some l' => Forall2 (λ x y, y = x ∨ y = None) l l'
  | None, None => True
  | _, _ => False
  end.

Definition arrays_nulled_in_place (before after : wait_arrays) : Prop :=
  nulled_in_place (subscribers before) (subscribers after) ∧
  nulled_in_place (guard_conditions before) (guard_conditions after) ∧
  nulled_in_place (services before) (services after) ∧
  nulled_in_place (clients before) (clients after) ∧
  nulled_in_place (events before) (events after).

(** The caller's array with every slot null. *)
Definition all_null (xs : option (list ptr)) : option (list (option ptr)) :=
  match xs with Some l => Some (replicate (length l) None) | None => None end.

Definition arrays_all_null (a : wait_args) : wait_arrays :=
  {| subscribers := all_null (subs a);
     guard_conditions := all_null (gcs a);
     services := all_null (srvs a);
     clients := all_null (cls a);
     events := all_null (evs a) |}.

(** The world in which [DDS_WaitSet_wait] is called, and the world in
    which [process_wait] starts once it has returned. *)
Definition blocked_world (this : ptr) (w : World) : World :=
  snd (set_state this RMW_CONNEXT_WAITSET_BLOCKED w).

Definition releasing_world (E : Engine) (this : ptr)
    (wait_duration : option DDS_Duration_t) (w : World) : World :=
  let wb := blocked_world this w in
  snd (set_state this RMW_CONNEXT_WAITSET_RELEASING
         (snd (update_lists this
                 (with_active_conditions
                    (snd (DDS_WaitSet_wait E wb this wait_duration)))
                 wb))).

(** No attached source is ready: no data on a subscriber, client or
    service, no guard condition among the active handles, no active
    status for the cached copy of an event. *)
Definition none_ready (E : Engine) (H : Heap) (ws : RMW_Connext_WaitSet)
    : Prop :=
  (∀ sub, sub ∈ attached_subscribers ws → has_data E sub = false) ∧
  (∀ gc, gc ∈ attached_conditions ws →
     WaitSet.active_condition H ws gc = false) ∧
  (∀ c, c ∈ attached_clients ws →
     has_data E (client_subscriber H c) = false) ∧
  (∀ s, s ∈ attached_services ws →
     has_data E (service_subscriber H s) = false) ∧
  (∀ e, e ∈ attached_events ws →
     Event_active E (default inhabitant (attached_events_cache ws !! e))
       = false).

(** No condition of an attached source is marked deleted. *)
Definition none_deleted (H : Heap) (w : World) (ws : RMW_Connext_WaitSet)
    : Prop :=
  ∀ c, c ∈ attached_conds H ws → deleted (cond_at w c) = false.

(** The log of calls only grows between [w] and [w']. *)
Definition calls_grow (w w' : World) : Prop :=
  ∃ new, calls w' = new ++ calls w.

(** Call [c] was made between [w] and [w']. *)
Definition performed (c : Call) (w w' : World) : Prop :=
  ∃ new, calls w' = new ++ calls w ∧ c ∈ new.

(** While this thread sleeps inside another wait set's [invalidate],
    the other threads only add to the log of calls. *)
Definition yield_logs (E : Engine) : Prop := ∀ w, calls_grow w (yield E w).

(** What a [wait] that ends as [o] may have called on unchanged
    sources: [reset_trigger] on guard conditions and, only when it
    returns [RMW_RET_ERROR], [Condition::detach]. *)
Definition only_resets_or_exit_detach (o : wait_outcome) (w w' : World)
    : Prop :=
  ∃ new, calls w' = new ++ calls w ∧
         Forall (λ c, (∃ gc, c = CallResetTrigger gc) ∨
                      (o = Returned RMW_RET_ERROR ∧ ∃ cond, c = CallDetach cond))
           new.

(** The conditions of the requested subscribers, clients and
    services. *)
Definition reader_conds (H : Heap) (a : wait_args) : list ptr :=
  (subscriber_condition H <$> requested (subs a)) ++
  ((λ c, subscriber_condition H (client_subscriber H c)) <$> requested (cls a)) ++
  ((λ s, subscriber_condition H (service_subscriber H s)) <$> requested (srvs a)).

(** Between [w] and [w'] every source attached to [ws] was detached
    and every requested source was attached to [this]: the statuses of
    a reader's or an event's condition were reset and enabled with its
    mask before the condition was attached. *)
Definition reattached (H : Heap) (this : ptr) (a : wait_args)
    (ws : RMW_Connext_WaitSet) (w w' : World) : Prop :=
  (∀ c, c ∈ attached_conds H ws → performed (CallDetach c) w w') ∧
  (∀ c, c ∈ reader_conds H a →
     performed (CallResetStatuses c) w w' ∧
     performed (CallEnableStatuses c DDS_DATA_AVAILABLE_STATUS) w w' ∧
     performed (CallAttach c this) w w' ∧
     performed (CallAttachData c) w w') ∧
  (∀ e, e ∈ requested (evs a) →
     performed (CallResetStatuses (Event_condition H (event_at H e))) w w' ∧
     performed
       (CallEnableStatuses (Event_condition H (event_at H e))
          (ros_event_to_dds (have_message_lost H)
             (event_type (event_at H e)))) w w' ∧
     performed (CallAttach (Event_condition H (event_at H e)) this) w w') ∧
  (∀ gc, gc ∈ requested (gcs a) → performed (CallAttach gc this) w w').

(** ** Concrete scenarios *)

Module Scenario.

(** Subscriber [s] owns condition [s + 100]; a client or service owns
    a subscriber ten or twenty addresses further; an event at [e]
    refers to entity [e + 30], whose condition is 200 further; a guard
    condition owns the DDS handle with its own address. *)
Definition heap : Heap :=
  {| subscriber_condition := λ s, s + 100;
     client_subscriber := λ c, c + 10;
     service_subscriber := λ c, c + 20;
     event_at := λ e, {| event_data := e + 30;
                         event_type := RMW_EVENT_LIVELINESS_LOST |};
     entity_condition := λ p, p + 200;
     owns := λ c a, bool_decide (c = a);
     have_message_lost := true |}.

(** An engine on which every call succeeds, nothing is ready, the
    multi-wait times out and no other thread interferes. *)
Definition quiet : Engine :=
  {| dds_detach := λ _, RMW_RET_OK;
     dds_attach := λ _ _, RMW_RET_OK;
     dds_attach_data := λ _, RMW_RET_OK;
     dds_reset_statuses := λ _, RMW_RET_OK;
     dds_enable_statuses := λ _ _, RMW_RET_OK;
     dds_reset_trigger := λ _, RMW_RET_OK;
     has_data := λ _, false;
     Event_active := λ _, false;
     ensure_length := λ _, true;
     DDS_WaitSet_wait := λ _ _ _, (DDS_RETCODE_TIMEOUT, []);
     yield := λ w, w |}.

(** The same engine while another thread completes [invalidate] on wait
    set 1: by the time the sleeping thread runs again the state is
    [FREE]. *)
Definition invalidator_done : Engine :=
  {| dds_detach := dds_detach quiet;
     dds_attach := dds_attach quiet;
     dds_attach_data := dds_attach_data quiet;
     dds_reset_statuses := dds_reset_statuses quiet;
     dds_enable_statuses := dds_enable_statuses quiet;
     dds_reset_trigger := dds_reset_trigger quiet;
     has_data := has_data quiet;
     Event_active := Event_active quiet;
     ensure_length := ensure_length quiet;
     DDS_WaitSet_wait := DDS_WaitSet_wait quiet;
     yield := λ w, snd (set_state 1 RMW_CONNEXT_WAITSET_FREE w) |}.

(** An engine on which guard condition 5 is triggered and subscriber 1
    has data. *)
Definition busy : Engine :=
  {| dds_detach := dds_detach quiet;
     dds_attach := dds_attach quiet;
     dds_attach_data := dds_attach_data quiet;
     dds_reset_statuses := dds_reset_statuses quiet;
     dds_enable_statuses := dds_enable_statuses quiet;
     dds_reset_trigger := dds_reset_trigger quiet;
     has_data := λ s, bool_decide (s = 1);
     Event_active := Event_active quiet;
     ensure_length := ensure_length quiet;
     DDS_WaitSet_wait := λ _ _ _, (DDS_RETCODE_OK, [5]);
     yield := λ w, w |}.


Definition empty_world : World :=
  {| conds := ∅; waitsets := ∅; calls := []; error_msg := None |}.

Definition no_sources : wait_args :=
  {| subs := None; gcs := None; srvs := None; cls := None; evs := None |}.

(** Two subscriptions, a guard condition, a client and an event. *)
Definition some_sources : wait_args :=
  {| subs := Some [1; 2]; gcs := Some [5]; srvs := None;
     cls := Some [3]; evs := Some [4] |}.

Definition one_second : rmw_time_t := {| sec := 1; nsec := 0 |}.

(** A time-out that [rmw_connextdds_duration_from_ros_time] refuses. *)
Definition too_long : rmw_time_t := {| sec := 2147483648; nsec := 0 |}.

(** Wait set 1 in a given state with guard condition 5 attached. *)
Definition waitset_with_guard (s : RMW_Connext_WaitSetState) : World :=
  {| conds := {[ 5 := {| deleted := false; attached_waitset := Some 1 |} ]};
     waitsets := {[ 1 := with_conditions [5]
                           {| state := s;
                              attached_subscribers := [];
                              attached_conditions := [];
                              attached_clients := [];
                              attached_services := [];
                              attached_events := [];
                              attached_events_cache := ∅;
                              active_conditions := [] |} ]};
     calls := []; error_msg := None |}.


Definition only_guard : wait_args :=
  {| subs := None; gcs := Some [5]; srvs := None; cls := None; evs := None |}.

(** The world after wait set 7 has waited once on [some_sources]. *)
Definition after_first_wait : World :=
  snd (WaitSet.wait quiet heap 7 some_sources (Some one_second) empty_world).

(** The world in which wait set 7 is about to block on [some_sources],
    on the quiet and on the busy engine. *)
Definition acquired : World :=
  snd (WaitSet.wait_acquire quiet heap 7 some_sources (Some one_second)
         empty_world).

Definition acquired_busy : World :=
  snd (WaitSet.wait_acquire busy heap 7 some_sources (Some one_second)
         empty_world).

Definition one_second_dds : option DDS_Duration_t :=
  Some {| dds_sec := 1; dds_nanosec := 0 |}.



(** The identity of a request publisher: sixteen bytes of GUID and
    eight of padding. *)
Definition guid_a : list byte :=
  [Byte.x01; Byte.x02; Byte.x03; Byte.x04; Byte.x05; Byte.x06; Byte.x07;
   Byte.x08; Byte.x09; Byte.x0a; Byte.x0b; Byte.x0c; Byte.x0d; Byte.x0e;
   Byte.x0f; Byte.x10].

Definition a_publisher (guid : list byte) : RequestReply.RMW_Connext_Publisher :=
  {| RequestReply.pub_gid := guid ++ replicate 8 Byte.x00;
     RequestReply.writer_ok := true;
     RequestReply.dds_sn := 0 |}.

Definition a_subscriber : RequestReply.RMW_Connext_Subscriber :=
  {| RequestReply.reader_queue := []; RequestReply.reader_ok := true |}.

Definition a_client : RequestReply.RMW_Connext_Client :=
  {| RequestReply.request_pub := a_publisher guid_a;
     RequestReply.reply_sub := a_subscriber;
     RequestReply.next_request_id := 0 |}.

Definition a_service : RequestReply.RMW_Connext_Service :=
  {| RequestReply.reply_pub := a_publisher (replicate 16 Byte.xff);
     RequestReply.request_sub := a_subscriber |}.

Definition a_request : list byte := [Byte.x2a].
Definition a_reply : list byte := [Byte.x2b; Byte.x2c].

(** The client after it has sent [a_request]. *)
Definition client_after_request : RequestReply.RMW_Connext_Client :=
  snd (fst (RequestReply.Client.send_request a_client a_request 0)).

(** A handle with the client's origin and a sequence number that the
    client never issued. *)
Definition never_issued : RequestReply.rmw_request_id_t :=
  {| RequestReply.request_writer_guid := guid_a;
     RequestReply.request_sequence_number := 99 |}.

(** The client once the service has replied to [never_issued]. *)
Definition client_with_stray_reply : RequestReply.RMW_Connext_Client :=
  {| RequestReply.request_pub := RequestReply.request_pub client_after_request;
     RequestReply.reply_sub :=
       RequestReply.deliver
         (snd (RequestReply.Service.send_response a_service never_issued
                 a_reply))
         (RequestReply.reply_sub client_after_request);
     RequestReply.next_request_id :=
       RequestReply.next_request_id client_after_request |}.

(** A reply that answers a request of another client. *)
Definition foreign_reply : RequestReply.Sample :=
  {| RequestReply.identity := RequestReply.DDS_SAMPLE_IDENTITY_UNKNOWN;
     RequestReply.related_sample_identity :=
       {| RequestReply.writer_guid := replicate 16 Byte.x77;
          RequestReply.sequence_number := 5 |};
     RequestReply.user_data := [Byte.x00] |}.

(** A client with that reply waiting at its reader, as happens when the
    engine does not support the content filter. *)
Definition client_with_foreign_reply : RequestReply.RMW_Connext_Client :=
  {| RequestReply.request_pub := a_publisher guid_a;
     RequestReply.reply_sub :=
       {| RequestReply.reader_queue := [foreign_reply];
          RequestReply.reader_ok := true |};
     RequestReply.next_request_id := 0 |}.

(** The implementation object and the publisher are created, the
    subscriber is not; [finalize] succeeds on every endpoint. *)
Definition subscriber_fails : Create.Factory :=
  {| Create.new_impl := Some 1;
     Create.type_supports_found := true;
     Create.Publisher_create := Some 2;
     Create.alloc_cft_name := true;
     Create.alloc_cft_filter := true;
     Create.Subscriber_create := None;
     Create.Publisher_finalize := λ _, RMW_RET_OK;
     Create.Subscriber_finalize := λ _, RMW_RET_OK |}.

Definition empty_store : Create.Store :=
  {| Create.impls := ∅; Create.endpoints := ∅; Create.finalized := ∅ |}.

End Scenario.
(** ** Further properties of the wait set *)

(** The engine refuses to detach the condition. *)
Definition refuses_detach (E : Engine) (c : ptr) : bool :=
  negb (bool_decide (dds_detach E c = RMW_RET_OK)).

(** What [process_wait] leaves in a slot: the pointer of a ready
    source, null for one that is not ready. *)
Definition mark (ready : ptr → bool) (x : ptr) : option ptr :=
  if ready x then Some x else None.

Definition ready_slots (ready : ptr → bool) (xs : option (list ptr))
    : option (list (option ptr)) :=
  match xs with Some l => Some (mark ready <$> l) | None => None end.

Definition count_ready (ready : ptr → bool) (l : list ptr) : nat :=
  length (List.filter ready l).

(** Readiness of the five kinds of source as [process_wait] tests it:
    data on the reader, a handle among the active conditions of the
    wait set, an active status of the cached event. *)
Definition ready_arrays (E : Engine) (H : Heap) (ws : RMW_Connext_WaitSet)
    (a : wait_args) : wait_arrays :=
  {| subscribers := ready_slots (has_data E) (subs a);
     guard_conditions :=
       ready_slots (WaitSet.active_condition H ws) (gcs a);
     services :=
       ready_slots (λ s, has_data E (service_subscriber H s)) (srvs a);
     clients :=
       ready_slots (λ c, has_data E (client_subscriber H c)) (cls a);
     events :=
       ready_slots
         (λ e, Event_active E
                 (default inhabitant (attached_events_cache ws !! e)))
         (evs a) |}.

Definition ready_count (E : Engine) (H : Heap) (ws : RMW_Connext_WaitSet)
    (a : wait_args) : nat :=
  count_ready (has_data E) (requested (subs a)) +
  count_ready (WaitSet.active_condition H ws) (requested (gcs a)) +
  count_ready (λ c, has_data E (client_subscriber H c)) (requested (cls a)) +
  count_ready (λ s, has_data E (service_subscriber H s)) (requested (srvs a)) +
  count_ready
    (λ e, Event_active E (default inhabitant (attached_events_cache ws !! e)))
    (requested (evs a)).

(** ** Event helpers *)

(** The value [ros_event_to_dds] stores through its [invalid]
    out-parameter: [false] on entry, [true] in the [default] branch. *)
Definition ros_event_invalid (have_message_lost : bool)
    (ros : rmw_event_type_t) : bool :=
  match ros with
  | RMW_EVENT_LIVELINESS_CHANGED
  | RMW_EVENT_REQUESTED_DEADLINE_MISSED
  | RMW_EVENT_LIVELINESS_LOST
  | RMW_EVENT_OFFERED_DEADLINE_MISSED
  | RMW_EVENT_REQUESTED_QOS_INCOMPATIBLE
  | RMW_EVENT_OFFERED_QOS_INCOMPATIBLE => false
  | RMW_EVENT_MESSAGE_LOST => negb have_message_lost
  | RMW_EVENT_INVALID => true
  end.

Definition dds_event_to_str (event : DDS_StatusKind) : string :=
  match event with
  | DDS_LIVELINESS_CHANGED_STATUS => "LIVELINESS_CHANGED"
  | DDS_REQUESTED_DEADLINE_MISSED_STATUS => "REQUESTED_DEADLINE_MISSED"
  | DDS_LIVELINESS_LOST_STATUS => "LIVELINESS_LOST"
  | DDS_OFFERED_DEADLINE_MISSED_STATUS => "OFFERED_DEADLINE_MISSED"
  | DDS_REQUESTED_INCOMPATIBLE_QOS_STATUS => "REQUESTED_INCOMPATIBLE_QOS"
  | DDS_OFFERED_INCOMPATIBLE_QOS_STATUS => "OFFERED_INCOMPATIBLE_QOS"
  | DDS_SAMPLE_LOST_STATUS => "SAMPLE_LOST"
  | _ => "UNSUPPORTED"
  end.

Definition ros_event_for_reader (have_message_lost : bool)
    (ros : rmw_event_type_t) : bool :=
  match ros with
  | RMW_EVENT_LIVELINESS_CHANGED
  | RMW_EVENT_REQUESTED_DEADLINE_MISSED
  | RMW_EVENT_REQUESTED_QOS_INCOMPATIBLE => true
  | RMW_EVENT_MESSAGE_LOST => have_message_lost
  | _ => false
  end.

(** The policy identifiers that the [switch] of
    [dds_qos_policy_to_rmw_qos_policy] names; every other identifier
    takes the [default] branch. *)
Inductive DDS_QosPolicyId_t :=
| DDS_DURABILITY_QOS_POLICY_ID
| DDS_DEADLINE_QOS_POLICY_ID
| DDS_LIVELINESS_QOS_POLICY_ID
| DDS_RELIABILITY_QOS_POLICY_ID
| DDS_HISTORY_QOS_POLICY_ID
| DDS_LIFESPAN_QOS_POLICY_ID
| DDS_OTHER_QOS_POLICY_ID (id : nat).

Inductive rmw_qos_policy_kind_t :=
| RMW_QOS_POLICY_INVALID
| RMW_QOS_POLICY_DURABILITY
| RMW_QOS_POLICY_DEADLINE
| RMW_QOS_POLICY_LIVELINESS
| RMW_QOS_POLICY_RELIABILITY
| RMW_QOS_POLICY_HISTORY
| RMW_QOS_POLICY_LIFESPAN.

Definition dds_qos_policy_to_rmw_qos_policy (last_policy_id : DDS_QosPolicyId_t)
    : rmw_qos_policy_kind_t :=
  match last_policy_id with
  | DDS_DURABILITY_QOS_POLICY_ID => RMW_QOS_POLICY_DURABILITY
  | DDS_DEADLINE_QOS_POLICY_ID => RMW_QOS_POLICY_DEADLINE
  | DDS_LIVELINESS_QOS_POLICY_ID => RMW_QOS_POLICY_LIVELINESS
  | DDS_RELIABILITY_QOS_POLICY_ID => RMW_QOS_POLICY_RELIABILITY
  | DDS_HISTORY_QOS_POLICY_ID => RMW_QOS_POLICY_HISTORY
  | DDS_LIFESPAN_QOS_POLICY_ID => RMW_QOS_POLICY_LIFESPAN
  | DDS_OTHER_QOS_POLICY_ID _ => RMW_QOS_POLICY_INVALID
  end.

(** ** Status conditions *)

Module Status.

(** The fields that [get_status] reads from the status structures of
    the engine; a structure has the fields of its kind and the others
    are unused. *)
Record DDS_Status := {
  total_count : Z;
  total_count_change : Z;
  alive_count : Z;
  alive_count_change : Z;
  not_alive_count : Z;
  not_alive_count_change : Z;
  last_policy_id : DDS_QosPolicyId_t;
}.

(** What [get_status] writes through [event_info], by the type it
    casts the pointer to. *)
Inductive event_info :=
| rmw_liveliness_changed_status_t
    (alive_count alive_count_change not_alive_count not_alive_count_change : Z)
| rmw_requested_deadline_missed_status_t (total_count total_count_change : Z)
| rmw_requested_qos_incompatible_event_status_t
    (total_count total_count_change : Z)
    (last_policy_kind : rmw_qos_policy_kind_t)
| rmw_message_lost_status_t (total_count total_count_change : Z)
| rmw_liveliness_lost_status_t (total_count total_count_change : Z)
| rmw_offered_deadline_missed_status_t (total_count total_count_change : Z)
| rmw_offered_qos_incompatible_event_status_t
    (total_count total_count_change : Z)
    (last_policy_kind : rmw_qos_policy_kind_t).

(** How [get_status] ends: [RMW_RET_OK] with the structure filled, a
    failed query of the engine with its message, or the [default]
    branch, which stores a message and fails [RMW_CONNEXT_ASSERT(0)];
    as for [wait] the failed check is an outcome of its own, the
    statement that follows the macro being [return RMW_RET_ERROR]. *)
Inductive get_status_result :=
| Filled (info : event_info)
| QueryFailed (msg : string)
| Unsupported.

(** The status getters of the reader or writer: [None] when the engine
    does not return [DDS_RETCODE_OK]. *)
Definition getter := DDS_StatusKind → option DDS_Status.

(** [RMW_Connext_SubscriberStatusCondition::get_status]. *)
Definition Subscriber_get_status (have_message_lost : bool) (reader : getter)
    (event_type : rmw_event_type_t) : get_status_result :=
  match event_type with
  | RMW_EVENT_LIVELINESS_CHANGED =>
      match reader DDS_LIVELINESS_CHANGED_STATUS with
      | None => QueryFailed "failed to get liveliness changed status"
      | Some s =>
          Filled (rmw_liveliness_changed_status_t
                    (alive_count s) (alive_count_change s)
                    (not_alive_count s) (not_alive_count_change s))
      end
  | RMW_EVENT_REQUESTED_DEADLINE_MISSED =>
      match reader DDS_REQUESTED_DEADLINE_MISSED_STATUS with
      | None => QueryFailed "failed to get requested deadline missed status"
      | Some s =>
          Filled (rmw_requested_deadline_missed_status_t
                    (total_count s) (total_count_change s))
      end
  | RMW_EVENT_REQUESTED_QOS_INCOMPATIBLE =>
      match reader DDS_REQUESTED_INCOMPATIBLE_QOS_STATUS with
      | None => QueryFailed "failed to get requested incompatible qos status"
      | Some s =>
          Filled (rmw_requested_qos_incompatible_event_status_t
                    (total_count s) (total_count_change s)
                    (dds_qos_policy_to_rmw_qos_policy (last_policy_id s)))
      end
  | RMW_EVENT_MESSAGE_LOST =>
      if have_message_lost then
        match reader DDS_SAMPLE_LOST_STATUS with
        | None => QueryFailed "failed to get sample lost status"
        | Some s =>
            Filled (rmw_message_lost_status_t
                      (total_count s) (total_count_change s))
        end
      else Unsupported
  | _ => Unsupported
  end.

(** [RMW_Connext_PublisherStatusCondition::get_status]. *)
Definition Publisher_get_status (writer : getter)
    (event_type : rmw_event_type_t) : get_status_result :=
  match event_type with
  | RMW_EVENT_LIVELINESS_LOST =>
      match writer DDS_LIVELINESS_LOST_STATUS with
      | None => QueryFailed "failed to get liveliness lost status"
      | Some s =>
          Filled (rmw_liveliness_lost_status_t
                    (total_count s) (total_count_change s))
      end
  | RMW_EVENT_OFFERED_DEADLINE_MISSED =>
      match writer DDS_OFFERED_DEADLINE_MISSED_STATUS with
      | None => QueryFailed "failed to get offered deadline missed status"
      | Some s =>
          Filled (rmw_offered_deadline_missed_status_t
                    (total_count s) (total_count_change s))
      end
  | RMW_EVENT_OFFERED_QOS_INCOMPATIBLE =>
      match writer DDS_OFFERED_INCOMPATIBLE_QOS_STATUS with
      | None => QueryFailed "failed to get offered incompatible qos status"
      | Some s =>
          Filled (rmw_offered_qos_incompatible_event_status_t
                    (total_count s) (total_count_change s)
                    (dds_qos_policy_to_rmw_qos_policy (last_policy_id s)))
      end
  | _ => Unsupported
  end.

(** The status kind a result was read from, when one was read. *)
Definition served (r : get_status_result) : bool :=
  match r with Unsupported => false | _ => true end.

End Status.

(** ** Topic and type names *)

Module Names.

Definition ROS_TOPIC_PREFIX : string := "rt".
Definition ROS_SERVICE_REQUESTER_PREFIX : string := "rq".
Definition ROS_SERVICE_RESPONSE_PREFIX : string := "rr".

(** [rmw_connextdds_create_topic_name], with the flag that the second
    overload reads from [qos_policies]. *)
Definition rmw_connextdds_create_topic_name (prefix topic_name suffix : string)
    (avoid_ros_namespace_conventions : bool) : string :=
  if avoid_ros_namespace_conventions then topic_name +:+ suffix
  else (prefix +:+ topic_name) +:+ suffix.

(** The name under which [RMW_Connext_Publisher::create] and
    [RMW_Connext_Subscriber::create] assert the topic;
    [str_topic.find(p) == 0] holds when [p] is a prefix of the name. *)
Definition fqtopic_name (topic_name : string)
    (avoid_ros_namespace_conventions : bool) : string :=
  if String.prefix "rr/" topic_name || String.prefix "rq/" topic_name
  then topic_name
  else rmw_connextdds_create_topic_name ROS_TOPIC_PREFIX topic_name ""
         avoid_ros_namespace_conventions.

(** The two topic names computed by [RMW_Connext_Client::create] and by
    [RMW_Connext_Service::create]. *)
Definition reply_topic (svc_name : string) (avoid : bool) : string :=
  rmw_connextdds_create_topic_name ROS_SERVICE_RESPONSE_PREFIX svc_name
    "Reply" avoid.
Definition request_topic (svc_name : string) (avoid : bool) : string :=
  rmw_connextdds_create_topic_name ROS_SERVICE_REQUESTER_PREFIX svc_name
    "Request" avoid.

(** The static [rmw_connextdds_create_type_name]: what is streamed into
    [ss], in order. *)
Definition create_type_name (message_namespace message_name
    message_suffix : string) (mangle_prefix : bool) : string :=
  let prefix_sfx := if mangle_prefix then "_" else "" in
  (if bool_decide (message_namespace = "") then ""
   else message_namespace +:+ "::") +:+
  "dds" +:+ prefix_sfx +:+ "::" +:+ message_name +:+ message_suffix.

(** The overloads for a message, which differ only in where the two
    strings come from. *)
Definition rmw_connextdds_create_type_name (message_namespace
    message_name : string) (mangle_names : bool) : string :=
  create_type_name message_namespace message_name
    (if mangle_names then "_" else "") mangle_names.

Definition rmw_connextdds_create_type_name_request (service_namespace
    service_name : string) (mangle_names : bool) : string :=
  create_type_name service_namespace service_name
    (if mangle_names then "_Request_" else "Request") mangle_names.

Definition rmw_connextdds_create_type_name_response (service_namespace
    service_name : string) (mangle_names : bool) : string :=
  create_type_name service_namespace service_name
    (if mangle_names then "_Response_" else "Response") mangle_names.

End Names.

(** ** Time stamps *)

Module Timestamp.

Definition C_NANOSECONDS_PER_SEC : Z := 1000000000.

(** Conversion to and arithmetic in [uint64_t]. *)
Definition wrap_uint64 (z : Z) : Z := (z mod 2 ^ 64)%Z.

(** [DDS_Time_t]: [sec] is a signed and [nanosec] an unsigned 32-bit
    integer. *)
Record DDS_Time_t := { time_sec : Z; time_nanosec : Z }.

(** The macro [dds_time_to_u64]. *)
Definition dds_time_to_u64 (t : DDS_Time_t) : Z :=
  wrap_uint64
    (wrap_uint64 (C_NANOSECONDS_PER_SEC * wrap_uint64 (time_sec t)) +
     wrap_uint64 (time_nanosec t)).

Record DDS_SampleInfo := {
  publication_handle : list byte;
  source_timestamp : DDS_Time_t;
  reception_timestamp : DDS_Time_t;
}.

Record rmw_message_info_t := {
  publisher_gid : list byte;
  info_source_timestamp : Z;
  info_received_timestamp : Z;
}.

(** [rmw_connextdds_message_info_from_dds]. [timestamps] is the
    condition [RMW_CONNEXT_HAVE_MESSAGE_INFO_TS && !RTI_WIN32] of the
    build; [rmw_connextdds_ih_to_gid] is defined in a header and is a
    parameter here. *)
Definition rmw_connextdds_message_info_from_dds (timestamps : bool)
    (rmw_connextdds_ih_to_gid : list byte → list byte)
    (to : rmw_message_info_t) (from : DDS_SampleInfo) : rmw_message_info_t :=
  {| publisher_gid := rmw_connextdds_ih_to_gid (publication_handle from);
     info_source_timestamp :=
       if timestamps then dds_time_to_u64 (source_timestamp from)
       else info_source_timestamp to;
     info_received_timestamp :=
       if timestamps then dds_time_to_u64 (reception_timestamp from)
       else info_received_timestamp to |}.

(** [t1] is earlier than [t2]. *)
Definition earlier (t1 t2 : DDS_Time_t) : Prop :=
  (time_sec t1 < time_sec t2 ∨
   (time_sec t1 = time_sec t2 ∧ time_nanosec t1 < time_nanosec t2))%Z.

(** A time of the present era with its nanoseconds normalised. *)
Definition normalised (t : DDS_Time_t) : Prop :=
  (0 ≤ time_sec t < 2 ^ 31 ∧ 0 ≤ time_nanosec t < C_NANOSECONDS_PER_SEC)%Z.

End Timestamp.

(** ** Byte arrays *)

Module Uint8Array.

Inductive rcutils_ret_t :=
| RCUTILS_RET_OK
| RCUTILS_RET_OTHER (code : nat).

Global Instance rcutils_ret_t_eq_dec : EqDecision rcutils_ret_t.
Proof. solve_decision. Defined.

(** [rcutils_uint8_array_t]: the allocated buffer, as long as its
    capacity, and the number of bytes in use. *)
Record rcutils_uint8_array_t := {
  buffer : list byte;
  buffer_length : nat;
  buffer_capacity : nat;
}.

(** [memcpy(dst, src, n)] on buffers that hold at least [n] bytes. *)
Definition memcpy (dst src : list byte) (n : nat) : list byte :=
  take n src ++ drop n dst.

(** [rcutils_uint8_array_copy]; [resize] is
    [rcutils_uint8_array_resize], which belongs to another library. *)
Definition rcutils_uint8_array_copy
    (resize : rcutils_uint8_array_t → nat →
              rcutils_ret_t * rcutils_uint8_array_t)
    (dst src : rcutils_uint8_array_t)
    : rcutils_ret_t * rcutils_uint8_array_t :=
  if bool_decide (0 < buffer_length src) then
    let '(rc, dst) :=
      if bool_decide (buffer_capacity dst < buffer_length src)
      then resize dst (buffer_length src)
      else (RCUTILS_RET_OK, dst) in
    if decide (RCUTILS_RET_OK ≠ rc) then (rc, dst)
    else
      (RCUTILS_RET_OK,
       {| buffer := memcpy (buffer dst) (buffer src) (buffer_length src);
          buffer_length := buffer_length src;
          buffer_capacity := buffer_capacity dst |})
  else
    (RCUTILS_RET_OK,
     {| buffer := buffer dst; buffer_length := 0;
        buffer_capacity := buffer_capacity dst |}).

(** The buffer is as long as the capacity and the bytes in use fit. *)
Definition well_formed (a : rcutils_uint8_array_t) : Prop :=
  length (buffer a) = buffer_capacity a ∧ buffer_length a ≤ buffer_capacity a.

(** The bytes in use. *)
Definition contents (a : rcutils_uint8_array_t) : list byte :=
  take (buffer_length a) (buffer a).

(** What the copy relies on from [rcutils_uint8_array_resize]: when it
    succeeds the array has the requested capacity and a buffer of that
    size; when it fails it hands the array back as it was. *)
Definition resizes
    (resize : rcutils_uint8_array_t → nat →
              rcutils_ret_t * rcutils_uint8_array_t) : Prop :=
  ∀ a n,
    match resize a n with
    | (RCUTILS_RET_OK, a') =>
        buffer_capacity a' = n ∧ length (buffer a') = n
    | (_, a') => a' = a
    end.

(** A resize that reallocates and keeps the bytes that fit. *)
Definition realloc (a : rcutils_uint8_array_t) (n : nat)
    : rcutils_ret_t * rcutils_uint8_array_t :=
  (RCUTILS_RET_OK,
   {| buffer := take n (buffer a ++ replicate n Byte.x00);
      buffer_length := min (buffer_length a) n;
      buffer_capacity := n |}).

End Uint8Array.

(** ** GUIDs with their implementation identifier *)

Module Gid.

(** [rmw_gid_t]. *)
Record rmw_gid_t := {
  implementation_identifier : string;
  data : list byte;
}.

Section identifier.
(** The identifier of this implementation, defined by the package that
    links the common code. *)
Context (RMW_CONNEXTDDS_ID : string).

(** [rmw_connextdds_gid_to_guid] with its identifier check: [None] is
    the return of [RMW_RET_INCORRECT_RMW_IMPLEMENTATION], which leaves
    [guid] alone. *)
Definition rmw_connextdds_gid_to_guid (gid : rmw_gid_t) : option (list byte) :=
  if bool_decide (implementation_identifier gid = RMW_CONNEXTDDS_ID)
  then Some (RequestReply.rmw_connextdds_gid_to_guid (data gid))
  else None.

(** [rmw_connextdds_guid_to_gid], which always returns [RMW_RET_OK]. *)
Definition rmw_connextdds_guid_to_gid (guid : list byte) : rmw_gid_t :=
  {| implementation_identifier := RMW_CONNEXTDDS_ID;
     data := RequestReply.rmw_connextdds_guid_to_gid guid |}.

End identifier.

End Gid.

(** ** QoS conversion *)

Module Qos.

(** The enumerators that the [switch] statements name. A value outside
    them, the [..._UNKNOWN] enumerator included, takes the [default]
    branch and is one constructor here. *)
Inductive rmw_qos_history_policy_t :=
| RMW_QOS_POLICY_HISTORY_SYSTEM_DEFAULT
| RMW_QOS_POLICY_HISTORY_KEEP_LAST
| RMW_QOS_POLICY_HISTORY_KEEP_ALL
| RMW_QOS_POLICY_HISTORY_UNKNOWN.

Inductive rmw_qos_reliability_policy_t :=
| RMW_QOS_POLICY_RELIABILITY_SYSTEM_DEFAULT
| RMW_QOS_POLICY_RELIABILITY_RELIABLE
| RMW_QOS_POLICY_RELIABILITY_BEST_EFFORT
| RMW_QOS_POLICY_RELIABILITY_UNKNOWN.

Inductive rmw_qos_durability_policy_t :=
| RMW_QOS_POLICY_DURABILITY_SYSTEM_DEFAULT
| RMW_QOS_POLICY_DURABILITY_TRANSIENT_LOCAL
| RMW_QOS_POLICY_DURABILITY_VOLATILE
| RMW_QOS_POLICY_DURABILITY_UNKNOWN.

Inductive rmw_qos_liveliness_policy_t :=
| RMW_QOS_POLICY_LIVELINESS_SYSTEM_DEFAULT
| RMW_QOS_POLICY_LIVELINESS_AUTOMATIC
| RMW_QOS_POLICY_LIVELINESS_MANUAL_BY_TOPIC
| RMW_QOS_POLICY_LIVELINESS_UNKNOWN.

Inductive DDS_HistoryQosPolicyKind :=
| DDS_KEEP_LAST_HISTORY_QOS
| DDS_KEEP_ALL_HISTORY_QOS
| DDS_HISTORY_QOS_OTHER (value : nat).

Inductive DDS_ReliabilityQosPolicyKind :=
| DDS_BEST_EFFORT_RELIABILITY_QOS
| DDS_RELIABLE_RELIABILITY_QOS
| DDS_RELIABILITY_QOS_OTHER (value : nat).

Inductive DDS_DurabilityQosPolicyKind :=
| DDS_VOLATILE_DURABILITY_QOS
| DDS_TRANSIENT_LOCAL_DURABILITY_QOS
| DDS_DURABILITY_QOS_OTHER (value : nat).

Inductive DDS_LivelinessQosPolicyKind :=
| DDS_AUTOMATIC_LIVELINESS_QOS
| DDS_MANUAL_BY_TOPIC_LIVELINESS_QOS
| DDS_LIVELINESS_QOS_OTHER (value : nat).

Global Instance rmw_qos_history_policy_t_eq_dec :
  EqDecision rmw_qos_history_policy_t.
Proof. solve_decision. Defined.
Global Instance rmw_qos_reliability_policy_t_eq_dec :
  EqDecision rmw_qos_reliability_policy_t.
Proof. solve_decision. Defined.
Global Instance rmw_qos_durability_policy_t_eq_dec :
  EqDecision rmw_qos_durability_policy_t.
Proof. solve_decision. Defined.
Global Instance rmw_qos_liveliness_policy_t_eq_dec :
  EqDecision rmw_qos_liveliness_policy_t.
Proof. solve_decision. Defined.
Global Instance DDS_HistoryQosPolicyKind_eq_dec :
  EqDecision DDS_HistoryQosPolicyKind.
Proof. solve_decision. Defined.
Global Instance DDS_ReliabilityQosPolicyKind_eq_dec :
  EqDecision DDS_ReliabilityQosPolicyKind.
Proof. solve_decision. Defined.
Global Instance DDS_DurabilityQosPolicyKind_eq_dec :
  EqDecision DDS_DurabilityQosPolicyKind.
Proof. solve_decision. Defined.
Global Instance DDS_LivelinessQosPolicyKind_eq_dec :
  EqDecision DDS_LivelinessQosPolicyKind.
Proof. solve_decision. Defined.

(** Conversions between the integer types of the two sides:
    [DDS_Long] is a signed and [DDS_UnsignedLong] an unsigned 32-bit
    integer; a field of [rmw_time_t] is a [uint64_t] and the depth a
    [size_t] of 64 bits. *)
Definition to_DDS_Long (z : Z) : Z := ((z + 2 ^ 31) mod 2 ^ 32 - 2 ^ 31)%Z.
Definition to_DDS_UnsignedLong (z : Z) : Z := (z mod 2 ^ 32)%Z.
Definition to_uint32_t (z : Z) : Z := (z mod 2 ^ 32)%Z.
Definition to_uint64_t (z : Z) : Z := (z mod 2 ^ 64)%Z.

(** A duration inside a policy: its seconds are a [DDS_Long], which a
    cast can make negative. *)
Record DDS_Duration_t := { sec : Z; nanosec : Z }.

(** [rmw_time_t] as the profile holds it. *)
Record rmw_time_t := { rmw_sec : Z; rmw_nsec : Z }.

Record rmw_qos_profile_t := {
  history : rmw_qos_history_policy_t;
  depth : Z;
  reliability : rmw_qos_reliability_policy_t;
  durability : rmw_qos_durability_policy_t;
  deadline : rmw_time_t;
  lifespan : rmw_time_t;
  liveliness : rmw_qos_liveliness_policy_t;
  liveliness_lease_duration : rmw_time_t;
  avoid_ros_namespace_conventions : bool;
}.

Record DDS_HistoryQosPolicy := {
  history_kind : DDS_HistoryQosPolicyKind;
  history_depth : Z;
}.

Record DDS_ReliabilityQosPolicy := {
  reliability_kind : DDS_ReliabilityQosPolicyKind;
  max_blocking_time : DDS_Duration_t;
}.

Record DDS_LivelinessQosPolicy := {
  liveliness_kind : DDS_LivelinessQosPolicyKind;
  lease_duration : DDS_Duration_t;
}.

Record DDS_ResourceLimitsQosPolicy := {
  max_samples : Z;
  max_samples_per_instance : Z;
}.

(** The policies that the two conversions receive by pointer. The
    lifespan pointer may be null. *)
Record policies := {
  p_history : DDS_HistoryQosPolicy;
  p_reliability : DDS_ReliabilityQosPolicy;
  p_durability : DDS_DurabilityQosPolicyKind;
  p_deadline : DDS_Duration_t;
  p_liveliness : DDS_LivelinessQosPolicy;
  p_resource_limits : DDS_ResourceLimitsQosPolicy;
  p_lifespan : option DDS_Duration_t;
}.

(** The build: [RMW_CONNEXT_HAVE_LIFESPAN_QOS] and whether
    [RMW_CONNEXT_DDS_API] is [RMW_CONNEXT_DDS_API_PRO]. *)
Record Build := {
  have_lifespan_qos : bool;
  api_pro : bool;
}.

Section constants.
(** Constants of the two APIs. *)
Context (DDS_DURATION_INFINITE : DDS_Duration_t)
        (DDS_LENGTH_UNLIMITED : Z)
        (RMW_QOS_POLICY_DEPTH_SYSTEM_DEFAULT : Z).
Context (b : Build).

Definition INT32_MAX : Z := 2147483647.

Definition time_is_zero (t : rmw_time_t) : bool :=
  bool_decide (rmw_sec t = 0%Z) && bool_decide (rmw_nsec t = 0%Z).

Definition to_duration (t : rmw_time_t) : DDS_Duration_t :=
  {| sec := to_DDS_Long (rmw_sec t);
     nanosec := to_DDS_UnsignedLong (rmw_nsec t) |}.

(** The first [switch] of [rmw_connextdds_get_readerwriter_qos]:
    [None] is the return of [RMW_RET_ERROR]. *)
Definition history_to_dds (qos_policies : rmw_qos_profile_t)
    (history : DDS_HistoryQosPolicy) : option DDS_HistoryQosPolicy :=
  match Qos.history qos_policies with
  | RMW_QOS_POLICY_HISTORY_SYSTEM_DEFAULT => Some history
  | RMW_QOS_POLICY_HISTORY_KEEP_LAST =>
      if bool_decide (depth qos_policies = RMW_QOS_POLICY_DEPTH_SYSTEM_DEFAULT)
      then Some {| history_kind := DDS_KEEP_LAST_HISTORY_QOS;
                   history_depth := 1 |}
      else if bool_decide (depth qos_policies < 1)%Z ||
              bool_decide (INT32_MAX < depth qos_policies)%Z
      then None
      else Some {| history_kind := DDS_KEEP_LAST_HISTORY_QOS;
                   history_depth := to_DDS_Long (depth qos_policies) |}
  | RMW_QOS_POLICY_HISTORY_KEEP_ALL =>
      Some {| history_kind := DDS_KEEP_ALL_HISTORY_QOS;
              history_depth := history_depth history |}
  | RMW_QOS_POLICY_HISTORY_UNKNOWN => None
  end.

Definition reliability_to_dds (qos_policies : rmw_qos_profile_t)
    (kind : DDS_ReliabilityQosPolicyKind)
    : option DDS_ReliabilityQosPolicyKind :=
  match Qos.reliability qos_policies with
  | RMW_QOS_POLICY_RELIABILITY_SYSTEM_DEFAULT => Some kind
  | RMW_QOS_POLICY_RELIABILITY_RELIABLE => Some DDS_RELIABLE_RELIABILITY_QOS
  | RMW_QOS_POLICY_RELIABILITY_BEST_EFFORT =>
      Some DDS_BEST_EFFORT_RELIABILITY_QOS
  | RMW_QOS_POLICY_RELIABILITY_UNKNOWN => None
  end.

Definition durability_to_dds (qos_policies : rmw_qos_profile_t)
    (kind : DDS_DurabilityQosPolicyKind)
    : option DDS_DurabilityQosPolicyKind :=
  match Qos.durability qos_policies with
  | RMW_QOS_POLICY_DURABILITY_SYSTEM_DEFAULT => Some kind
  | RMW_QOS_POLICY_DURABILITY_VOLATILE => Some DDS_VOLATILE_DURABILITY_QOS
  | RMW_QOS_POLICY_DURABILITY_TRANSIENT_LOCAL =>
      Some DDS_TRANSIENT_LOCAL_DURABILITY_QOS
  | RMW_QOS_POLICY_DURABILITY_UNKNOWN => None
  end.

Definition liveliness_to_dds (qos_policies : rmw_qos_profile_t)
    (kind : DDS_LivelinessQosPolicyKind)
    : option DDS_LivelinessQosPolicyKind :=
  match Qos.liveliness qos_policies with
  | RMW_QOS_POLICY_LIVELINESS_SYSTEM_DEFAULT => Some kind
  | RMW_QOS_POLICY_LIVELINESS_AUTOMATIC => Some DDS_AUTOMATIC_LIVELINESS_QOS
  | RMW_QOS_POLICY_LIVELINESS_MANUAL_BY_TOPIC =>
      Some DDS_MANUAL_BY_TOPIC_LIVELINESS_QOS
  | RMW_QOS_POLICY_LIVELINESS_UNKNOWN => None
  end.

(** The block that makes the resource limits consistent with the
    history. *)
Definition limits_for_history (history : DDS_HistoryQosPolicy)
    (resource_limits : DDS_ResourceLimitsQosPolicy)
    : DDS_ResourceLimitsQosPolicy :=
  if bool_decide (history_kind history = DDS_KEEP_LAST_HISTORY_QOS) &&
     bool_decide (1 < history_depth history)%Z &&
     bool_decide (max_samples_per_instance resource_limits
                  = DDS_LENGTH_UNLIMITED)
  then
    {| max_samples_per_instance := history_depth history;
       max_samples :=
         if bool_decide (max_samples resource_limits ≠ DDS_LENGTH_UNLIMITED) &&
            bool_decide (max_samples resource_limits < history_depth history)%Z
         then history_depth history
         else max_samples resource_limits |}
  else resource_limits.

(** [rmw_connextdds_get_readerwriter_qos]: the code and the policies as
    the call leaves them; what was written before an error return
    stays written. *)
Definition rmw_connextdds_get_readerwriter_qos (q : policies)
    (qos_policies : rmw_qos_profile_t) : rmw_ret_t * policies :=
  match history_to_dds qos_policies (p_history q) with
  | None => (RMW_RET_ERROR, q)
  | Some history =>
      let reliability :=
        {| reliability_kind := reliability_kind (p_reliability q);
           max_blocking_time := DDS_DURATION_INFINITE |} in
      let q1 :=
        {| p_history := history; p_reliability := reliability;
           p_durability := p_durability q; p_deadline := p_deadline q;
           p_liveliness := p_liveliness q;
           p_resource_limits := p_resource_limits q;
           p_lifespan := p_lifespan q |} in
      match reliability_to_dds qos_policies (reliability_kind reliability) with
      | None => (RMW_RET_ERROR, q1)
      | Some r_kind =>
          let reliability :=
            {| reliability_kind := r_kind;
               max_blocking_time := DDS_DURATION_INFINITE |} in
          let q2 :=
            {| p_history := history; p_reliability := reliability;
               p_durability := p_durability q; p_deadline := p_deadline q;
               p_liveliness := p_liveliness q;
               p_resource_limits := p_resource_limits q;
               p_lifespan := p_lifespan q |} in
          match durability_to_dds qos_policies (p_durability q) with
          | None => (RMW_RET_ERROR, q2)
          | Some durability =>
              let deadline :=
                if negb (time_is_zero (Qos.deadline qos_policies))
                then to_duration (Qos.deadline qos_policies)
                else p_deadline q in
              let lease :=
                if negb (time_is_zero (liveliness_lease_duration qos_policies))
                then to_duration (liveliness_lease_duration qos_policies)
                else lease_duration (p_liveliness q) in
              let q3 l_kind :=
                {| p_history := history; p_reliability := reliability;
                   p_durability := durability; p_deadline := deadline;
                   p_liveliness :=
                     {| liveliness_kind := l_kind; lease_duration := lease |};
                   p_resource_limits := p_resource_limits q;
                   p_lifespan := p_lifespan q |} in
              match liveliness_to_dds qos_policies
                      (liveliness_kind (p_liveliness q)) with
              | None => (RMW_RET_ERROR, q3 (liveliness_kind (p_liveliness q)))
              | Some l_kind =>
                  let lifespan :=
                    match p_lifespan q with
                    | Some l =>
                        if have_lifespan_qos b && api_pro b &&
                           negb (time_is_zero (Qos.lifespan qos_policies))
                        then Some (to_duration (Qos.lifespan qos_policies))
                        else Some l
                    | None => None
                    end in
                  (RMW_RET_OK,
                   {| p_history := history; p_reliability := reliability;
                      p_durability := durability; p_deadline := deadline;
                      p_liveliness :=
                        {| liveliness_kind := l_kind;
                           lease_duration := lease |};
                      p_resource_limits :=
                        limits_for_history history (p_resource_limits q);
                      p_lifespan := lifespan |})
              end
          end
      end
  end.

Definition to_time (d : DDS_Duration_t) : rmw_time_t :=
  {| rmw_sec := to_uint64_t (sec d); rmw_nsec := to_uint64_t (nanosec d) |}.

(** [rmw_connextdds_readerwriter_qos_to_ros]; [history] and [lifespan]
    may be null. The profile is returned as the call leaves it, also
    on an error return. *)
Definition rmw_connextdds_readerwriter_qos_to_ros
    (history : option DDS_HistoryQosPolicy)
    (reliability : DDS_ReliabilityQosPolicy)
    (durability : DDS_DurabilityQosPolicyKind)
    (deadline : DDS_Duration_t)
    (liveliness : DDS_LivelinessQosPolicy)
    (lifespan : option DDS_Duration_t)
    (qos_policies : rmw_qos_profile_t) : rmw_ret_t * rmw_qos_profile_t :=
  let after_history :=
    match history with
    | None => Some (Qos.history qos_policies, depth qos_policies)
    | Some h =>
        match history_kind h with
        | DDS_KEEP_LAST_HISTORY_QOS =>
            Some (RMW_QOS_POLICY_HISTORY_KEEP_LAST,
                  to_uint32_t (history_depth h))
        | DDS_KEEP_ALL_HISTORY_QOS =>
            Some (RMW_QOS_POLICY_HISTORY_KEEP_ALL,
                  to_uint32_t (history_depth h))
        | DDS_HISTORY_QOS_OTHER _ => None
        end
    end in
  match after_history with
  | None => (RMW_RET_ERROR, qos_policies)
  | Some (r_history, r_depth) =>
      let with_kinds r_reliability r_durability r_deadline r_lease
          r_liveliness r_lifespan :=
        {| Qos.history := r_history; depth := r_depth;
           Qos.reliability := r_reliability;
           Qos.durability := r_durability;
           Qos.deadline := r_deadline;
           Qos.lifespan := r_lifespan;
           Qos.liveliness := r_liveliness;
           liveliness_lease_duration := r_lease;
           avoid_ros_namespace_conventions :=
             avoid_ros_namespace_conventions qos_policies |} in
      let unchanged r_reliability r_durability :=
        with_kinds r_reliability r_durability (Qos.deadline qos_policies)
          (liveliness_lease_duration qos_policies)
          (Qos.liveliness qos_policies) (Qos.lifespan qos_policies) in
      match reliability_kind reliability with
      | DDS_RELIABILITY_QOS_OTHER _ =>
          (RMW_RET_ERROR,
           unchanged (Qos.reliability qos_policies)
             (Qos.durability qos_policies))
      | r_kind =>
          let r_reliability :=
            match r_kind with
            | DDS_RELIABLE_RELIABILITY_QOS =>
                RMW_QOS_POLICY_RELIABILITY_RELIABLE
            | _ => RMW_QOS_POLICY_RELIABILITY_BEST_EFFORT
            end in
          match durability with
          | DDS_DURABILITY_QOS_OTHER _ =>
              (RMW_RET_ERROR,
               unchanged r_reliability (Qos.durability qos_policies))
          | d_kind =>
              let r_durability :=
                match d_kind with
                | DDS_VOLATILE_DURABILITY_QOS =>
                    RMW_QOS_POLICY_DURABILITY_VOLATILE
                | _ => RMW_QOS_POLICY_DURABILITY_TRANSIENT_LOCAL
                end in
              let r_deadline := to_time deadline in
              let r_lease := to_time (lease_duration liveliness) in
              match liveliness_kind liveliness with
              | DDS_LIVELINESS_QOS_OTHER _ =>
                  (RMW_RET_ERROR,
                   with_kinds r_reliability r_durability r_deadline r_lease
                     (Qos.liveliness qos_policies)
                     (Qos.lifespan qos_policies))
              | l_kind =>
                  let r_liveliness :=
                    match l_kind with
                    | DDS_AUTOMATIC_LIVELINESS_QOS =>
                        RMW_QOS_POLICY_LIVELINESS_AUTOMATIC
                    | _ => RMW_QOS_POLICY_LIVELINESS_MANUAL_BY_TOPIC
                    end in
                  let r_lifespan :=
                    match lifespan with
                    | Some l =>
                        if have_lifespan_qos b && api_pro b then to_time l
                        else Qos.lifespan qos_policies
                    | None => Qos.lifespan qos_policies
                    end in
                  (RMW_RET_OK,
                   with_kinds r_reliability r_durability r_deadline r_lease
                     r_liveliness r_lifespan)
              end
          end
      end
  end.

(** [rmw_connextdds_datawriter_qos_to_ros]: the lifespan is passed only
    by the build for the professional API. *)
Definition rmw_connextdds_datawriter_qos_to_ros (qos : policies)
    (qos_policies : rmw_qos_profile_t) : rmw_ret_t * rmw_qos_profile_t :=
  rmw_connextdds_readerwriter_qos_to_ros
    (Some (p_history qos)) (p_reliability qos) (p_durability qos)
    (p_deadline qos) (p_liveliness qos)
    (if have_lifespan_qos b && api_pro b then p_lifespan qos else None)
    qos_policies.

(** [rmw_connextdds_datareader_qos_to_ros]: the lifespan is a
    writer-only policy. *)
Definition rmw_connextdds_datareader_qos_to_ros (qos : policies)
    (qos_policies : rmw_qos_profile_t) : rmw_ret_t * rmw_qos_profile_t :=
  rmw_connextdds_readerwriter_qos_to_ros
    (Some (p_history qos)) (p_reliability qos) (p_durability qos)
    (p_deadline qos) (p_liveliness qos) None qos_policies.

(** A profile that names every kind explicitly, with durations that
    the policies can hold and, when it keeps the last samples, a depth
    that they can hold, none being a value that stands for "keep the
    default". *)
Definition fits (t : rmw_time_t) : Prop :=
  (0 ≤ rmw_sec t ≤ INT32_MAX ∧ 0 ≤ rmw_nsec t < 2 ^ 32)%Z ∧
  time_is_zero t = false.

(** The history that an explicit profile asks for: its own depth when
    the last samples are kept, the depth that the policies hold when all
    are. *)
Definition explicit_history (q : policies) (p : rmw_qos_profile_t)
    : DDS_HistoryQosPolicy :=
  match history p with
  | RMW_QOS_POLICY_HISTORY_KEEP_LAST =>
      {| history_kind := DDS_KEEP_LAST_HISTORY_QOS;
         history_depth := depth p |}
  | _ =>
      {| history_kind := DDS_KEEP_ALL_HISTORY_QOS;
         history_depth := history_depth (p_history q) |}
  end.

Definition explicit (p : rmw_qos_profile_t) : Prop :=
  (history p = RMW_QOS_POLICY_HISTORY_KEEP_LAST ∧
   depth p ≠ RMW_QOS_POLICY_DEPTH_SYSTEM_DEFAULT ∧
   (1 ≤ depth p ≤ INT32_MAX)%Z ∨
   history p = RMW_QOS_POLICY_HISTORY_KEEP_ALL) ∧
  (reliability p = RMW_QOS_POLICY_RELIABILITY_RELIABLE ∨
   reliability p = RMW_QOS_POLICY_RELIABILITY_BEST_EFFORT) ∧
  (durability p = RMW_QOS_POLICY_DURABILITY_VOLATILE ∨
   durability p = RMW_QOS_POLICY_DURABILITY_TRANSIENT_LOCAL) ∧
  (liveliness p = RMW_QOS_POLICY_LIVELINESS_AUTOMATIC ∨
   liveliness p = RMW_QOS_POLICY_LIVELINESS_MANUAL_BY_TOPIC) ∧
  fits (deadline p) ∧ fits (liveliness_lease_duration p).

(** The two profiles agree on everything but the lifespan and the
    namespace flag, the depth being compared only where it means
    something: when the history keeps the last samples. *)
Definition same_qos (p p' : rmw_qos_profile_t) : Prop :=
  history p' = history p ∧
  (history p = RMW_QOS_POLICY_HISTORY_KEEP_LAST → depth p' = depth p) ∧
  reliability p' = reliability p ∧ durability p' = durability p ∧
  deadline p' = deadline p ∧ liveliness p' = liveliness p ∧
  liveliness_lease_duration p' = liveliness_lease_duration p.

End constants.

End Qos.

(** ** Concrete inputs for the further properties *)

Module Examples.

Definition infinite : Qos.DDS_Duration_t :=
  {| Qos.sec := 2147483647; Qos.nanosec := 2147483647 |}.

(** Policies as the engine hands them out: keep the last sample, no
    limit on the samples. *)
Definition default_policies : Qos.policies :=
  {| Qos.p_history :=
       {| Qos.history_kind := Qos.DDS_KEEP_LAST_HISTORY_QOS;
          Qos.history_depth := 1 |};
     Qos.p_reliability :=
       {| Qos.reliability_kind := Qos.DDS_BEST_EFFORT_RELIABILITY_QOS;
          Qos.max_blocking_time := {| Qos.sec := 0; Qos.nanosec := 100000000 |} |};
     Qos.p_durability := Qos.DDS_VOLATILE_DURABILITY_QOS;
     Qos.p_deadline := infinite;
     Qos.p_liveliness :=
       {| Qos.liveliness_kind := Qos.DDS_AUTOMATIC_LIVELINESS_QOS;
          Qos.lease_duration := infinite |};
     Qos.p_resource_limits :=
       {| Qos.max_samples := 32; Qos.max_samples_per_instance := -1 |};
     Qos.p_lifespan := Some infinite |}.

(** Keep the last ten samples, reliable, transient local, a deadline of
    two seconds and a lease of one and a half. *)
Definition sensor_profile : Qos.rmw_qos_profile_t :=
  {| Qos.history := Qos.RMW_QOS_POLICY_HISTORY_KEEP_LAST;
     Qos.depth := 10;
     Qos.reliability := Qos.RMW_QOS_POLICY_RELIABILITY_RELIABLE;
     Qos.durability := Qos.RMW_QOS_POLICY_DURABILITY_TRANSIENT_LOCAL;
     Qos.deadline := {| Qos.rmw_sec := 2; Qos.rmw_nsec := 0 |};
     Qos.lifespan := {| Qos.rmw_sec := 0; Qos.rmw_nsec := 0 |};
     Qos.liveliness := Qos.RMW_QOS_POLICY_LIVELINESS_AUTOMATIC;
     Qos.liveliness_lease_duration :=
       {| Qos.rmw_sec := 1; Qos.rmw_nsec := 500000000 |};
     Qos.avoid_ros_namespace_conventions := false |}.

(** A profile that leaves everything to the engine. *)
Definition system_default_profile : Qos.rmw_qos_profile_t :=
  {| Qos.history := Qos.RMW_QOS_POLICY_HISTORY_SYSTEM_DEFAULT;
     Qos.depth := 0;
     Qos.reliability := Qos.RMW_QOS_POLICY_RELIABILITY_SYSTEM_DEFAULT;
     Qos.durability := Qos.RMW_QOS_POLICY_DURABILITY_SYSTEM_DEFAULT;
     Qos.deadline := {| Qos.rmw_sec := 0; Qos.rmw_nsec := 0 |};
     Qos.lifespan := {| Qos.rmw_sec := 0; Qos.rmw_nsec := 0 |};
     Qos.liveliness := Qos.RMW_QOS_POLICY_LIVELINESS_SYSTEM_DEFAULT;
     Qos.liveliness_lease_duration :=
       {| Qos.rmw_sec := 0; Qos.rmw_nsec := 0 |};
     Qos.avoid_ros_namespace_conventions := false |}.

Definition pro_build : Qos.Build :=
  {| Qos.have_lifespan_qos := true; Qos.api_pro := true |}.

End Examples.

(** ** Construction and destruction of endpoints

    What [create] and [finalize] acquire from and give back to the
    engine and the allocator, as the list of the acquisitions and
    releases that took effect, in program order. *)

Module Endpoint.

Inductive resource :=
| TypeSupport (type_support : ptr)
| Registration (type_support : ptr)
| Topic (topic : ptr)
| ContentFilteredTopic (cft_topic : ptr)
| QosStruct
| DataWriter (dds_writer : ptr)
| DataReader (dds_reader : ptr)
| Loan (dds_reader : ptr)
| Impl (impl : ptr)
| Handle (handle : ptr)
| TopicName (handle : ptr).

Global Instance resource_eq_dec : EqDecision resource.
Proof. solve_decision. Defined.

Inductive event :=
| Acquire (r : resource)
| Release (r : resource).

(** [rmw_connextdds_create_contentfilteredtopic] returns [RMW_RET_OK]
    with the topic, [RMW_RET_UNSUPPORTED], or another code. *)
Inductive cft_result :=
| CftCreated (cft_topic : ptr)
| CftUnsupported
| CftFailed.

(** The answers of the engine and of the allocator during one call.
    [deletes r] tells whether a request to delete [r] is honoured;
    [rmw_free], [delete] and the [..._free] functions always are. *)
Record Oracles := {
  register_type_support : option (ptr * bool);
  unregister_type_support : rmw_ret_t;
  assert_topic : option (ptr * bool);
  create_contentfilteredtopic : cft_result;
  delete_contentfilteredtopic : rmw_ret_t;
  qos_initialize : bool;
  get_default_qos : bool;
  create_entity : option ptr;
  new_impl : option ptr;
  deletes : resource → bool;
  return_messages : rmw_ret_t;
  allocate_handle : option ptr;
  allocate_topic_name : bool;
  enable : rmw_ret_t;
  graph_on_created : rmw_ret_t;
}.

(** A deletion whose failure is only logged. *)
Definition try_release (O : Oracles) (r : resource) : list event :=
  if deletes O r then [Release r] else [].

(** The fields of [RMW_Connext_Publisher] that [finalize] reads. *)
Record RMW_Connext_Publisher := {
  pub_dds_writer : ptr;
  pub_type_support : ptr;
  pub_created_topic : bool;
  pub_dds_topic : ptr;
}.

(** [scope_exit_type_unregister] of [RMW_Connext_Publisher::create]. *)
Definition pub_exit_type (O : Oracles) (type_registered : bool)
    (type_support : ptr) : list event :=
  (if type_registered then
     if decide (unregister_type_support O = RMW_RET_OK)
     then [Release (Registration type_support)] else []
   else []) ++
  [Release (TypeSupport type_support)].

(** [scope_exit_topic_delete] of [RMW_Connext_Publisher::create]. *)
Definition pub_exit_topic (O : Oracles) (topic_created : bool) (topic : ptr)
    : list event :=
  if topic_created then try_release O (Topic topic) else [].

(** [RMW_Connext_Publisher::create]. [legacy] is the build switch
    [RMW_CONNEXT_DDS_API_PRO_LEGACY]. The scope-exit handlers run in
    the reverse of the order in which they were declared. *)
Definition Publisher_create (legacy : bool) (O : Oracles)
    : option (ptr * RMW_Connext_Publisher) * list event :=
  match register_type_support O with
  | None => (None, [])
  | Some (type_support, type_registered) =>
      let l1 :=
        Acquire (TypeSupport type_support) ::
        (if type_registered then [Acquire (Registration type_support)]
         else []) in
      let exit_type := pub_exit_type O type_registered type_support in
      match assert_topic O with
      | None => (None, l1 ++ exit_type)
      | Some (topic, topic_created) =>
          let l2 :=
            l1 ++ (if topic_created then [Acquire (Topic topic)] else []) in
          let exit_topic := pub_exit_topic O topic_created topic in
          if legacy && negb (qos_initialize O)
          then (None, l2 ++ exit_topic ++ exit_type)
          else
            let l3 := l2 ++ [Acquire QosStruct] in
            let exit_qos := try_release O QosStruct in
            if negb (get_default_qos O)
            then (None, l3 ++ exit_qos ++ exit_topic ++ exit_type)
            else
              match create_entity O with
              | None => (None, l3 ++ exit_qos ++ exit_topic ++ exit_type)
              | Some dds_writer =>
                  let l4 := l3 ++ [Acquire (DataWriter dds_writer)] in
                  let exit_writer := try_release O (DataWriter dds_writer) in
                  match new_impl O with
                  | None =>
                      (None,
                       l4 ++ exit_writer ++ exit_qos ++ exit_topic ++
                       exit_type)
                  | Some rmw_pub_impl =>
                      (Some (rmw_pub_impl,
                             {| pub_dds_writer := dds_writer;
                                pub_type_support := type_support;
                                pub_created_topic := topic_created;
                                pub_dds_topic := topic |}),
                       l4 ++ [Acquire (Impl rmw_pub_impl)] ++ exit_qos)
                  end
              end
      end
  end.

(** [RMW_Connext_Publisher::finalize], after the status condition has
    been invalidated. *)
Definition Publisher_finalize (O : Oracles) (this : RMW_Connext_Publisher)
    : rmw_ret_t * list event :=
  if negb (deletes O (DataWriter (pub_dds_writer this)))
  then (RMW_RET_ERROR, [])
  else
    let l1 := [Release (DataWriter (pub_dds_writer this))] in
    if pub_created_topic this && negb (deletes O (Topic (pub_dds_topic this)))
    then (RMW_RET_ERROR, l1)
    else
      let l2 :=
        l1 ++ (if pub_created_topic this
               then [Release (Topic (pub_dds_topic this))] else []) in
      if decide (unregister_type_support O ≠ RMW_RET_OK)
      then (unregister_type_support O, l2)
      else
        (RMW_RET_OK,
         l2 ++ [Release (Registration (pub_type_support this));
                Release (TypeSupport (pub_type_support this))]).

(** The two scope-exit handlers of [rmw_connextdds_create_publisher]
    and of [rmw_connextdds_create_subscriber]. *)
Definition exit_handle (handle : ptr) (name_allocated : bool) : list event :=
  (if name_allocated then [Release (TopicName handle)] else []) ++
  [Release (Handle handle)].

(** [rmw_connextdds_create_publisher]. *)
Definition rmw_connextdds_create_publisher (legacy internal : bool)
    (O : Oracles)
    : option (ptr * (ptr * RMW_Connext_Publisher)) * list event :=
  match Publisher_create legacy O with
  | (None, l) => (None, l)
  | (Some (rmw_pub_impl, pub), l) =>
      let exit_impl :=
        snd (Publisher_finalize O pub) ++ [Release (Impl rmw_pub_impl)] in
      match allocate_handle O with
      | None => (None, l ++ exit_impl)
      | Some rmw_publisher =>
          let l1 := l ++ [Acquire (Handle rmw_publisher)] in
          if negb (allocate_topic_name O)
          then (None, l1 ++ exit_handle rmw_publisher false ++ exit_impl)
          else
            let l2 := l1 ++ [Acquire (TopicName rmw_publisher)] in
            if negb internal &&
               (negb (bool_decide (enable O = RMW_RET_OK)) ||
                negb (bool_decide (graph_on_created O = RMW_RET_OK)))
            then (None, l2 ++ exit_handle rmw_publisher true ++ exit_impl)
            else (Some (rmw_publisher, (rmw_pub_impl, pub)), l2)
      end
  end.

(** [rmw_connextdds_destroy_publisher]; [data] is [rmw_publisher->data]. *)
Definition rmw_connextdds_destroy_publisher (O : Oracles)
    (rmw_publisher : ptr) (data : option (ptr * RMW_Connext_Publisher))
    : rmw_ret_t * list event :=
  match data with
  | None => (RMW_RET_ERROR, [])
  | Some (rmw_pub_impl, pub) =>
      let '(rc, l) := Publisher_finalize O pub in
      if decide (rc ≠ RMW_RET_OK) then (rc, l)
      else
        (RMW_RET_OK,
         l ++ [Release (Impl rmw_pub_impl); Release (TopicName rmw_publisher);
               Release (Handle rmw_publisher)])
  end.

(** The fields of [RMW_Connext_Subscriber] that [finalize] reads. *)
Record RMW_Connext_Subscriber := {
  sub_dds_reader : ptr;
  sub_type_support : ptr;
  sub_created_topic : bool;
  sub_dds_topic : ptr;
  sub_dds_topic_cft : option ptr;
  sub_loan_len : nat;
}.

(** [scope_exit_type_unregister] of [RMW_Connext_Subscriber::create]:
    it unregisters and does not delete the type support. *)
Definition sub_exit_type (O : Oracles) (type_registered : bool)
    (type_support : ptr) : list event :=
  if type_registered then
    if decide (unregister_type_support O = RMW_RET_OK)
    then [Release (Registration type_support)] else []
  else [].

(** [scope_exit_topic_delete] of [RMW_Connext_Subscriber::create]. The
    lambda captures [cft_topic] by value where it is declared, when the
    pointer is still null, so its first branch never runs. *)
Definition sub_exit_topic (O : Oracles) (topic_created : bool) (topic : ptr)
    : list event :=
  let cft_topic : option ptr := None in
  match cft_topic with
  | Some c =>
      if decide (delete_contentfilteredtopic O = RMW_RET_OK)
      then [Release (ContentFilteredTopic c)] else []
  | None => []
  end ++
  (if topic_created then try_release O (Topic topic) else []).

(** [RMW_Connext_Subscriber::create]; [cft_name] tells whether the
    caller passed a name for a content-filtered topic. *)
Definition Subscriber_create (legacy : bool) (cft_name : bool) (O : Oracles)
    : option (ptr * RMW_Connext_Subscriber) * list event :=
  match register_type_support O with
  | None => (None, [])
  | Some (type_support, type_registered) =>
      let l1 :=
        Acquire (TypeSupport type_support) ::
        (if type_registered then [Acquire (Registration type_support)]
         else []) in
      let exit_type := sub_exit_type O type_registered type_support in
      match assert_topic O with
      | None => (None, l1 ++ exit_type)
      | Some (topic, topic_created) =>
          let l2 :=
            l1 ++ (if topic_created then [Acquire (Topic topic)] else []) in
          let exit_topic := sub_exit_topic O topic_created topic in
          let after_cft : option (option ptr * list event) :=
            if cft_name then
              match create_contentfilteredtopic O with
              | CftCreated c =>
                  Some (Some c, l2 ++ [Acquire (ContentFilteredTopic c)])
              | CftUnsupported => Some (None, l2)
              | CftFailed => None
              end
            else Some (None, l2) in
          match after_cft with
          | None => (None, l2 ++ exit_topic ++ exit_type)
          | Some (cft_topic, l2) =>
              if legacy && negb (qos_initialize O)
              then (None, l2 ++ exit_topic ++ exit_type)
              else
                let l3 := l2 ++ [Acquire QosStruct] in
                let exit_qos := try_release O QosStruct in
                if negb (get_default_qos O)
                then (None, l3 ++ exit_qos ++ exit_topic ++ exit_type)
                else
                  match create_entity O with
                  | None =>
                      (None, l3 ++ exit_qos ++ exit_topic ++ exit_type)
                  | Some dds_reader =>
                      let l4 := l3 ++ [Acquire (DataReader dds_reader)] in
                      let exit_reader :=
                        try_release O (DataReader dds_reader) in
                      match new_impl O with
                      | None =>
                          (None,
                           l4 ++ exit_reader ++ exit_qos ++ exit_topic ++
                           exit_type)
                      | Some rmw_sub_impl =>
                          (Some (rmw_sub_impl,
                                 {| sub_dds_reader := dds_reader;
                                    sub_type_support := type_support;
                                    sub_created_topic := topic_created;
                                    sub_dds_topic := topic;
                                    sub_dds_topic_cft := cft_topic;
                                    sub_loan_len := 0 |}),
                           l4 ++ [Acquire (Impl rmw_sub_impl)] ++ exit_qos)
                      end
                  end
          end
      end
  end.

(** [RMW_Connext_Subscriber::finalize], after the status condition has
    been invalidated. *)
Definition Subscriber_finalize (O : Oracles) (this : RMW_Connext_Subscriber)
    : rmw_ret_t * list event :=
  if bool_decide (0 < sub_loan_len this) &&
     negb (bool_decide (return_messages O = RMW_RET_OK))
  then (RMW_RET_ERROR, [])
  else
    let l0 :=
      if bool_decide (0 < sub_loan_len this)
      then [Release (Loan (sub_dds_reader this))] else [] in
    if negb (deletes O (DataReader (sub_dds_reader this)))
    then (RMW_RET_ERROR, l0)
    else
      let l1 := l0 ++ [Release (DataReader (sub_dds_reader this))] in
      let after_cft :=
        match sub_dds_topic_cft this with
        | Some c =>
            if decide (delete_contentfilteredtopic O ≠ RMW_RET_OK)
            then inl (delete_contentfilteredtopic O)
            else inr (l1 ++ [Release (ContentFilteredTopic c)])
        | None => inr l1
        end in
      match after_cft with
      | inl cft_rc => (cft_rc, l1)
      | inr l2 =>
          if sub_created_topic this &&
             negb (deletes O (Topic (sub_dds_topic this)))
          then (RMW_RET_ERROR, l2)
          else
            let l3 :=
              l2 ++ (if sub_created_topic this
                     then [Release (Topic (sub_dds_topic this))] else []) in
            if decide (unregister_type_support O ≠ RMW_RET_OK)
            then (unregister_type_support O, l3)
            else
              (RMW_RET_OK,
               l3 ++ [Release (Registration (sub_type_support this));
                      Release (TypeSupport (sub_type_support this))])
      end.

(** [rmw_connextdds_create_subscriber], which passes no name for a
    content-filtered topic. *)
Definition rmw_connextdds_create_subscriber (legacy internal : bool)
    (O : Oracles)
    : option (ptr * (ptr * RMW_Connext_Subscriber)) * list event :=
  match Subscriber_create legacy false O with
  | (None, l) => (None, l)
  | (Some (rmw_sub_impl, sub), l) =>
      let exit_impl :=
        snd (Subscriber_finalize O sub) ++ [Release (Impl rmw_sub_impl)] in
      match allocate_handle O with
      | None => (None, l ++ exit_impl)
      | Some rmw_subscriber =>
          let l1 := l ++ [Acquire (Handle rmw_subscriber)] in
          if negb (allocate_topic_name O)
          then (None, l1 ++ exit_handle rmw_subscriber false ++ exit_impl)
          else
            let l2 := l1 ++ [Acquire (TopicName rmw_subscriber)] in
            if negb internal &&
               (negb (bool_decide (enable O = RMW_RET_OK)) ||
                negb (bool_decide (graph_on_created O = RMW_RET_OK)))
            then (None, l2 ++ exit_handle rmw_subscriber true ++ exit_impl)
            else (Some (rmw_subscriber, (rmw_sub_impl, sub)), l2)
      end
  end.

(** [rmw_connextdds_destroy_subscriber]. *)
Definition rmw_connextdds_destroy_subscriber (O : Oracles)
    (rmw_subscriber : ptr) (data : option (ptr * RMW_Connext_Subscriber))
    : rmw_ret_t * list event :=
  match data with
  | None => (RMW_RET_ERROR, [])
  | Some (rmw_sub_impl, sub) =>
      let '(rc, l) := Subscriber_finalize O sub in
      if decide (rc ≠ RMW_RET_OK) then (rc, l)
      else
        (RMW_RET_OK,
         l ++ [Release (Impl rmw_sub_impl);
               Release (TopicName rmw_subscriber);
               Release (Handle rmw_subscriber)])
  end.

(** [rmw_connextdds_create_guard_condition]: the implementation object
    first, then the handle. *)
Definition rmw_connextdds_create_guard_condition (O : Oracles)
    : option (ptr * ptr) * list event :=
  match new_impl O with
  | None => (None, [])
  | Some gcond =>
      match allocate_handle O with
      | None => (None, [Acquire (Impl gcond); Release (Impl gcond)])
      | Some gcond_handle =>
          (Some (gcond_handle, gcond),
           [Acquire (Impl gcond); Acquire (Handle gcond_handle)])
      end
  end.

(** [rmw_connextdds_destroy_guard_condition]. *)
Definition rmw_connextdds_destroy_guard_condition (gcond_handle gcond : ptr)
    : rmw_ret_t * list event :=
  (RMW_RET_OK, [Release (Impl gcond); Release (Handle gcond_handle)]).

(** [rmw_connextdds_create_waitset]: the handle first, then the
    implementation object. *)
Definition rmw_connextdds_create_waitset (O : Oracles)
    : option (ptr * ptr) * list event :=
  match allocate_handle O with
  | None => (None, [])
  | Some rmw_ws =>
      match new_impl O with
      | None => (None, [Acquire (Handle rmw_ws); Release (Handle rmw_ws)])
      | Some ws_impl =>
          (Some (rmw_ws, ws_impl),
           [Acquire (Handle rmw_ws); Acquire (Impl ws_impl)])
      end
  end.

(** [rmw_connextdds_destroy_waitset]. *)
Definition rmw_connextdds_destroy_waitset (rmw_ws ws_impl : ptr)
    : rmw_ret_t * list event :=
  (RMW_RET_OK, [Release (Impl ws_impl); Release (Handle rmw_ws)]).

(** What is held after a run: every acquisition that no later release
    gave back, most recent first. A release of something that is not
    held changes nothing. *)
Fixpoint remove_first (r : resource) (held : list resource) : list resource :=
  match held with
  | [] => []
  | x :: rest => if decide (x = r) then rest else x :: remove_first r rest
  end.

Fixpoint outstanding_from (held : list resource) (l : list event)
    : list resource :=
  match l with
  | [] => held
  | Acquire r :: rest => outstanding_from (r :: held) rest
  | Release r :: rest => outstanding_from (remove_first r held) rest
  end.

Definition outstanding (l : list event) : list resource :=
  outstanding_from [] l.

(** Every request to delete something is honoured. *)
Definition cooperative (O : Oracles) : Prop :=
  (∀ r, deletes O r = true) ∧
  unregister_type_support O = RMW_RET_OK ∧
  delete_contentfilteredtopic O = RMW_RET_OK ∧
  return_messages O = RMW_RET_OK.

(** What a publisher or subscriber holds once it is created. *)
Definition publisher_holds (impl : ptr) (pub : RMW_Connext_Publisher)
    (type_registered : bool) : list resource :=
  [Impl impl; DataWriter (pub_dds_writer pub)] ++
  (if pub_created_topic pub then [Topic (pub_dds_topic pub)] else []) ++
  (if type_registered then [Registration (pub_type_support pub)] else []) ++
  [TypeSupport (pub_type_support pub)].

End Endpoint.

Module EndpointExamples.
Import Endpoint.

(** Every call succeeds: type support 1 is registered, topic 2 is
    created, content-filtered topic 3, entity 4, implementation object
    5, handle 6. *)
Definition all_succeed : Oracles :=
  {| register_type_support := Some (1, true);
     unregister_type_support := RMW_RET_OK;
     assert_topic := Some (2, true);
     create_contentfilteredtopic := CftCreated 3;
     delete_contentfilteredtopic := RMW_RET_OK;
     qos_initialize := true;
     get_default_qos := true;
     create_entity := Some 4;
     new_impl := Some 5;
     deletes := λ _, true;
     return_messages := RMW_RET_OK;
     allocate_handle := Some 6;
     allocate_topic_name := true;
     enable := RMW_RET_OK;
     graph_on_created := RMW_RET_OK |}.

(** The same, except that the engine creates no reader or writer. *)
Definition no_entity : Oracles :=
  {| register_type_support := Some (1, true);
     unregister_type_support := RMW_RET_OK;
     assert_topic := Some (2, true);
     create_contentfilteredtopic := CftCreated 3;
     delete_contentfilteredtopic := RMW_RET_OK;
     qos_initialize := true;
     get_default_qos := true;
     create_entity := None;
     new_impl := Some 5;
     deletes := λ _, true;
     return_messages := RMW_RET_OK;
     allocate_handle := Some 6;
     allocate_topic_name := true;
     enable := RMW_RET_OK;
     graph_on_created := RMW_RET_OK |}.

End EndpointExamples.

(** ** Deleted conditions *)

(** The conditions of the sources that the caller of [attach] asks
    for; an event's condition is read through the caller's pointer. *)
Definition requested_conds (H : Heap) (a : wait_args) : list ptr :=
  (subscriber_condition H <$> requested (subs a)) ++
  requested (gcs a) ++
  ((λ c, subscriber_condition H (client_subscriber H c))
     <$> requested (cls a)) ++
  ((λ s, subscriber_condition H (service_subscriber H s))
     <$> requested (srvs a)) ++
  ((λ e, Event_condition H (event_at H e)) <$> requested (evs a)).

(** The [deleted] flag of every condition is the same in both worlds. *)
Definition same_deleted (w w' : World) : Prop :=
  ∀ c, deleted (cond_at w' c) = deleted (cond_at w c).

(** No other thread marks a condition deleted while this thread sleeps
    inside another wait set's [invalidate]. *)
Definition yield_keeps_deleted (E : Engine) : Prop :=
  ∀ w, same_deleted w (yield E w).


(** * Proofs *)

(** ** Stepping through state-passing code *)

Lemma bind_eq {A B} (m : M A) (f : A → M B) w x w' :
  m w = (x, w') → bind m f w = f x w'.
Proof. unfold bind. by intros ->. Qed.

Lemma check_ok (c k : M rmw_ret_t) w w' :
  c w = (RMW_RET_OK, w') → check c k w = k w'.
Proof. intros Hc. unfold check. rewrite (bind_eq _ _ _ _ _ Hc). done. Qed.

Lemma check_fail (c k : M rmw_ret_t) w rc w' :
  c w = (rc, w') → rc ≠ RMW_RET_OK → check c k w = (rc, w').
Proof.
  intros Hc Hrc. unfold check. rewrite (bind_eq _ _ _ _ _ Hc).
  by destruct (decide (rc = RMW_RET_OK)).
Qed.

Lemma ws_at_set_ws w this v : ws_at (set_ws this v w) this = v.
Proof. unfold ws_at, set_ws; simpl. by rewrite lookup_total_insert_eq. Qed.

Lemma ws_at_set_ws_ne w this other v :
  this ≠ other → ws_at (set_ws other v w) this = ws_at w this.
Proof.
  intros. unfold ws_at, set_ws; simpl. by rewrite lookup_total_insert_ne.
Qed.

(** ** [is_attached] and [invalidate] of a condition that is not attached *)

Section not_attached.
Context (E : Engine) (H : Heap).

Lemma cache_index_hit this e w v :
  attached_events_cache (ws_at w this) !! e = Some v →
  WaitSet.cache_index this e w = (v, w).
Proof. intros Hv. unfold WaitSet.cache_index. by rewrite Hv. Qed.

Lemma is_attached_events_miss this cond w es :
  (∀ e, e ∈ es → ∃ v, attached_events_cache (ws_at w this) !! e = Some v ∧
                       Event_condition H v ≠ cond) →
  WaitSet.is_attached_events H this es cond w = (false, w).
Proof.
  induction es as [|e es IH]; intros Hes; [done|].
  destruct (Hes e) as (v & Hv & Hne); [by left|].
  cbn [WaitSet.is_attached_events].
  rewrite (bind_eq _ _ _ _ _ (cache_index_hit this e w v Hv)).
  destruct (decide (Event_condition H v = cond)); [done|].
  apply IH. intros e' He'. apply Hes. by right.
Qed.

Lemma existsb_miss (f : ptr → ptr) (l : list ptr) cond :
  (¬ ∃ x, x ∈ l ∧ f x = cond) →
  existsb (λ x, bool_decide (f x = cond)) l = false.
Proof.
  intros Hno. apply not_true_is_false. intros Hex.
  apply existsb_exists in Hex as (x & Hin & Hx).
  apply Hno. exists x. split; [by apply list_elem_of_In|].
  by apply bool_decide_eq_true in Hx.
Qed.

Lemma is_attached_miss this cond w :
  events_cached (ws_at w this) →
  ¬ condition_attached H (ws_at w this) cond →
  WaitSet.is_attached H this cond w = (false, w).
Proof.
  intros Hcache Hno. unfold WaitSet.is_attached, bind, get.
  rewrite existsb_miss; last first.
  { intros (x & ? & ?). apply Hno. left. eauto. }
  rewrite (existsb_miss (λ gc, gc)); last first.
  { intros (x & ? & ->). apply Hno. right. by left. }
  rewrite (existsb_miss
             (λ c, subscriber_condition H (client_subscriber H c))); last first.
  { intros (x & ? & ?). apply Hno. do 2 right. left. eauto. }
  rewrite (existsb_miss
             (λ c, subscriber_condition H (service_subscriber H c))); last first.
  { intros (x & ? & ?). apply Hno. do 3 right. left. eauto. }
  apply is_attached_events_miss. intros e He.
  destruct (Hcache e He) as [v Hv]. exists v. split; [done|].
  intros Heq. apply Hno. do 4 right. eauto.
Qed.

End not_attached.

(** C10. For a wait set whose attached events all have their cached
    snapshot, [invalidate] of a condition that belongs to none of the
    five attached lists returns [RMW_RET_OK] and leaves the whole world
    as it was: the state of the wait set, its five lists and its cache,
    every condition, the call log and the error slot. *)
Theorem invalidate_not_attached (E : Engine) (H : Heap) (this cond : ptr)
    (w : World) :
  events_cached (ws_at w this) →
  ¬ condition_attached H (ws_at w this) cond →
  WaitSet.invalidate E H this cond w = (RMW_RET_OK, w).
Proof.
  intros Hcache Hno. unfold WaitSet.invalidate.
  by rewrite (bind_eq _ _ _ _ _ (is_attached_miss H this cond w Hcache Hno)).
Qed.

Lemma invalidate_not_attached_witness :
  WaitSet.invalidate Scenario.quiet Scenario.heap 1 6
    (Scenario.waitset_with_guard RMW_CONNEXT_WAITSET_FREE)
  = (RMW_RET_OK, Scenario.waitset_with_guard RMW_CONNEXT_WAITSET_FREE).
Proof.
  apply (invalidate_not_attached Scenario.quiet Scenario.heap 1 6).
  - intros e He. vm_compute in He. by apply elem_of_nil in He.
  - intros [(x & Hx & _)|[Hx|[(x & Hx & _)|[(x & Hx & _)|(x & v & Hx & _)]]]];
      vm_compute in Hx.
    + by apply elem_of_nil in Hx.
    + apply list_elem_of_singleton in Hx. discriminate.
    + by apply elem_of_nil in Hx.
    + by apply elem_of_nil in Hx.
    + by apply elem_of_nil in Hx.
Defined.

(** ** The state machine under interleaving *)

Section protocol.
Import Protocol.



















(** The detach of a failed [wait] is not covered by the state: a
    second thread can take the wait set while the first is still inside
    [wait]. *)
Lemma detach_overlaps_next_wait :
  ∃ s, run [CallWait 6; Leave 6 true; CallWait 7] initial = Some s ∧
       st s = RMW_CONNEXT_WAITSET_ACQUIRING ∧
       pcs s 6 = Detaching ∧ pcs s 7 = Waiting.
Proof. eexists. split; [reflexivity|]. by vm_compute. Qed.

End protocol.

(** ** The critical section of [wait] *)



(** The critical section of [wait] and the step [CallWait] of the
    state machine decide alike on the same state: the thread goes on
    with the world unchanged, fails with the world unchanged, or sleeps
    and decides on the state it finds when it wakes up. *)
Lemma protocol_entry_matches_code (E : Engine) (this : ptr) (w : World)
    (s : Protocol.sys) (t : nat) :
  state (ws_at w this) = Protocol.st s →
  Protocol.pcs s t = Protocol.Idle →
  match wait_entry (Protocol.st s) with
  | Enter =>
      WaitSet.already_taken E this w = (false, w) ∧
      Protocol.exec (Protocol.CallWait t) s
      = Some {| Protocol.st := RMW_CONNEXT_WAITSET_ACQUIRING;
                Protocol.pcs := <[t := Protocol.Waiting]> (Protocol.pcs s) |}
  | Taken =>
      WaitSet.already_taken E this w = (true, w) ∧
      Protocol.exec (Protocol.CallWait t) s = Some s
  | Sleep =>
      WaitSet.already_taken E this w
      = (bool_decide (RMW_CONNEXT_WAITSET_FREE
                      ≠ state (ws_at (yield E w) this)), yield E w) ∧
      Protocol.exec (Protocol.CallWait t) s
      = Some {| Protocol.st := Protocol.st s;
                Protocol.pcs := <[t := Protocol.Parked]> (Protocol.pcs s) |}
  end.
Proof.
  intros Hst Hidle. unfold Protocol.exec. rewrite decide_True by done.
  unfold WaitSet.already_taken, bind, get. rewrite Hst.
  by destruct (wait_entry (Protocol.st s)).
Qed.

(** The two handlers of [wait] on an early return: [detach] starts in
    the world in which [scope_exit] has already put the state back to
    [FREE]. *)
Lemma leave_frees_before_detach (E : Engine) (H : Heap) (this : ptr)
    (rc : rmw_ret_t) (arrays : wait_arrays) (w : World) :
  WaitSet.leave E H this true rc arrays w
  = (Returned rc, arrays,
     snd (WaitSet.detach E H this
            (snd (set_state this RMW_CONNEXT_WAITSET_FREE w))))
  ∧ state (ws_at (snd (set_state this RMW_CONNEXT_WAITSET_FREE w)) this)
    = RMW_CONNEXT_WAITSET_FREE.
Proof.
  split.
  - unfold WaitSet.leave, bind, ret.
    destruct (set_state this RMW_CONNEXT_WAITSET_FREE w) as [[] w1].
    cbn [snd]. by destruct (WaitSet.detach E H this w1) as [rc' w'].
  - unfold set_state, modify. cbn [snd]. by rewrite ws_at_set_ws.
Qed.




(** C7, as the code behaves. A call of [wait] that finds the state
    [INVALIDATING] sleeps on [state_cond]. When it runs again it
    reports [RMW_RET_ERROR] only if the state is then not [FREE];
    if the state is [FREE] it goes on exactly as a call that found the
    wait set free. *)
Theorem wait_while_invalidating (E : Engine) (H : Heap) (this : ptr)
    (a : wait_args) (wait_timeout : option rmw_time_t) (w : World) :
  state (ws_at w this) = RMW_CONNEXT_WAITSET_INVALIDATING →
  WaitSet.wait E H this a wait_timeout w
    = if decide (state (ws_at (yield E w) this) = RMW_CONNEXT_WAITSET_FREE)
      then WaitSet.wait E H this a wait_timeout (yield E w)
      else (Returned RMW_RET_ERROR, arrays_of a,
            with_error "multiple concurrent wait()s not supported"
              (yield E w)).
Proof.
  intros Hst. unfold WaitSet.wait at 1.
  assert (WaitSet.already_taken E this w
          = (bool_decide (RMW_CONNEXT_WAITSET_FREE
                          ≠ state (ws_at (yield E w) this)), yield E w)) as Ht.
  { unfold WaitSet.already_taken, bind, get. by rewrite Hst. }
  rewrite (bind_eq _ _ _ _ _ Ht).
  destruct (decide (state (ws_at (yield E w) this) = RMW_CONNEXT_WAITSET_FREE))
    as [Hfree|Hnfree].
  - rewrite bool_decide_eq_false_2 by (intros Hx; by apply Hx).
    unfold WaitSet.wait.
    assert (WaitSet.already_taken E this (yield E w) = (false, yield E w)) as Ht'.
    { unfold WaitSet.already_taken, bind, get. by rewrite Hfree. }
    by rewrite (bind_eq _ _ _ _ _ Ht').
  - rewrite bool_decide_eq_true_2 by (intros Hx; by apply Hnfree).
    done.
Qed.

Lemma wait_while_invalidating_witness :
  WaitSet.wait Scenario.invalidator_done Scenario.heap 1 Scenario.no_sources
      (Some Scenario.one_second)
      (Scenario.waitset_with_guard RMW_CONNEXT_WAITSET_INVALIDATING)
  = if decide
         (state
            (ws_at
               (yield Scenario.invalidator_done
                  (Scenario.waitset_with_guard
                     RMW_CONNEXT_WAITSET_INVALIDATING)) 1)
          = RMW_CONNEXT_WAITSET_FREE)
    then
      WaitSet.wait Scenario.invalidator_done Scenario.heap 1
        Scenario.no_sources (Some Scenario.one_second)
        (yield Scenario.invalidator_done
           (Scenario.waitset_with_guard RMW_CONNEXT_WAITSET_INVALIDATING))
    else
      (Returned RMW_RET_ERROR, arrays_of Scenario.no_sources,
       with_error "multiple concurrent wait()s not supported"
         (yield Scenario.invalidator_done
            (Scenario.waitset_with_guard RMW_CONNEXT_WAITSET_INVALIDATING))).
Proof.
  exact (wait_while_invalidating Scenario.invalidator_done Scenario.heap 1
           Scenario.no_sources (Some Scenario.one_second)
           (Scenario.waitset_with_guard RMW_CONNEXT_WAITSET_INVALIDATING)
           eq_refl).
Defined.

(** The thread that slept through an invalidation acquires the wait set
    and completes its wait: the call returns [RMW_RET_TIMEOUT], not
    [RMW_RET_ERROR]. *)
Lemma wait_after_invalidation_proceeds :
  state (ws_at (Scenario.waitset_with_guard RMW_CONNEXT_WAITSET_INVALIDATING) 1)
    = RMW_CONNEXT_WAITSET_INVALIDATING
  ∧ fst (fst (WaitSet.wait Scenario.invalidator_done Scenario.heap 1
                Scenario.no_sources (Some Scenario.one_second)
                (Scenario.waitset_with_guard RMW_CONNEXT_WAITSET_INVALIDATING)))
    = Returned RMW_RET_TIMEOUT
  ∧ fst (fst (WaitSet.wait Scenario.invalidator_done Scenario.heap 1
                Scenario.no_sources (Some Scenario.one_second)
                (Scenario.waitset_with_guard RMW_CONNEXT_WAITSET_INVALIDATING)))
    ≠ Returned RMW_RET_ERROR.
Proof. split; [reflexivity|]. split; [by vm_compute|]. vm_compute. discriminate. Qed.

(** ** Construction and rollback *)

Section create.
Import Create.

(** When the subscriber cannot be created, [Client::create] finalizes
    and deletes the request publisher before it returns null. *)
Lemma Client_create_rolls_back (F : Factory) (s : Store) client_impl request_pub :
  new_impl F = Some client_impl →
  type_supports_found F = true →
  Publisher_create F = Some request_pub →
  Subscriber_create F = None →
  Publisher_finalize F request_pub = RMW_RET_OK →
  ∃ s', Client_create F s = (None, s') ∧
        (request_pub ∉ endpoints s') ∧ request_pub ∈ finalized s' ∧
        (client_impl ∉ impls s').
Proof.
  intros Hi Ht Hp Hs Hf. unfold Client_create.
  rewrite Hi, Ht, Hp, Hs. simpl.
  assert (∀ s0, client_scope_exit F client_impl
                  {| pub := Some request_pub; sub := None |} s0
                = delete_impl client_impl
                    (delete_endpoint request_pub
                       (mark_finalized request_pub s0))) as Hexit.
  { intros s0. unfold client_scope_exit, Client_finalize. simpl.
    rewrite Hf. by rewrite decide_False by (intros Hx; by apply Hx). }
  assert (∀ (x : ptr) (X : gset ptr), x ∉ ({[x]} ∪ X) ∖ {[x]}) as Hgone.
  { intros x X [_ Hx]%elem_of_difference. apply Hx. by apply elem_of_singleton. }
  destruct (alloc_cft_name F), (alloc_cft_filter F); simpl;
    rewrite Hexit; (eexists; split; [done|]); simpl;
    (split_and!; [apply Hgone| |apply Hgone]);
    apply elem_of_union_l; by apply elem_of_singleton.
Qed.

(** In the same situation [Service::create] deletes the service object
    only: the reply publisher stays allocated and is never finalized. *)
Lemma Service_create_keeps_publisher (F : Factory) (s : Store) svc_impl reply_pub :
  new_impl F = Some svc_impl →
  type_supports_found F = true →
  Publisher_create F = Some reply_pub →
  Subscriber_create F = None →
  reply_pub ∉ finalized s →
  ∃ s', Service_create F s = (None, s') ∧
        reply_pub ∈ endpoints s' ∧ (reply_pub ∉ finalized s').
Proof.
  intros Hi Ht Hp Hs Hf. unfold Service_create.
  rewrite Hi, Ht, Hp, Hs. simpl.
  eexists; split; [done|]. simpl. split; [|done].
  apply elem_of_union_l. by apply elem_of_singleton.
Qed.

End create.

(** C9, on the failing input. The type supports are found, the
    publisher is created and the subscriber is not: [Client::create]
    returns null with the publisher finalized and deleted, while
    [Service::create] returns null with the publisher still allocated
    and not finalized. *)
Theorem Service_create_leaks_publisher :
  fst (Create.Client_create Scenario.subscriber_fails Scenario.empty_store)
    = None
  ∧ (2 ∉ Create.endpoints
           (snd (Create.Client_create Scenario.subscriber_fails
                   Scenario.empty_store)))
  ∧ 2 ∈ Create.finalized
          (snd (Create.Client_create Scenario.subscriber_fails
                  Scenario.empty_store))
  ∧ fst (Create.Service_create Scenario.subscriber_fails Scenario.empty_store)
    = None
  ∧ 2 ∈ Create.endpoints
          (snd (Create.Service_create Scenario.subscriber_fails
                  Scenario.empty_store))
  ∧ (2 ∉ Create.finalized
           (snd (Create.Service_create Scenario.subscriber_fails
                   Scenario.empty_store))).
Proof.
  destruct (Client_create_rolls_back Scenario.subscriber_fails
              Scenario.empty_store 1 2 eq_refl eq_refl eq_refl eq_refl eq_refl)
    as (s1 & Hc & ? & ? & ?).
  destruct (Service_create_keeps_publisher Scenario.subscriber_fails
              Scenario.empty_store 1 2 eq_refl eq_refl eq_refl eq_refl)
    as (s2 & Hs & ? & ?).
  { apply not_elem_of_empty. }
  rewrite Hc, Hs. simpl. done.
Qed.

(** ** Request/reply correlation *)

Section correlation.
Import RequestReply.

Lemma wrap_int64_small z :
  (- 2 ^ 63 ≤ z ≤ INT64_MAX)%Z → wrap_int64 z = z.
Proof.
  unfold wrap_int64, INT64_MAX. intros Hz.
  rewrite Z.mod_small by lia. lia.
Qed.

Lemma send_request_unfold c p seq0 :
  Client.send_request c p seq0
  = let n := wrap_int64 (next_request_id c + 1) in
    let c' := {| request_pub := request_pub c; reply_sub := reply_sub c;
                 next_request_id := n |} in
    if writer_ok (request_pub c) then
      (RMW_RET_OK, n, c',
       Some {| identity := {| writer_guid := instance_handle (request_pub c);
                              sequence_number := n |};
               related_sample_identity := DDS_SAMPLE_IDENTITY_UNKNOWN;
               user_data := p |})
    else (RMW_RET_ERROR, n, c', None).
Proof.
  unfold Client.send_request, write, requestreply_header_to_dds. simpl.
  by destruct (writer_ok (request_pub c)).
Qed.

Lemma send_request_counter c p seq0 :
  next_request_id (snd (fst (Client.send_request c p seq0)))
    = wrap_int64 (next_request_id c + 1)
  ∧ snd (fst (fst (Client.send_request c p seq0)))
    = wrap_int64 (next_request_id c + 1).
Proof.
  rewrite send_request_unfold. cbn zeta.
  by destruct (writer_ok (request_pub c)).
Qed.

Lemma send_requests_cons c p rest :
  send_requests c (p :: rest)
  = snd (fst (fst (Client.send_request c p 0)))
    :: send_requests (snd (fst (Client.send_request c p 0))) rest.
Proof.
  cbn [send_requests].
  by destruct (Client.send_request c p 0) as [[[? ?] ?] ?].
Qed.

Lemma send_requests_counts c payloads :
  (- 2 ^ 63 ≤ next_request_id c)%Z →
  (next_request_id c + Z.of_nat (length payloads) ≤ INT64_MAX)%Z →
  send_requests c payloads
  = (λ i, (next_request_id c + 1 + Z.of_nat i)%Z) <$> seq 0 (length payloads).
Proof.
  revert c. induction payloads as [|p rest IH]; intros c Hlo Hhi; [done|].
  rewrite send_requests_cons.
  destruct (send_request_counter c p 0) as [Hn Hs].
  cbn [length] in Hhi.
  assert (wrap_int64 (next_request_id c + 1) = (next_request_id c + 1)%Z)
    as Hw by (apply wrap_int64_small; unfold INT64_MAX in *; lia).
  rewrite Hs, Hw, IH; rewrite ?Hn, ?Hw; [|lia|lia].
  cbn [length seq fmap list_fmap]. f_equal; [lia|].
  rewrite <- fmap_S_seq, <- list_fmap_compose.
  apply list_fmap_ext. intros ? i ?. simpl. lia.
Qed.

Lemma seq_offsets_increasing (base : Z) n k :
  StronglySorted Z.lt ((λ i, (base + Z.of_nat i)%Z) <$> seq k n).
Proof.
  revert k. induction n as [|n IH]; intros k; simpl; constructor; [apply IH|].
  apply Forall_fmap, Forall_forall. intros i Hi.
  apply elem_of_seq in Hi. simpl. lia.
Qed.

Lemma take_guid_of_gid g :
  GUID_SIZE ≤ length g →
  take 16 (rmw_connextdds_guid_to_gid (take GUID_SIZE g)) = take GUID_SIZE g.
Proof.
  intros Hg. unfold rmw_connextdds_guid_to_gid.
  rewrite take_take. replace (GUID_SIZE `min` GUID_SIZE) with GUID_SIZE by done.
  apply take_app_length'. rewrite length_take. unfold GUID_SIZE in *. lia.
Qed.

Lemma take_next_skips q (f : Sample → bool) smp :
  Forall (λ x, f x = false) q → f smp = true →
  take_next (q ++ [smp]) f = (Some smp, []).
Proof.
  intros Hq Hsmp. induction Hq as [|x q Hx Hq IH]; cbn [take_next app].
  - by rewrite Hsmp.
  - by rewrite Hx.
Qed.

Lemma take_next_accepted q (f : Sample → bool) smp rest :
  take_next q f = (Some smp, rest) → f smp = true ∧ smp ∈ q.
Proof.
  induction q as [|x q IH]; cbn [take_next]; [done|].
  destruct (f x) eqn:Hx.
  - intros [= <- _]. split; [done|]. by left.
  - intros [Hf Hin]%IH. split; [done|]. by right.
Qed.

Lemma round_trip_ok c s P R seq0 :
  writer_ok (request_pub c) = true →
  reader_ok (request_sub s) = true →
  reader_queue (request_sub s) = [] →
  writer_ok (reply_pub s) = true →
  reader_ok (reply_sub c) = true →
  Forall (λ smp, writer_guid (related_sample_identity smp)
                 ≠ instance_handle (request_pub c))
    (reader_queue (reply_sub c)) →
  GUID_SIZE ≤ length (pub_gid (request_pub c)) →
  round_trip c s P R seq0
  = Some (wrap_int64 (next_request_id c + 1),
          (handle_of c (wrap_int64 (next_request_id c + 1)), P),
          (RMW_RET_OK,
           Some (handle_of c (wrap_int64 (next_request_id c + 1)), R))).
Proof.
  intros Hw Hr Hq Hw' Hr' Hq' Hlen.
  assert (length (take GUID_SIZE (pub_gid (request_pub c))) = GUID_SIZE)
    as Hlen16 by (rewrite length_take; lia).
  unfold round_trip, Client.send_request, write, requestreply_header_to_dds.
  simpl. rewrite Hw. simpl.
  unfold Service.take_request, take_message, deserialize, deliver. simpl.
  rewrite Hr, Hq. simpl.
  unfold rmw_connextdds_gid_to_guid.
  rewrite !take_take. replace (GUID_SIZE `min` GUID_SIZE) with GUID_SIZE by done.
  rewrite (take_app_length' _ _ 16) by done.
  unfold Service.send_response, write, requestreply_header_to_dds. simpl.
  rewrite Hw'. simpl.
  unfold Client.take_response, take_message, deserialize. simpl. rewrite Hr'.
  simpl.
  assert (rmw_connextdds_gid_to_guid
            (take 16 (take GUID_SIZE (pub_gid (request_pub c))) ++
             replicate 8 Byte.x00)
          = take GUID_SIZE (pub_gid (request_pub c))) as Hback.
  { unfold rmw_connextdds_gid_to_guid. rewrite take_take.
    replace (16 `min` GUID_SIZE) with GUID_SIZE by done.
    by apply take_app_length'. }
  simpl in Hback. rewrite !Hback.
  rewrite (take_next_skips (reader_queue (reply_sub c))).
  - simpl. rewrite take_take.
    replace (GUID_SIZE `min` GUID_SIZE) with GUID_SIZE by done.
    by rewrite (take_app_length' _ _ 16) by done.
  - eapply Forall_impl; [exact Hq'|]. intros smp Hsmp. simpl.
    by apply bool_decide_eq_false_2.
  - simpl. by apply bool_decide_eq_true_2.
Qed.

Lemma take_response_origin c rc hdr R c' :
  GUID_SIZE ≤ length (pub_gid (request_pub c)) →
  Client.take_response c = (rc, Some (hdr, R), c') →
  request_writer_guid hdr = instance_handle (request_pub c) ∧
  ∃ smp, smp ∈ reader_queue (reply_sub c) ∧
         request_sequence_number hdr
           = sequence_number (related_sample_identity smp) ∧
         R = user_data smp.
Proof.
  intros Hlen. unfold Client.take_response, take_message, deserialize.
  destruct (reader_ok (reply_sub c)); simpl; [|done].
  destruct (take_next _ _) as [[smp|] rest] eqn:Htake; simpl; [|done].
  intros [= <- <- <- <-]. simpl.
  apply take_next_accepted in Htake as [Htake Hin].
  unfold filter_sample in Htake. apply bool_decide_eq_true in Htake.
  split; [|by exists smp].
  rewrite Htake. unfold instance_handle, rmw_connextdds_gid_to_guid.
  rewrite take_take. replace (GUID_SIZE `min` GUID_SIZE) with GUID_SIZE by done.
  apply take_app_length'. rewrite length_take. unfold GUID_SIZE in *. lia.
Qed.

End correlation.

(** C8. Every call of [send_request] advances the client's counter by
    one (with the wrap-around of a signed 64-bit integer), returns the
    new value in [*sequence_id], and the request it writes carries the
    identity of the client's request publisher together with that
    value. While the counter stays below [INT64_MAX], which is the
    range the specification covers, the numbers returned by successive
    calls are consecutive, hence strictly increasing and never
    reused. *)
Theorem send_request_sequence (c : RequestReply.RMW_Connext_Client)
    (ros_request : list byte) (sequence_id : Z)
    (payloads : list (list byte)) :
  (- 2 ^ 63 ≤ RequestReply.next_request_id c)%Z →
  (RequestReply.next_request_id c + Z.of_nat (length payloads)
     ≤ RequestReply.INT64_MAX)%Z →
  let r := RequestReply.Client.send_request c ros_request sequence_id in
  RequestReply.next_request_id (snd (fst r))
    = RequestReply.wrap_int64 (RequestReply.next_request_id c + 1)
  ∧ (snd (fst (fst r))) = RequestReply.next_request_id (snd (fst r))
  ∧ RequestReply.request_pub (snd (fst r)) = RequestReply.request_pub c
  ∧ (RequestReply.writer_ok (RequestReply.request_pub c) = true →
     (fst (fst (fst r))) = RMW_RET_OK ∧
     ∃ smp, (snd r) = Some smp ∧
       RequestReply.identity smp
         = {| RequestReply.writer_guid :=
                RequestReply.instance_handle (RequestReply.request_pub c);
              RequestReply.sequence_number := (snd (fst (fst r))) |} ∧
       RequestReply.user_data smp = ros_request)
  ∧ RequestReply.send_requests c payloads
      = (λ i, (RequestReply.next_request_id c + 1 + Z.of_nat i)%Z)
          <$> seq 0 (length payloads)
  ∧ StronglySorted Z.lt (RequestReply.send_requests c payloads).
Proof.
  intros Hlo Hhi r. subst r. rewrite send_request_unfold. cbn zeta.
  rewrite (send_requests_counts c payloads Hlo Hhi).
  split_and!.
  - by destruct (RequestReply.writer_ok (RequestReply.request_pub c)).
  - by destruct (RequestReply.writer_ok (RequestReply.request_pub c)).
  - by destruct (RequestReply.writer_ok (RequestReply.request_pub c)).
  - intros ->. simpl. split; [done|]. eexists. split; [done|]. done.
  - done.
  - apply (seq_offsets_increasing (RequestReply.next_request_id c + 1)).
Qed.

Lemma send_request_sequence_witness :
  RequestReply.send_requests Scenario.a_client
    [Scenario.a_request; Scenario.a_reply; Scenario.a_request]
  = [1; 2; 3]%Z.
Proof.
  pose proof (send_request_sequence Scenario.a_client Scenario.a_request 0
                [Scenario.a_request; Scenario.a_reply; Scenario.a_request])
    as Hw.
  simpl in Hw.
  destruct Hw as (_ & _ & _ & _ & Hseq & _).
  - lia.
  - unfold RequestReply.INT64_MAX. lia.
  - exact Hseq.
Defined.

(** C1, as the code behaves. A client whose reader and writer work
    sends a request to a service whose reader and writer work and where
    no other request is waiting; the service takes it and answers under
    the handle it took. If every reply already waiting at the client's
    reader is addressed to another origin, the client's next
    [take_response] returns with [taken] true, the reply payload and the
    same handle: the origin of the client's request publisher and the
    sequence number that [send_request] returned. [take_response]
    compares nothing with a handle of the caller: whatever it returns
    with [taken] true is the payload of a reply that was waiting at the
    reader, with the sequence number which that reply carries and the
    client's own origin, which is all the filter checks. *)
Theorem correlation_round_trip
    (c : RequestReply.RMW_Connext_Client) (s : RequestReply.RMW_Connext_Service)
    (P R : list byte) (sequence_id : Z)
    (c' : RequestReply.RMW_Connext_Client) (rc : rmw_ret_t)
    (hdr : RequestReply.rmw_request_id_t) (R' : list byte)
    (c'' : RequestReply.RMW_Connext_Client) :
  RequestReply.writer_ok (RequestReply.request_pub c) = true →
  RequestReply.reader_ok (RequestReply.request_sub s) = true →
  RequestReply.reader_queue (RequestReply.request_sub s) = [] →
  RequestReply.writer_ok (RequestReply.reply_pub s) = true →
  RequestReply.reader_ok (RequestReply.reply_sub c) = true →
  Forall (λ smp,
            RequestReply.writer_guid (RequestReply.related_sample_identity smp)
            ≠ RequestReply.instance_handle (RequestReply.request_pub c))
    (RequestReply.reader_queue (RequestReply.reply_sub c)) →
  RequestReply.GUID_SIZE
    ≤ length (RequestReply.pub_gid (RequestReply.request_pub c)) →
  RequestReply.GUID_SIZE
    ≤ length (RequestReply.pub_gid (RequestReply.request_pub c')) →
  RequestReply.Client.take_response c' = (rc, Some (hdr, R'), c'') →
  RequestReply.round_trip c s P R sequence_id
    = Some (RequestReply.wrap_int64 (RequestReply.next_request_id c + 1),
            (RequestReply.handle_of c
               (RequestReply.wrap_int64 (RequestReply.next_request_id c + 1)),
             P),
            (RMW_RET_OK,
             Some (RequestReply.handle_of c
                     (RequestReply.wrap_int64
                        (RequestReply.next_request_id c + 1)),
                   R)))
  ∧ RequestReply.request_writer_guid hdr
    = RequestReply.instance_handle (RequestReply.request_pub c')
  ∧ ∃ smp,
      smp ∈ RequestReply.reader_queue (RequestReply.reply_sub c') ∧
      RequestReply.request_sequence_number hdr
        = RequestReply.sequence_number
            (RequestReply.related_sample_identity smp) ∧
      R' = RequestReply.user_data smp.
Proof.
  intros Hw Hr Hq Hw' Hr' Hq' Hlen Hlen' Htake. split.
  - by apply round_trip_ok.
  - by eapply take_response_origin.
Qed.

Lemma correlation_round_trip_witness :
  RequestReply.round_trip Scenario.client_with_foreign_reply
      Scenario.a_service Scenario.a_request Scenario.a_reply 0
    = Some (1%Z,
            (RequestReply.handle_of Scenario.client_with_foreign_reply 1,
             Scenario.a_request),
            (RMW_RET_OK,
             Some (RequestReply.handle_of Scenario.client_with_foreign_reply 1,
                   Scenario.a_reply)))
  ∧ RequestReply.request_writer_guid Scenario.never_issued
    = RequestReply.instance_handle
        (RequestReply.request_pub Scenario.client_with_stray_reply).
Proof.
  destruct (correlation_round_trip Scenario.client_with_foreign_reply
              Scenario.a_service Scenario.a_request Scenario.a_reply 0
              Scenario.client_with_stray_reply RMW_RET_OK
              Scenario.never_issued Scenario.a_reply
              (snd (RequestReply.Client.take_response
                      Scenario.client_with_stray_reply)))
    as (Hround & Horigin & _).
  - reflexivity.
  - reflexivity.
  - reflexivity.
  - reflexivity.
  - reflexivity.
  - repeat constructor. vm_compute. discriminate.
  - vm_compute. lia.
  - vm_compute. lia.
  - vm_compute. reflexivity.
  - split; [exact Hround|exact Horigin].
Defined.

(** The client issued one request, numbered 1. A reply stamped with the
    client's origin and the number 99 is taken all the same. *)
Lemma take_response_ignores_sequence :
  RequestReply.send_requests Scenario.a_client [Scenario.a_request] = [1%Z]
  ∧ Scenario.never_issued ≠ RequestReply.handle_of Scenario.a_client 1
  ∧ fst (RequestReply.Client.take_response Scenario.client_with_stray_reply)
    = (RMW_RET_OK, Some (Scenario.never_issued, Scenario.a_reply)).
Proof.
  split; [by vm_compute|]. split; [|by vm_compute].
  intros Heq. apply (f_equal RequestReply.request_sequence_number) in Heq.
  discriminate Heq.
Qed.

(** ** Relating the start and end worlds of state-passing code *)

Section keeps.
Context {R : World → World → Prop} `{!PreOrder R}.

Lemma keeps_ret {A} (x : A) : keeps R (ret x).
Proof. intros w y w' [= _ <-]. reflexivity. Qed.

Lemma keeps_bind {A B} (m : M A) (f : A → M B) :
  keeps R m → (∀ x, keeps R (f x)) → keeps R (bind m f).
Proof.
  intros Hm Hf w y w'. unfold bind.
  destruct (m w) as [x w1] eqn:Hmw. intros Hfx.
  transitivity w1; [by eapply Hm|by eapply Hf].
Qed.

Lemma keeps_get : keeps R get.
Proof. intros w y w' [= _ <-]. reflexivity. Qed.

Lemma keeps_modify f : (∀ w, R w (f w)) → keeps R (modify f).
Proof. intros Hf w y w' [= _ <-]. apply Hf. Qed.

Lemma keeps_check (c k : M rmw_ret_t) :
  keeps R c → keeps R k → keeps R (check c k).
Proof.
  intros Hc Hk. apply keeps_bind; [done|]. intros rc.
  destruct (decide (rc = RMW_RET_OK)); [done|apply keeps_ret].
Qed.

End keeps.

Global Instance same_waitset_preorder this : PreOrder (same_waitset this).
Proof.
  split.
  - by intros w.
  - intros w1 w2 w3 H12 H23. unfold same_waitset in *. congruence.
Qed.

Global Instance same_but_cache_preorder this :
  PreOrder (same_but_cache this).
Proof.
  split.
  - intros w. exists (attached_events_cache (ws_at w this)).
    by destruct (ws_at w this).
  - intros w1 w2 w3 [m H12] [m' H23]. exists m'.
    rewrite H23, H12. by destruct (ws_at w1 this).
Qed.

Global Instance same_conds_preorder : PreOrder same_conds.
Proof.
  split.
  - by intros w.
  - intros w1 w2 w3 H12 H23. unfold same_conds in *. congruence.
Qed.

Create HintDb keeps.
Global Hint Resolve keeps_ret keeps_get : keeps.

(** Stepping: split binds and checks, and case on what the code
    branches on. *)
Ltac keeps_step :=
  first
    [ solve [auto with keeps]
    | apply keeps_ret
    | apply keeps_get
    | apply keeps_check
    | apply keeps_bind; [|intros ?]
    | match goal with
      | |- keeps _ (if ?b then _ else _) => destruct b
      | |- keeps _ (match ?x with _ => _ end) => destruct x
      | |- keeps _ (let '(_, _) := ?x in _) => destruct x
      | |- keeps _ (let _ := _ in _) => cbv zeta
      end ].

(** What leaves every wait set alone. *)
Section waitsets_untouched.
Context (E : Engine) (H : Heap) (this : ptr).

Lemma keeps_ws_modify f :
  (∀ w, waitsets (f w) = waitsets w) → keeps (same_waitset this) (modify f).
Proof.
  intros Hf. apply keeps_modify. intros w.
  unfold same_waitset, ws_at. by rewrite Hf.
Qed.

Lemma keeps_ws_log_call c : keeps (same_waitset this) (log_call c).
Proof. by apply keeps_ws_modify. Qed.

Lemma keeps_ws_error_set msg :
  keeps (same_waitset this) (RMW_CONNEXT_LOG_ERROR_SET msg).
Proof. by apply keeps_ws_modify. Qed.

Lemma keeps_ws_set_attached_waitset c v :
  keeps (same_waitset this) (set_attached_waitset c v).
Proof. by apply keeps_ws_modify. Qed.

Hint Resolve keeps_ws_log_call keeps_ws_error_set
  keeps_ws_set_attached_waitset : keeps.

Lemma keeps_ws_Condition_detach c :
  keeps (same_waitset this) (Condition.detach E c).
Proof. unfold Condition.detach. repeat keeps_step. Qed.

Lemma keeps_ws_Condition_attach c ws :
  keeps (same_waitset this) (Condition.attach E c ws).
Proof. unfold Condition.attach. repeat keeps_step. Qed.

Lemma keeps_ws_Condition_attach_data c :
  keeps (same_waitset this) (Condition.attach_data E c).
Proof. unfold Condition.attach_data. repeat keeps_step. Qed.

Lemma keeps_ws_Condition_reset_statuses c :
  keeps (same_waitset this) (Condition.reset_statuses E c).
Proof. unfold Condition.reset_statuses. repeat keeps_step. Qed.

Lemma keeps_ws_Condition_enable_statuses c m :
  keeps (same_waitset this) (Condition.enable_statuses E c m).
Proof. unfold Condition.enable_statuses. repeat keeps_step. Qed.

Lemma keeps_ws_Condition_reset_trigger c :
  keeps (same_waitset this) (Condition.reset_trigger E c).
Proof. unfold Condition.reset_trigger. repeat keeps_step. Qed.

Hint Resolve keeps_ws_Condition_detach keeps_ws_Condition_attach
  keeps_ws_Condition_attach_data keeps_ws_Condition_reset_statuses
  keeps_ws_Condition_enable_statuses keeps_ws_Condition_reset_trigger : keeps.

(** Work on another wait set. *)
Context (other : ptr) (Hother : this ≠ other).

Lemma keeps_ws_update_lists f :
  keeps (same_waitset this) (update_lists other f).
Proof.
  apply keeps_modify. intros w. by apply ws_at_set_ws_ne.
Qed.

Lemma keeps_ws_set_state s : keeps (same_waitset this) (set_state other s).
Proof. apply keeps_modify. intros w. by apply ws_at_set_ws_ne. Qed.

Lemma keeps_ws_cache_index e :
  keeps (same_waitset this) (WaitSet.cache_index other e).
Proof.
  intros w x w'. unfold WaitSet.cache_index.
  destruct (attached_events_cache (ws_at w other) !! e).
  - by intros [= _ <-].
  - intros [= _ <-]. by apply ws_at_set_ws_ne.
Qed.

Hint Resolve keeps_ws_update_lists keeps_ws_set_state keeps_ws_cache_index
  : keeps.

Lemma keeps_ws_detach_each cs failed :
  keeps (same_waitset this) (WaitSet.detach_each E cs failed).
Proof.
  revert failed. induction cs as [|c cs IH]; intros failed; simpl;
    repeat keeps_step.
Qed.

Lemma keeps_ws_detach_events es failed :
  keeps (same_waitset this) (WaitSet.detach_events E H other es failed).
Proof.
  revert failed. induction es as [|e es IH]; intros failed; simpl;
    repeat keeps_step.
Qed.

Hint Resolve keeps_ws_detach_each keeps_ws_detach_events : keeps.

Lemma keeps_ws_detach : keeps (same_waitset this) (WaitSet.detach E H other).
Proof. unfold WaitSet.detach. repeat keeps_step. Qed.

Lemma keeps_ws_is_attached_events es c :
  keeps (same_waitset this) (WaitSet.is_attached_events H other es c).
Proof.
  induction es as [|e es IH]; simpl; repeat keeps_step.
Qed.

Hint Resolve keeps_ws_detach keeps_ws_is_attached_events : keeps.

Lemma keeps_ws_is_attached c :
  keeps (same_waitset this) (WaitSet.is_attached H other c).
Proof. unfold WaitSet.is_attached. repeat keeps_step. Qed.

Hint Resolve keeps_ws_is_attached : keeps.

Lemma keeps_ws_invalidate c :
  yield_keeps E this →
  keeps (same_waitset this) (WaitSet.invalidate E H other c).
Proof.
  intros Hy. unfold WaitSet.invalidate, WaitSet.state_cond_wait.
  repeat keeps_step; by apply keeps_modify.
Qed.

Hint Resolve keeps_ws_invalidate : keeps.

End waitsets_untouched.

Global Hint Resolve keeps_ws_log_call keeps_ws_error_set
  keeps_ws_set_attached_waitset keeps_ws_Condition_detach
  keeps_ws_Condition_attach keeps_ws_Condition_attach_data
  keeps_ws_Condition_reset_statuses keeps_ws_Condition_enable_statuses
  keeps_ws_Condition_reset_trigger keeps_ws_detach_each
  keeps_ws_update_lists keeps_ws_set_state keeps_ws_cache_index
  keeps_ws_detach_events keeps_ws_detach keeps_ws_is_attached
  keeps_ws_invalidate : keeps.


(** ** What [attach] does to its own wait set *)

Lemma bind_inv {A B} (m : M A) (f : A → M B) w y w' :
  bind m f w = (y, w') → ∃ x w1, m w = (x, w1) ∧ f x w1 = (y, w').
Proof. unfold bind. destruct (m w) as [x w1]. eauto. Qed.

Lemma check_inv (c k : M rmw_ret_t) w rc w' :
  check c k w = (rc, w') →
  (∃ w1, c w = (RMW_RET_OK, w1) ∧ k w1 = (rc, w')) ∨
  (rc ≠ RMW_RET_OK ∧ c w = (rc, w')).
Proof.
  unfold check. intros (rc1 & w1 & Hc & Hk)%bind_inv.
  destruct (decide (rc1 = RMW_RET_OK)) as [->|Hne]; [left; eauto|].
  right. unfold ret in Hk. by simplify_eq.
Qed.

Lemma check_inv_ok (c k : M rmw_ret_t) w w' :
  check c k w = (RMW_RET_OK, w') →
  ∃ w1, c w = (RMW_RET_OK, w1) ∧ k w1 = (RMW_RET_OK, w').
Proof. intros Hc. apply check_inv in Hc as [?|[? _]]; done. Qed.

Lemma with_subscribers_id ws : with_subscribers (attached_subscribers ws) ws = ws.
Proof. by destruct ws. Qed.
Lemma with_conditions_id ws : with_conditions (attached_conditions ws) ws = ws.
Proof. by destruct ws. Qed.
Lemma with_clients_id ws : with_clients (attached_clients ws) ws = ws.
Proof. by destruct ws. Qed.
Lemma with_services_id ws : with_services (attached_services ws) ws = ws.
Proof. by destruct ws. Qed.
Lemma with_events_id ws : with_events (attached_events ws) ws = ws.
Proof. by destruct ws. Qed.
Lemma with_events_cache_id ws :
  with_events_cache (attached_events_cache ws) ws = ws.
Proof. by destruct ws. Qed.

Section own_waitset.
Context (E : Engine) (H : Heap) (this : ptr) (Hyield : yield_keeps E this).

Lemma keeps_ws_displace c :
  keeps (same_waitset this) (WaitSet.displace E H this c).
Proof using Hyield.
  unfold WaitSet.displace. apply keeps_bind; [apply keeps_get|]. intros w0.
  destruct (attached_waitset (cond_at w0 c)) as [otherws|]; [|apply keeps_ret].
  destruct (decide (this ≠ otherws)); repeat keeps_step.
Qed.

Hint Resolve keeps_ws_displace : keeps.

Lemma keeps_ws_attach_reader c :
  keeps (same_waitset this) (WaitSet.attach_reader E H this c).
Proof using Hyield. unfold WaitSet.attach_reader. repeat keeps_step. Qed.

Hint Resolve keeps_ws_attach_reader : keeps.

Lemma update_lists_ws f w :
  ws_at (snd (update_lists this f w)) this = f (ws_at w this).
Proof. apply ws_at_set_ws. Qed.

Lemma attach_subscribers_ok l w w' :
  WaitSet.attach_subscribers E H this l w = (RMW_RET_OK, w') →
  ws_at w' this
  = with_subscribers (attached_subscribers (ws_at w this) ++ l) (ws_at w this).
Proof using Hyield.
  revert w. induction l as [|x l IH]; intros w; cbn [WaitSet.attach_subscribers].
  - intros [= <-]. by rewrite app_nil_r, with_subscribers_id.
  - intros (w1 & Hbody & Hrest)%check_inv_ok.
    apply keeps_ws_attach_reader in Hbody. red in Hbody.
    change (WaitSet.attach_subscribers E H this l
              (set_ws this
                 (with_subscribers (attached_subscribers (ws_at w1 this) ++ [x])
                    (ws_at w1 this)) w1) = (RMW_RET_OK, w')) in Hrest.
    apply IH in Hrest. rewrite Hrest, ws_at_set_ws, Hbody.
    cbn. by rewrite <- app_assoc.
Qed.

Lemma attach_clients_ok l w w' :
  WaitSet.attach_clients E H this l w = (RMW_RET_OK, w') →
  ws_at w' this
  = with_clients (attached_clients (ws_at w this) ++ l) (ws_at w this).
Proof using Hyield.
  revert w. induction l as [|x l IH]; intros w; cbn [WaitSet.attach_clients].
  - intros [= <-]. by rewrite app_nil_r, with_clients_id.
  - intros (w1 & Hbody & Hrest)%check_inv_ok.
    apply keeps_ws_attach_reader in Hbody. red in Hbody.
    change (WaitSet.attach_clients E H this l
              (set_ws this
                 (with_clients (attached_clients (ws_at w1 this) ++ [x])
                    (ws_at w1 this)) w1) = (RMW_RET_OK, w')) in Hrest.
    apply IH in Hrest. rewrite Hrest, ws_at_set_ws, Hbody.
    cbn. by rewrite <- app_assoc.
Qed.

Lemma attach_services_ok l w w' :
  WaitSet.attach_services E H this l w = (RMW_RET_OK, w') →
  ws_at w' this
  = with_services (attached_services (ws_at w this) ++ l) (ws_at w this).
Proof using Hyield.
  revert w. induction l as [|x l IH]; intros w; cbn [WaitSet.attach_services].
  - intros [= <-]. by rewrite app_nil_r, with_services_id.
  - intros (w1 & Hbody & Hrest)%check_inv_ok.
    apply keeps_ws_attach_reader in Hbody. red in Hbody.
    change (WaitSet.attach_services E H this l
              (set_ws this
                 (with_services (attached_services (ws_at w1 this) ++ [x])
                    (ws_at w1 this)) w1) = (RMW_RET_OK, w')) in Hrest.
    apply IH in Hrest. rewrite Hrest, ws_at_set_ws, Hbody.
    cbn. by rewrite <- app_assoc.
Qed.

Lemma get_inv w x w' : get w = (x, w') → x = w ∧ w' = w.
Proof. by intros [= <- <-]. Qed.

Lemma attach_guard_conditions_ok l w w' :
  WaitSet.attach_guard_conditions E H this l w = (RMW_RET_OK, w') →
  ws_at w' this
  = with_conditions (attached_conditions (ws_at w this) ++ l) (ws_at w this).
Proof using Hyield.
  revert w. induction l as [|x l IH]; intros w;
    cbn [WaitSet.attach_guard_conditions].
  - intros [= <-]. by rewrite app_nil_r, with_conditions_id.
  - intros (detached & w1 & Hd & Hrest)%bind_inv.
    apply keeps_ws_displace in Hd. red in Hd.
    cbn [bind get] in Hrest.
    destruct (deleted (cond_at w1 x)); [done|].
    apply bind_inv in Hrest as (u & w2 & Hclear & Hrest).
    assert (same_waitset this w1 w2) as H12.
    { destruct detached; [by eapply keeps_ws_set_attached_waitset|].
      by injection Hclear as _ <-. }
    red in H12.
    apply check_inv_ok in Hrest as (w3 & Hatt & Hrest).
    apply (keeps_ws_Condition_attach E this) in Hatt. red in Hatt.
    change (WaitSet.attach_guard_conditions E H this l
              (set_ws this
                 (with_conditions (attached_conditions (ws_at w3 this) ++ [x])
                    (ws_at w3 this)) w3) = (RMW_RET_OK, w')) in Hrest.
    apply IH in Hrest. rewrite Hrest, ws_at_set_ws, Hatt, H12, Hd.
    cbn. by rewrite <- app_assoc.
Qed.

Lemma keeps_ws_reset_events l :
  keeps (same_waitset this) (WaitSet.reset_events E H this l).
Proof using Hyield.
  induction l as [|x l IH]; cbn [WaitSet.reset_events]; repeat keeps_step.
Qed.

(** The loop that attaches the events also fills the cache. *)
Lemma attach_events_ok l w w' :
  WaitSet.attach_events E H this l w = (RMW_RET_OK, w') →
  ∃ m, ws_at w' this
       = with_events_cache m
           (with_events (attached_events (ws_at w this) ++ l) (ws_at w this)).
Proof using Hyield.
  revert w. induction l as [|x l IH]; intros w; cbn [WaitSet.attach_events].
  - intros [= <-]. exists (attached_events_cache (ws_at w this)).
    by rewrite app_nil_r, with_events_id, with_events_cache_id.
  - cbn [bind get].
    destruct (deleted (cond_at w _)); [done|].
    intros (w1 & Hen & Hrest)%check_inv_ok.
    apply (keeps_ws_Condition_enable_statuses E this) in Hen. red in Hen.
    apply check_inv_ok in Hrest as (w2 & Hatt & Hrest).
    apply (keeps_ws_Condition_attach E this) in Hatt. red in Hatt.
    cbn [bind get update_lists modify] in Hrest.
    apply IH in Hrest as [m Hrest]. rewrite Hrest.
    rewrite !ws_at_set_ws, Hatt, Hen.
    eexists. cbn. by rewrite <- app_assoc.
Qed.

Lemma update_lists_inv f w u w' :
  update_lists this f w = (u, w') → ws_at w' this = f (ws_at w this).
Proof. intros [= _ <-]. apply ws_at_set_ws. Qed.

Lemma cache_index_inv e w x w' :
  WaitSet.cache_index this e w = (x, w') →
  x = default inhabitant (attached_events_cache (ws_at w this) !! e) ∧
  same_but_cache this w w' ∧ same_conds w w'.
Proof.
  unfold WaitSet.cache_index.
  destruct (attached_events_cache (ws_at w this) !! e) as [v|].
  - intros [= <- <-]. split; [done|]. split; [|done].
    eexists. by rewrite with_events_cache_id.
  - intros [= <- <-]. split; [done|]. split; [|done].
    eexists. by rewrite ws_at_set_ws.
Qed.

Lemma detach_events_but_cache es failed w x w' :
  WaitSet.detach_events E H this es failed w = (x, w') →
  same_but_cache this w w'.
Proof.
  revert failed w. induction es as [|e es IH]; intros failed w;
    cbn [WaitSet.detach_events].
  - intros [= _ <-]. reflexivity.
  - intros (v & w1 & (_ & H1 & _)%cache_index_inv & Hrest)%bind_inv.
    apply bind_inv in Hrest as (rc & w2 & H2 & Hrest).
    apply (keeps_ws_Condition_detach E this) in H2.
    apply IH in Hrest.
    transitivity w1; [done|]. transitivity w2; [|done].
    exists (attached_events_cache (ws_at w1 this)).
    red in H2. by rewrite H2, with_events_cache_id.
Qed.

(** [detach] clears the five lists and the cache and nothing else of
    its wait set. *)
Lemma detach_clears w rc w' :
  WaitSet.detach E H this w = (rc, w') → ws_at w' this = cleared (ws_at w this).
Proof.
  unfold WaitSet.detach.
  intros (? & ? & [-> ->]%get_inv & Hd)%bind_inv.
  apply bind_inv in Hd as (f1 & w1 & H1 & Hd).
  apply (keeps_ws_detach_each E this) in H1. red in H1.
  apply bind_inv in Hd as (? & w2 & H2%update_lists_inv & Hd).
  apply bind_inv in Hd as (? & ? & [-> ->]%get_inv & Hd).
  apply bind_inv in Hd as (f2 & w3 & H3 & Hd).
  apply (keeps_ws_detach_each E this) in H3. red in H3.
  apply bind_inv in Hd as (? & w4 & H4%update_lists_inv & Hd).
  apply bind_inv in Hd as (? & ? & [-> ->]%get_inv & Hd).
  apply bind_inv in Hd as (f3 & w5 & H5 & Hd).
  apply (keeps_ws_detach_each E this) in H5. red in H5.
  apply bind_inv in Hd as (? & w6 & H6%update_lists_inv & Hd).
  apply bind_inv in Hd as (? & ? & [-> ->]%get_inv & Hd).
  apply bind_inv in Hd as (f4 & w7 & H7 & Hd).
  apply (keeps_ws_detach_each E this) in H7. red in H7.
  apply bind_inv in Hd as (? & w8 & H8%update_lists_inv & Hd).
  apply bind_inv in Hd as (? & ? & [-> ->]%get_inv & Hd).
  apply bind_inv in Hd as (f5 & w9 & [m H9]%detach_events_but_cache & Hd).
  apply bind_inv in Hd as (? & w10 & H10%update_lists_inv & Hd).
  apply bind_inv in Hd as (? & w11 & H11%update_lists_inv & Hd).
  injection Hd as _ <-.
  rewrite H11, H10, H9, H8, H7, H6, H5, H4, H3, H2, H1.
  by destruct (ws_at w this).
Qed.

End own_waitset.

(** ** [require_attach] and the early return of [attach] *)

Lemma memcmp_eq_true n a b :
  length a = n → length b = n → WaitSet.memcmp_eq n a b = true ↔ a = b.
Proof.
  revert a b. induction n as [|n IH]; intros [|x a] [|y b] Ha Hb;
    simplify_eq/=; try done.
  rewrite andb_true_iff, bool_decide_eq_true, IH by done.
  split; [by intros [-> ->]|by intros [= -> ->]].
Qed.

Lemma identical_eq attached_els new_els :
  identical attached_els new_els ↔ attached_els = requested new_els.
Proof.
  split.
  - intros [Hlen Hi]. apply list_eq. intros i.
    destruct (decide (i < length attached_els)) as [Hlt|Hge]; [by apply Hi|].
    rewrite !lookup_ge_None_2; [done|lia..].
  - by intros ->.
Qed.

Lemma require_attach_false attached_els new_els :
  WaitSet.require_attach attached_els (WaitSet.count_of new_els) new_els = false
  ↔ identical attached_els new_els.
Proof.
  rewrite identical_eq. unfold WaitSet.require_attach.
  destruct new_els as [els|]; simpl.
  - destruct (decide (length els = 0)) as [Hz|Hnz].
    + apply nil_length_inv in Hz as ->.
      rewrite bool_decide_eq_false. split.
      * intros Hl. apply nil_length_inv. lia.
      * intros ->. simpl. lia.
    + destruct (decide (length els ≠ length attached_els)) as [Hne|Heq].
      * split; [done|]. intros ->. done.
      * assert (length attached_els = length els) as Hlen by lia.
        rewrite negb_false_iff. by apply memcmp_eq_true.
  - rewrite bool_decide_eq_false. split.
    + intros Hl. apply nil_length_inv. lia.
    + intros ->. simpl. lia.
Qed.

Lemma refresh_attach_false ws a :
  WaitSet.refresh_attach ws a = false ↔ unchanged_sources ws a.
Proof.
  unfold WaitSet.refresh_attach, unchanged_sources.
  rewrite !orb_false_iff, !require_attach_false. tauto.
Qed.

Lemma unchanged_sources_eq ws a :
  unchanged_sources ws a ↔ attached_as_requested ws a.
Proof. unfold unchanged_sources, attached_as_requested. by rewrite !identical_eq. Qed.

Section attach.
Context (E : Engine) (H : Heap) (this : ptr) (Hyield : yield_keeps E this).

Lemma for_each_inv loop xs w rc w' :
  WaitSet.for_each loop xs w = (rc, w') →
  (xs = None ∧ rc = RMW_RET_OK ∧ w' = w ∨
   loop (requested xs) w = (rc, w')).
Proof.
  destruct xs as [l|]; simpl; [by right|]. intros [= <- <-]. by left.
Qed.

(** After a successful run of the part of [attach] that follows the
    early return, the five lists are the requested ones. *)
Lemma reattach_ok a w w' :
  WaitSet.reattach E H this a w = (RMW_RET_OK, w') →
  attached_as_requested (ws_at w' this) a.
Proof using Hyield.
  unfold WaitSet.reattach.
  intros (w1 & H1%detach_clears & Hr)%check_inv_ok.
  apply check_inv_ok in Hr as (w2 & H2 & Hr).
  assert (ws_at w2 this = ws_at w1 this) as E2.
  { apply for_each_inv in H2 as [(_ & _ & ->)|H2]; [done|].
    by apply (keeps_ws_reset_events E H this Hyield) in H2. }
  apply check_inv_ok in Hr as (w3 & H3 & Hr).
  assert (ws_at w3 this
          = with_subscribers (attached_subscribers (ws_at w2 this)
                                ++ requested (subs a)) (ws_at w2 this)) as E3.
  { apply for_each_inv in H3 as [(-> & _ & ->)|H3].
    - by rewrite app_nil_r, with_subscribers_id.
    - by apply attach_subscribers_ok in H3. }
  apply check_inv_ok in Hr as (w4 & H4 & Hr).
  assert (ws_at w4 this
          = with_clients (attached_clients (ws_at w3 this)
                            ++ requested (cls a)) (ws_at w3 this)) as E4.
  { apply for_each_inv in H4 as [(-> & _ & ->)|H4].
    - by rewrite app_nil_r, with_clients_id.
    - by apply attach_clients_ok in H4. }
  apply check_inv_ok in Hr as (w5 & H5 & Hr).
  assert (ws_at w5 this
          = with_services (attached_services (ws_at w4 this)
                             ++ requested (srvs a)) (ws_at w4 this)) as E5.
  { apply for_each_inv in H5 as [(-> & _ & ->)|H5].
    - by rewrite app_nil_r, with_services_id.
    - by apply attach_services_ok in H5. }
  apply check_inv_ok in Hr as (w6 & H6 & Hr).
  assert (∃ m, ws_at w6 this
          = with_events_cache m
              (with_events (attached_events (ws_at w5 this)
                              ++ requested (evs a)) (ws_at w5 this)))
    as [m E6].
  { apply for_each_inv in H6 as [(-> & _ & ->)|H6].
    - exists (attached_events_cache (ws_at w5 this)).
      by rewrite app_nil_r, with_events_id, with_events_cache_id.
    - by apply attach_events_ok in H6. }
  apply check_inv_ok in Hr as (w7 & H7 & Hr).
  assert (ws_at w7 this
          = with_conditions (attached_conditions (ws_at w6 this)
                               ++ requested (gcs a)) (ws_at w6 this)) as E7.
  { apply for_each_inv in H7 as [(-> & _ & ->)|H7].
    - by rewrite app_nil_r, with_conditions_id.
    - by apply attach_guard_conditions_ok in H7. }
  injection Hr as <-.
  rewrite E7, E6, E5, E4, E3, E2, H1. by destruct (ws_at w this).
Qed.

Lemma attach_ok a w w' :
  WaitSet.attach E H this a w = (RMW_RET_OK, w') →
  attached_as_requested (ws_at w' this) a.
Proof using Hyield.
  unfold WaitSet.attach. cbn [bind get].
  destruct (WaitSet.refresh_attach (ws_at w this) a) eqn:Hrefresh; simpl.
  - apply reattach_ok.
  - intros [= <-]. by apply unchanged_sources_eq, refresh_attach_false.
Qed.

End attach.

(** ** The loops of [process_wait] *)

Lemma nulled_in_place_refl arr : nulled_in_place arr arr.
Proof.
  destruct arr as [l|]; simpl; [|done].
  apply Forall2_same_length_lookup. split; [done|].
  intros i x y Hx Hy. left. congruence.
Qed.

Lemma nulled_in_place_trans a b c :
  nulled_in_place a b → nulled_in_place b c → nulled_in_place a c.
Proof.
  destruct a as [la|], b as [lb|], c as [lc|]; simpl; try done.
  intros Hab Hbc. revert lc Hbc.
  induction Hab as [|x y la lb Hxy Hab IH]; intros lc Hbc.
  - by apply Forall2_nil_inv_l in Hbc as ->.
  - apply Forall2_cons_inv_l in Hbc as (z & lc' & Hyz & Hbc & ->).
    constructor; [|by apply IH].
    destruct Hyz as [-> | ->]; [done|by right].
Qed.

Lemma nulled_in_place_null_out i arr : nulled_in_place arr (null_out i arr).
Proof.
  destruct arr as [l|]; simpl; [|done].
  apply Forall2_same_length_lookup. split; [by rewrite length_insert|].
  intros j x y Hx Hy. destruct (decide (i = j)) as [->|Hne].
  - rewrite list_lookup_insert_eq in Hy by (by eapply lookup_lt_Some).
    right. congruence.
  - rewrite list_lookup_insert_ne in Hy by done. left. congruence.
Qed.

Lemma nulled_in_place_if (b : bool) i arr :
  nulled_in_place arr (if b then null_out i arr else arr).
Proof.
  destruct b; [apply nulled_in_place_null_out|apply nulled_in_place_refl].
Qed.

(** Nulling slot [i] of an array whose first [i] slots are null. *)
Lemma null_out_next i (x : option ptr) rest :
  null_out i (Some (replicate i None ++ x :: rest))
  = Some (replicate (i + 1) None ++ rest).
Proof.
  simpl. f_equal.
  rewrite insert_app_r_alt by (rewrite length_replicate; lia).
  rewrite length_replicate, Nat.sub_diag. simpl.
  rewrite Nat.add_1_r, replicate_S_end, <- app_assoc. done.
Qed.

Section demux.
Context (E : Engine) (H : Heap) (this : ptr).

Lemma process_subscribers_in_place w l i arr active valid :
  nulled_in_place arr
    (WaitSet.process_subscribers E H w l i arr active valid).1.1.
Proof.
  revert i arr active valid. induction l as [|x l IH]; intros i arr active valid;
    cbn [WaitSet.process_subscribers]; [apply nulled_in_place_refl|].
  eapply nulled_in_place_trans; [|apply IH]. apply nulled_in_place_if.
Qed.

Lemma process_clients_in_place w l i arr active valid :
  nulled_in_place arr
    (WaitSet.process_clients E H w l i arr active valid).1.1.
Proof.
  revert i arr active valid. induction l as [|x l IH]; intros i arr active valid;
    cbn [WaitSet.process_clients]; [apply nulled_in_place_refl|].
  eapply nulled_in_place_trans; [|apply IH]. apply nulled_in_place_if.
Qed.

Lemma process_services_in_place l i arr active :
  nulled_in_place arr (WaitSet.process_services E H l i arr active).1.
Proof.
  revert i arr active. induction l as [|x l IH]; intros i arr active;
    cbn [WaitSet.process_services]; [apply nulled_in_place_refl|].
  eapply nulled_in_place_trans; [|apply IH]. apply nulled_in_place_if.
Qed.

Lemma process_guard_conditions_in_place l i arr active failed valid w :
  nulled_in_place arr
    (WaitSet.process_guard_conditions E H this l i arr active failed valid w)
      .1.1.1.1.
Proof.
  revert i arr active failed valid w.
  induction l as [|x l IH]; intros i arr active failed valid w;
    cbn [WaitSet.process_guard_conditions]; [apply nulled_in_place_refl|].
  cbn [bind get].
  destruct (negb (WaitSet.active_condition H (ws_at w this) x)).
  - eapply nulled_in_place_trans; [|apply IH]. apply nulled_in_place_null_out.
  - unfold bind at 1.
    destruct (Condition.reset_trigger E x w) as [rc w1]. apply IH.
Qed.

Lemma process_events_in_place l i arr active valid w :
  nulled_in_place arr
    (WaitSet.process_events E H this l i arr active valid w).1.1.1.
Proof.
  revert i arr active valid w.
  induction l as [|x l IH]; intros i arr active valid w;
    cbn [WaitSet.process_events]; [apply nulled_in_place_refl|].
  unfold bind at 1. destruct (WaitSet.cache_index this x w) as [e_cached w1].
  cbn [bind get].
  eapply nulled_in_place_trans; [|apply IH]. apply nulled_in_place_if.
Qed.

(** Whatever the readiness of the sources, [process_wait] only writes
    nulls, each in the slot of the source it stands for. *)
Lemma process_wait_loops_in_place arrays n w :
  arrays_nulled_in_place arrays
    (dm_arrays (WaitSet.process_wait_loops E H this arrays n w).1).
Proof.
  unfold WaitSet.process_wait_loops. cbn [bind get].
  pose proof (process_subscribers_in_place w
    (attached_subscribers (ws_at w this)) 0 (subscribers arrays) n true) as Hs.
  destruct (WaitSet.process_subscribers _ _ _ _ _ _ _ _) as [[a_subs act1] v1].
  pose proof (process_guard_conditions_in_place
    (attached_conditions (ws_at w this)) 0 (guard_conditions arrays)
    act1 false v1 w) as Hg.
  unfold bind at 1.
  destruct (WaitSet.process_guard_conditions _ _ _ _ _ _ _ _ _ _)
    as [[[[a_gcs act2] f2] v2] w2].
  cbn [bind get].
  pose proof (process_clients_in_place w2
    (attached_clients (ws_at w2 this)) 0 (clients arrays) act2 v2) as Hc.
  destruct (WaitSet.process_clients _ _ _ _ _ _ _ _) as [[a_cls act3] v3].
  pose proof (process_services_in_place
    (attached_services (ws_at w2 this)) 0 (services arrays) act3) as Hsv.
  destruct (WaitSet.process_services _ _ _ _ _ _) as [a_srvs act4].
  pose proof (process_events_in_place
    (attached_events (ws_at w2 this)) 0 (events arrays) act4 v3 w2) as He.
  unfold bind at 1.
  destruct (WaitSet.process_events _ _ _ _ _ _ _ _ _)
    as [[[a_evs act5] v5] w5].
  simpl in *. by repeat split.
Qed.

(** When no source is ready and no condition is deleted, every loop
    nulls its whole array and leaves the counters as they were. *)

Lemma process_subscribers_none_ready w l i xs active valid :
  length xs = length l →
  (∀ sub, sub ∈ l → has_data E sub = false) →
  (∀ sub, sub ∈ l → deleted (cond_at w (subscriber_condition H sub)) = false) →
  WaitSet.process_subscribers E H w l i (Some (replicate i None ++ xs))
    active valid
  = (Some (replicate (i + length l) None), active, valid).
Proof.
  revert i xs. induction l as [|x l IH]; intros i [|y xs] Hlen Hdata Hdel;
    simplify_eq/=.
  - by rewrite app_nil_r, Nat.add_0_r.
  - rewrite Hdata, Hdel by (by left). cbn [negb].
    rewrite andb_true_r.
    pose proof (null_out_next i y xs) as Hn. simpl in Hn. rewrite Hn.
    rewrite IH; [|done|intros; apply Hdata; by right
                |intros; apply Hdel; by right].
    by replace (i + 1 + length l) with (i + S (length l)) by lia.
Qed.

Lemma process_clients_none_ready w l i xs active valid :
  length xs = length l →
  (∀ c, c ∈ l → has_data E (client_subscriber H c) = false) →
  (∀ c, c ∈ l →
     deleted (cond_at w (subscriber_condition H (client_subscriber H c)))
       = false) →
  WaitSet.process_clients E H w l i (Some (replicate i None ++ xs))
    active valid
  = (Some (replicate (i + length l) None), active, valid).
Proof.
  revert i xs. induction l as [|x l IH]; intros i [|y xs] Hlen Hdata Hdel;
    simplify_eq/=.
  - by rewrite app_nil_r, Nat.add_0_r.
  - rewrite Hdata, Hdel by (by left). cbn [negb].
    rewrite andb_true_r.
    pose proof (null_out_next i y xs) as Hn. simpl in Hn. rewrite Hn.
    rewrite IH; [|done|intros; apply Hdata; by right
                |intros; apply Hdel; by right].
    by replace (i + 1 + length l) with (i + S (length l)) by lia.
Qed.

Lemma process_services_none_ready l i xs active :
  length xs = length l →
  (∀ s, s ∈ l → has_data E (service_subscriber H s) = false) →
  WaitSet.process_services E H l i (Some (replicate i None ++ xs)) active
  = (Some (replicate (i + length l) None), active).
Proof.
  revert i xs. induction l as [|x l IH]; intros i [|y xs] Hlen Hdata;
    simplify_eq/=.
  - by rewrite app_nil_r, Nat.add_0_r.
  - rewrite Hdata by (by left). cbn [negb].
    pose proof (null_out_next i y xs) as Hn. simpl in Hn. rewrite Hn.
    rewrite IH; [|done|intros; apply Hdata; by right].
    by replace (i + 1 + length l) with (i + S (length l)) by lia.
Qed.

Lemma process_guard_conditions_none_ready l i xs active failed valid w :
  length xs = length l →
  (∀ gc, gc ∈ l → WaitSet.active_condition H (ws_at w this) gc = false) →
  (∀ gc, gc ∈ l → deleted (cond_at w gc) = false) →
  WaitSet.process_guard_conditions E H this l i
    (Some (replicate i None ++ xs)) active failed valid w
  = (Some (replicate (i + length l) None), active, failed, valid, w).
Proof.
  revert i xs. induction l as [|x l IH]; intros i [|y xs] Hlen Hact Hdel;
    simplify_eq/=.
  - by rewrite app_nil_r, Nat.add_0_r.
  - cbn [bind get]. rewrite Hact, Hdel by (by left). cbn [negb].
    rewrite andb_true_r.
    pose proof (null_out_next i y xs) as Hn. simpl in Hn. rewrite Hn.
    rewrite IH; [|done|intros; apply Hact; by right
                |intros; apply Hdel; by right].
    by replace (i + 1 + length l) with (i + S (length l)) by lia.
Qed.

Lemma cache_index_lookups e w x w' :
  WaitSet.cache_index this e w = (x, w') →
  x = default inhabitant (attached_events_cache (ws_at w this) !! e) ∧
  conds w' = conds w ∧
  ∀ e', default inhabitant (attached_events_cache (ws_at w' this) !! e')
        = default inhabitant (attached_events_cache (ws_at w this) !! e').
Proof.
  unfold WaitSet.cache_index.
  destruct (attached_events_cache (ws_at w this) !! e) as [v|] eqn:Hv.
  - by intros [= <- <-].
  - intros [= <- <-]. split; [done|]. split; [done|].
    intros e'. rewrite ws_at_set_ws. simpl.
    destruct (decide (e = e')) as [->|Hne].
    + by rewrite lookup_insert_eq, Hv.
    + by rewrite lookup_insert_ne.
Qed.

Lemma process_events_none_ready l i xs active valid w :
  length xs = length l →
  (∀ e, e ∈ l →
     Event_active E
       (default inhabitant (attached_events_cache (ws_at w this) !! e))
     = false) →
  (∀ e, e ∈ l →
     deleted
       (cond_at w
          (Event_condition H
             (default inhabitant (attached_events_cache (ws_at w this) !! e))))
     = false) →
  fst (WaitSet.process_events E H this l i (Some (replicate i None ++ xs))
         active valid w)
  = (Some (replicate (i + length l) None), active, valid).
Proof.
  revert i xs w. induction l as [|x l IH]; intros i [|y xs] w Hlen Hact Hdel;
    simplify_eq/=.
  - by rewrite app_nil_r, Nat.add_0_r.
  - unfold bind at 1.
    destruct (WaitSet.cache_index this x w) as [e_cached w1] eqn:Hidx.
    apply cache_index_lookups in Hidx as (-> & Hconds & Hlook).
    cbn [bind get].
    assert (∀ c, cond_at w1 c = cond_at w c) as Hc.
    { intros c. unfold cond_at. by rewrite Hconds. }
    rewrite Hact, Hc, Hdel by (by left). cbn [negb].
    rewrite andb_true_r.
    pose proof (null_out_next i y xs) as Hn. simpl in Hn. rewrite Hn.
    rewrite IH;
      [by replace (i + 1 + length l) with (i + S (length l)) by lia|done| |].
    + intros e He. rewrite Hlook. apply Hact. by right.
    + intros e He. rewrite Hlook, Hc. apply Hdel. by right.
Qed.

Lemma filled_replicate xs :
  filled xs
  = match xs with
    | Some l => Some (replicate 0 None ++ map Some l)
    | None => None
    end.
Proof. by destruct xs. Qed.

Lemma process_wait_loops_none_ready a w :
  attached_as_requested (ws_at w this) a →
  none_ready E H (ws_at w this) →
  none_deleted H w (ws_at w this) →
  fst (WaitSet.process_wait_loops E H this (arrays_of a) 0 w)
  = {| dm_arrays := arrays_all_null a; dm_active := 0;
       dm_failed := false; dm_valid := true |}.
Proof.
  intros (Hsubs & Hgcs & Hsrvs & Hcls & Hevs)
         (Rsubs & Rgcs & Rcls & Rsrvs & Revs) Hdel.
  unfold none_deleted, attached_conds in Hdel.
  unfold WaitSet.process_wait_loops. cbn [bind get].
  assert (WaitSet.process_subscribers E H w
            (attached_subscribers (ws_at w this)) 0
            (subscribers (arrays_of a)) 0 true
          = (all_null (subs a), 0, true)) as ->.
  { rewrite Hsubs in *. simpl. destruct (subs a) as [l|]; simpl; [|done].
    rewrite (process_subscribers_none_ready w l 0 (map Some l));
      [done|by rewrite length_map|done|].
    intros sub Hsub. apply Hdel. apply elem_of_app. left.
    apply list_elem_of_fmap. eauto. }
  assert (WaitSet.process_guard_conditions E H this
            (attached_conditions (ws_at w this)) 0
            (guard_conditions (arrays_of a)) 0 false true w
          = (all_null (gcs a), 0, false, true, w)) as Hg.
  { rewrite Hgcs in *. simpl. destruct (gcs a) as [l|]; simpl; [|done].
    rewrite (process_guard_conditions_none_ready l 0 (map Some l));
      [done|by rewrite length_map|done|].
    intros gc Hgc. apply Hdel. apply elem_of_app. right.
    apply elem_of_app. by left. }
  unfold bind at 1. rewrite Hg. cbn [bind get].
  assert (WaitSet.process_clients E H w
            (attached_clients (ws_at w this)) 0
            (clients (arrays_of a)) 0 true
          = (all_null (cls a), 0, true)) as ->.
  { rewrite Hcls in *. simpl. destruct (cls a) as [l|]; simpl; [|done].
    rewrite (process_clients_none_ready w l 0 (map Some l));
      [done|by rewrite length_map|done|].
    intros c Hc. apply Hdel. apply elem_of_app. right.
    apply elem_of_app. right. apply elem_of_app. left.
    apply list_elem_of_fmap. eauto. }
  assert (WaitSet.process_services E H
            (attached_services (ws_at w this)) 0
            (services (arrays_of a)) 0
          = (all_null (srvs a), 0)) as ->.
  { rewrite Hsrvs in *. simpl. destruct (srvs a) as [l|]; simpl; [|done].
    by rewrite (process_services_none_ready l 0 (map Some l));
      [|by rewrite length_map|]. }
  unfold bind at 1.
  destruct (WaitSet.process_events _ _ _ _ _ _ _ _ _)
    as [[[a_evs act5] v5] w5] eqn:Hpe.
  assert ((a_evs, act5, v5) = (all_null (evs a), 0, true)) as [= -> -> ->].
  { rewrite Hevs in *. simpl in Hpe. destruct (evs a) as [l|]; simpl in *.
    - assert (length (map Some l) = length l) as Hlen by apply length_map.
      pose proof (process_events_none_ready l 0 (map Some l) 0 true w
                    Hlen Revs) as He.
      simpl in He. rewrite Hpe in He. apply He.
      intros e Hin. apply Hdel. do 4 (apply elem_of_app; right).
      apply list_elem_of_fmap. eauto.
    - unfold ret in Hpe. by simplify_eq. }
  done.
Qed.

End demux.

(** ** The calls made by [detach] *)

Section detach_calls.
Context (E : Engine) (H : Heap) (this : ptr).

Lemma Condition_detach_calls c w rc w' :
  Condition.detach E c w = (rc, w') →
  calls w' = CallDetach c :: calls w ∧ waitsets w' = waitsets w.
Proof.
  unfold Condition.detach, bind, log_call, modify, set_attached_waitset, ret.
  simpl. destruct (decide (dds_detach E c = RMW_RET_OK)); by intros [= _ <-].
Qed.

Lemma detach_each_calls cs failed w x w' :
  WaitSet.detach_each E cs failed w = (x, w') →
  calls w' = rev (CallDetach <$> cs) ++ calls w ∧ waitsets w' = waitsets w.
Proof.
  revert failed w. induction cs as [|c cs IH]; intros failed w;
    cbn [WaitSet.detach_each].
  - by intros [= _ <-].
  - intros (rc & w1 & [Hc Hw]%Condition_detach_calls & Hrest)%bind_inv.
    apply IH in Hrest as [Hc' Hw']. split; [|congruence].
    rewrite Hc', Hc. cbn [fmap list_fmap rev]. by rewrite <- app_assoc.
Qed.

Lemma cache_index_calls e w x w' :
  WaitSet.cache_index this e w = (x, w') → calls w' = calls w.
Proof.
  unfold WaitSet.cache_index.
  destruct (attached_events_cache (ws_at w this) !! e); by intros [= _ <-].
Qed.

Lemma detach_events_calls es failed w x w' :
  WaitSet.detach_events E H this es failed w = (x, w') →
  calls w'
  = rev (CallDetach <$>
           ((λ e, Event_condition H
                    (default inhabitant
                       (attached_events_cache (ws_at w this) !! e))) <$> es))
    ++ calls w.
Proof.
  revert failed w. induction es as [|e es IH]; intros failed w;
    cbn [WaitSet.detach_events].
  - by intros [= _ <-].
  - intros (v & w1 & Hidx & Hrest)%bind_inv.
    pose proof (cache_index_calls _ _ _ _ Hidx) as Hc1.
    apply cache_index_lookups in Hidx as (-> & _ & Hlook).
    apply bind_inv in Hrest as (rc & w2 & [Hc2 Hw2]%Condition_detach_calls
                                & Hrest).
    apply IH in Hrest. rewrite Hrest, Hc2, Hc1.
    cbn [fmap list_fmap rev]. rewrite <- app_assoc. cbn [app].
    do 3 f_equal. apply list_fmap_ext. intros _ e' _.
    unfold ws_at. rewrite Hw2. f_equal. apply Hlook.
Qed.

Lemma update_lists_calls f w u w' :
  update_lists this f w = (u, w') → calls w' = calls w.
Proof. by intros [= _ <-]. Qed.

(** [detach] calls [Condition::detach] once for every attached source,
    list by list, and makes no other call. *)
Lemma detach_calls w rc w' :
  WaitSet.detach E H this w = (rc, w') →
  calls w' = rev (CallDetach <$> attached_conds H (ws_at w this)) ++ calls w.
Proof.
  unfold WaitSet.detach.
  intros (? & ? & [-> ->]%get_inv & Hd)%bind_inv.
  apply bind_inv in Hd as (f1 & w1 & [C1 W1]%detach_each_calls & Hd).
  apply bind_inv in Hd as (? & w2 & H2 & Hd).
  pose proof (update_lists_calls _ _ _ _ H2) as C2.
  apply update_lists_inv in H2.
  apply bind_inv in Hd as (? & ? & [-> ->]%get_inv & Hd).
  apply bind_inv in Hd as (f2 & w3 & [C3 W3]%detach_each_calls & Hd).
  apply bind_inv in Hd as (? & w4 & H4 & Hd).
  pose proof (update_lists_calls _ _ _ _ H4) as C4.
  apply update_lists_inv in H4.
  apply bind_inv in Hd as (? & ? & [-> ->]%get_inv & Hd).
  apply bind_inv in Hd as (f3 & w5 & [C5 W5]%detach_each_calls & Hd).
  apply bind_inv in Hd as (? & w6 & H6 & Hd).
  pose proof (update_lists_calls _ _ _ _ H6) as C6.
  apply update_lists_inv in H6.
  apply bind_inv in Hd as (? & ? & [-> ->]%get_inv & Hd).
  apply bind_inv in Hd as (f4 & w7 & [C7 W7]%detach_each_calls & Hd).
  apply bind_inv in Hd as (? & w8 & H8 & Hd).
  pose proof (update_lists_calls _ _ _ _ H8) as C8.
  apply update_lists_inv in H8.
  apply bind_inv in Hd as (? & ? & [-> ->]%get_inv & Hd).
  apply bind_inv in Hd as (f5 & w9 & C9%detach_events_calls & Hd).
  apply bind_inv in Hd as (? & w10 & C10%update_lists_calls & Hd).
  apply bind_inv in Hd as (? & w11 & C11%update_lists_calls & Hd).
  injection Hd as _ <-.
  assert (ws_at w1 this = ws_at w this) as E1 by (unfold ws_at; by rewrite W1).
  assert (ws_at w3 this = ws_at w2 this) as E3 by (unfold ws_at; by rewrite W3).
  assert (ws_at w5 this = ws_at w4 this) as E5 by (unfold ws_at; by rewrite W5).
  assert (ws_at w7 this = ws_at w6 this) as E7 by (unfold ws_at; by rewrite W7).
  rewrite C11, C10, C9, C8, C7, C6, C5, C4, C3, C2, C1.
  rewrite H8, E7, H6, E5, H4, E3, H2, E1.
  unfold attached_conds. rewrite !fmap_app, !rev_app_distr, <- !app_assoc.
  by destruct (ws_at w this).
Qed.

End detach_calls.

(** ** [wait] from entry to return *)

Lemma bind_get_eq {B} (f : World → M B) w : bind get f w = f w w.
Proof. done. Qed.

Lemma bind_unit_eq {B} (m : M unit) (f : unit → M B) w :
  bind m f w = f () (snd (m w)).
Proof. unfold bind. by destruct (m w) as [[] w']. Qed.

Section wait.
Context (E : Engine) (H : Heap) (this : ptr).

Lemma already_taken_free w :
  state (ws_at w this) = RMW_CONNEXT_WAITSET_FREE →
  WaitSet.already_taken E this w = (false, w).
Proof. intros Hst. unfold WaitSet.already_taken, bind, get. by rewrite Hst. Qed.

Lemma wait_free a wait_timeout w r w1 :
  state (ws_at w this) = RMW_CONNEXT_WAITSET_FREE →
  WaitSet.wait_acquire E H this a wait_timeout w = (r, w1) →
  WaitSet.wait E H this a wait_timeout w
  = match r with
    | inl rc => WaitSet.leave E H this true rc (arrays_of a) w1
    | inr wait_duration => WaitSet.wait_blocked E H this a wait_duration w1
    end.
Proof.
  intros Hst Hacq. unfold WaitSet.wait.
  rewrite (bind_eq _ _ _ _ _ (already_taken_free w Hst)). cbv iota.
  rewrite (bind_eq _ _ _ _ _ Hacq). by destruct r.
Qed.

Lemma wait_acquire_attached a wait_timeout w d w1 :
  yield_keeps E this →
  WaitSet.wait_acquire E H this a wait_timeout w = (inr d, w1) →
  attached_as_requested (ws_at w1 this) a.
Proof.
  intros Hy. unfold WaitSet.wait_acquire.
  intros (? & w0 & _ & Hr)%bind_inv.
  apply bind_inv in Hr as (rc & wa & Hatt & Hr).
  destruct (decide (rc ≠ RMW_RET_OK)) as [?|Hok]; [by unfold ret in Hr|].
  apply dec_stable in Hok as ->.
  apply (attach_ok E H this Hy) in Hatt.
  cbn [bind get] in Hr.
  repeat case_match; unfold ret in Hr; by simplify_eq.
Qed.

Lemma releasing_world_ws d w :
  ws_at (releasing_world E this d w) this
  = {| state := RMW_CONNEXT_WAITSET_RELEASING;
       attached_subscribers := attached_subscribers (ws_at w this);
       attached_conditions := attached_conditions (ws_at w this);
       attached_clients := attached_clients (ws_at w this);
       attached_services := attached_services (ws_at w this);
       attached_events := attached_events (ws_at w this);
       attached_events_cache := attached_events_cache (ws_at w this);
       active_conditions :=
         snd (DDS_WaitSet_wait E (blocked_world this w) this d) |}.
Proof.
  unfold releasing_world, blocked_world, set_state, update_lists, modify.
  simpl. by rewrite !ws_at_set_ws.
Qed.

Lemma releasing_world_attached d w a :
  attached_as_requested (ws_at w this) a →
  attached_as_requested (ws_at (releasing_world E this d w) this) a.
Proof. by rewrite releasing_world_ws. Qed.

(** [wait_blocked] up to the call of [process_wait], when the engine
    did not fail. *)
Lemma wait_blocked_unfold a d w :
  let wait_rc := fst (DDS_WaitSet_wait E (blocked_world this w) this d) in
  (∀ code, wait_rc ≠ DDS_RETCODE_OTHER code) →
  WaitSet.wait_blocked E H this a d w
  = let '(dm, w') :=
      WaitSet.process_wait_loops E H this (arrays_of a) 0
        (releasing_world E this d w) in
    if negb (dm_failed dm) && dm_valid dm then
      if negb (bool_decide (0 < dm_active dm) ||
               bool_decide (DDS_RETCODE_TIMEOUT = wait_rc))
      then (AssertionFailed, dm_arrays dm, w')
      else if decide (DDS_RETCODE_TIMEOUT = wait_rc) then
        WaitSet.leave E H this false RMW_RET_TIMEOUT (dm_arrays dm)
          (with_error "DDS wait timed out" w')
      else WaitSet.leave E H this false RMW_RET_OK (dm_arrays dm) w'
    else WaitSet.leave E H this true RMW_RET_ERROR (dm_arrays dm) w'.
Proof.
  intros wait_rc Hrc. subst wait_rc.
  unfold WaitSet.wait_blocked, releasing_world.
  rewrite bind_unit_eq. fold (blocked_world this w).
  rewrite bind_get_eq.
  destruct (DDS_WaitSet_wait E (blocked_world this w) this d)
    as [wait_rc active] eqn:Hw.
  cbn [fst snd] in *.
  rewrite bind_unit_eq.
  destruct (decide (wait_rc ≠ DDS_RETCODE_OK ∧ wait_rc ≠ DDS_RETCODE_TIMEOUT))
    as [[H1 H2]|Hok].
  { destruct wait_rc; try done. by destruct (Hrc code). }
  rewrite bind_unit_eq.
  unfold WaitSet.process_wait. unfold bind at 1. unfold bind at 1.
  unfold update_lists, set_state, modify. cbn [snd].
  destruct (WaitSet.process_wait_loops E H this (arrays_of a) 0 _)
    as [dm w'].
  unfold ret at 1.
  destruct (negb (dm_failed dm) && dm_valid dm); simpl; [|done].
  destruct (negb _); [done|].
  destruct (decide (DDS_RETCODE_TIMEOUT = wait_rc)); [|done].
  done.
Qed.

Lemma leave_unarmed rc arrays w :
  WaitSet.leave E H this false rc arrays w
  = (Returned rc, arrays, snd (set_state this RMW_CONNEXT_WAITSET_FREE w)).
Proof. done. Qed.

Lemma leave_returns armed rc arrays w :
  fst (fst (WaitSet.leave E H this armed rc arrays w)) = Returned rc.
Proof.
  unfold WaitSet.leave, bind, set_state, modify, ret. simpl.
  destruct armed; [|done]. by destruct (WaitSet.detach E H this _).
Qed.

End wait.

(** ** A failed [reset_trigger] implies an active guard condition *)

Section active.
Context (E : Engine) (H : Heap) (this : ptr).






End active.

(** ** Every attached event has its snapshot in the cache *)

Lemma keeps_weaken {A} (R R' : World → World → Prop) (m : M A) :
  (∀ w w', R w w' → R' w w') → keeps R m → keeps R' m.
Proof. intros HR Hm w x w' Hmw. apply HR. by eapply Hm. Qed.

Global Instance cached_kept_preorder this : PreOrder (cached_kept this).
Proof.
  split.
  - intros w Hc. exact Hc.
  - intros w1 w2 w3 H12 H23 Hc. by apply H23, H12.
Qed.

Lemma events_cached_new : events_cached new_waitset.
Proof. intros e He. by apply elem_of_nil in He. Qed.

Lemma events_cached_cleared ws : events_cached (cleared ws).
Proof. intros e He. by apply elem_of_nil in He. Qed.

Section events_cached.
Context (E : Engine) (H : Heap) (this : ptr) (Hyield : yield_keeps E this).

Lemma same_waitset_cached_kept w w' :
  same_waitset this w w' → cached_kept this w w'.
Proof. intros Hs Hc. red in Hs. by rewrite Hs. Qed.

Lemma keeps_cached_of_same {A} (m : M A) :
  keeps (same_waitset this) m → keeps (cached_kept this) m.
Proof. apply keeps_weaken, same_waitset_cached_kept. Qed.

Lemma keeps_cached_update f :
  (∀ ws, events_cached ws → events_cached (f ws)) →
  keeps (cached_kept this) (update_lists this f).
Proof.
  intros Hf. apply keeps_modify. intros w Hc. rewrite ws_at_set_ws. by apply Hf.
Qed.

Hint Extern 5 (keeps (cached_kept _) _) =>
  apply keeps_cached_of_same; solve [auto with keeps] : keeps.
Hint Resolve keeps_ws_displace keeps_ws_attach_reader keeps_ws_reset_events
  : keeps.

Lemma keeps_cached_attach_subscribers l :
  keeps (cached_kept this) (WaitSet.attach_subscribers E H this l).
Proof using Hyield.
  induction l as [|x l IH]; cbn [WaitSet.attach_subscribers];
    repeat keeps_step.
  by apply keeps_cached_update.
Qed.

Lemma keeps_cached_attach_clients l :
  keeps (cached_kept this) (WaitSet.attach_clients E H this l).
Proof using Hyield.
  induction l as [|x l IH]; cbn [WaitSet.attach_clients]; repeat keeps_step.
  by apply keeps_cached_update.
Qed.

Lemma keeps_cached_attach_services l :
  keeps (cached_kept this) (WaitSet.attach_services E H this l).
Proof using Hyield.
  induction l as [|x l IH]; cbn [WaitSet.attach_services]; repeat keeps_step.
  by apply keeps_cached_update.
Qed.

Lemma keeps_cached_attach_guard_conditions l :
  keeps (cached_kept this) (WaitSet.attach_guard_conditions E H this l).
Proof using Hyield.
  induction l as [|x l IH]; cbn [WaitSet.attach_guard_conditions];
    repeat keeps_step.
  by apply keeps_cached_update.
Qed.

Lemma keeps_cached_reset_events l :
  keeps (cached_kept this) (WaitSet.reset_events E H this l).
Proof using Hyield. auto with keeps. Qed.

(** Pushing an event and caching it, taken together. *)
Lemma events_cached_push ws event v :
  events_cached ws →
  events_cached
    (with_events_cache
       (match attached_events_cache ws !! event with
        | Some _ => attached_events_cache ws
        | None => <[event := v]> (attached_events_cache ws)
        end)
       (with_events (attached_events ws ++ [event]) ws)).
Proof.
  intros Hc e. simpl. intros [He|He%list_elem_of_singleton]%elem_of_app.
  - destruct (Hc e He) as [x Hx].
    destruct (attached_events_cache ws !! event) eqn:Hev; [by eexists|].
    destruct (decide (event = e)) as [->|Hne]; [congruence|].
    rewrite lookup_insert_ne by done. by eexists.
  - subst e. destruct (attached_events_cache ws !! event) eqn:Hev;
      [by eexists|].
    rewrite lookup_insert_eq. by eexists.
Qed.

Lemma keeps_cached_attach_events l :
  keeps (cached_kept this) (WaitSet.attach_events E H this l).
Proof using Hyield.
  induction l as [|x l IH]; cbn [WaitSet.attach_events]; [apply keeps_ret|].
  apply keeps_bind; [apply keeps_get|]. intros w0.
  destruct (deleted (cond_at w0 _)); [apply keeps_ret|].
  apply keeps_check; [auto with keeps|].
  apply keeps_check; [auto with keeps|].
  intros w y w' Hrun. rewrite bind_get_eq, bind_unit_eq in Hrun.
  rewrite bind_get_eq, bind_unit_eq in Hrun.
  apply IH in Hrun. intros Hc. apply Hrun.
  unfold update_lists, modify. cbn [snd]. rewrite !ws_at_set_ws.
  cbn [attached_events_cache with_events].
  by apply events_cached_push.
Qed.

Hint Resolve keeps_cached_attach_subscribers keeps_cached_attach_clients
  keeps_cached_attach_services keeps_cached_attach_guard_conditions
  keeps_cached_reset_events keeps_cached_attach_events : keeps.

(** [detach] establishes the invariant and [attach] keeps it, whatever
    code it returns. *)
Lemma detach_events_cached w rc w' :
  WaitSet.detach E H this w = (rc, w') → events_cached (ws_at w' this).
Proof. intros ->%detach_clears. apply events_cached_cleared. Qed.

Lemma attach_events_cached a w rc w' :
  events_cached (ws_at w this) →
  WaitSet.attach E H this a w = (rc, w') →
  events_cached (ws_at w' this).
Proof using Hyield.
  intros Hc. unfold WaitSet.attach. rewrite bind_get_eq.
  destruct (negb (WaitSet.refresh_attach (ws_at w this) a));
    [by intros [= _ <-]|].
  unfold WaitSet.reattach. intros Hre.
  apply check_inv in Hre as [(w1 & Hd & Hre)|[_ Hd]];
    [|by eapply detach_events_cached].
  apply detach_events_cached in Hd. revert Hd.
  change (cached_kept this w1 w').
  revert Hre. generalize w1 rc w'.
  change (keeps (cached_kept this)
            (check (WaitSet.for_each (WaitSet.reset_events E H this) (evs a))
               (check (WaitSet.for_each (WaitSet.attach_subscribers E H this)
                         (subs a))
                  (check (WaitSet.for_each (WaitSet.attach_clients E H this)
                            (cls a))
                     (check (WaitSet.for_each
                               (WaitSet.attach_services E H this) (srvs a))
                        (check (WaitSet.for_each
                                  (WaitSet.attach_events E H this) (evs a))
                           (check (WaitSet.for_each
                                     (WaitSet.attach_guard_conditions E H this)
                                     (gcs a))
                              (ret RMW_RET_OK)))))))).
  unfold WaitSet.for_each. repeat keeps_step.
Qed.

End events_cached.


(** ** The calls made by a wait on unchanged sources *)

Global Instance only_reset_triggers_preorder : PreOrder only_reset_triggers.
Proof.
  split.
  - intros w. by exists [].
  - intros w1 w2 w3 (n1 & H1 & F1) (n2 & H2 & F2). exists (n2 ++ n1). split.
    + by rewrite H2, H1, app_assoc.
    + by apply Forall_app.
Qed.

Lemma only_reset_triggers_same_calls w w' :
  calls w' = calls w → only_reset_triggers w w'.
Proof. intros Hc. by exists []. Qed.

Section quiet_wait.
Context (E : Engine) (H : Heap) (this : ptr).

Lemma keeps_rt_cache_index e :
  keeps only_reset_triggers (WaitSet.cache_index this e).
Proof.
  intros w x w' Hidx. apply only_reset_triggers_same_calls.
  by eapply cache_index_calls.
Qed.

Lemma keeps_rt_reset_trigger gc :
  keeps only_reset_triggers (Condition.reset_trigger E gc).
Proof.
  intros w x w' [= _ <-]. exists [CallResetTrigger gc]. split; [done|].
  constructor; [by eexists|done].
Qed.

Hint Resolve keeps_rt_cache_index keeps_rt_reset_trigger : keeps.

Lemma keeps_rt_process_guard_conditions l i arr active failed valid :
  keeps only_reset_triggers
    (WaitSet.process_guard_conditions E H this l i arr active failed valid).
Proof.
  revert i arr active failed valid.
  induction l as [|x l IH]; intros i arr active failed valid;
    cbn [WaitSet.process_guard_conditions]; repeat keeps_step.
Qed.

Lemma keeps_rt_process_events l i arr active valid :
  keeps only_reset_triggers
    (WaitSet.process_events E H this l i arr active valid).
Proof.
  revert i arr active valid.
  induction l as [|x l IH]; intros i arr active valid;
    cbn [WaitSet.process_events]; repeat keeps_step.
Qed.

Hint Resolve keeps_rt_process_guard_conditions keeps_rt_process_events : keeps.

Lemma keeps_rt_process_wait_loops arrays n :
  keeps only_reset_triggers (WaitSet.process_wait_loops E H this arrays n).
Proof.
  unfold WaitSet.process_wait_loops.
  apply keeps_bind; [apply keeps_get|]. intros w.
  destruct (WaitSet.process_subscribers _ _ _ _ _ _ _ _) as [[? ?] ?].
  apply keeps_bind; [auto with keeps|]. intros [[[? ?] ?] ?].
  apply keeps_bind; [apply keeps_get|]. intros w2.
  destruct (WaitSet.process_clients _ _ _ _ _ _ _ _) as [[? ?] ?].
  destruct (WaitSet.process_services _ _ _ _ _ _) as [? ?].
  apply keeps_bind; [auto with keeps|]. intros [[? ?] ?].
  apply keeps_ret.
Qed.

(** With unchanged sources, [wait_acquire] only moves the state to
    [ACQUIRING], and an early return is an error. *)
Lemma wait_acquire_unchanged a wait_timeout w r w1 :
  unchanged_sources (ws_at w this) a →
  WaitSet.wait_acquire E H this a wait_timeout w = (r, w1) →
  w1 = snd (set_state this RMW_CONNEXT_WAITSET_ACQUIRING w) ∧
  match r with inl rc => rc = RMW_RET_ERROR | inr _ => True end.
Proof.
  intros Hsame. unfold WaitSet.wait_acquire. rewrite bind_unit_eq.
  set (wa := snd (set_state this RMW_CONNEXT_WAITSET_ACQUIRING w)).
  assert (WaitSet.attach E H this a wa = (RMW_RET_OK, wa)) as Hatt.
  { unfold WaitSet.attach. rewrite bind_get_eq.
    assert (WaitSet.refresh_attach (ws_at wa this) a = false) as ->; [|done].
    apply refresh_attach_false. subst wa. unfold set_state, modify. cbn [snd].
    rewrite ws_at_set_ws. by destruct (ws_at w this). }
  rewrite (bind_eq _ _ _ _ _ Hatt).
  rewrite decide_False by (intros Hne; by apply Hne).
  rewrite bind_get_eq. repeat case_match; by intros [= <- <-].
Qed.

Lemma leave_armed_error arrays w rc arrays' w' :
  WaitSet.leave E H this true RMW_RET_ERROR arrays w
    = (Returned rc, arrays', w') →
  rc = RMW_RET_ERROR.
Proof.
  intros Hl.
  pose proof (leave_returns E H this true RMW_RET_ERROR arrays w) as Hr.
  rewrite Hl in Hr. simpl in Hr. by injection Hr.
Qed.

Lemma wait_blocked_engine_failed a d w code :
  fst (DDS_WaitSet_wait E (blocked_world this w) this d)
    = DDS_RETCODE_OTHER code →
  ∃ w0, WaitSet.wait_blocked E H this a d w
        = WaitSet.leave E H this true RMW_RET_ERROR (arrays_of a) w0.
Proof.
  intros Hrc. unfold WaitSet.wait_blocked.
  rewrite bind_unit_eq. fold (blocked_world this w). rewrite bind_get_eq.
  destruct (DDS_WaitSet_wait E (blocked_world this w) this d)
    as [wait_rc active].
  simpl in Hrc. subst wait_rc. rewrite bind_unit_eq.
  rewrite decide_True by done. rewrite bind_unit_eq. by eexists.
Qed.

Lemma releasing_world_calls d w :
  calls (releasing_world E this d w) = calls w.
Proof. done. Qed.

(** A wait on unchanged sources that returns [RMW_RET_OK] or
    [RMW_RET_TIMEOUT] has called nothing but [reset_trigger]. *)
Lemma wait_unchanged_calls a wait_timeout w rc arrays w' :
  state (ws_at w this) = RMW_CONNEXT_WAITSET_FREE →
  unchanged_sources (ws_at w this) a →
  WaitSet.wait E H this a wait_timeout w = (Returned rc, arrays, w') →
  rc ≠ RMW_RET_ERROR →
  only_reset_triggers w w'.
Proof.
  intros Hfree Hsame Hwait Hrc.
  destruct (WaitSet.wait_acquire E H this a wait_timeout w) as [r w1] eqn:Hacq.
  rewrite (wait_free E H this a wait_timeout w r w1 Hfree Hacq) in Hwait.
  apply (wait_acquire_unchanged a wait_timeout w r w1 Hsame) in Hacq
    as [-> Hr].
  destruct r as [rc0|d].
  - subst rc0. by apply leave_armed_error in Hwait.
  - destruct (fst (DDS_WaitSet_wait E
                     (blocked_world this
                        (snd (set_state this RMW_CONNEXT_WAITSET_ACQUIRING w)))
                     this d)) as [| |code] eqn:Hengine.
    3:{ destruct (wait_blocked_engine_failed a d _ code Hengine) as [w0 Hb].
        rewrite Hb in Hwait. by apply leave_armed_error in Hwait. }
    all: rewrite wait_blocked_unfold in Hwait by (rewrite Hengine; done).
    all: destruct (WaitSet.process_wait_loops E H this (arrays_of a) 0 _)
           as [dm w''] eqn:Hdm.
    all: apply keeps_rt_process_wait_loops in Hdm.
    all: rewrite Hengine in Hwait.
    all: destruct (negb (dm_failed dm) && dm_valid dm);
           [|by apply leave_armed_error in Hwait].
    all: destruct (negb _); [done|].
    all: case_decide; try done.
    all: rewrite leave_unarmed in Hwait; injection Hwait as _ _ <-.
    all: etransitivity; [|etransitivity; [exact Hdm|]];
           by apply only_reset_triggers_same_calls.
Qed.

End quiet_wait.


(** ** Moving a condition away from an idle wait set *)

Section displace.
Context (E : Engine) (H : Heap).

Lemma existsb_found (f : ptr → ptr) (l : list ptr) cond :
  existsb (λ x, bool_decide (f x = cond)) l = true →
  ∃ x, x ∈ l ∧ f x = cond.
Proof.
  intros (x & Hin & Hx)%existsb_exists. exists x.
  split; [by apply list_elem_of_In|]. by apply bool_decide_eq_true in Hx.
Qed.

Lemma existsb_none (f : ptr → ptr) (l : list ptr) cond :
  existsb (λ x, bool_decide (f x = cond)) l = false →
  ¬ ∃ x, x ∈ l ∧ f x = cond.
Proof.
  intros Hex (x & Hin & Hx).
  assert (existsb (λ x, bool_decide (f x = cond)) l = true); [|congruence].
  apply existsb_exists. exists x.
  split; [by apply list_elem_of_In|]. by apply bool_decide_eq_true.
Qed.

Lemma is_attached_events_decides this cond w es :
  (∀ e, e ∈ es → is_Some (attached_events_cache (ws_at w this) !! e)) →
  ∃ b, WaitSet.is_attached_events H this es cond w = (b, w) ∧
       (b = true ↔
        ∃ e v, e ∈ es ∧ attached_events_cache (ws_at w this) !! e = Some v ∧
               Event_condition H v = cond).
Proof.
  induction es as [|e es IH]; intros Hc.
  { exists false. split; [done|]. split; [done|].
    intros (e & v & Hin & _). by apply elem_of_nil in Hin. }
  destruct (Hc e) as [v Hv]; [by left|].
  cbn [WaitSet.is_attached_events].
  rewrite (bind_eq _ _ _ _ _ (cache_index_hit this e w v Hv)).
  destruct (decide (Event_condition H v = cond)) as [Heq|Hne].
  { exists true. split; [done|]. split; [|done]. intros _.
    exists e, v. split; [by left|done]. }
  destruct IH as (b & Hb & Hiff).
  { intros e' He'. apply Hc. by right. }
  exists b. split; [done|]. rewrite Hiff. split.
  - intros (e' & v' & Hin & Hrest). exists e', v'. split; [by right|done].
  - intros (e' & v' & Hin & Hv' & Hcond).
    apply elem_of_cons in Hin as [-> | Hin]; [congruence|]. eauto.
Qed.

(** With every attached event cached, [is_attached] reads the wait set
    without changing it, and answers whether the condition is in one of
    the five lists. *)
Lemma is_attached_decides this cond w :
  events_cached (ws_at w this) →
  ∃ b, WaitSet.is_attached H this cond w = (b, w) ∧
       (b = true ↔ condition_attached H (ws_at w this) cond).
Proof.
  intros Hc. unfold WaitSet.is_attached. rewrite bind_get_eq. cbv zeta.
  destruct (existsb _ (attached_subscribers _)) eqn:Hs.
  { exists true. split; [done|]. split; [|done]. intros _. left.
    by apply existsb_found in Hs. }
  destruct (existsb _ (attached_conditions _)) eqn:Hg.
  { exists true. split; [done|]. split; [|done]. intros _. right. left.
    by apply (existsb_found (λ gc, gc)) in Hg as (x & Hin & ->). }
  destruct (existsb _ (attached_clients _)) eqn:Hcl.
  { exists true. split; [done|]. split; [|done]. intros _. do 2 right. left.
    by apply (existsb_found
                (λ c, subscriber_condition H (client_subscriber H c))) in Hcl. }
  destruct (existsb _ (attached_services _)) eqn:Hsv.
  { exists true. split; [done|]. split; [|done]. intros _. do 3 right. left.
    by apply (existsb_found
                (λ c, subscriber_condition H (service_subscriber H c))) in Hsv. }
  destruct (is_attached_events_decides this cond w
              (attached_events (ws_at w this)) Hc) as (b & Hb & Hiff).
  exists b. split; [done|]. rewrite Hiff. split; [intros ?; by do 4 right|].
  intros [Hx|[Hx|[Hx|[Hx|Hx]]]]; [| | | |done].
  - by apply existsb_none in Hs.
  - exfalso. apply (existsb_none (λ gc, gc) _ _ Hg). eauto.
  - by apply (existsb_none
                (λ c, subscriber_condition H (client_subscriber H c))) in Hcl.
  - by apply (existsb_none
                (λ c, subscriber_condition H (service_subscriber H c))) in Hsv.
Qed.

Lemma cleared_nothing_attached ws cond :
  ¬ condition_attached H (cleared ws) cond.
Proof.
  intros [(x & Hin & _)|[Hin|[(x & Hin & _)|[(x & Hin & _)
                                             |(x & v & Hin & _)]]]];
    simpl in Hin; by apply elem_of_nil in Hin.
Qed.

(** [invalidate] on an idle wait set leaves it idle and without the
    condition, whatever the detaching returned. *)
Lemma invalidate_free this cond w rc w' :
  events_cached (ws_at w this) →
  state (ws_at w this) = RMW_CONNEXT_WAITSET_FREE →
  WaitSet.invalidate E H this cond w = (rc, w') →
  state (ws_at w' this) = RMW_CONNEXT_WAITSET_FREE ∧
  ¬ condition_attached H (ws_at w' this) cond.
Proof.
  intros Hc Hfree Hinv.
  destruct (is_attached_decides this cond w Hc) as (b & Hb & Hiff).
  unfold WaitSet.invalidate in Hinv.
  rewrite (bind_eq _ _ _ _ _ Hb) in Hinv.
  destruct b; cbn [negb] in Hinv.
  - rewrite bind_get_eq in Hinv.
    rewrite decide_True in Hinv by done.
    rewrite bind_unit_eq in Hinv.
    apply bind_inv in Hinv as (rc1 & w1 & Hd & Hinv).
    apply (detach_clears E H this) in Hd.
    rewrite bind_unit_eq in Hinv. injection Hinv as _ <-.
    unfold set_state, modify. cbn [snd]. rewrite ws_at_set_ws.
    split; [done|].
    intros Hatt. eapply (cleared_nothing_attached (ws_at w this) cond).
    revert Hatt. rewrite Hd.
    unfold set_state, modify. cbn [snd]. rewrite ws_at_set_ws.
    done.
  - injection Hinv as _ <-. split; [done|].
    intros Hatt. apply Hiff in Hatt. discriminate.
Qed.

End displace.


(** ** The calls made by [attach] and [wait] *)

Global Instance calls_grow_preorder : PreOrder calls_grow.
Proof.
  split.
  - intros w. by exists [].
  - intros w1 w2 w3 [l1 H1] [l2 H2]. exists (l2 ++ l1).
    by rewrite H2, H1, app_assoc.
Qed.

Lemma calls_grow_same w w' : calls w' = calls w → calls_grow w w'.
Proof. intros Hc. by exists []. Qed.

Lemma performed_grow c w w' : performed c w w' → calls_grow w w'.
Proof. intros (new & Hnew & _). by exists new. Qed.

(** A call made in the middle of a run was made during the run. *)
Lemma performed_frame c w0 w1 w2 w3 :
  calls_grow w0 w1 → performed c w1 w2 → calls_grow w2 w3 →
  performed c w0 w3.
Proof.
  intros [l1 H1] (l2 & H2 & Hin) [l3 H3]. exists (l3 ++ l2 ++ l1). split.
  - by rewrite H3, H2, H1, !app_assoc.
  - rewrite !elem_of_app. right. by left.
Qed.

Lemma performed_log_call c w : performed c w (snd (log_call c w)).
Proof. exists [c]. split; [done|]. by apply list_elem_of_singleton. Qed.

Section calls.
Context (E : Engine) (H : Heap).
Hypothesis Hlog : yield_logs E.

Lemma keeps_log_log_call c : keeps calls_grow (log_call c).
Proof. apply keeps_modify. intros w. by exists [c]. Qed.

Lemma keeps_log_error_set msg :
  keeps calls_grow (RMW_CONNEXT_LOG_ERROR_SET msg).
Proof. apply keeps_modify. intros w. by apply calls_grow_same. Qed.

Lemma keeps_log_set_state this s : keeps calls_grow (set_state this s).
Proof. apply keeps_modify. intros w. by apply calls_grow_same. Qed.

Lemma keeps_log_update_lists this f : keeps calls_grow (update_lists this f).
Proof. apply keeps_modify. intros w. by apply calls_grow_same. Qed.

Lemma keeps_log_set_attached_waitset c v :
  keeps calls_grow (set_attached_waitset c v).
Proof. apply keeps_modify. intros w. by apply calls_grow_same. Qed.

Lemma keeps_log_cache_index this e :
  keeps calls_grow (WaitSet.cache_index this e).
Proof.
  intros w x w' Hidx. apply calls_grow_same. by eapply cache_index_calls.
Qed.

Hint Resolve keeps_log_log_call keeps_log_error_set keeps_log_set_state
  keeps_log_update_lists keeps_log_set_attached_waitset
  keeps_log_cache_index : keeps.

Lemma keeps_log_Condition_detach c : keeps calls_grow (Condition.detach E c).
Proof. unfold Condition.detach. repeat keeps_step. Qed.

Lemma keeps_log_Condition_attach c ws :
  keeps calls_grow (Condition.attach E c ws).
Proof. unfold Condition.attach. repeat keeps_step. Qed.

Lemma keeps_log_Condition_attach_data c :
  keeps calls_grow (Condition.attach_data E c).
Proof. unfold Condition.attach_data. repeat keeps_step. Qed.

Lemma keeps_log_Condition_reset_statuses c :
  keeps calls_grow (Condition.reset_statuses E c).
Proof. unfold Condition.reset_statuses. repeat keeps_step. Qed.

Lemma keeps_log_Condition_enable_statuses c m :
  keeps calls_grow (Condition.enable_statuses E c m).
Proof. unfold Condition.enable_statuses. repeat keeps_step. Qed.

Hint Resolve keeps_log_Condition_detach keeps_log_Condition_attach
  keeps_log_Condition_attach_data keeps_log_Condition_reset_statuses
  keeps_log_Condition_enable_statuses : keeps.

Lemma keeps_log_detach_each cs failed :
  keeps calls_grow (WaitSet.detach_each E cs failed).
Proof.
  revert failed. induction cs as [|c cs IH]; intros failed;
    cbn [WaitSet.detach_each]; repeat keeps_step.
Qed.

Lemma keeps_log_detach_events this es failed :
  keeps calls_grow (WaitSet.detach_events E H this es failed).
Proof.
  revert failed. induction es as [|e es IH]; intros failed;
    cbn [WaitSet.detach_events]; repeat keeps_step.
Qed.

Hint Resolve keeps_log_detach_each keeps_log_detach_events : keeps.

Lemma keeps_log_detach this : keeps calls_grow (WaitSet.detach E H this).
Proof. unfold WaitSet.detach. repeat keeps_step. Qed.

Lemma keeps_log_is_attached_events this es c :
  keeps calls_grow (WaitSet.is_attached_events H this es c).
Proof.
  induction es as [|e es IH]; cbn [WaitSet.is_attached_events];
    repeat keeps_step.
Qed.

Hint Resolve keeps_log_detach keeps_log_is_attached_events : keeps.

Lemma keeps_log_is_attached this c :
  keeps calls_grow (WaitSet.is_attached H this c).
Proof. unfold WaitSet.is_attached. repeat keeps_step. Qed.

Hint Resolve keeps_log_is_attached : keeps.

Lemma keeps_log_invalidate this c :
  keeps calls_grow (WaitSet.invalidate E H this c).
Proof using Hlog.
  unfold WaitSet.invalidate, WaitSet.state_cond_wait.
  assert (keeps calls_grow (modify (yield E))) as Hy.
  { apply keeps_modify. apply Hlog. }
  repeat keeps_step.
Qed.

Hint Resolve keeps_log_invalidate : keeps.

Lemma keeps_log_displace this c :
  keeps calls_grow (WaitSet.displace E H this c).
Proof using Hlog. unfold WaitSet.displace. repeat keeps_step. Qed.

Hint Resolve keeps_log_displace : keeps.

(** The condition methods log their call whatever they return. *)
Lemma Condition_reset_statuses_performed c w rc w' :
  Condition.reset_statuses E c w = (rc, w') →
  performed (CallResetStatuses c) w w'.
Proof. intros [= _ <-]. apply performed_log_call. Qed.

Lemma Condition_enable_statuses_performed c m w rc w' :
  Condition.enable_statuses E c m w = (rc, w') →
  performed (CallEnableStatuses c m) w w'.
Proof. intros [= _ <-]. apply performed_log_call. Qed.

Lemma Condition_attach_data_performed c w rc w' :
  Condition.attach_data E c w = (rc, w') →
  performed (CallAttachData c) w w'.
Proof. intros [= _ <-]. apply performed_log_call. Qed.

Lemma Condition_attach_performed c this w rc w' :
  Condition.attach E c this w = (rc, w') →
  performed (CallAttach c this) w w'.
Proof.
  unfold Condition.attach. rewrite bind_unit_eq. cbv beta. intros Hr.
  assert (calls_grow (snd (log_call (CallAttach c this) w)) w') as Hg.
  { match type of Hr with
    | ?k _ = _ =>
        assert (keeps calls_grow k) as Hk by (repeat keeps_step)
    end.
    by apply Hk in Hr. }
  eapply performed_frame; [reflexivity|apply performed_log_call|done].
Qed.

(** The calls of the locked block for a subscriber, client or
    service that goes through. *)
Lemma attach_reader_performed this cond w w' :
  WaitSet.attach_reader E H this cond w = (RMW_RET_OK, w') →
  calls_grow w w' ∧
  performed (CallResetStatuses cond) w w' ∧
  performed (CallEnableStatuses cond DDS_DATA_AVAILABLE_STATUS) w w' ∧
  performed (CallAttach cond this) w w' ∧
  performed (CallAttachData cond) w w'.
Proof using Hlog.
  unfold WaitSet.attach_reader.
  intros (d & w1 & Hd%keeps_log_displace & Hr)%bind_inv.
  rewrite bind_get_eq in Hr.
  destruct (deleted (cond_at w1 cond)); [done|].
  apply bind_inv in Hr as (u & w2 & H2 & Hr).
  assert (calls_grow w1 w2) as H12.
  { revert H2. destruct d; [apply keeps_log_set_attached_waitset|].
    intros [= _ <-]. reflexivity. }
  apply check_inv_ok in Hr as (w3 & H3 & Hr).
  apply check_inv_ok in Hr as (w4 & H4 & Hr).
  apply check_inv_ok in Hr as (w5 & H5 & Hr).
  apply check_inv_ok in Hr as (w6 & H6 & Hr).
  injection Hr as <-.
  apply Condition_reset_statuses_performed in H3.
  apply Condition_enable_statuses_performed in H4.
  apply Condition_attach_performed in H5.
  apply Condition_attach_data_performed in H6.
  pose proof (performed_grow _ _ _ H3) as G3.
  pose proof (performed_grow _ _ _ H4) as G4.
  pose proof (performed_grow _ _ _ H5) as G5.
  pose proof (performed_grow _ _ _ H6) as G6.
  assert (calls_grow w w2) as G02 by (by etransitivity).
  assert (calls_grow w w3) as G03 by (by etransitivity).
  assert (calls_grow w w4) as G04 by (by etransitivity).
  assert (calls_grow w w5) as G05 by (by etransitivity).
  assert (calls_grow w4 w6) as G46 by (by etransitivity).
  assert (calls_grow w3 w6) as G36 by (by etransitivity).
  clear Hd H12.
  split_and!.
  - etransitivity; [exact G05|exact G6].
  - eapply performed_frame; [exact G02|exact H3|exact G36].
  - eapply performed_frame; [exact G03|exact H4|exact G46].
  - eapply performed_frame; [exact G04|exact H5|exact G6].
  - eapply performed_frame; [exact G05|exact H6|reflexivity].
Qed.

Lemma attach_readers_performed this (f : ptr → ptr)
    (g : list ptr → RMW_Connext_WaitSet → RMW_Connext_WaitSet)
    (get_list : RMW_Connext_WaitSet → list ptr)
    (loop : list ptr → M rmw_ret_t) :
  (∀ x rest,
     loop (x :: rest)
     = (check! WaitSet.attach_reader E H this (f x);
        w ← get;
        update_lists this (g (get_list (ws_at w this) ++ [x]));;
        loop rest)) →
  loop [] = ret RMW_RET_OK →
  ∀ l w w',
    loop l w = (RMW_RET_OK, w') →
    calls_grow w w' ∧
    ∀ x, x ∈ l →
      performed (CallResetStatuses (f x)) w w' ∧
      performed (CallEnableStatuses (f x) DDS_DATA_AVAILABLE_STATUS) w w' ∧
      performed (CallAttach (f x) this) w w' ∧
      performed (CallAttachData (f x)) w w'.
Proof using Hlog.
  intros Hcons Hnil l. induction l as [|x l IH]; intros w w'.
  - rewrite Hnil. intros [= <-]. split; [reflexivity|].
    intros x Hx. by apply elem_of_nil in Hx.
  - rewrite Hcons.
    intros (w1 & (G1 & P1 & P2 & P3 & P4)%attach_reader_performed & Hr)
      %check_inv_ok.
    rewrite bind_get_eq, bind_unit_eq in Hr.
    set (w2 := snd (update_lists this
                      (g (get_list (ws_at w1 this) ++ [x])) w1)) in *.
    assert (calls_grow w1 w2) as G12 by (by apply calls_grow_same).
    apply IH in Hr as [G2 Hall].
    assert (calls_grow w1 w') as G1' by (by etransitivity).
    assert (calls_grow w w2) as G02 by (by etransitivity).
    split; [by etransitivity|].
    intros y [->|Hy]%elem_of_cons.
    + split_and!; (eapply performed_frame; [reflexivity|eassumption|done]).
    + destruct (Hall y Hy) as (Q1 & Q2 & Q3 & Q4).
      split_and!; (eapply performed_frame; [exact G02|eassumption|reflexivity]).
Qed.

Lemma attach_subscribers_performed this l w w' :
  WaitSet.attach_subscribers E H this l w = (RMW_RET_OK, w') →
  calls_grow w w' ∧
  ∀ x, x ∈ l →
    performed (CallResetStatuses (subscriber_condition H x)) w w' ∧
    performed (CallEnableStatuses (subscriber_condition H x)
                 DDS_DATA_AVAILABLE_STATUS) w w' ∧
    performed (CallAttach (subscriber_condition H x) this) w w' ∧
    performed (CallAttachData (subscriber_condition H x)) w w'.
Proof using Hlog.
  by apply (attach_readers_performed this (subscriber_condition H)
              with_subscribers attached_subscribers).
Qed.

Lemma attach_clients_performed this l w w' :
  WaitSet.attach_clients E H this l w = (RMW_RET_OK, w') →
  calls_grow w w' ∧
  ∀ x, x ∈ l →
    let c := subscriber_condition H (client_subscriber H x) in
    performed (CallResetStatuses c) w w' ∧
    performed (CallEnableStatuses c DDS_DATA_AVAILABLE_STATUS) w w' ∧
    performed (CallAttach c this) w w' ∧
    performed (CallAttachData c) w w'.
Proof using Hlog.
  by apply (attach_readers_performed this
              (λ c, subscriber_condition H (client_subscriber H c))
              with_clients attached_clients).
Qed.

Lemma attach_services_performed this l w w' :
  WaitSet.attach_services E H this l w = (RMW_RET_OK, w') →
  calls_grow w w' ∧
  ∀ x, x ∈ l →
    let c := subscriber_condition H (service_subscriber H x) in
    performed (CallResetStatuses c) w w' ∧
    performed (CallEnableStatuses c DDS_DATA_AVAILABLE_STATUS) w w' ∧
    performed (CallAttach c this) w w' ∧
    performed (CallAttachData c) w w'.
Proof using Hlog.
  by apply (attach_readers_performed this
              (λ s, subscriber_condition H (service_subscriber H s))
              with_services attached_services).
Qed.

Lemma reset_events_performed this l w w' :
  WaitSet.reset_events E H this l w = (RMW_RET_OK, w') →
  calls_grow w w' ∧
  ∀ e, e ∈ l →
    performed (CallResetStatuses (Event_condition H (event_at H e))) w w'.
Proof using Hlog.
  revert w. induction l as [|e l IH]; intros w;
    cbn [WaitSet.reset_events].
  - intros [= <-]. split; [reflexivity|].
    intros x Hx. by apply elem_of_nil in Hx.
  - intros (d & w1 & Hd%keeps_log_displace & Hr)%bind_inv.
    rewrite bind_get_eq in Hr.
    destruct (deleted (cond_at w1 _)); [done|].
    apply bind_inv in Hr as (u & w2 & H2 & Hr).
    assert (calls_grow w1 w2) as H12.
    { revert H2. destruct d; [apply keeps_log_set_attached_waitset|].
      intros [= _ <-]. reflexivity. }
    apply check_inv_ok in Hr
      as (w3 & H3%Condition_reset_statuses_performed & Hr).
    apply IH in Hr as [G3 Hall].
    pose proof (performed_grow _ _ _ H3) as G23.
    assert (calls_grow w w2) as G02 by (by etransitivity).
    assert (calls_grow w w3) as G03 by (by etransitivity).
    split; [by etransitivity|].
    intros y [->|Hy]%elem_of_cons.
    + eapply performed_frame; [exact G02|exact H3|exact G3].
    + eapply performed_frame; [exact G03|by apply Hall|reflexivity].
Qed.

Lemma attach_events_performed this l w w' :
  WaitSet.attach_events E H this l w = (RMW_RET_OK, w') →
  calls_grow w w' ∧
  ∀ e, e ∈ l →
    performed
      (CallEnableStatuses (Event_condition H (event_at H e))
         (ros_event_to_dds (have_message_lost H)
            (event_type (event_at H e)))) w w' ∧
    performed (CallAttach (Event_condition H (event_at H e)) this) w w'.
Proof.
  revert w. induction l as [|e l IH]; intros w;
    cbn [WaitSet.attach_events].
  - intros [= <-]. split; [reflexivity|].
    intros x Hx. by apply elem_of_nil in Hx.
  - rewrite bind_get_eq.
    destruct (deleted (cond_at w _)); [done|].
    intros (w1 & H1%Condition_enable_statuses_performed & Hr)%check_inv_ok.
    apply check_inv_ok in Hr as (w2 & H2%Condition_attach_performed & Hr).
    rewrite bind_get_eq, bind_unit_eq, bind_get_eq, bind_unit_eq in Hr.
    match type of Hr with
    | WaitSet.attach_events _ _ _ _ ?w3 = _ =>
        assert (calls_grow w2 w3) as G23 by (by apply calls_grow_same)
    end.
    apply IH in Hr as [G3 Hall].
    pose proof (performed_grow _ _ _ H1) as G01.
    pose proof (performed_grow _ _ _ H2) as G12.
    assert (calls_grow w2 w') as G2' by (by etransitivity).
    assert (calls_grow w1 w') as G1' by (by etransitivity).
    assert (calls_grow w w2) as G02 by (by etransitivity).
    split; [by etransitivity|].
    intros y [->|Hy]%elem_of_cons.
    + split.
      * eapply performed_frame; [reflexivity|exact H1|done].
      * eapply performed_frame; [exact G01|exact H2|done].
    + destruct (Hall y Hy) as [Q1 Q2].
      assert (calls_grow w
                (snd (update_lists this
                        (with_events_cache
                           match attached_events_cache
                                   (ws_at (snd (update_lists this
                                      (with_events
                                         (attached_events (ws_at w2 this)
                                            ++ [e])) w2)) this) !! e with
                           | Some _ =>
                               attached_events_cache
                                 (ws_at (snd (update_lists this
                                    (with_events
                                       (attached_events (ws_at w2 this)
                                          ++ [e])) w2)) this)
                           | None =>
                               <[e := event_at H e]>
                                 (attached_events_cache
                                    (ws_at (snd (update_lists this
                                       (with_events
                                          (attached_events (ws_at w2 this)
                                             ++ [e])) w2)) this))
                           end)
                        (snd (update_lists this
                                (with_events
                                   (attached_events (ws_at w2 this) ++ [e]))
                                w2))))) as G0.
      { etransitivity; [exact G02|]. by apply calls_grow_same. }
      split; (eapply performed_frame; [exact G0|eassumption|reflexivity]).
Qed.

Lemma attach_guard_conditions_performed this l w w' :
  WaitSet.attach_guard_conditions E H this l w = (RMW_RET_OK, w') →
  calls_grow w w' ∧
  ∀ gc, gc ∈ l → performed (CallAttach gc this) w w'.
Proof using Hlog.
  revert w. induction l as [|gc l IH]; intros w;
    cbn [WaitSet.attach_guard_conditions].
  - intros [= <-]. split; [reflexivity|].
    intros x Hx. by apply elem_of_nil in Hx.
  - intros (d & w1 & Hd%keeps_log_displace & Hr)%bind_inv.
    rewrite bind_get_eq in Hr.
    destruct (deleted (cond_at w1 gc)); [done|].
    apply bind_inv in Hr as (u & w2 & H2 & Hr).
    assert (calls_grow w1 w2) as H12.
    { revert H2. destruct d; [apply keeps_log_set_attached_waitset|].
      intros [= _ <-]. reflexivity. }
    apply check_inv_ok in Hr as (w3 & H3%Condition_attach_performed & Hr).
    rewrite bind_get_eq, bind_unit_eq in Hr.
    set (w4 := snd (update_lists this
                      (with_conditions
                         (attached_conditions (ws_at w3 this) ++ [gc])) w3))
      in *.
    assert (calls_grow w3 w4) as G34 by (by apply calls_grow_same).
    apply IH in Hr as [G4 Hall].
    pose proof (performed_grow _ _ _ H3) as G23.
    assert (calls_grow w w2) as G02 by (by etransitivity).
    assert (calls_grow w w4) as G04.
    { etransitivity; [exact G02|]. by etransitivity. }
    assert (calls_grow w3 w') as G3' by (by etransitivity).
    split; [by etransitivity|].
    intros y [->|Hy]%elem_of_cons.
    + eapply performed_frame; [exact G02|exact H3|exact G3'].
    + eapply performed_frame; [exact G04|by apply Hall|reflexivity].
Qed.

End calls.

Section reattach.
Context (E : Engine) (H : Heap) (this : ptr).
Hypothesis Hlog : yield_logs E.

Lemma for_each_performed (loop : list ptr → M rmw_ret_t)
    (P : ptr → World → World → Prop) xs w w' :
  (∀ l w w', loop l w = (RMW_RET_OK, w') →
     calls_grow w w' ∧ ∀ x, x ∈ l → P x w w') →
  WaitSet.for_each loop xs w = (RMW_RET_OK, w') →
  calls_grow w w' ∧ ∀ x, x ∈ requested xs → P x w w'.
Proof.
  intros Hloop [(-> & _ & ->)|Hrun]%for_each_inv.
  - split; [reflexivity|]. intros x Hx. by apply elem_of_nil in Hx.
  - by apply Hloop.
Qed.

(** A successful run of the part of [attach] that follows the early
    return has detached what was attached and attached what was
    requested. *)
Lemma reattach_performed a w w' :
  WaitSet.reattach E H this a w = (RMW_RET_OK, w') →
  reattached H this a (ws_at w this) w w'.
Proof using Hlog.
  unfold WaitSet.reattach.
  intros (w1 & H1 & Hr)%check_inv_ok.
  apply detach_calls in H1.
  assert (calls_grow w w1) as G1 by (by eexists).
  apply check_inv_ok in Hr as (w2 & H2 & Hr).
  apply (for_each_performed _
           (λ e, performed
                   (CallResetStatuses (Event_condition H (event_at H e)))))
    in H2 as [G2 Hreset]; [|by apply reset_events_performed].
  apply check_inv_ok in Hr as (w3 & H3 & Hr).
  apply (for_each_performed _
           (λ x w w',
              performed (CallResetStatuses (subscriber_condition H x)) w w' ∧
              performed (CallEnableStatuses (subscriber_condition H x)
                           DDS_DATA_AVAILABLE_STATUS) w w' ∧
              performed (CallAttach (subscriber_condition H x) this) w w' ∧
              performed (CallAttachData (subscriber_condition H x)) w w'))
    in H3 as [G3 Hsubs]; [|by apply attach_subscribers_performed].
  apply check_inv_ok in Hr as (w4 & H4 & Hr).
  apply (for_each_performed _
           (λ x w w',
              let c := subscriber_condition H (client_subscriber H x) in
              performed (CallResetStatuses c) w w' ∧
              performed (CallEnableStatuses c DDS_DATA_AVAILABLE_STATUS)
                w w' ∧
              performed (CallAttach c this) w w' ∧
              performed (CallAttachData c) w w'))
    in H4 as [G4 Hcls]; [|by apply attach_clients_performed].
  apply check_inv_ok in Hr as (w5 & H5 & Hr).
  apply (for_each_performed _
           (λ x w w',
              let c := subscriber_condition H (service_subscriber H x) in
              performed (CallResetStatuses c) w w' ∧
              performed (CallEnableStatuses c DDS_DATA_AVAILABLE_STATUS)
                w w' ∧
              performed (CallAttach c this) w w' ∧
              performed (CallAttachData c) w w'))
    in H5 as [G5 Hsrvs]; [|by apply attach_services_performed].
  apply check_inv_ok in Hr as (w6 & H6 & Hr).
  apply (for_each_performed _
           (λ e w w',
              performed
                (CallEnableStatuses (Event_condition H (event_at H e))
                   (ros_event_to_dds (have_message_lost H)
                      (event_type (event_at H e)))) w w' ∧
              performed (CallAttach (Event_condition H (event_at H e)) this)
                w w'))
    in H6 as [G6 Hevs]; [|by apply attach_events_performed].
  apply check_inv_ok in Hr as (w7 & H7 & Hr).
  apply (for_each_performed _ (λ gc, performed (CallAttach gc this)))
    in H7 as [G7 Hgcs]; [|by apply attach_guard_conditions_performed].
  injection Hr as <-.
  assert (calls_grow w w2) as G02 by (by etransitivity).
  assert (calls_grow w w3) as G03 by (by etransitivity).
  assert (calls_grow w w4) as G04 by (by etransitivity).
  assert (calls_grow w w5) as G05 by (by etransitivity).
  assert (calls_grow w w6) as G06 by (by etransitivity).
  assert (calls_grow w6 w7) as G67 by done.
  assert (calls_grow w5 w7) as G57 by (by etransitivity).
  assert (calls_grow w4 w7) as G47 by (by etransitivity).
  assert (calls_grow w3 w7) as G37 by (by etransitivity).
  assert (calls_grow w2 w7) as G27 by (by etransitivity).
  assert (calls_grow w1 w7) as G17 by (by etransitivity).
  split_and!.
  - intros c Hc. eapply performed_frame; [reflexivity| |exact G17].
    eexists. split; [exact H1|].
    apply list_elem_of_In, in_rev. rewrite rev_involutive.
    apply list_elem_of_In. by apply list_elem_of_fmap_2.
  - intros c. unfold reader_conds. rewrite !elem_of_app.
    intros [Hc|[Hc|Hc]]; apply list_elem_of_fmap in Hc as (x & -> & Hx).
    + destruct (Hsubs x Hx) as (Q1 & Q2 & Q3 & Q4).
      split_and!; (eapply performed_frame; [exact G02|eassumption|exact G37]).
    + destruct (Hcls x Hx) as (Q1 & Q2 & Q3 & Q4).
      split_and!; (eapply performed_frame; [exact G03|eassumption|exact G47]).
    + destruct (Hsrvs x Hx) as (Q1 & Q2 & Q3 & Q4).
      split_and!; (eapply performed_frame; [exact G04|eassumption|exact G57]).
  - intros e He. destruct (Hevs e He) as [Q1 Q2]. split_and!.
    + eapply performed_frame; [exact G1|by apply Hreset|exact G27].
    + eapply performed_frame; [exact G05|exact Q1|exact G67].
    + eapply performed_frame; [exact G05|exact Q2|exact G67].
  - intros gc Hgc.
    eapply performed_frame; [exact G06|by apply Hgcs|reflexivity].
Qed.

Lemma rev_fmap {A B} (f : A → B) (l : list A) :
  rev (f <$> l) = f <$> rev l.
Proof.
  induction l as [|x l IH]; [done|].
  rewrite fmap_cons. cbn [rev]. by rewrite fmap_app, IH.
Qed.

(** [wait] on unchanged sources, whatever its outcome. *)
Lemma leave_armed_calls rc arrays w o arrays' w' :
  WaitSet.leave E H this true rc arrays w = (o, arrays', w') →
  o = Returned rc ∧
  ∃ l, calls w' = (CallDetach <$> l) ++ calls w.
Proof.
  destruct (leave_frees_before_detach E H this rc arrays w) as [-> _].
  destruct (WaitSet.detach E H this
              (snd (set_state this RMW_CONNEXT_WAITSET_FREE w)))
    as [rc' wd] eqn:Hd.
  intros [= <- _ <-]. split; [done|].
  apply detach_calls in Hd.
  exists (rev (attached_conds H
                 (ws_at (snd (set_state this RMW_CONNEXT_WAITSET_FREE w))
                    this))).
  by rewrite Hd, rev_fmap.
Qed.

Lemma exit_detach_after_resets w0 w1 w2 (l : list ptr) :
  only_reset_triggers w0 w1 →
  calls w2 = (CallDetach <$> l) ++ calls w1 →
  only_resets_or_exit_detach (Returned RMW_RET_ERROR) w0 w2.
Proof.
  intros (new & Hnew & Hall) Hd. exists ((CallDetach <$> l) ++ new). split.
  - by rewrite Hd, Hnew, app_assoc.
  - apply Forall_app. split.
    + apply Forall_fmap, Forall_true. intros c. right. split; [done|].
      by eexists.
    + eapply Forall_impl; [exact Hall|]. intros c Hc. by left.
Qed.

Lemma only_resets_any o w0 w1 :
  only_reset_triggers w0 w1 → only_resets_or_exit_detach o w0 w1.
Proof.
  intros (new & Hnew & Hall). exists new. split; [done|].
  eapply Forall_impl; [exact Hall|]. intros c Hc. by left.
Qed.

Lemma wait_blocked_engine_failed_calls a d w code :
  fst (DDS_WaitSet_wait E (blocked_world this w) this d)
    = DDS_RETCODE_OTHER code →
  ∃ w0, WaitSet.wait_blocked E H this a d w
        = WaitSet.leave E H this true RMW_RET_ERROR (arrays_of a) w0 ∧
        calls w0 = calls w.
Proof.
  intros Hrc. unfold WaitSet.wait_blocked.
  rewrite bind_unit_eq. fold (blocked_world this w). rewrite bind_get_eq.
  destruct (DDS_WaitSet_wait E (blocked_world this w) this d)
    as [wait_rc active].
  simpl in Hrc. subst wait_rc. rewrite bind_unit_eq.
  rewrite decide_True by done. rewrite bind_unit_eq. by eexists.
Qed.

Lemma wait_unchanged_all_calls a wait_timeout w o arrays w' :
  state (ws_at w this) = RMW_CONNEXT_WAITSET_FREE →
  unchanged_sources (ws_at w this) a →
  WaitSet.wait E H this a wait_timeout w = (o, arrays, w') →
  only_resets_or_exit_detach o w w'.
Proof.
  intros Hfree Hsame Hwait.
  destruct (WaitSet.wait_acquire E H this a wait_timeout w) as [r w1] eqn:Hacq.
  rewrite (wait_free E H this a wait_timeout w r w1 Hfree Hacq) in Hwait.
  apply (wait_acquire_unchanged E H this a wait_timeout w r w1 Hsame) in Hacq
    as [-> Hr].
  set (wa := snd (set_state this RMW_CONNEXT_WAITSET_ACQUIRING w)) in *.
  assert (only_reset_triggers w wa) as Hwa
    by (by apply only_reset_triggers_same_calls).
  destruct r as [rc0|d].
  - subst rc0. apply leave_armed_calls in Hwait as [-> [l Hl]].
    by eapply exit_detach_after_resets.
  - destruct (fst (DDS_WaitSet_wait E (blocked_world this wa) this d))
      as [| |code] eqn:Hengine.
    3:{ destruct (wait_blocked_engine_failed_calls a d _ code Hengine)
          as (w0 & Hb & Hc0).
        rewrite Hb in Hwait. apply leave_armed_calls in Hwait as [-> [l Hl]].
        eapply exit_detach_after_resets; [|exact Hl].
        etransitivity; [exact Hwa|].
        by apply only_reset_triggers_same_calls. }
    all: rewrite wait_blocked_unfold in Hwait by (rewrite Hengine; done).
    all: destruct (WaitSet.process_wait_loops E H this (arrays_of a) 0 _)
           as [dm w''] eqn:Hdm.
    all: apply keeps_rt_process_wait_loops in Hdm.
    all: rewrite Hengine in Hwait.
    all: assert (only_reset_triggers w w'') as Hw''
           by (etransitivity; [exact Hwa|];
               etransitivity; [|exact Hdm];
               by apply only_reset_triggers_same_calls).
    all: destruct (negb (dm_failed dm) && dm_valid dm);
           [|apply leave_armed_calls in Hwait as [-> [l Hl]];
             by eapply exit_detach_after_resets].
    all: destruct (negb _);
           [injection Hwait as <- _ <-; by apply only_resets_any|].
    all: case_decide; try done.
    all: rewrite leave_unarmed in Hwait; injection Hwait as <- _ <-.
    all: apply only_resets_any.
    all: etransitivity; [exact Hw''|];
           by apply only_reset_triggers_same_calls.
Qed.

End reattach.

(** C4, as the code behaves. When each of the five requested lists
    has the size of the attached list and the same pointer in every
    position, [attach] returns [RMW_RET_OK] and the world is left as it
    was: no condition is detached, attached, reset or enabled, and no
    call is logged; a [wait] on a free wait set with such lists,
    however it ends, calls nothing but [reset_trigger] on guard
    conditions and, only when it returns [RMW_RET_ERROR],
    [Condition::detach] from its exit handler. When some list differs
    in size or in some position, [attach] runs [detach], which calls
    [Condition::detach] once for every attached source and clears the
    five lists and the cache, and then attaches the requested sources:
    whenever it returns [RMW_RET_OK] the five attached lists are the
    requested ones, every source that was attached has been detached,
    and for every requested source the statuses of its condition have
    been reset and enabled with its mask and the condition has been
    attached to this wait set. *)
Theorem attach_skips_unchanged_sources (E : Engine) (H : Heap) (this : ptr)
    (a : wait_args) (w : World) :
  yield_keeps E this →
  yield_logs E →
  (unchanged_sources (ws_at w this) a →
   WaitSet.attach E H this a w = (RMW_RET_OK, w)
   ∧ ∀ wait_timeout o arrays w',
       state (ws_at w this) = RMW_CONNEXT_WAITSET_FREE →
       WaitSet.wait E H this a wait_timeout w = (o, arrays, w') →
       only_resets_or_exit_detach o w w')
  ∧ (¬ unchanged_sources (ws_at w this) a →
     WaitSet.attach E H this a w = WaitSet.reattach E H this a w
     ∧ ws_at (snd (WaitSet.detach E H this w)) this = cleared (ws_at w this)
     ∧ calls (snd (WaitSet.detach E H this w))
       = rev (CallDetach <$> attached_conds H (ws_at w this)) ++ calls w
     ∧ ∀ w', WaitSet.attach E H this a w = (RMW_RET_OK, w') →
             attached_as_requested (ws_at w' this) a ∧
             reattached H this a (ws_at w this) w w').
Proof.
  intros Hy Hlog. split.
  - intros Hsame. split.
    + apply refresh_attach_false in Hsame.
      unfold WaitSet.attach. rewrite bind_get_eq. by rewrite Hsame.
    + intros wait_timeout o arrays w' Hfree Hwait.
      by eapply wait_unchanged_all_calls.
  - intros Hdiff.
    assert (WaitSet.refresh_attach (ws_at w this) a = true) as Hrefresh.
    { apply not_false_iff_true. by rewrite refresh_attach_false. }
    assert (WaitSet.attach E H this a w = WaitSet.reattach E H this a w)
      as Hatt.
    { unfold WaitSet.attach. rewrite bind_get_eq. by rewrite Hrefresh. }
    split_and!.
    + done.
    + destruct (WaitSet.detach E H this w) as [rc wd] eqn:Hd.
      by apply detach_clears in Hd.
    + destruct (WaitSet.detach E H this w) as [rc wd] eqn:Hd.
      by apply detach_calls in Hd.
    + intros w' Hok. split; [by eapply (attach_ok E H this Hy)|].
      rewrite Hatt in Hok. by apply (reattach_performed E H this Hlog).
Qed.

(** C5. A call of [wait] that finds the wait set free, reaches the
    engine's multi-wait and sees it time out while no attached source is
    ready and no attached condition is marked deleted returns
    [RMW_RET_TIMEOUT]; every slot of each of the five arrays of the
    caller is then null, and the wait set is [FREE] again. In every run
    of the loops of [process_wait], whatever the readiness, a slot
    either keeps its pointer or becomes null: the positions never
    change. *)
Theorem wait_timeout_nulls_every_slot (E : Engine) (H : Heap) (this : ptr)
    (a : wait_args) (wait_timeout : option rmw_time_t) (w : World)
    (wait_duration : option DDS_Duration_t) (w1 : World)
    (arrays : wait_arrays) (n : nat) (w2 : World) :
  yield_keeps E this →
  state (ws_at w this) = RMW_CONNEXT_WAITSET_FREE →
  WaitSet.wait_acquire E H this a wait_timeout w = (inr wait_duration, w1) →
  fst (DDS_WaitSet_wait E (blocked_world this w1) this wait_duration)
    = DDS_RETCODE_TIMEOUT →
  none_ready E H (ws_at (releasing_world E this wait_duration w1) this) →
  none_deleted H (releasing_world E this wait_duration w1)
    (ws_at (releasing_world E this wait_duration w1) this) →
  fst (WaitSet.wait E H this a wait_timeout w)
    = (Returned RMW_RET_TIMEOUT, arrays_all_null a)
  ∧ state (ws_at (snd (WaitSet.wait E H this a wait_timeout w)) this)
    = RMW_CONNEXT_WAITSET_FREE
  ∧ arrays_nulled_in_place arrays
      (dm_arrays (fst (WaitSet.process_wait_loops E H this arrays n w2))).
Proof.
  intros Hy Hfree Hacq Hrc Hready Hdel.
  split_and!; [| |apply process_wait_loops_in_place].
  - rewrite (wait_free E H this a wait_timeout w _ w1 Hfree Hacq).
    rewrite wait_blocked_unfold by (rewrite Hrc; done).
    pose proof (process_wait_loops_none_ready E H this a
                  (releasing_world E this wait_duration w1)
                  (releasing_world_attached E this wait_duration w1 a
                     (wait_acquire_attached E H this a wait_timeout w
                        wait_duration w1 Hy Hacq))
                  Hready Hdel) as Hdm.
    destruct (WaitSet.process_wait_loops _ _ _ _ _ _) as [dm w'].
    simpl in Hdm. subst dm. rewrite Hrc.
    cbn [dm_failed dm_valid dm_active dm_arrays negb andb].
    rewrite (bool_decide_eq_true_2 (DDS_RETCODE_TIMEOUT = DDS_RETCODE_TIMEOUT))
      by done.
    rewrite orb_true_r, decide_True by done. cbn [negb].
    by rewrite leave_unarmed.
  - rewrite (wait_free E H this a wait_timeout w _ w1 Hfree Hacq).
    rewrite wait_blocked_unfold by (rewrite Hrc; done).
    pose proof (process_wait_loops_none_ready E H this a
                  (releasing_world E this wait_duration w1)
                  (releasing_world_attached E this wait_duration w1 a
                     (wait_acquire_attached E H this a wait_timeout w
                        wait_duration w1 Hy Hacq))
                  Hready Hdel) as Hdm.
    destruct (WaitSet.process_wait_loops _ _ _ _ _ _) as [dm w'].
    simpl in Hdm. subst dm. rewrite Hrc.
    cbn [dm_failed dm_valid dm_active dm_arrays negb andb].
    rewrite (bool_decide_eq_true_2 (DDS_RETCODE_TIMEOUT = DDS_RETCODE_TIMEOUT))
      by done.
    rewrite orb_true_r, decide_True by done. cbn [negb].
    rewrite leave_unarmed.
    cbn [snd]. unfold set_state, modify. cbn [snd].
    by rewrite ws_at_set_ws.
Qed.

Lemma attach_skips_unchanged_sources_witness :
  WaitSet.attach Scenario.quiet Scenario.heap 7 Scenario.some_sources
      Scenario.after_first_wait
    = (RMW_RET_OK, Scenario.after_first_wait)
  ∧ only_resets_or_exit_detach (Returned RMW_RET_TIMEOUT)
      Scenario.after_first_wait
      (snd (WaitSet.wait Scenario.quiet Scenario.heap 7 Scenario.some_sources
              (Some Scenario.one_second) Scenario.after_first_wait))
  ∧ reattached Scenario.heap 7 Scenario.some_sources
      (ws_at Scenario.empty_world 7) Scenario.empty_world
      (snd (WaitSet.attach Scenario.quiet Scenario.heap 7
              Scenario.some_sources Scenario.empty_world)).
Proof.
  split; [|split].
  - destruct (attach_skips_unchanged_sources Scenario.quiet Scenario.heap 7
                Scenario.some_sources Scenario.after_first_wait)
      as [Hskip _].
    + intros w. reflexivity.
    + intros w. by exists [].
    + apply Hskip. apply unchanged_sources_eq. vm_compute. repeat split.
  - destruct (attach_skips_unchanged_sources Scenario.quiet Scenario.heap 7
                Scenario.some_sources Scenario.after_first_wait)
      as [Hskip _].
    + intros w. reflexivity.
    + intros w. by exists [].
    + destruct Hskip as [_ Hwait].
      { apply unchanged_sources_eq. vm_compute. repeat split. }
      apply (Hwait (Some Scenario.one_second) (Returned RMW_RET_TIMEOUT)
               (snd (fst (WaitSet.wait Scenario.quiet Scenario.heap 7
                            Scenario.some_sources (Some Scenario.one_second)
                            Scenario.after_first_wait)))).
      * vm_compute. reflexivity.
      * vm_compute. reflexivity.
  - destruct (attach_skips_unchanged_sources Scenario.quiet Scenario.heap 7
                Scenario.some_sources Scenario.empty_world)
      as [_ Hre].
    + intros w. reflexivity.
    + intros w. by exists [].
    + destruct Hre as (_ & _ & _ & Hre).
      { intros Hsame%unchanged_sources_eq.
        vm_compute in Hsame. destruct Hsame as [Hs _]. discriminate Hs. }
      apply Hre. vm_compute. reflexivity.
Defined.

(** The claim says that a [wait] on unchanged lists detaches nothing.
    After a first wait on the same sources, a second one with a time-out
    that cannot be converted returns [RMW_RET_ERROR] and its exit
    handler detaches every source. *)
Lemma wait_unchanged_detaches_on_failure :
  unchanged_sources (ws_at Scenario.after_first_wait 7) Scenario.some_sources
  ∧ state (ws_at Scenario.after_first_wait 7) = RMW_CONNEXT_WAITSET_FREE
  ∧ fst (fst (WaitSet.wait Scenario.quiet Scenario.heap 7
                Scenario.some_sources (Some Scenario.too_long)
                Scenario.after_first_wait))
    = Returned RMW_RET_ERROR
  ∧ calls (snd (WaitSet.wait Scenario.quiet Scenario.heap 7
                  Scenario.some_sources (Some Scenario.too_long)
                  Scenario.after_first_wait))
    = [CallDetach 234; CallDetach 113; CallDetach 5; CallDetach 102;
       CallDetach 101] ++ calls Scenario.after_first_wait
  ∧ nothing_attached
      (ws_at (snd (WaitSet.wait Scenario.quiet Scenario.heap 7
                     Scenario.some_sources (Some Scenario.too_long)
                     Scenario.after_first_wait)) 7).
Proof.
  split; [apply unchanged_sources_eq; vm_compute; repeat split|].
  split; [reflexivity|]. split; [vm_compute; reflexivity|].
  split; [vm_compute; reflexivity|]. vm_compute. repeat split.
Qed.

Lemma wait_timeout_nulls_every_slot_witness :
  fst (WaitSet.wait Scenario.quiet Scenario.heap 7 Scenario.some_sources
         (Some Scenario.one_second) Scenario.empty_world)
    = (Returned RMW_RET_TIMEOUT, arrays_all_null Scenario.some_sources)
  ∧ state (ws_at (snd (WaitSet.wait Scenario.quiet Scenario.heap 7
                         Scenario.some_sources (Some Scenario.one_second)
                         Scenario.empty_world)) 7)
    = RMW_CONNEXT_WAITSET_FREE
  ∧ arrays_nulled_in_place (arrays_of Scenario.some_sources)
      (dm_arrays
         (fst (WaitSet.process_wait_loops Scenario.quiet Scenario.heap 7
                 (arrays_of Scenario.some_sources) 0 Scenario.acquired))).
Proof.
  apply (wait_timeout_nulls_every_slot Scenario.quiet Scenario.heap 7
           Scenario.some_sources (Some Scenario.one_second)
           Scenario.empty_world Scenario.one_second_dds Scenario.acquired
           (arrays_of Scenario.some_sources) 0 Scenario.acquired).
  - intros w. reflexivity.
  - reflexivity.
  - vm_compute. reflexivity.
  - reflexivity.
  - repeat split; intros x _; vm_compute; reflexivity.
  - intros c Hin. vm_compute in Hin.
    repeat (apply elem_of_cons in Hin as [->|Hin]; [vm_compute; reflexivity|]).
    by apply elem_of_nil in Hin.
Defined.

(** C3, on the failing input. Wait set 1 is blocked in the engine with
    guard condition 5 attached. [attach] on wait set 2 with the same
    guard condition calls [invalidate] on wait set 1, which refuses
    because a wait is in progress; [attach] drops that code, clears the
    back-reference, attaches the condition to wait set 2 and returns
    [RMW_RET_OK]. The condition is then in the attached lists of both
    wait sets, was never detached, and points back to wait set 2 only.
    When wait set 1 is free instead, the same call empties its lists
    first. *)
Theorem attach_shares_condition_with_blocked_waitset :
  fst (WaitSet.attach Scenario.quiet Scenario.heap 2 Scenario.only_guard
         (Scenario.waitset_with_guard RMW_CONNEXT_WAITSET_BLOCKED))
    = RMW_RET_OK
  ∧ attached_conditions
      (ws_at (snd (WaitSet.attach Scenario.quiet Scenario.heap 2
                     Scenario.only_guard
                     (Scenario.waitset_with_guard RMW_CONNEXT_WAITSET_BLOCKED)))
         1) = [5]
  ∧ attached_conditions
      (ws_at (snd (WaitSet.attach Scenario.quiet Scenario.heap 2
                     Scenario.only_guard
                     (Scenario.waitset_with_guard RMW_CONNEXT_WAITSET_BLOCKED)))
         2) = [5]
  ∧ attached_waitset
      (cond_at (snd (WaitSet.attach Scenario.quiet Scenario.heap 2
                       Scenario.only_guard
                       (Scenario.waitset_with_guard
                          RMW_CONNEXT_WAITSET_BLOCKED))) 5) = Some 2
  ∧ calls (snd (WaitSet.attach Scenario.quiet Scenario.heap 2
                  Scenario.only_guard
                  (Scenario.waitset_with_guard RMW_CONNEXT_WAITSET_BLOCKED)))
    = [CallAttach 5 2; CallInvalidate 1 5]
  ∧ attached_conditions
      (ws_at (snd (WaitSet.attach Scenario.quiet Scenario.heap 2
                     Scenario.only_guard
                     (Scenario.waitset_with_guard RMW_CONNEXT_WAITSET_FREE)))
         1) = []
  ∧ calls (snd (WaitSet.attach Scenario.quiet Scenario.heap 2
                  Scenario.only_guard
                  (Scenario.waitset_with_guard RMW_CONNEXT_WAITSET_FREE)))
    = [CallAttach 5 2; CallDetach 5; CallInvalidate 1 5].
Proof. repeat split; vm_compute; reflexivity. Qed.
(** ** The code returned by [detach] *)

Section detach_code.
Context (E : Engine) (H : Heap) (this : ptr).

Lemma Condition_detach_code c w rc w' :
  Condition.detach E c w = (rc, w') → rc = dds_detach E c.
Proof.
  unfold Condition.detach, bind, log_call, modify, set_attached_waitset, ret.
  simpl. destruct (decide (dds_detach E c = RMW_RET_OK)) as [Heq|];
    intros [= <- _]; [by rewrite Heq|done].
Qed.

Lemma detach_each_code cs failed w x w' :
  WaitSet.detach_each E cs failed w = (x, w') →
  x = failed || existsb (refuses_detach E) cs.
Proof.
  revert failed w x. induction cs as [|c cs IH]; intros failed w x;
    cbn [WaitSet.detach_each existsb].
  - intros [= <- _]. by rewrite orb_false_r.
  - intros (rc & w1 & ->%Condition_detach_code & Hrest)%bind_inv.
    apply IH in Hrest as ->. unfold refuses_detach at 2.
    destruct (decide (dds_detach E c = RMW_RET_OK)) as [Heq|Hne].
    + by rewrite bool_decide_eq_true_2.
    + rewrite bool_decide_eq_false_2 by done. simpl.
      by rewrite orb_true_r.
Qed.

Lemma detach_events_code es failed w x w' :
  WaitSet.detach_events E H this es failed w = (x, w') →
  x = failed ||
      existsb (refuses_detach E)
        ((λ e, Event_condition H
                 (default inhabitant
                    (attached_events_cache (ws_at w this) !! e))) <$> es).
Proof.
  revert failed w x. induction es as [|e es IH]; intros failed w x;
    cbn [WaitSet.detach_events].
  - intros [= <- _]. by rewrite orb_false_r.
  - intros (v & w1 & Hidx & Hrest)%bind_inv.
    apply cache_index_lookups in Hidx as (-> & _ & Hlook).
    apply bind_inv in Hrest as (rc & w2 & Hdet & Hrest).
    pose proof (Condition_detach_code _ _ _ _ Hdet) as ->.
    apply (Condition_detach_calls E) in Hdet as [_ Hw2].
    apply IH in Hrest as ->.
    assert ((λ e', Event_condition H
               (default inhabitant
                  (attached_events_cache (ws_at w2 this) !! e'))) <$> es
            = (λ e', Event_condition H
               (default inhabitant
                  (attached_events_cache (ws_at w this) !! e'))) <$> es)
      as Hl.
    { apply list_fmap_ext. intros _ e' _. f_equal.
      unfold ws_at at 1. rewrite Hw2. apply Hlook. }
    rewrite Hl. rewrite fmap_cons. cbn [existsb].
    unfold refuses_detach at 2.
    destruct (decide (dds_detach E _ = RMW_RET_OK)) as [Heq|Hne].
    + by rewrite bool_decide_eq_true_2.
    + rewrite bool_decide_eq_false_2 by done. simpl.
      by rewrite orb_true_r.
Qed.

Lemma detach_code w rc w' :
  WaitSet.detach E H this w = (rc, w') →
  rc = if existsb (refuses_detach E) (attached_conds H (ws_at w this))
       then RMW_RET_ERROR else RMW_RET_OK.
Proof.
  unfold WaitSet.detach.
  intros (? & ? & [-> ->]%get_inv & Hd)%bind_inv.
  apply bind_inv in Hd as (f1 & w1 & H1 & Hd).
  pose proof (detach_each_code _ _ _ _ _ H1) as F1.
  apply (detach_each_calls E) in H1 as [_ W1].
  apply bind_inv in Hd as (? & w2 & H2%(update_lists_inv this) & Hd).
  apply bind_inv in Hd as (? & ? & [-> ->]%get_inv & Hd).
  apply bind_inv in Hd as (f2 & w3 & H3 & Hd).
  pose proof (detach_each_code _ _ _ _ _ H3) as F3.
  apply (detach_each_calls E) in H3 as [_ W3].
  apply bind_inv in Hd as (? & w4 & H4%(update_lists_inv this) & Hd).
  apply bind_inv in Hd as (? & ? & [-> ->]%get_inv & Hd).
  apply bind_inv in Hd as (f3 & w5 & H5 & Hd).
  pose proof (detach_each_code _ _ _ _ _ H5) as F5.
  apply (detach_each_calls E) in H5 as [_ W5].
  apply bind_inv in Hd as (? & w6 & H6%(update_lists_inv this) & Hd).
  apply bind_inv in Hd as (? & ? & [-> ->]%get_inv & Hd).
  apply bind_inv in Hd as (f4 & w7 & H7 & Hd).
  pose proof (detach_each_code _ _ _ _ _ H7) as F7.
  apply (detach_each_calls E) in H7 as [_ W7].
  apply bind_inv in Hd as (? & w8 & H8%(update_lists_inv this) & Hd).
  apply bind_inv in Hd as (? & ? & [-> ->]%get_inv & Hd).
  apply bind_inv in Hd as (f5 & w9 & F9%detach_events_code & Hd).
  apply bind_inv in Hd as (? & w10 & _ & Hd).
  apply bind_inv in Hd as (? & w11 & _ & Hd).
  injection Hd as <- _.
  assert (ws_at w1 this = ws_at w this) as E1 by (unfold ws_at; by rewrite W1).
  assert (ws_at w3 this = ws_at w2 this) as E3 by (unfold ws_at; by rewrite W3).
  assert (ws_at w5 this = ws_at w4 this) as E5 by (unfold ws_at; by rewrite W5).
  assert (ws_at w7 this = ws_at w6 this) as E7 by (unfold ws_at; by rewrite W7).
  rewrite F9, F7, F5, F3, F1.
  rewrite H8, E7, H6, E5, H4, E3, H2, E1.
  unfold attached_conds. rewrite !existsb_app.
  destruct (ws_at w this); simpl. by rewrite !orb_assoc.
Qed.

End detach_code.

Lemma existsb_refuses_false E cs :
  existsb (refuses_detach E) cs = false ↔
  ∀ c, c ∈ cs → dds_detach E c = RMW_RET_OK.
Proof.
  induction cs as [|c cs IH]; cbn [existsb].
  - split; [|done]. intros _ c Hc. by apply elem_of_nil in Hc.
  - rewrite orb_false_iff, IH. unfold refuses_detach.
    rewrite negb_false_iff, bool_decide_eq_true. split.
    + intros [Hc Hcs] c' [-> | Hin]%elem_of_cons; auto.
    + intros Hall. split; [apply Hall; by left|].
      intros c' Hin. apply Hall. by right.
Qed.

Lemma cleared_nothing ws : nothing_attached (cleared ws).
Proof. by repeat split. Qed.

(** X1. [detach] calls [Condition::detach] once on every attached
    source, in the order of the lists, also after one of them was
    refused, and calls nothing else: it returns [RMW_RET_OK] exactly
    when the engine accepted every detachment and [RMW_RET_ERROR]
    otherwise, and in both cases the five lists and the cache of the
    wait set are empty afterwards. *)
Theorem detach_reports_any_refusal (E : Engine) (H : Heap) (this : ptr)
    (w : World) :
  calls (snd (WaitSet.detach E H this w))
    = rev (CallDetach <$> attached_conds H (ws_at w this)) ++ calls w
  ∧ (fst (WaitSet.detach E H this w) = RMW_RET_OK ↔
     ∀ c, c ∈ attached_conds H (ws_at w this) → dds_detach E c = RMW_RET_OK)
  ∧ (fst (WaitSet.detach E H this w) = RMW_RET_OK ∨
     fst (WaitSet.detach E H this w) = RMW_RET_ERROR)
  ∧ nothing_attached (ws_at (snd (WaitSet.detach E H this w)) this).
Proof.
  destruct (WaitSet.detach E H this w) as [rc w'] eqn:Hd. cbn [fst snd].
  pose proof (detach_code E H this w rc w' Hd) as Hrc.
  pose proof (detach_calls E H this w rc w' Hd) as Hcalls.
  apply (detach_clears E H this) in Hd. rewrite Hd.
  split; [done|].
  split; [|split; [|apply cleared_nothing]].
  - rewrite <- existsb_refuses_false.
    destruct (existsb _ _); subst rc; split; done.
  - destruct (existsb _ _); subst rc; auto.
Qed.

(** X2. With every attached event cached, [is_attached] changes
    nothing and answers [true] exactly when the condition is the one of
    an attached subscriber, guard condition, client, service or
    event. *)
Theorem is_attached_reports_membership (H : Heap) (this cond : ptr)
    (w : World) :
  events_cached (ws_at w this) →
  ∃ b, WaitSet.is_attached H this cond w = (b, w) ∧
       (b = true ↔ condition_attached H (ws_at w this) cond).
Proof. apply is_attached_decides. Qed.

Lemma is_attached_reports_membership_witness :
  ∃ b, WaitSet.is_attached Scenario.heap 1 5
         (Scenario.waitset_with_guard RMW_CONNEXT_WAITSET_FREE)
       = (b, Scenario.waitset_with_guard RMW_CONNEXT_WAITSET_FREE) ∧
       (b = true ↔
        condition_attached Scenario.heap
          (ws_at (Scenario.waitset_with_guard RMW_CONNEXT_WAITSET_FREE) 1) 5).
Proof.
  apply (is_attached_reports_membership Scenario.heap 1 5).
  intros e He. vm_compute in He. by apply elem_of_nil in He.
Defined.

(** X3. [invalidate] of an attached condition on a wait set that no
    thread is waiting on detaches every source of the wait set, not only
    the condition: the lists and the cache end empty, [Condition::detach]
    is called once per attached source and nothing else is called, the
    state is [FREE] again, and the code is [RMW_RET_OK] exactly when the
    engine accepted every detachment. *)
Theorem invalidate_idle_detaches_all (E : Engine) (H : Heap)
    (this cond : ptr) (w : World) (rc : rmw_ret_t) (w' : World) :
  events_cached (ws_at w this) →
  state (ws_at w this) = RMW_CONNEXT_WAITSET_FREE →
  condition_attached H (ws_at w this) cond →
  WaitSet.invalidate E H this cond w = (rc, w') →
  ws_at w' this = cleared (ws_at w this)
  ∧ calls w' = rev (CallDetach <$> attached_conds H (ws_at w this)) ++ calls w
  ∧ (rc = RMW_RET_OK ↔
     ∀ c, c ∈ attached_conds H (ws_at w this) → dds_detach E c = RMW_RET_OK).
Proof.
  intros Hc Hfree Hatt Hinv.
  destruct (is_attached_decides H this cond w Hc) as (b & Hb & Hiff).
  apply Hiff in Hatt as ->.
  unfold WaitSet.invalidate in Hinv.
  rewrite (bind_eq _ _ _ _ _ Hb) in Hinv. cbn [negb] in Hinv.
  rewrite bind_get_eq in Hinv. rewrite decide_True in Hinv by done.
  rewrite bind_unit_eq in Hinv.
  apply bind_inv in Hinv as (rc1 & w1 & Hd & Hinv).
  rewrite bind_unit_eq in Hinv. injection Hinv as -> <-.
  pose proof (detach_code E H this _ _ _ Hd) as Hrc.
  pose proof (detach_calls E H this _ _ _ Hd) as Hcalls.
  apply (detach_clears E H this) in Hd.
  assert (ws_at (snd (set_state this RMW_CONNEXT_WAITSET_INVALIDATING w)) this
          = {| state := RMW_CONNEXT_WAITSET_INVALIDATING;
               attached_subscribers := attached_subscribers (ws_at w this);
               attached_conditions := attached_conditions (ws_at w this);
               attached_clients := attached_clients (ws_at w this);
               attached_services := attached_services (ws_at w this);
               attached_events := attached_events (ws_at w this);
               attached_events_cache := attached_events_cache (ws_at w this);
               active_conditions := active_conditions (ws_at w this) |})
    as Hws.
  { unfold set_state, modify. cbn [snd]. by rewrite ws_at_set_ws. }
  rewrite Hws in Hd, Hrc, Hcalls.
  split; [|split].
  - unfold set_state, modify. cbn [snd]. rewrite ws_at_set_ws, Hd.
    unfold cleared. cbn. by rewrite Hfree.
  - unfold set_state, modify. cbn [snd]. unfold set_ws; cbn [calls].
    rewrite Hcalls. done.
  - rewrite <- existsb_refuses_false. unfold attached_conds in *.
    cbn in Hrc. destruct (existsb _ _); subst rc; split; done.
Qed.

Lemma invalidate_idle_detaches_all_witness :
  ws_at (snd (WaitSet.invalidate Scenario.quiet Scenario.heap 1 5
                (Scenario.waitset_with_guard RMW_CONNEXT_WAITSET_FREE))) 1
  = cleared (ws_at (Scenario.waitset_with_guard RMW_CONNEXT_WAITSET_FREE) 1).
Proof.
  refine (proj1 (invalidate_idle_detaches_all Scenario.quiet Scenario.heap 1 5
            (Scenario.waitset_with_guard RMW_CONNEXT_WAITSET_FREE)
            RMW_RET_OK _ _ _ _ _)).
  - intros e He. vm_compute in He. by apply elem_of_nil in He.
  - reflexivity.
  - right. left. vm_compute. by left.
  - vm_compute. reflexivity.
Defined.

(** X4. [invalidate] of an attached condition while a thread is blocked
    in, or returning from, [wait] on the wait set, or while another
    invalidation is running, detaches nothing: it stores the message
    "cannot delete and wait on the same object" and returns
    [RMW_RET_ERROR]. *)
Theorem invalidate_busy_fails (E : Engine) (H : Heap) (this cond : ptr)
    (w : World) :
  events_cached (ws_at w this) →
  condition_attached H (ws_at w this) cond →
  state (ws_at w this) ≠ RMW_CONNEXT_WAITSET_FREE →
  state (ws_at w this) ≠ RMW_CONNEXT_WAITSET_ACQUIRING →
  WaitSet.invalidate E H this cond w
  = (RMW_RET_ERROR, with_error "cannot delete and wait on the same object" w).
Proof.
  intros Hc Hatt Hfree Hacq.
  destruct (is_attached_decides H this cond w Hc) as (b & Hb & Hiff).
  apply Hiff in Hatt as ->.
  unfold WaitSet.invalidate.
  rewrite (bind_eq _ _ _ _ _ Hb). cbn [negb].
  rewrite bind_get_eq. rewrite decide_False by done.
  by rewrite decide_True by done.
Qed.

Lemma invalidate_busy_fails_witness :
  WaitSet.invalidate Scenario.quiet Scenario.heap 1 5
    (Scenario.waitset_with_guard RMW_CONNEXT_WAITSET_BLOCKED)
  = (RMW_RET_ERROR,
     with_error "cannot delete and wait on the same object"
       (Scenario.waitset_with_guard RMW_CONNEXT_WAITSET_BLOCKED)).
Proof.
  apply (invalidate_busy_fails Scenario.quiet Scenario.heap 1 5).
  - intros e He. vm_compute in He. by apply elem_of_nil in He.
  - right. left. vm_compute. by left.
  - discriminate.
  - discriminate.
Defined.

(** ** What [wait] leaves behind *)

Section wait_leaves.
Context (E : Engine) (H : Heap) (this : ptr).

Lemma same_waitset_but_cache w w' :
  same_waitset this w w' → same_but_cache this w w'.
Proof.
  intros Hs. exists (attached_events_cache (ws_at w this)).
  by rewrite with_events_cache_id.
Qed.

Lemma keeps_bc_process_guard_conditions l i arr active failed valid :
  keeps (same_but_cache this)
    (WaitSet.process_guard_conditions E H this l i arr active failed valid).
Proof.
  revert i arr active failed valid.
  induction l as [|gc l IH]; intros i arr active failed valid;
    cbn [WaitSet.process_guard_conditions]; [apply keeps_ret|].
  apply keeps_bind; [apply keeps_get|]. intros w.
  destruct (negb _); [apply IH|].
  apply keeps_bind; [|intros rc; apply IH].
  apply (keeps_weaken (same_waitset this)); [apply same_waitset_but_cache|].
  apply keeps_ws_Condition_reset_trigger.
Qed.

Lemma keeps_bc_process_events l i arr active valid :
  keeps (same_but_cache this)
    (WaitSet.process_events E H this l i arr active valid).
Proof.
  revert i arr active valid.
  induction l as [|e l IH]; intros i arr active valid;
    cbn [WaitSet.process_events]; [apply keeps_ret|].
  apply keeps_bind.
  { intros w x w' Hidx. by apply cache_index_inv in Hidx as (_ & ? & _). }
  intros v. apply keeps_bind; [apply keeps_get|]. intros w. apply IH.
Qed.

Lemma keeps_bc_process_wait_loops arrays n :
  keeps (same_but_cache this)
    (WaitSet.process_wait_loops E H this arrays n).
Proof.
  unfold WaitSet.process_wait_loops.
  apply keeps_bind; [apply keeps_get|]. intros w.
  destruct (WaitSet.process_subscribers _ _ _ _ _ _ _ _) as [[? ?] ?].
  apply keeps_bind; [apply keeps_bc_process_guard_conditions|].
  intros [[[? ?] ?] ?].
  apply keeps_bind; [apply keeps_get|]. intros w2.
  destruct (WaitSet.process_clients _ _ _ _ _ _ _ _) as [[? ?] ?].
  destruct (WaitSet.process_services _ _ _ _ _ _) as [? ?].
  apply keeps_bind; [apply keeps_bc_process_events|]. intros [[? ?] ?].
  apply keeps_ret.
Qed.

(** The scope-exit handlers with the detach armed: the code is handed
    through, the state is [FREE] and nothing stays attached. *)
Lemma leave_armed rc arrays w o arrays' w' :
  WaitSet.leave E H this true rc arrays w = (o, arrays', w') →
  o = Returned rc ∧
  state (ws_at w' this) = RMW_CONNEXT_WAITSET_FREE ∧
  nothing_attached (ws_at w' this).
Proof.
  unfold WaitSet.leave. rewrite bind_unit_eq.
  intros (u & w1 & Hd & Hret)%bind_inv.
  apply bind_inv in Hd as (rc1 & w2 & Hd & Hu).
  injection Hu as _ <-. injection Hret as <- _ <-.
  apply (detach_clears E H this) in Hd. rewrite Hd.
  unfold set_state, modify. cbn [snd]. rewrite ws_at_set_ws.
  split; [done|]. split; [done|]. by repeat split.
Qed.

Lemma attached_as_requested_but_cache w w' a :
  same_but_cache this w w' →
  attached_as_requested (ws_at w this) a →
  attached_as_requested (ws_at w' this) a.
Proof. intros [m ->]. done. Qed.

(** An early return of [wait_acquire] never carries [RMW_RET_OK]. *)
Lemma wait_acquire_early a wait_timeout w rc w1 :
  WaitSet.wait_acquire E H this a wait_timeout w = (inl rc, w1) →
  rc ≠ RMW_RET_OK.
Proof.
  unfold WaitSet.wait_acquire. rewrite bind_unit_eq.
  intros (rc0 & wa & _ & Hr)%bind_inv.
  destruct (decide (rc0 ≠ RMW_RET_OK)) as [Hne|_].
  { unfold ret in Hr. by injection Hr as <- _. }
  rewrite bind_get_eq in Hr.
  repeat case_match; unfold ret in Hr; by simplify_eq.
Qed.

(** A time-out that does not fit a DDS duration makes [wait_acquire]
    return early. *)
Lemma wait_acquire_long_timeout a t w :
  rmw_connextdds_duration_from_ros_time t = None →
  ∃ rc, fst (WaitSet.wait_acquire E H this a (Some t) w) = inl rc.
Proof.
  intros Ht. unfold WaitSet.wait_acquire. rewrite bind_unit_eq.
  unfold bind at 1.
  destruct (WaitSet.attach E H this a _) as [rc0 wa].
  destruct (decide (rc0 ≠ RMW_RET_OK)); [by eexists|].
  rewrite bind_get_eq. rewrite Ht.
  repeat case_match; by eexists.
Qed.

Lemma wait_returned a wait_timeout w rc arrays w' :
  yield_keeps E this →
  state (ws_at w this) = RMW_CONNEXT_WAITSET_FREE →
  WaitSet.wait E H this a wait_timeout w = (Returned rc, arrays, w') →
  state (ws_at w' this) = RMW_CONNEXT_WAITSET_FREE ∧
  (rc ≠ RMW_RET_OK → rc ≠ RMW_RET_TIMEOUT →
   nothing_attached (ws_at w' this)) ∧
  (rc = RMW_RET_OK → attached_as_requested (ws_at w' this) a).
Proof.
  intros Hy Hfree Hwait.
  destruct (WaitSet.wait_acquire E H this a wait_timeout w) as [r w1] eqn:Hacq.
  rewrite (wait_free E H this a wait_timeout w r w1 Hfree Hacq) in Hwait.
  destruct r as [rc0|d].
  { apply wait_acquire_early in Hacq.
    apply leave_armed in Hwait as ([= <-] & Hst & Hno).
    split; [done|]. split; [done|]. by intros ->. }
  apply (wait_acquire_attached E H this a wait_timeout w d w1 Hy) in Hacq.
  destruct (fst (DDS_WaitSet_wait E (blocked_world this w1) this d))
    as [| |code] eqn:Hengine.
  3:{ destruct (wait_blocked_engine_failed E H this a d _ code Hengine)
        as [w0 Hb].
      rewrite Hb in Hwait.
      apply leave_armed in Hwait as ([= ->] & Hst & Hno).
      split; [done|]. split; [done|]. done. }
  all: rewrite wait_blocked_unfold in Hwait by (rewrite Hengine; done).
  all: destruct (WaitSet.process_wait_loops E H this (arrays_of a) 0 _)
         as [dm w''] eqn:Hdm.
  all: apply keeps_bc_process_wait_loops in Hdm.
  all: apply (attached_as_requested_but_cache _ _ a) in Hdm;
         [|by apply releasing_world_attached].
  all: rewrite Hengine in Hwait.
  all: destruct (negb (dm_failed dm) && dm_valid dm);
         [|apply leave_armed in Hwait as ([= ->] & Hst & Hno);
          split; [done|split; [by intros|by intros [=]]]].
  all: destruct (negb _); [done|].
  all: case_decide; try done.
  all: rewrite leave_unarmed in Hwait; injection Hwait as <- _ <-.
  all: rewrite !ws_at_set_ws; split; [done|]; split; [done|]; intros _.
  all: exact Hdm.
Qed.

End wait_leaves.

(** X5. A [wait] that found the wait set free and returns a code has
    put the state back to [FREE]; when the code is neither [RMW_RET_OK]
    nor [RMW_RET_TIMEOUT] the scope-exit handler has detached everything
    and the five lists and the cache are empty; when the code is
    [RMW_RET_OK] the attached lists are the requested ones, kept for the
    next call. *)
Theorem wait_releases (E : Engine) (H : Heap) (this : ptr) (a : wait_args)
    (wait_timeout : option rmw_time_t) (w : World) (rc : rmw_ret_t)
    (arrays : wait_arrays) (w' : World) :
  yield_keeps E this →
  state (ws_at w this) = RMW_CONNEXT_WAITSET_FREE →
  WaitSet.wait E H this a wait_timeout w = (Returned rc, arrays, w') →
  state (ws_at w' this) = RMW_CONNEXT_WAITSET_FREE ∧
  (rc ≠ RMW_RET_OK → rc ≠ RMW_RET_TIMEOUT →
   nothing_attached (ws_at w' this)) ∧
  (rc = RMW_RET_OK → attached_as_requested (ws_at w' this) a).
Proof. apply wait_returned. Qed.

Lemma wait_releases_witness :
  state (ws_at (snd (WaitSet.wait Scenario.busy Scenario.heap 7
                       Scenario.some_sources (Some Scenario.one_second)
                       Scenario.empty_world)) 7)
  = RMW_CONNEXT_WAITSET_FREE.
Proof.
  refine (proj1 (wait_releases Scenario.busy Scenario.heap 7
            Scenario.some_sources (Some Scenario.one_second)
            Scenario.empty_world RMW_RET_OK
            (snd (fst (WaitSet.wait Scenario.busy Scenario.heap 7
                         Scenario.some_sources (Some Scenario.one_second)
                         Scenario.empty_world))) _ _ _ _)).
  - intros w. reflexivity.
  - reflexivity.
  - vm_compute. reflexivity.
Defined.

(** X6. A [wait] on a free wait set with a time-out of more than
    [INT32_MAX] seconds or more than [UINT32_MAX] nanoseconds never
    reaches the engine's multi-wait: it returns a code other than
    [RMW_RET_OK], the state is [FREE] again and every source has been
    detached. *)
Theorem wait_rejects_long_timeout (E : Engine) (H : Heap) (this : ptr)
    (a : wait_args) (t : rmw_time_t) (w : World) :
  state (ws_at w this) = RMW_CONNEXT_WAITSET_FREE →
  (INT32_MAX < sec t ∨ UINT32_MAX < nsec t)%N →
  ∃ rc w1,
    WaitSet.wait E H this a (Some t) w
      = WaitSet.leave E H this true rc (arrays_of a) w1 ∧
    fst (fst (WaitSet.wait E H this a (Some t) w)) = Returned rc ∧
    rc ≠ RMW_RET_OK ∧
    state (ws_at (snd (WaitSet.wait E H this a (Some t) w)) this)
      = RMW_CONNEXT_WAITSET_FREE ∧
    nothing_attached (ws_at (snd (WaitSet.wait E H this a (Some t) w)) this).
Proof.
  intros Hfree Hlong.
  assert (rmw_connextdds_duration_from_ros_time t = None) as Ht.
  { unfold rmw_connextdds_duration_from_ros_time.
    by rewrite bool_decide_eq_true_2. }
  destruct (wait_acquire_long_timeout E H this a t w Ht) as [rc Hrc].
  destruct (WaitSet.wait_acquire E H this a (Some t) w) as [r w1] eqn:Hacq.
  cbn [fst] in Hrc. subst r.
  exists rc, w1.
  rewrite (wait_free E H this a (Some t) w _ w1 Hfree Hacq).
  split; [done|].
  destruct (WaitSet.leave E H this true rc (arrays_of a) w1)
    as [[o arrays'] w'] eqn:Hl.
  apply leave_armed in Hl as (-> & Hst & Hno).
  cbn [fst snd]. split; [done|].
  split; [by eapply wait_acquire_early|done].
Qed.

Lemma wait_rejects_long_timeout_witness :
  ∃ rc w1,
    WaitSet.wait Scenario.quiet Scenario.heap 7 Scenario.some_sources
      (Some {| sec := 2147483648; nsec := 0 |}) Scenario.empty_world
      = WaitSet.leave Scenario.quiet Scenario.heap 7 true rc
          (arrays_of Scenario.some_sources) w1 ∧
    fst (fst (WaitSet.wait Scenario.quiet Scenario.heap 7
                Scenario.some_sources
                (Some {| sec := 2147483648; nsec := 0 |})
                Scenario.empty_world)) = Returned rc ∧
    rc ≠ RMW_RET_OK ∧
    state (ws_at (snd (WaitSet.wait Scenario.quiet Scenario.heap 7
                         Scenario.some_sources
                         (Some {| sec := 2147483648; nsec := 0 |})
                         Scenario.empty_world)) 7)
      = RMW_CONNEXT_WAITSET_FREE ∧
    nothing_attached
      (ws_at (snd (WaitSet.wait Scenario.quiet Scenario.heap 7
                     Scenario.some_sources
                     (Some {| sec := 2147483648; nsec := 0 |})
                     Scenario.empty_world)) 7).
Proof.
  apply (wait_rejects_long_timeout Scenario.quiet Scenario.heap 7
           Scenario.some_sources {| sec := 2147483648; nsec := 0 |}
           Scenario.empty_world).
  - reflexivity.
  - left. vm_compute. reflexivity.
Defined.

(** ** The slots that [process_wait] leaves non-null *)

Lemma count_ready_cons ready x l :
  count_ready ready (x :: l)
  = (if ready x then 1 else 0) + count_ready ready l.
Proof. unfold count_ready. simpl. by destruct (ready x). Qed.

Lemma count_ready_ext (f g : ptr → bool) l :
  (∀ x, f x = g x) → count_ready f l = count_ready g l.
Proof.
  intros Hfg. induction l as [|x l IH]; [done|].
  by rewrite !count_ready_cons, Hfg, IH.
Qed.

Lemma mark_ext (f g : ptr → bool) (l : list ptr) :
  (∀ x, f x = g x) → mark f <$> l = mark g <$> l.
Proof.
  intros Hfg. apply list_fmap_ext. intros _ x _. unfold mark. by rewrite Hfg.
Qed.

Lemma slot_step (ready : ptr → bool) i pre x rest :
  length pre = i →
  (if negb (ready x) then null_out i (Some (pre ++ Some x :: rest))
   else Some (pre ++ Some x :: rest))
  = Some ((pre ++ [mark ready x]) ++ rest).
Proof.
  intros Hlen. unfold mark. rewrite <- app_assoc. cbn [app].
  destruct (ready x); cbn [negb null_out]; [done|].
  f_equal. rewrite insert_app_r_alt by lia.
  by rewrite Hlen, Nat.sub_diag.
Qed.

Lemma active_step (ready : ptr → bool) x active rest :
  (if negb (ready x) then active else active + 1) + rest
  = active + ((if ready x then 1 else 0) + rest).
Proof. destruct (ready x); simpl; lia. Qed.

Section marks.
Context (E : Engine) (H : Heap) (this : ptr).

Lemma process_subscribers_marks w l i pre active valid :
  length pre = i →
  ∃ valid',
    WaitSet.process_subscribers E H w l i (Some (pre ++ (Some <$> l)))
      active valid
    = (Some (pre ++ (mark (has_data E) <$> l)),
       active + count_ready (has_data E) l, valid').
Proof.
  revert i pre active valid.
  induction l as [|x l IH]; intros i pre active valid Hlen;
    cbn [WaitSet.process_subscribers].
  - exists valid. by rewrite Nat.add_0_r.
  - rewrite fmap_cons, (slot_step (has_data E)) by done.
    destruct (IH (i + 1) (pre ++ [mark (has_data E) x])
                (if negb (has_data E x) then active else active + 1)
                (valid && negb (deleted (cond_at w (subscriber_condition H x)))))
      as [valid' ->].
    { rewrite length_app. simpl. lia. }
    exists valid'. rewrite count_ready_cons, active_step, fmap_cons.
    by rewrite <- app_assoc.
Qed.

Lemma process_clients_marks w l i pre active valid :
  length pre = i →
  ∃ valid',
    WaitSet.process_clients E H w l i (Some (pre ++ (Some <$> l)))
      active valid
    = (Some (pre ++ (mark (λ c, has_data E (client_subscriber H c)) <$> l)),
       active + count_ready (λ c, has_data E (client_subscriber H c)) l,
       valid').
Proof.
  revert i pre active valid.
  induction l as [|x l IH]; intros i pre active valid Hlen;
    cbn [WaitSet.process_clients].
  - exists valid. by rewrite Nat.add_0_r.
  - rewrite fmap_cons,
      (slot_step (λ c, has_data E (client_subscriber H c))) by done.
    destruct (IH (i + 1)
                (pre ++ [mark (λ c, has_data E (client_subscriber H c)) x])
                (if negb (has_data E (client_subscriber H x))
                 then active else active + 1)
                (valid &&
                 negb (deleted
                   (cond_at w
                      (subscriber_condition H (client_subscriber H x))))))
      as [valid' ->].
    { rewrite length_app. simpl. lia. }
    exists valid'.
    rewrite count_ready_cons,
      (active_step (λ c, has_data E (client_subscriber H c))), fmap_cons.
    by rewrite <- app_assoc.
Qed.

Lemma process_services_marks l i pre active :
  length pre = i →
  WaitSet.process_services E H l i (Some (pre ++ (Some <$> l))) active
  = (Some (pre ++ (mark (λ s, has_data E (service_subscriber H s)) <$> l)),
     active + count_ready (λ s, has_data E (service_subscriber H s)) l).
Proof.
  revert i pre active.
  induction l as [|x l IH]; intros i pre active Hlen;
    cbn [WaitSet.process_services].
  - by rewrite Nat.add_0_r.
  - rewrite fmap_cons,
      (slot_step (λ s, has_data E (service_subscriber H s))) by done.
    rewrite IH by (rewrite length_app; simpl; lia).
    rewrite count_ready_cons,
      (active_step (λ s, has_data E (service_subscriber H s))), fmap_cons.
    by rewrite <- app_assoc.
Qed.

Lemma process_guard_conditions_marks l i pre active failed valid w :
  length pre = i →
  ∃ failed' valid',
    fst (WaitSet.process_guard_conditions E H this l i
           (Some (pre ++ (Some <$> l))) active failed valid w)
    = (Some (pre ++
             (mark (WaitSet.active_condition H (ws_at w this)) <$> l)),
       active + count_ready (WaitSet.active_condition H (ws_at w this)) l,
       failed', valid').
Proof.
  revert i pre active failed valid w.
  induction l as [|x l IH]; intros i pre active failed valid w Hlen;
    cbn [WaitSet.process_guard_conditions].
  - exists failed, valid. by rewrite Nat.add_0_r.
  - rewrite bind_get_eq. set (ready := WaitSet.active_condition H (ws_at w this)).
    pose proof (slot_step ready i pre x (Some <$> l) Hlen) as Hslot.
    rewrite fmap_cons, count_ready_cons.
    destruct (ready x) eqn:Hr; cbn [negb] in *.
    + unfold bind at 1.
      destruct (Condition.reset_trigger E x w) as [rc w1] eqn:Hreset.
      apply (keeps_ws_Condition_reset_trigger E this) in Hreset.
      red in Hreset.
      destruct (IH (i + 1) (pre ++ [mark ready x]) (active + 1)
                  (if decide (rc = RMW_RET_OK) then failed else true)
                  (valid && negb (deleted (cond_at w x))) w1)
        as (failed' & valid' & Heq).
      { rewrite length_app. simpl. lia. }
      rewrite Hslot, Heq, Hreset. exists failed', valid'.
      rewrite fmap_cons, <- app_assoc. cbn [app]. subst ready.
      by rewrite Nat.add_assoc.
    + destruct (IH (i + 1) (pre ++ [mark ready x]) active failed
                  (valid && negb (deleted (cond_at w x))) w)
        as (failed' & valid' & Heq).
      { rewrite length_app. simpl. lia. }
      rewrite Hslot, Heq. exists failed', valid'.
      by rewrite fmap_cons, <- app_assoc.
Qed.

Lemma process_events_marks l i pre active valid w :
  length pre = i →
  ∃ valid',
    fst (WaitSet.process_events E H this l i (Some (pre ++ (Some <$> l)))
           active valid w)
    = (Some (pre ++
             (mark (λ e, Event_active E
                           (default inhabitant
                              (attached_events_cache (ws_at w this) !! e)))
                <$> l)),
       active +
       count_ready (λ e, Event_active E
                           (default inhabitant
                              (attached_events_cache (ws_at w this) !! e))) l,
       valid').
Proof.
  revert i pre active valid w.
  induction l as [|x l IH]; intros i pre active valid w Hlen;
    cbn [WaitSet.process_events].
  - exists valid. by rewrite Nat.add_0_r.
  - unfold bind at 1.
    destruct (WaitSet.cache_index this x w) as [e_cached w1] eqn:Hidx.
    apply cache_index_lookups in Hidx as (-> & Hconds & Hlook).
    rewrite bind_get_eq.
    set (ready := λ e, Event_active E
                         (default inhabitant
                            (attached_events_cache (ws_at w this) !! e))).
    change (Event_active E
              (default inhabitant (attached_events_cache (ws_at w this) !! x)))
      with (ready x).
    rewrite fmap_cons, (slot_step ready) by done.
    destruct (IH (i + 1) (pre ++ [mark ready x])
                (if negb (ready x) then active else active + 1)
                (valid &&
                 negb (deleted
                   (cond_at w1
                      (Event_condition H
                         (default inhabitant
                            (attached_events_cache (ws_at w this) !! x))))))
                w1)
      as [valid' Heq].
    { rewrite length_app. simpl. lia. }
    rewrite Heq. exists valid'.
    rewrite count_ready_cons, (active_step ready), fmap_cons, <- app_assoc.
    cbn [app].
    rewrite (mark_ext _ ready), (count_ready_ext _ ready); [done| |].
    all: intros e; subst ready; cbv beta; by rewrite Hlook.
Qed.

End marks.

Section ready.
Context (E : Engine) (H : Heap) (this : ptr).

Lemma keeps_ws_process_guard_conditions l i arr active failed valid :
  keeps (same_waitset this)
    (WaitSet.process_guard_conditions E H this l i arr active failed valid).
Proof.
  revert i arr active failed valid.
  induction l as [|gc l IH]; intros i arr active failed valid;
    cbn [WaitSet.process_guard_conditions]; [apply keeps_ret|].
  apply keeps_bind; [apply keeps_get|]. intros w.
  destruct (negb _); [apply IH|].
  apply keeps_bind; [|intros rc; apply IH].
  apply keeps_ws_Condition_reset_trigger.
Qed.

Lemma subscribers_ready w xs active valid :
  ∃ valid',
    WaitSet.process_subscribers E H w (requested xs) 0 (filled xs) active valid
    = (ready_slots (has_data E) xs,
       active + count_ready (has_data E) (requested xs), valid').
Proof.
  destruct xs as [l|]; cbn [requested filled ready_slots].
  - apply (process_subscribers_marks E H w l 0 [] active valid eq_refl).
  - exists valid. cbn. by rewrite Nat.add_0_r.
Qed.

Lemma clients_ready w xs active valid :
  ∃ valid',
    WaitSet.process_clients E H w (requested xs) 0 (filled xs) active valid
    = (ready_slots (λ c, has_data E (client_subscriber H c)) xs,
       active +
       count_ready (λ c, has_data E (client_subscriber H c)) (requested xs),
       valid').
Proof.
  destruct xs as [l|]; cbn [requested filled ready_slots].
  - apply (process_clients_marks E H w l 0 [] active valid eq_refl).
  - exists valid. cbn. by rewrite Nat.add_0_r.
Qed.

Lemma services_ready xs active :
  WaitSet.process_services E H (requested xs) 0 (filled xs) active
  = (ready_slots (λ s, has_data E (service_subscriber H s)) xs,
     active +
     count_ready (λ s, has_data E (service_subscriber H s)) (requested xs)).
Proof.
  destruct xs as [l|]; cbn [requested filled ready_slots].
  - apply (process_services_marks E H l 0 [] active eq_refl).
  - cbn. by rewrite Nat.add_0_r.
Qed.

Lemma guard_conditions_ready xs active failed valid w :
  ∃ failed' valid',
    fst (WaitSet.process_guard_conditions E H this (requested xs) 0
           (filled xs) active failed valid w)
    = (ready_slots (WaitSet.active_condition H (ws_at w this)) xs,
       active +
       count_ready (WaitSet.active_condition H (ws_at w this)) (requested xs),
       failed', valid').
Proof.
  destruct xs as [l|]; cbn [requested filled ready_slots].
  - apply (process_guard_conditions_marks E H this l 0 [] active failed valid
             w eq_refl).
  - exists failed, valid. cbn. by rewrite Nat.add_0_r.
Qed.

Lemma events_ready xs active valid w :
  ∃ valid',
    fst (WaitSet.process_events E H this (requested xs) 0 (filled xs)
           active valid w)
    = (ready_slots
         (λ e, Event_active E
                 (default inhabitant
                    (attached_events_cache (ws_at w this) !! e))) xs,
       active +
       count_ready
         (λ e, Event_active E
                 (default inhabitant
                    (attached_events_cache (ws_at w this) !! e)))
         (requested xs),
       valid').
Proof.
  destruct xs as [l|]; cbn [requested filled ready_slots].
  - apply (process_events_marks E H this l 0 [] active valid w eq_refl).
  - exists valid. cbn. by rewrite Nat.add_0_r.
Qed.

Lemma process_wait_loops_ready a n w d w' :
  attached_as_requested (ws_at w this) a →
  WaitSet.process_wait_loops E H this (arrays_of a) n w = (d, w') →
  dm_arrays d = ready_arrays E H (ws_at w this) a ∧
  dm_active d = n + ready_count E H (ws_at w this) a.
Proof.
  intros (Hs & Hg & Hsv & Hc & He).
  unfold WaitSet.process_wait_loops. rewrite bind_get_eq.
  rewrite Hs, Hg. cbn [arrays_of subscribers guard_conditions services
                       clients events].
  destruct (subscribers_ready w (subs a) n true) as [v1 ->].
  intros (r2 & w2 & Hgc & Hd)%bind_inv.
  destruct (guard_conditions_ready (gcs a)
              (n + count_ready (has_data E) (requested (subs a))) false v1 w)
    as (f2 & v2 & Hr2).
  rewrite Hgc in Hr2. cbn [fst] in Hr2. subst r2.
  apply keeps_ws_process_guard_conditions in Hgc. red in Hgc.
  rewrite bind_get_eq in Hd. rewrite Hgc, Hc, Hsv, He in Hd.
  destruct (clients_ready w2 (cls a)
              (n + count_ready (has_data E) (requested (subs a)) +
               count_ready (WaitSet.active_condition H (ws_at w this))
                 (requested (gcs a))) v2) as [v3 Hcl].
  rewrite Hcl in Hd. rewrite services_ready in Hd.
  apply bind_inv in Hd as (r5 & w5 & Hev & Hd).
  match type of Hev with
  | WaitSet.process_events _ _ _ _ _ _ ?act ?v _ = _ =>
      destruct (events_ready (evs a) act v w2) as [v5 Hr5]
  end.
  rewrite Hev in Hr5. cbn [fst] in Hr5. subst r5.
  injection Hd as <- _. cbn [dm_arrays dm_active]. rewrite Hgc.
  split; [done|]. unfold ready_count. by rewrite !Nat.add_assoc.
Qed.

End ready.

(** X7. When the attached lists are the requested ones, [process_wait]
    leaves in every slot of the caller's five arrays the pointer it held
    if the source is ready (data on the reader, a handle among the
    active conditions, an active status of the cached event) and null
    otherwise, and adds to the counter exactly the number of slots it
    left non-null. *)
Theorem process_wait_marks_ready (E : Engine) (H : Heap) (this : ptr)
    (a : wait_args) (n : nat) (w : World) :
  attached_as_requested (ws_at w this) a →
  snd (fst (fst (WaitSet.process_wait E H this (arrays_of a) n w)))
    = ready_arrays E H (ws_at w this) a ∧
  snd (fst (WaitSet.process_wait E H this (arrays_of a) n w))
    = n + ready_count E H (ws_at w this) a.
Proof.
  intros Hatt. unfold WaitSet.process_wait, bind.
  destruct (WaitSet.process_wait_loops E H this (arrays_of a) n w)
    as [d w'] eqn:Hd.
  by apply (process_wait_loops_ready E H this a n w d w' Hatt) in Hd.
Qed.

Lemma process_wait_marks_ready_witness :
  snd (fst (fst (WaitSet.process_wait Scenario.busy Scenario.heap 7
                   (arrays_of Scenario.some_sources) 0
                   (releasing_world Scenario.busy 7 Scenario.one_second_dds
                      Scenario.acquired_busy))))
    = {| subscribers := Some [Some 1; None];
         guard_conditions := Some [Some 5];
         services := None;
         clients := Some [None];
         events := Some [None] |}
  ∧ snd (fst (WaitSet.process_wait Scenario.busy Scenario.heap 7
                (arrays_of Scenario.some_sources) 0
                (releasing_world Scenario.busy 7 Scenario.one_second_dds
                   Scenario.acquired_busy)))
    = 2.
Proof.
  destruct (process_wait_marks_ready Scenario.busy Scenario.heap 7
              Scenario.some_sources 0
              (releasing_world Scenario.busy 7 Scenario.one_second_dds
                 Scenario.acquired_busy)) as [Harr Hact].
  - vm_compute. repeat split.
  - rewrite Harr, Hact. vm_compute. split; reflexivity.
Defined.

(** ** Events and status conditions *)

(** X8. [ros_event_to_dds] flags an event as invalid exactly when it
    returns [UINT32_MAX], which is exactly when [dds_event_to_str] names
    the result "UNSUPPORTED"; and it maps no two events to the same
    status unless both are invalid. *)
Theorem ros_event_to_dds_distinct (have_message_lost : bool)
    (e e' : rmw_event_type_t) :
  (ros_event_invalid have_message_lost e = true ↔
   ros_event_to_dds have_message_lost e = DDS_STATUS_UINT32_MAX)
  ∧ (ros_event_invalid have_message_lost e = true ↔
     dds_event_to_str (ros_event_to_dds have_message_lost e) = "UNSUPPORTED")
  ∧ (ros_event_invalid have_message_lost e = false →
     ros_event_to_dds have_message_lost e
       = ros_event_to_dds have_message_lost e' →
     e = e').
Proof.
  split; [|split].
  - destruct have_message_lost, e; cbn; split; congruence.
  - destruct have_message_lost, e; cbn; split; congruence.
  - destruct have_message_lost, e, e'; cbn; congruence.
Qed.

(** X9. The subscriber's [get_status] serves exactly the events for
    which [ros_event_for_reader] holds, and the publisher's exactly the
    valid events for which it does not; whichever serves an event asks
    the engine for the status that [ros_event_to_dds] names for it and
    for no other. *)
Theorem get_status_serves_own_events (have_message_lost : bool)
    (e : rmw_event_type_t) (reader reader' writer writer' : Status.getter) :
  Status.served (Status.Subscriber_get_status have_message_lost reader e)
    = ros_event_for_reader have_message_lost e
  ∧ Status.served (Status.Publisher_get_status writer e)
    = negb (ros_event_invalid have_message_lost e) &&
      negb (ros_event_for_reader have_message_lost e)
  ∧ (reader (ros_event_to_dds have_message_lost e)
       = reader' (ros_event_to_dds have_message_lost e) →
     Status.Subscriber_get_status have_message_lost reader e
       = Status.Subscriber_get_status have_message_lost reader' e)
  ∧ (writer (ros_event_to_dds have_message_lost e)
       = writer' (ros_event_to_dds have_message_lost e) →
     Status.Publisher_get_status writer e
       = Status.Publisher_get_status writer' e).
Proof.
  split; [|split; [|split]].
  - destruct have_message_lost, e; cbn; try done; by destruct (reader _).
  - destruct have_message_lost, e; cbn; try done; by destruct (writer _).
  - destruct have_message_lost, e; cbn; try done; by intros ->.
  - destruct have_message_lost, e; cbn; try done; by intros ->.
Qed.

(** ** Topic and type names *)

Lemma append_cons (a : Ascii.ascii) (s t : string) :
  String a s +:+ t = String a (s +:+ t).
Proof. done. Qed.

Lemma append_empty_r (s : string) : s +:+ "" = s.
Proof. induction s as [|a s IH]; [done|]. by rewrite append_cons, IH. Qed.

Lemma append_assoc (s1 s2 s3 : string) :
  (s1 +:+ s2) +:+ s3 = s1 +:+ (s2 +:+ s3).
Proof.
  induction s1 as [|a s1 IH]; [done|]. by rewrite !append_cons, IH.
Qed.

Lemma append_inv_head (s s1 s2 : string) : s +:+ s1 = s +:+ s2 → s1 = s2.
Proof.
  induction s as [|a s IH]; [done|]. rewrite !append_cons.
  intros [= Heq]. by apply IH.
Qed.

Lemma prefix_slash_cons (a : Ascii.ascii) (t : string) :
  String.prefix "/" (String a t)
  = if Ascii.ascii_dec (Ascii.Ascii true true true true false true false false) a
    then true else false.
Proof.
  cbn [String.prefix]. destruct (Ascii.ascii_dec _ _); [by destruct t|done].
Qed.

Lemma prefix_slash_request (s : string) :
  String.prefix "/" (s +:+ "Request") = String.prefix "/" s.
Proof.
  destruct s as [|a s]; [done|].
  by rewrite append_cons, !prefix_slash_cons.
Qed.

Lemma prefix_slash_reply (s : string) :
  String.prefix "/" (s +:+ "Reply") = String.prefix "/" s.
Proof.
  destruct s as [|a s]; [done|].
  by rewrite append_cons, !prefix_slash_cons.
Qed.

Lemma rt_not_fixed (s : string) : (("rt" +:+ s) +:+ "") ≠ s.
Proof.
  rewrite append_empty_r. intros Heq.
  assert (String.length ("rt" +:+ s) = String.length s) as Hlen
    by by rewrite Heq.
  rewrite !append_cons in Hlen. cbn [String.length] in Hlen.
  change ("" +:+ s) with s in Hlen. lia.
Qed.

(** X10. The endpoint constructors leave the topic names of a service
    as the client and the service computed them exactly when the ROS
    namespace conventions are avoided or the service name starts with
    "/"; otherwise the topic they assert has another name. The request
    and the reply topic of a service are never the same. *)
Theorem service_topics_pass_through (svc_name : string) (avoid : bool) :
  (Names.fqtopic_name (Names.request_topic svc_name avoid) avoid
     = Names.request_topic svc_name avoid ↔
   avoid = true ∨ String.prefix "/" svc_name = true)
  ∧ (Names.fqtopic_name (Names.reply_topic svc_name avoid) avoid
       = Names.reply_topic svc_name avoid ↔
     avoid = true ∨ String.prefix "/" svc_name = true)
  ∧ Names.request_topic svc_name avoid ≠ Names.reply_topic svc_name avoid.
Proof.
  unfold Names.fqtopic_name, Names.request_topic, Names.reply_topic,
    Names.rmw_connextdds_create_topic_name, Names.ROS_TOPIC_PREFIX,
    Names.ROS_SERVICE_REQUESTER_PREFIX, Names.ROS_SERVICE_RESPONSE_PREFIX.
  destruct avoid.
  - split; [|split].
    + split; [auto|]. intros _. destruct (_ || _); [done|].
      by rewrite append_empty_r.
    + split; [auto|]. intros _. destruct (_ || _); [done|].
      by rewrite append_empty_r.
    + intros Heq%append_inv_head. discriminate.
  - split; [|split].
    + change (String.prefix "rr/" (("rq" +:+ svc_name) +:+ "Request"))
        with false.
      change (String.prefix "rq/" (("rq" +:+ svc_name) +:+ "Request"))
        with (String.prefix "/" (svc_name +:+ "Request")).
      rewrite prefix_slash_request, orb_false_l.
      destruct (String.prefix "/" svc_name); split; auto.
      * intros Heq. by apply rt_not_fixed in Heq.
      * by intros [|].
    + change (String.prefix "rq/" (("rr" +:+ svc_name) +:+ "Reply"))
        with false.
      change (String.prefix "rr/" (("rr" +:+ svc_name) +:+ "Reply"))
        with (String.prefix "/" (svc_name +:+ "Reply")).
      rewrite prefix_slash_reply, orb_false_r.
      destruct (String.prefix "/" svc_name); split; auto.
      * intros Heq. by apply rt_not_fixed in Heq.
      * by intros [|].
    + rewrite !append_cons. discriminate.
Qed.

(** X11. The type name for the request of service [S] is the type name
    of a message called [S_Request] when names are mangled and
    [SRequest] when they are not, and likewise for the response; the
    request and the response of a service never share a type name. *)
Theorem service_type_names (ns name : string) (mangle : bool) :
  Names.rmw_connextdds_create_type_name_request ns name mangle
    = Names.rmw_connextdds_create_type_name ns
        (name +:+ (if mangle then "_Request" else "Request")) mangle
  ∧ Names.rmw_connextdds_create_type_name_response ns name mangle
    = Names.rmw_connextdds_create_type_name ns
        (name +:+ (if mangle then "_Response" else "Response")) mangle
  ∧ Names.rmw_connextdds_create_type_name_request ns name mangle
    ≠ Names.rmw_connextdds_create_type_name_response ns name mangle.
Proof.
  unfold Names.rmw_connextdds_create_type_name_request,
    Names.rmw_connextdds_create_type_name_response,
    Names.rmw_connextdds_create_type_name, Names.create_type_name.
  split; [|split].
  - destruct mangle; by rewrite ?append_empty_r, ?append_assoc.
  - destruct mangle; by rewrite ?append_empty_r, ?append_assoc.
  - intros Heq.
    repeat (apply append_inv_head in Heq). by destruct mangle.
Qed.

(** ** Time stamps *)

Lemma dds_time_to_u64_exact (t : Timestamp.DDS_Time_t) :
  Timestamp.normalised t →
  Timestamp.dds_time_to_u64 t
  = (Timestamp.C_NANOSECONDS_PER_SEC * Timestamp.time_sec t
     + Timestamp.time_nanosec t)%Z.
Proof.
  intros [Hs Hn]. unfold Timestamp.dds_time_to_u64, Timestamp.wrap_uint64.
  unfold Timestamp.C_NANOSECONDS_PER_SEC in *.
  rewrite (Z.mod_small (Timestamp.time_sec t)) by lia.
  rewrite (Z.mod_small (Timestamp.time_nanosec t)) by lia.
  rewrite (Z.mod_small (1000000000 * _)) by lia.
  rewrite Z.mod_small by lia. done.
Qed.

(** X12. For a sample whose two time stamps are of the present era
    ([0 ≤ sec < 2^31]) with normalised nanoseconds,
    [rmw_connextdds_message_info_from_dds] stores each as
    [10^9 * sec + nanosec] without wrapping around, so the stored
    source time is smaller than the stored reception time exactly when
    the sample was sent before it was received. *)
Theorem message_info_timestamps_ordered
    (ih_to_gid : list byte → list byte)
    (to : Timestamp.rmw_message_info_t) (from : Timestamp.DDS_SampleInfo) :
  Timestamp.normalised (Timestamp.source_timestamp from) →
  Timestamp.normalised (Timestamp.reception_timestamp from) →
  let info :=
    Timestamp.rmw_connextdds_message_info_from_dds true ih_to_gid to from in
  Timestamp.info_source_timestamp info
    = (1000000000 * Timestamp.time_sec (Timestamp.source_timestamp from)
       + Timestamp.time_nanosec (Timestamp.source_timestamp from))%Z
  ∧ Timestamp.info_received_timestamp info
    = (1000000000 * Timestamp.time_sec (Timestamp.reception_timestamp from)
       + Timestamp.time_nanosec (Timestamp.reception_timestamp from))%Z
  ∧ (Timestamp.earlier (Timestamp.source_timestamp from)
       (Timestamp.reception_timestamp from) ↔
     (Timestamp.info_source_timestamp info
      < Timestamp.info_received_timestamp info)%Z).
Proof.
  intros Hs Hr info. subst info.
  cbn [Timestamp.rmw_connextdds_message_info_from_dds
         Timestamp.info_source_timestamp Timestamp.info_received_timestamp].
  rewrite !dds_time_to_u64_exact by done.
  destruct Hs as [Hs1 Hs2], Hr as [Hr1 Hr2].
  unfold Timestamp.earlier, Timestamp.C_NANOSECONDS_PER_SEC in *.
  split; [done|]. split; [done|]. lia.
Qed.

Lemma message_info_timestamps_ordered_witness :
  Timestamp.info_source_timestamp
    (Timestamp.rmw_connextdds_message_info_from_dds true (λ ih, ih)
       {| Timestamp.publisher_gid := [];
          Timestamp.info_source_timestamp := 0;
          Timestamp.info_received_timestamp := 0 |}
       {| Timestamp.publication_handle := [];
          Timestamp.source_timestamp :=
            {| Timestamp.time_sec := 1; Timestamp.time_nanosec := 999999999 |};
          Timestamp.reception_timestamp :=
            {| Timestamp.time_sec := 2; Timestamp.time_nanosec := 0 |} |})
  = 1999999999%Z.
Proof.
  refine (proj1 (message_info_timestamps_ordered (λ ih, ih) _ _ _ _)).
  - split; cbn; unfold Timestamp.C_NANOSECONDS_PER_SEC; lia.
  - split; cbn; unfold Timestamp.C_NANOSECONDS_PER_SEC; lia.
Defined.

(** ** Byte arrays *)

(** X13. Given a resize that provides the requested capacity or fails
    without touching the array, [rcutils_uint8_array_copy] on
    well-formed arrays either returns [RCUTILS_RET_OK] with the
    destination holding exactly the bytes in use of the source, still
    well formed and with a capacity that did not shrink, or returns the
    code of the failed resize with the destination as it was. An empty
    source only sets the length to zero. *)
Theorem rcutils_uint8_array_copy_contents
    (resize : Uint8Array.rcutils_uint8_array_t → nat →
              Uint8Array.rcutils_ret_t * Uint8Array.rcutils_uint8_array_t)
    (dst src : Uint8Array.rcutils_uint8_array_t) :
  Uint8Array.resizes resize →
  Uint8Array.well_formed dst →
  Uint8Array.well_formed src →
  match Uint8Array.rcutils_uint8_array_copy resize dst src with
  | (Uint8Array.RCUTILS_RET_OK, dst') =>
      Uint8Array.contents dst' = Uint8Array.contents src ∧
      Uint8Array.buffer_length dst' = Uint8Array.buffer_length src ∧
      Uint8Array.well_formed dst' ∧
      Uint8Array.buffer_capacity dst ≤ Uint8Array.buffer_capacity dst' ∧
      (Uint8Array.buffer_length src = 0 →
       Uint8Array.buffer dst' = Uint8Array.buffer dst)
  | (_, dst') => dst' = dst
  end.
Proof.
  intros Hresize [Hd1 Hd2] [Hs1 Hs2].
  unfold Uint8Array.rcutils_uint8_array_copy.
  case_bool_decide as Hpos.
  - assert (∀ d, length (Uint8Array.buffer d) = Uint8Array.buffer_capacity d →
                 Uint8Array.buffer_length src ≤ Uint8Array.buffer_capacity d →
                 Uint8Array.buffer_capacity dst ≤ Uint8Array.buffer_capacity d →
                 let d' :=
                   {| Uint8Array.buffer :=
                        Uint8Array.memcpy (Uint8Array.buffer d)
                          (Uint8Array.buffer src)
                          (Uint8Array.buffer_length src);
                      Uint8Array.buffer_length := Uint8Array.buffer_length src;
                      Uint8Array.buffer_capacity :=
                        Uint8Array.buffer_capacity d |} in
                 Uint8Array.contents d' = Uint8Array.contents src ∧
                 Uint8Array.buffer_length d' = Uint8Array.buffer_length src ∧
                 Uint8Array.well_formed d' ∧
                 Uint8Array.buffer_capacity dst
                   ≤ Uint8Array.buffer_capacity d' ∧
                 (Uint8Array.buffer_length src = 0 →
                  Uint8Array.buffer d' = Uint8Array.buffer dst)) as Hcopy.
    { intros d Hlen Hfit Hcap d'. subst d'.
      unfold Uint8Array.contents, Uint8Array.well_formed, Uint8Array.memcpy.
      cbn [Uint8Array.buffer Uint8Array.buffer_length
             Uint8Array.buffer_capacity].
      assert (length (take (Uint8Array.buffer_length src)
                        (Uint8Array.buffer src))
              = Uint8Array.buffer_length src) as Htake.
      { rewrite length_take. lia. }
      split; [|split; [done|split; [split; [|done]|split; [done|lia]]]].
      - rewrite take_app_length'; [done|]. by rewrite Htake.
      - rewrite length_app, Htake, length_drop. lia. }
    case_bool_decide as Hsmall.
    + specialize (Hresize dst (Uint8Array.buffer_length src)).
      destruct (resize dst (Uint8Array.buffer_length src)) as [rc d].
      destruct rc as [|code].
      * destruct Hresize as [Hcap Hlen].
        rewrite decide_False by (intros Hne; by apply Hne).
        apply Hcopy; lia.
      * rewrite decide_True by done. done.
    + rewrite decide_False by (intros Hne; by apply Hne).
      apply Hcopy; lia.
  - assert (Uint8Array.buffer_length src = 0) as Hz by lia.
    unfold Uint8Array.contents, Uint8Array.well_formed.
    cbn [Uint8Array.buffer Uint8Array.buffer_length
           Uint8Array.buffer_capacity].
    rewrite Hz. cbn [take]. repeat split; try done; lia.
Qed.

Lemma realloc_resizes : Uint8Array.resizes Uint8Array.realloc.
Proof.
  intros a n. cbn. split; [done|].
  rewrite length_take, length_app, length_replicate. lia.
Qed.

Lemma rcutils_uint8_array_copy_contents_witness :
  match Uint8Array.rcutils_uint8_array_copy Uint8Array.realloc
          {| Uint8Array.buffer := [Byte.x00];
             Uint8Array.buffer_length := 0;
             Uint8Array.buffer_capacity := 1 |}
          {| Uint8Array.buffer := [Byte.x01; Byte.x02; Byte.x03];
             Uint8Array.buffer_length := 2;
             Uint8Array.buffer_capacity := 3 |} with
  | (Uint8Array.RCUTILS_RET_OK, dst') =>
      Uint8Array.contents dst'
        = Uint8Array.contents
            {| Uint8Array.buffer := [Byte.x01; Byte.x02; Byte.x03];
               Uint8Array.buffer_length := 2;
               Uint8Array.buffer_capacity := 3 |} ∧
      Uint8Array.buffer_length dst' = 2 ∧
      Uint8Array.well_formed dst' ∧
      1 ≤ Uint8Array.buffer_capacity dst' ∧
      (2 = 0 → Uint8Array.buffer dst' = [Byte.x00])
  | (_, dst') =>
      dst' = {| Uint8Array.buffer := [Byte.x00];
                Uint8Array.buffer_length := 0;
                Uint8Array.buffer_capacity := 1 |}
  end.
Proof.
  apply (rcutils_uint8_array_copy_contents Uint8Array.realloc
           {| Uint8Array.buffer := [Byte.x00];
              Uint8Array.buffer_length := 0;
              Uint8Array.buffer_capacity := 1 |}
           {| Uint8Array.buffer := [Byte.x01; Byte.x02; Byte.x03];
              Uint8Array.buffer_length := 2;
              Uint8Array.buffer_capacity := 3 |}).
  - apply realloc_resizes.
  - split; cbn; lia.
  - split; cbn; lia.
Defined.

(** ** GUIDs *)

(** X14. A 16-byte GUID turned into a gid by
    [rmw_connextdds_guid_to_gid] and back by
    [rmw_connextdds_gid_to_guid] is the same GUID: the gid carries the
    identifier of this implementation, its first 16 bytes are the GUID
    and the remaining 8 are zero. A gid with another identifier is
    refused. *)
Theorem guid_gid_round_trip (RMW_CONNEXTDDS_ID : string) (guid : list byte)
    (gid : Gid.rmw_gid_t) :
  length guid = RequestReply.GUID_SIZE →
  Gid.rmw_connextdds_gid_to_guid RMW_CONNEXTDDS_ID
    (Gid.rmw_connextdds_guid_to_gid RMW_CONNEXTDDS_ID guid) = Some guid
  ∧ Gid.data (Gid.rmw_connextdds_guid_to_gid RMW_CONNEXTDDS_ID guid)
    = guid ++ replicate 8 Byte.x00
  ∧ (Gid.implementation_identifier gid ≠ RMW_CONNEXTDDS_ID →
     Gid.rmw_connextdds_gid_to_guid RMW_CONNEXTDDS_ID gid = None).
Proof.
  intros Hlen.
  unfold Gid.rmw_connextdds_gid_to_guid, Gid.rmw_connextdds_guid_to_gid.
  cbn [Gid.implementation_identifier Gid.data].
  unfold RequestReply.rmw_connextdds_gid_to_guid,
    RequestReply.rmw_connextdds_guid_to_gid.
  rewrite bool_decide_eq_true_2 by done.
  rewrite (take_ge guid) by lia.
  split; [|split].
  - by rewrite take_app_length' by (symmetry; exact Hlen).
  - done.
  - intros Hne. by rewrite bool_decide_eq_false_2.
Qed.

Lemma guid_gid_round_trip_witness :
  Gid.rmw_connextdds_gid_to_guid "rmw_connextdds"
    (Gid.rmw_connextdds_guid_to_gid "rmw_connextdds" Scenario.guid_a)
  = Some Scenario.guid_a.
Proof.
  refine (proj1 (guid_gid_round_trip "rmw_connextdds" Scenario.guid_a
                   {| Gid.implementation_identifier := "other";
                      Gid.data := [] |} _)).
  reflexivity.
Defined.

(** ** QoS conversion *)

Lemma to_DDS_Long_small (z : Z) :
  (0 ≤ z ≤ Qos.INT32_MAX)%Z → Qos.to_DDS_Long z = z.
Proof.
  unfold Qos.to_DDS_Long, Qos.INT32_MAX. intros Hz.
  rewrite Z.mod_small by lia. lia.
Qed.

Lemma to_uint32_t_small (z : Z) :
  (0 ≤ z < 2 ^ 32)%Z → Qos.to_uint32_t z = z.
Proof. unfold Qos.to_uint32_t. intros Hz. by rewrite Z.mod_small. Qed.

Lemma to_DDS_UnsignedLong_small (z : Z) :
  (0 ≤ z < 2 ^ 32)%Z → Qos.to_DDS_UnsignedLong z = z.
Proof. unfold Qos.to_DDS_UnsignedLong. intros Hz. by rewrite Z.mod_small. Qed.

Lemma to_uint64_t_small (z : Z) :
  (0 ≤ z < 2 ^ 32)%Z → Qos.to_uint64_t z = z.
Proof. unfold Qos.to_uint64_t. intros Hz. rewrite Z.mod_small; lia. Qed.

Lemma to_time_to_duration (t : Qos.rmw_time_t) :
  Qos.fits t → Qos.to_time (Qos.to_duration t) = t.
Proof.
  intros [[Hs Hn] _]. unfold Qos.to_time, Qos.to_duration. cbn.
  rewrite to_DDS_Long_small, to_DDS_UnsignedLong_small by done.
  unfold Qos.INT32_MAX in Hs.
  rewrite !to_uint64_t_small by lia. by destruct t.
Qed.

Section qos.
Context (DDS_DURATION_INFINITE : Qos.DDS_Duration_t)
        (DDS_LENGTH_UNLIMITED RMW_QOS_POLICY_DEPTH_SYSTEM_DEFAULT : Z)
        (b : Qos.Build).

Local Abbreviation get_qos :=
  (Qos.rmw_connextdds_get_readerwriter_qos DDS_DURATION_INFINITE
     DDS_LENGTH_UNLIMITED RMW_QOS_POLICY_DEPTH_SYSTEM_DEFAULT b).

(** What [rmw_connextdds_get_readerwriter_qos] writes for an explicit
    profile. *)
Lemma get_qos_explicit q p :
  Qos.explicit RMW_QOS_POLICY_DEPTH_SYSTEM_DEFAULT p →
  ∃ q',
    get_qos q p = (RMW_RET_OK, q') ∧
    Qos.p_history q' = Qos.explicit_history q p ∧
    Qos.reliability_to_dds p (Qos.reliability_kind (Qos.p_reliability q))
      = Some (Qos.reliability_kind (Qos.p_reliability q')) ∧
    Qos.durability_to_dds p (Qos.p_durability q)
      = Some (Qos.p_durability q') ∧
    Qos.liveliness_to_dds p (Qos.liveliness_kind (Qos.p_liveliness q))
      = Some (Qos.liveliness_kind (Qos.p_liveliness q')) ∧
    Qos.p_deadline q' = Qos.to_duration (Qos.deadline p) ∧
    Qos.lease_duration (Qos.p_liveliness q')
      = Qos.to_duration (Qos.liveliness_lease_duration p).
Proof.
  intros (Hh & Hr & Hdu & Hl & [_ Hdl] & [_ Hls]).
  unfold Qos.rmw_connextdds_get_readerwriter_qos.
  assert (Qos.history_to_dds RMW_QOS_POLICY_DEPTH_SYSTEM_DEFAULT p
            (Qos.p_history q)
          = Some (Qos.explicit_history q p)) as ->.
  { unfold Qos.history_to_dds, Qos.explicit_history.
    destruct Hh as [(Hh & Hdef & Hd) | Hh]; rewrite Hh; [|done].
    rewrite bool_decide_eq_false_2 by done.
    rewrite bool_decide_eq_false_2 by lia.
    rewrite bool_decide_eq_false_2 by lia. cbn [orb].
    by rewrite to_DDS_Long_small by lia. }
  cbn [Qos.reliability_kind].
  assert (is_Some (Qos.reliability_to_dds p
                     (Qos.reliability_kind (Qos.p_reliability q))))
    as [rk Hrk].
  { unfold Qos.reliability_to_dds. destruct Hr as [-> | ->]; by eexists. }
  assert (is_Some (Qos.durability_to_dds p (Qos.p_durability q)))
    as [dk Hdk].
  { unfold Qos.durability_to_dds. destruct Hdu as [-> | ->]; by eexists. }
  assert (is_Some (Qos.liveliness_to_dds p
                     (Qos.liveliness_kind (Qos.p_liveliness q))))
    as [lk Hlk].
  { unfold Qos.liveliness_to_dds. destruct Hl as [-> | ->]; by eexists. }
  rewrite Hrk, Hdk, Hlk, Hdl, Hls. cbn [negb].
  eexists. split; [done|]. by cbn.
Qed.

Lemma to_ros_explicit q p q' p0 lifespan :
  Qos.explicit RMW_QOS_POLICY_DEPTH_SYSTEM_DEFAULT p →
  get_qos q p = (RMW_RET_OK, q') →
  ∃ p',
    Qos.rmw_connextdds_readerwriter_qos_to_ros b
      (Some (Qos.p_history q')) (Qos.p_reliability q') (Qos.p_durability q')
      (Qos.p_deadline q') (Qos.p_liveliness q') lifespan p0
    = (RMW_RET_OK, p') ∧
    Qos.same_qos p p' ∧
    (Qos.history p = Qos.RMW_QOS_POLICY_HISTORY_KEEP_ALL →
     Qos.depth p'
     = Qos.to_uint32_t (Qos.history_depth (Qos.p_history q))).
Proof.
  intros Hex Hget.
  destruct (get_qos_explicit q p Hex)
    as (q'' & Hget' & Hh & Hr & Hdu & Hl & Hdl & Hls).
  rewrite Hget in Hget'. injection Hget' as <-.
  destruct Hex as (Hph & Hpr & Hpd & Hpl & Hfd & Hfl).
  unfold Qos.rmw_connextdds_readerwriter_qos_to_ros.
  rewrite Hh. unfold Qos.explicit_history.
  rewrite Hdl, Hls, !to_time_to_duration by done.
  unfold Qos.reliability_to_dds in Hr. unfold Qos.durability_to_dds in Hdu.
  unfold Qos.liveliness_to_dds in Hl. unfold Qos.same_qos.
  destruct Hph as [(Hph & Hdef & Hd) | Hph]; rewrite Hph;
    cbn [Qos.history_kind Qos.history_depth].
  - unfold Qos.INT32_MAX in Hd. rewrite to_uint32_t_small by lia.
    destruct Hpr as [Hpr | Hpr], Hpd as [Hpd | Hpd], Hpl as [Hpl | Hpl];
      rewrite Hpr in Hr; rewrite Hpd in Hdu; rewrite Hpl in Hl;
      injection Hr as <-; injection Hdu as <-; injection Hl as <-;
      eexists; (split; [reflexivity|]); cbn;
      rewrite Hpr, Hpd, Hpl; by split_and!.
  - destruct Hpr as [Hpr | Hpr], Hpd as [Hpd | Hpd], Hpl as [Hpl | Hpl];
      rewrite Hpr in Hr; rewrite Hpd in Hdu; rewrite Hpl in Hl;
      injection Hr as <-; injection Hdu as <-; injection Hl as <-;
      eexists; (split; [reflexivity|]); cbn;
      rewrite Hpr, Hpd, Hpl; by split_and!.
Qed.

End qos.

(** X15. A profile that names its four kinds, a non-zero deadline and
    lease duration whose seconds fit 31 bits and whose nanoseconds fit
    32 and, when it keeps the last samples, a depth between 1 and
    [INT32_MAX] other than the system default, is accepted by
    [rmw_connextdds_get_readerwriter_qos], and reading the resulting
    policies back with [rmw_connextdds_datawriter_qos_to_ros] or
    [rmw_connextdds_datareader_qos_to_ros] succeeds and gives the same
    history, reliability, durability, deadline, liveliness and lease
    duration, whatever the policies and the profile held before. The
    depth comes back too when the last samples are kept; when all
    samples are kept the depth read back is the one that the policies
    held before, not the one of the profile. *)
Theorem qos_round_trip (DDS_DURATION_INFINITE : Qos.DDS_Duration_t)
    (DDS_LENGTH_UNLIMITED RMW_QOS_POLICY_DEPTH_SYSTEM_DEFAULT : Z)
    (b : Qos.Build) (q : Qos.policies) (p p0 : Qos.rmw_qos_profile_t) :
  Qos.explicit RMW_QOS_POLICY_DEPTH_SYSTEM_DEFAULT p →
  ∃ q' pw pr,
    Qos.rmw_connextdds_get_readerwriter_qos DDS_DURATION_INFINITE
      DDS_LENGTH_UNLIMITED RMW_QOS_POLICY_DEPTH_SYSTEM_DEFAULT b q p
    = (RMW_RET_OK, q') ∧
    Qos.rmw_connextdds_datawriter_qos_to_ros b q' p0 = (RMW_RET_OK, pw) ∧
    Qos.rmw_connextdds_datareader_qos_to_ros b q' p0 = (RMW_RET_OK, pr) ∧
    Qos.same_qos p pw ∧ Qos.same_qos p pr ∧
    (Qos.history p = Qos.RMW_QOS_POLICY_HISTORY_KEEP_ALL →
     Qos.depth pw = Qos.to_uint32_t (Qos.history_depth (Qos.p_history q)) ∧
     Qos.depth pr = Qos.to_uint32_t (Qos.history_depth (Qos.p_history q))).
Proof.
  intros Hex.
  destruct (get_qos_explicit DDS_DURATION_INFINITE DDS_LENGTH_UNLIMITED
              RMW_QOS_POLICY_DEPTH_SYSTEM_DEFAULT b q p Hex)
    as (q' & Hget & _).
  destruct (to_ros_explicit DDS_DURATION_INFINITE DDS_LENGTH_UNLIMITED
              RMW_QOS_POLICY_DEPTH_SYSTEM_DEFAULT b q p q' p0
              (if Qos.have_lifespan_qos b && Qos.api_pro b
               then Qos.p_lifespan q' else None) Hex Hget)
    as (pw & Hw & Hsw & Hdw).
  destruct (to_ros_explicit DDS_DURATION_INFINITE DDS_LENGTH_UNLIMITED
              RMW_QOS_POLICY_DEPTH_SYSTEM_DEFAULT b q p q' p0 None Hex Hget)
    as (pr & Hr & Hsr & Hdr).
  exists q', pw, pr. split_and!; try done.
  intros Hall. by split; [apply Hdw|apply Hdr].
Qed.

Lemma qos_round_trip_witness :
  ∃ q' pw pr,
    Qos.rmw_connextdds_get_readerwriter_qos Examples.infinite (-1) 0
      Examples.pro_build Examples.default_policies Examples.sensor_profile
    = (RMW_RET_OK, q') ∧
    Qos.rmw_connextdds_datawriter_qos_to_ros Examples.pro_build q'
      Examples.system_default_profile = (RMW_RET_OK, pw) ∧
    Qos.rmw_connextdds_datareader_qos_to_ros Examples.pro_build q'
      Examples.system_default_profile = (RMW_RET_OK, pr) ∧
    Qos.same_qos Examples.sensor_profile pw ∧
    Qos.same_qos Examples.sensor_profile pr ∧
    (Qos.history Examples.sensor_profile
       = Qos.RMW_QOS_POLICY_HISTORY_KEEP_ALL →
     Qos.depth pw
       = Qos.to_uint32_t
           (Qos.history_depth (Qos.p_history Examples.default_policies)) ∧
     Qos.depth pr
       = Qos.to_uint32_t
           (Qos.history_depth (Qos.p_history Examples.default_policies))).
Proof.
  apply (qos_round_trip Examples.infinite (-1) 0 Examples.pro_build
           Examples.default_policies Examples.sensor_profile
           Examples.system_default_profile).
  unfold Qos.explicit, Qos.fits, Qos.INT32_MAX. cbn.
  split_and!; try lia; try (by left); try (by right); done.
Defined.

(** X16. When [rmw_connextdds_get_readerwriter_qos] returns
    [RMW_RET_OK] for a profile that asks to keep the last samples, the
    history keeps between 1 and [INT32_MAX] samples; and whenever the
    resulting history keeps more than one sample and the limit of
    samples per instance was unlimited, that limit becomes the depth
    and the limit of samples is then unlimited or at least the depth.
    In every other case the resource limits are left alone. *)
Theorem qos_limits_follow_history
    (DDS_DURATION_INFINITE : Qos.DDS_Duration_t)
    (DDS_LENGTH_UNLIMITED RMW_QOS_POLICY_DEPTH_SYSTEM_DEFAULT : Z)
    (b : Qos.Build) (q : Qos.policies) (p : Qos.rmw_qos_profile_t)
    (q' : Qos.policies) :
  Qos.rmw_connextdds_get_readerwriter_qos DDS_DURATION_INFINITE
    DDS_LENGTH_UNLIMITED RMW_QOS_POLICY_DEPTH_SYSTEM_DEFAULT b q p
  = (RMW_RET_OK, q') →
  (Qos.history p = Qos.RMW_QOS_POLICY_HISTORY_KEEP_LAST →
   Qos.history_kind (Qos.p_history q') = Qos.DDS_KEEP_LAST_HISTORY_QOS ∧
   (1 ≤ Qos.history_depth (Qos.p_history q') ≤ Qos.INT32_MAX)%Z)
  ∧ (Qos.history_kind (Qos.p_history q') = Qos.DDS_KEEP_LAST_HISTORY_QOS ∧
     (1 < Qos.history_depth (Qos.p_history q'))%Z ∧
     Qos.max_samples_per_instance (Qos.p_resource_limits q)
       = DDS_LENGTH_UNLIMITED →
     Qos.max_samples_per_instance (Qos.p_resource_limits q')
       = Qos.history_depth (Qos.p_history q') ∧
     (Qos.max_samples (Qos.p_resource_limits q') = DDS_LENGTH_UNLIMITED ∨
      (Qos.history_depth (Qos.p_history q')
       ≤ Qos.max_samples (Qos.p_resource_limits q'))%Z))
  ∧ (¬ (Qos.history_kind (Qos.p_history q') = Qos.DDS_KEEP_LAST_HISTORY_QOS ∧
        (1 < Qos.history_depth (Qos.p_history q'))%Z ∧
        Qos.max_samples_per_instance (Qos.p_resource_limits q)
          = DDS_LENGTH_UNLIMITED) →
     Qos.p_resource_limits q' = Qos.p_resource_limits q).
Proof.
  unfold Qos.rmw_connextdds_get_readerwriter_qos.
  destruct (Qos.history_to_dds _ p (Qos.p_history q)) as [h|] eqn:Hh;
    [|done].
  destruct (Qos.reliability_to_dds p _) as [rk|]; [|done].
  destruct (Qos.durability_to_dds p _) as [dk|]; [|done].
  destruct (Qos.liveliness_to_dds p _) as [lk|]; [|done].
  intros [= <-]. cbn [Qos.p_history Qos.p_resource_limits].
  split; [|split].
  - intros Hkeep. unfold Qos.history_to_dds in Hh. rewrite Hkeep in Hh.
    case_bool_decide.
    + injection Hh as <-. unfold Qos.INT32_MAX. cbn. split; [done|lia].
    + destruct (_ || _) eqn:Hrange; [done|].
      apply orb_false_iff in Hrange as [H1%bool_decide_eq_false
                                        H2%bool_decide_eq_false].
      injection Hh as <-. cbn. split; [done|].
      rewrite to_DDS_Long_small by lia. lia.
  - intros (Hk & Hd & Hu). unfold Qos.limits_for_history.
    rewrite !bool_decide_eq_true_2 by done. cbn.
    split; [done|].
    case_bool_decide as Hne; cbn.
    + case_bool_decide; [right; lia|right; lia].
    + by left.
  - intros Hno. unfold Qos.limits_for_history.
    destruct (_ && _) eqn:Hc; [|done].
    exfalso. apply Hno.
    apply andb_true_iff in Hc as [[H1%bool_decide_eq_true
                                   H2%bool_decide_eq_true]%andb_true_iff
                                  H3%bool_decide_eq_true].
    done.
Qed.

Lemma qos_limits_follow_history_witness :
  Qos.max_samples_per_instance
    (Qos.p_resource_limits
       (snd (Qos.rmw_connextdds_get_readerwriter_qos Examples.infinite (-1) 0
               Examples.pro_build Examples.default_policies
               Examples.sensor_profile)))
  = Qos.history_depth
      (Qos.p_history
         (snd (Qos.rmw_connextdds_get_readerwriter_qos Examples.infinite
                 (-1) 0 Examples.pro_build Examples.default_policies
                 Examples.sensor_profile)))
  ∧ (Qos.max_samples
       (Qos.p_resource_limits
          (snd (Qos.rmw_connextdds_get_readerwriter_qos Examples.infinite
                  (-1) 0 Examples.pro_build Examples.default_policies
                  Examples.sensor_profile))) = (-1)%Z ∨
     (Qos.history_depth
        (Qos.p_history
           (snd (Qos.rmw_connextdds_get_readerwriter_qos Examples.infinite
                   (-1) 0 Examples.pro_build Examples.default_policies
                   Examples.sensor_profile)))
      ≤ Qos.max_samples
          (Qos.p_resource_limits
             (snd (Qos.rmw_connextdds_get_readerwriter_qos Examples.infinite
                     (-1) 0 Examples.pro_build Examples.default_policies
                     Examples.sensor_profile))))%Z).
Proof.
  refine (proj1 (proj2 (qos_limits_follow_history Examples.infinite (-1) 0
            Examples.pro_build Examples.default_policies
            Examples.sensor_profile _ _)) _).
  - reflexivity.
  - cbn. repeat split; lia.
Defined.

(** X17. [rmw_connextdds_readerwriter_qos_to_ros] returns [RMW_RET_OK]
    exactly when the history (if one is given), reliability, durability
    and liveliness kinds of the engine are among those it knows, and it
    then reports concrete kinds only: never a system default and never
    an unknown kind; a profile that asked for the system defaults is
    therefore read back with the engine's own choices. *)
Theorem qos_to_ros_reports_concrete_kinds (b : Qos.Build)
    (history : option Qos.DDS_HistoryQosPolicy)
    (reliability : Qos.DDS_ReliabilityQosPolicy)
    (durability : Qos.DDS_DurabilityQosPolicyKind)
    (deadline : Qos.DDS_Duration_t)
    (liveliness : Qos.DDS_LivelinessQosPolicy)
    (lifespan : option Qos.DDS_Duration_t)
    (p0 : Qos.rmw_qos_profile_t) :
  let r :=
    Qos.rmw_connextdds_readerwriter_qos_to_ros b history reliability
      durability deadline liveliness lifespan p0 in
  (fst r = RMW_RET_OK ↔
   (∀ h v, history = Some h →
           Qos.history_kind h ≠ Qos.DDS_HISTORY_QOS_OTHER v) ∧
   (∀ v, Qos.reliability_kind reliability ≠ Qos.DDS_RELIABILITY_QOS_OTHER v) ∧
   (∀ v, durability ≠ Qos.DDS_DURABILITY_QOS_OTHER v) ∧
   (∀ v, Qos.liveliness_kind liveliness ≠ Qos.DDS_LIVELINESS_QOS_OTHER v))
  ∧ (fst r = RMW_RET_OK →
     (is_Some history →
      Qos.history (snd r) = Qos.RMW_QOS_POLICY_HISTORY_KEEP_LAST ∨
      Qos.history (snd r) = Qos.RMW_QOS_POLICY_HISTORY_KEEP_ALL) ∧
     (Qos.reliability (snd r) = Qos.RMW_QOS_POLICY_RELIABILITY_RELIABLE ∨
      Qos.reliability (snd r) = Qos.RMW_QOS_POLICY_RELIABILITY_BEST_EFFORT) ∧
     (Qos.durability (snd r) = Qos.RMW_QOS_POLICY_DURABILITY_VOLATILE ∨
      Qos.durability (snd r)
        = Qos.RMW_QOS_POLICY_DURABILITY_TRANSIENT_LOCAL) ∧
     (Qos.liveliness (snd r) = Qos.RMW_QOS_POLICY_LIVELINESS_AUTOMATIC ∨
      Qos.liveliness (snd r)
        = Qos.RMW_QOS_POLICY_LIVELINESS_MANUAL_BY_TOPIC)).
Proof.
  intros r. subst r. unfold Qos.rmw_connextdds_readerwriter_qos_to_ros.
  destruct history as [[hk hd]|]; cbn [Qos.history_kind];
    [destruct hk|];
    destruct (Qos.reliability_kind reliability) eqn:Hr;
    destruct durability eqn:Hd;
    destruct (Qos.liveliness_kind liveliness) eqn:Hl;
    cbn [fst snd Qos.history Qos.reliability Qos.durability Qos.liveliness].
  all: split; [split|].
  all: try (intros Hok; discriminate Hok).
  all: try (intros _; split_and!; [..|done|done|done];
            intros h v [= <-]; cbn; discriminate).
  all: try (intros _; split_and!; [..|done|done|done];
            intros h v [=]).
  all: try (intros (H1 & H2 & H3 & H4);
            first [done|by edestruct H2|by edestruct H3|by edestruct H4
                  |by edestruct (H1 _ value eq_refl)]).
  all: intros _; split_and!; auto; by intros [? [=]].
Qed.

(** ** Construction and destruction of endpoints *)

Section endpoint.
Import Endpoint.

Lemma try_release_cooperative O r :
  cooperative O → try_release O r = [Release r].
Proof. intros [Hd _]. unfold try_release. by rewrite Hd. Qed.

Ltac held :=
  repeat first
    [ progress cbn [outstanding outstanding_from remove_first app fst snd]
    | progress unfold try_release
    | match goal with
      | H : ∀ r, deletes _ r = true |- _ => rewrite H
      end
    | match goal with
      | |- context [decide (?a = ?b)] =>
          first [ rewrite (decide_True (P := a = b)) by done
                | rewrite (decide_False (P := a = b)) by discriminate ]
      end ].

Lemma Publisher_finalize_cooperative O pub :
  cooperative O →
  Publisher_finalize O pub
  = (RMW_RET_OK,
     [Release (DataWriter (pub_dds_writer pub))] ++
     (if pub_created_topic pub then [Release (Topic (pub_dds_topic pub))]
      else []) ++
     [Release (Registration (pub_type_support pub));
      Release (TypeSupport (pub_type_support pub))]).
Proof.
  intros (Hd & Hu & _). unfold Publisher_finalize.
  rewrite !Hd, Hu. cbn [negb]. rewrite andb_false_r.
  rewrite decide_False by (intros Hne; by apply Hne).
  by rewrite <- app_assoc.
Qed.

Lemma Subscriber_finalize_cooperative O sub :
  cooperative O →
  Subscriber_finalize O sub
  = (RMW_RET_OK,
     (if bool_decide (0 < sub_loan_len sub)
      then [Release (Loan (sub_dds_reader sub))] else []) ++
     [Release (DataReader (sub_dds_reader sub))] ++
     match sub_dds_topic_cft sub with
     | Some c => [Release (ContentFilteredTopic c)]
     | None => []
     end ++
     (if sub_created_topic sub then [Release (Topic (sub_dds_topic sub))]
      else []) ++
     [Release (Registration (sub_type_support sub));
      Release (TypeSupport (sub_type_support sub))]).
Proof.
  intros (Hd & Hu & Hc & Hr). unfold Subscriber_finalize.
  rewrite !Hd, Hu, Hc, Hr.
  rewrite (bool_decide_eq_true_2 (RMW_RET_OK = RMW_RET_OK)) by done.
  cbn [negb]. rewrite !andb_false_r.
  destruct (sub_dds_topic_cft sub);
    repeat (rewrite decide_False by (intros Hne; by apply Hne); cbn);
    by rewrite <- ?app_assoc.
Qed.

Lemma Publisher_create_failed legacy O :
  cooperative O →
  fst (Publisher_create legacy O) = None →
  outstanding (snd (Publisher_create legacy O)) = [].
Proof.
  intros Hco. pose proof Hco as (Hd & Hu & _).
  unfold Publisher_create, pub_exit_type, pub_exit_topic. rewrite Hu.
  destruct (register_type_support O) as [[ts reg]|]; [|done].
  destruct (assert_topic O) as [[t created]|];
    [|intros _; destruct reg; by held].
  destruct (legacy && negb (qos_initialize O));
    [intros _; destruct reg, created; by held|].
  destruct (negb (get_default_qos O));
    [intros _; destruct reg, created; by held|].
  destruct (create_entity O) as [w|];
    [|intros _; destruct reg, created; by held].
  destruct (new_impl O) as [p|]; [done|].
  intros _; destruct reg, created; by held.
Qed.

Lemma Publisher_create_made legacy O p pub l :
  cooperative O →
  Publisher_create legacy O = (Some (p, pub), l) →
  ∃ type_registered, outstanding l = publisher_holds p pub type_registered.
Proof.
  intros Hco. pose proof Hco as (Hd & Hu & _).
  unfold Publisher_create, publisher_holds.
  destruct (register_type_support O) as [[ts reg]|]; [|done].
  destruct (assert_topic O) as [[t created]|]; [|done].
  destruct (legacy && negb (qos_initialize O)); [done|].
  destruct (negb (get_default_qos O)); [done|].
  destruct (create_entity O) as [w|]; [|done].
  destruct (new_impl O) as [p'|]; [|done].
  intros [= <- <- <-]. exists reg.
  cbn [pub_dds_writer pub_type_support pub_created_topic pub_dds_topic].
  destruct reg, created; by held.
Qed.

Lemma outstanding_from_app held0 l1 l2 :
  outstanding_from held0 (l1 ++ l2)
  = outstanding_from (outstanding_from held0 l1) l2.
Proof.
  revert held0. induction l1 as [|[r|r] l1 IH]; intros held0; cbn; auto.
Qed.

Lemma outstanding_app l1 l2 :
  outstanding (l1 ++ l2) = outstanding_from (outstanding l1) l2.
Proof. apply outstanding_from_app. Qed.

Lemma publisher_released O p pub reg extra :
  cooperative O →
  outstanding_from (publisher_holds p pub reg)
    (snd (Publisher_finalize O pub) ++ Release (Impl p) :: extra)
  = outstanding_from [] extra.
Proof.
  intros Hco. rewrite Publisher_finalize_cooperative by done.
  unfold publisher_holds. cbn [snd].
  destruct (pub_created_topic pub), reg; by held.
Qed.


Ltac settle pub reg :=
  unfold publisher_holds, exit_handle;
  destruct (pub_created_topic pub), reg; by held.

Lemma create_publisher_failed legacy internal O :
  cooperative O →
  fst (rmw_connextdds_create_publisher legacy internal O) = None →
  outstanding (snd (rmw_connextdds_create_publisher legacy internal O)) = [].
Proof.
  intros Hco. unfold rmw_connextdds_create_publisher.
  pose proof (Publisher_create_failed legacy O Hco) as Hfail.
  destruct (Publisher_create legacy O) as [[[p pub]|] l] eqn:Hc;
    [|intros _; by apply Hfail].
  destruct (Publisher_create_made legacy O p pub l Hco Hc) as [reg Hheld].
  rewrite Publisher_finalize_cooperative by done. cbn [snd].
  destruct (allocate_handle O) as [h|].
  - destruct (negb (allocate_topic_name O)).
    + intros _. cbn [snd]. rewrite <- app_assoc, outstanding_app, Hheld.
      settle pub reg.
    + destruct (negb internal && _); [|done].
      intros _. cbn [snd].
      rewrite <- !app_assoc, outstanding_app, Hheld. settle pub reg.
  - intros _. cbn [snd]. rewrite outstanding_app, Hheld. settle pub reg.
Qed.

Lemma create_destroy_publisher legacy internal O h p pub l :
  cooperative O →
  rmw_connextdds_create_publisher legacy internal O
    = (Some (h, (p, pub)), l) →
  ∃ l', rmw_connextdds_destroy_publisher O h (Some (p, pub))
          = (RMW_RET_OK, l') ∧
        outstanding (l ++ l') = [].
Proof.
  intros Hco. unfold rmw_connextdds_create_publisher.
  destruct (Publisher_create legacy O) as [[[p0 pub0]|] l0] eqn:Hc; [|done].
  destruct (Publisher_create_made legacy O p0 pub0 l0 Hco Hc) as [reg Hheld].
  destruct (allocate_handle O) as [h0|]; [|done].
  destruct (negb (allocate_topic_name O)); [done|].
  destruct (negb internal && _); [done|].
  intros [= <- <- <- <-].
  unfold rmw_connextdds_destroy_publisher.
  rewrite Publisher_finalize_cooperative by done.
  rewrite decide_False by (intros Hne; by apply Hne).
  eexists. split; [done|].
  rewrite <- !app_assoc, outstanding_app, Hheld. settle pub0 reg.
Qed.

Lemma Subscriber_create_failed legacy cft_name O :
  cooperative O →
  fst (Subscriber_create legacy cft_name O) = None →
  outstanding (snd (Subscriber_create legacy cft_name O))
  = match register_type_support O, assert_topic O with
    | Some (ts, _), Some _ =>
        (if cft_name then
           match create_contentfilteredtopic O with
           | CftCreated c => [ContentFilteredTopic c]
           | _ => []
           end
         else []) ++ [TypeSupport ts]
    | Some (ts, _), None => [TypeSupport ts]
    | None, _ => []
    end.
Proof.
  intros Hco. pose proof Hco as (Hd & Hu & _).
  unfold Subscriber_create, sub_exit_type, sub_exit_topic. rewrite Hu.
  destruct (register_type_support O) as [[ts reg]|]; [|done].
  destruct (assert_topic O) as [[t created]|];
    [|intros _; destruct reg; by held].
  destruct cft_name; [destruct (create_contentfilteredtopic O) as [c| |]|].
  4:{ destruct (legacy && negb (qos_initialize O));
        [intros _; destruct reg, created; by held|].
      destruct (negb (get_default_qos O));
        [intros _; destruct reg, created; by held|].
      destruct (create_entity O) as [r|];
        [|intros _; destruct reg, created; by held].
      destruct (new_impl O) as [p|]; [done|].
      intros _; destruct reg, created; by held. }
  3:{ intros _; destruct reg, created; by held. }
  all: destruct (legacy && negb (qos_initialize O));
         [intros _; destruct reg, created; by held|].
  all: destruct (negb (get_default_qos O));
         [intros _; destruct reg, created; by held|].
  all: destruct (create_entity O) as [r|];
         [|intros _; destruct reg, created; by held].
  all: destruct (new_impl O) as [p|]; [done|].
  all: intros _; destruct reg, created; by held.
Qed.

(** What a subscriber holds once it is created. *)
Lemma Subscriber_create_made legacy cft_name O p sub l :
  cooperative O →
  Subscriber_create legacy cft_name O = (Some (p, sub), l) →
  sub_loan_len sub = 0 ∧
  ∃ type_registered : bool,
    outstanding l
    = [Impl p; DataReader (sub_dds_reader sub)] ++
      match sub_dds_topic_cft sub with
      | Some c => [ContentFilteredTopic c]
      | None => []
      end ++
      (if sub_created_topic sub then [Topic (sub_dds_topic sub)] else []) ++
      (if type_registered then [Registration (sub_type_support sub)]
       else []) ++
      [TypeSupport (sub_type_support sub)].
Proof.
  intros Hco. pose proof Hco as (Hd & Hu & _).
  unfold Subscriber_create.
  destruct (register_type_support O) as [[ts reg]|]; [|done].
  destruct (assert_topic O) as [[t created]|]; [|done].
  destruct cft_name; [destruct (create_contentfilteredtopic O) as [c| |]|];
    [| |done|].
  all: destruct (legacy && negb (qos_initialize O)); [done|].
  all: destruct (negb (get_default_qos O)); [done|].
  all: destruct (create_entity O) as [r|]; [|done].
  all: destruct (new_impl O) as [p'|]; [|done].
  all: intros [= <- <- <-]; split; [done|]; exists reg.
  all: cbn [sub_dds_reader sub_type_support sub_created_topic sub_dds_topic
              sub_dds_topic_cft].
  all: destruct reg, created; by held.
Qed.

Ltac settle_sub sub reg :=
  unfold exit_handle;
  destruct (sub_dds_topic_cft sub), (sub_created_topic sub), reg; by held.

Lemma create_subscriber_failed legacy internal O :
  cooperative O →
  fst (rmw_connextdds_create_subscriber legacy internal O) = None →
  outstanding (snd (rmw_connextdds_create_subscriber legacy internal O))
  = match register_type_support O with
    | Some (ts, _) =>
        if decide (fst (Subscriber_create legacy false O) = None)
        then [TypeSupport ts] else []
    | None => []
    end.
Proof.
  intros Hco. unfold rmw_connextdds_create_subscriber.
  pose proof (Subscriber_create_failed legacy false O Hco) as Hfail.
  destruct (Subscriber_create legacy false O) as [[[p sub]|] l] eqn:Hc.
  2:{ intros _. cbn [fst snd] in *. rewrite Hfail by done.
      destruct (register_type_support O) as [[ts reg]|]; [|done].
      rewrite decide_True by done. by destruct (assert_topic O). }
  destruct (Subscriber_create_made legacy false O p sub l Hco Hc)
    as (Hloan & reg & Hheld).
  assert (is_Some (register_type_support O)) as [[ts reg'] Hreg].
  { unfold Subscriber_create in Hc.
    destruct (register_type_support O); [by eexists|done]. }
  rewrite Hreg. cbn [fst]. rewrite decide_False by done.
  rewrite Subscriber_finalize_cooperative by done. cbn [snd].
  rewrite Hloan. rewrite bool_decide_eq_false_2 by lia. cbn [app].
  destruct (allocate_handle O) as [h|].
  - destruct (negb (allocate_topic_name O)).
    + intros _. cbn [snd]. rewrite <- app_assoc, outstanding_app, Hheld.
      settle_sub sub reg.
    + destruct (negb internal && _); [|done].
      intros _. cbn [snd].
      rewrite <- !app_assoc, outstanding_app, Hheld. settle_sub sub reg.
  - intros _. cbn [snd]. rewrite outstanding_app, Hheld. settle_sub sub reg.
Qed.

Lemma create_destroy_subscriber legacy internal O h p sub l :
  cooperative O →
  rmw_connextdds_create_subscriber legacy internal O
    = (Some (h, (p, sub)), l) →
  ∃ l', rmw_connextdds_destroy_subscriber O h (Some (p, sub))
          = (RMW_RET_OK, l') ∧
        outstanding (l ++ l') = [].
Proof.
  intros Hco. unfold rmw_connextdds_create_subscriber.
  destruct (Subscriber_create legacy false O) as [[[p0 sub0]|] l0] eqn:Hc;
    [|done].
  destruct (Subscriber_create_made legacy false O p0 sub0 l0 Hco Hc)
    as (Hloan & reg & Hheld).
  destruct (allocate_handle O) as [h0|]; [|done].
  destruct (negb (allocate_topic_name O)); [done|].
  destruct (negb internal && _); [done|].
  intros [= <- <- <- <-].
  unfold rmw_connextdds_destroy_subscriber.
  rewrite Subscriber_finalize_cooperative by done.
  rewrite Hloan. rewrite bool_decide_eq_false_2 by lia. cbn [app].
  rewrite decide_False by (intros Hne; by apply Hne).
  eexists. split; [done|].
  rewrite <- !app_assoc, outstanding_app, Hheld. settle_sub sub0 reg.
Qed.

End endpoint.

Lemma cooperative_all_succeed :
  Endpoint.cooperative EndpointExamples.all_succeed.
Proof. by repeat split. Qed.

Lemma cooperative_no_entity :
  Endpoint.cooperative EndpointExamples.no_entity.
Proof. by repeat split. Qed.

(** X18. When the engine honours every deletion,
    [RMW_Connext_Publisher::create] and
    [rmw_connextdds_create_publisher] hold nothing when they return
    null: whatever step failed, the type support, its registration, the
    topic they created, the QoS structure, the writer, the
    implementation object, the handle and the copy of the topic name
    have all been given back. *)
Theorem publisher_creation_rolls_back (legacy internal : bool)
    (O : Endpoint.Oracles) :
  Endpoint.cooperative O →
  (fst (Endpoint.Publisher_create legacy O) = None →
   Endpoint.outstanding (snd (Endpoint.Publisher_create legacy O)) = [])
  ∧ (fst (Endpoint.rmw_connextdds_create_publisher legacy internal O) = None →
     Endpoint.outstanding
       (snd (Endpoint.rmw_connextdds_create_publisher legacy internal O))
     = []).
Proof.
  intros Hco. split.
  - by apply Publisher_create_failed.
  - by apply create_publisher_failed.
Qed.

Lemma publisher_creation_rolls_back_witness :
  Endpoint.outstanding
    (snd (Endpoint.rmw_connextdds_create_publisher false false
            EndpointExamples.no_entity))
  = [].
Proof.
  refine (proj2 (publisher_creation_rolls_back false false
                   EndpointExamples.no_entity _) _).
  - apply cooperative_no_entity.
  - reflexivity.
Defined.

(** X19. When [RMW_Connext_Subscriber::create] returns null after the
    type support was obtained, the type support object is still held,
    and so is the content-filtered topic if one had been created: the
    scope-exit handlers unregister the type, delete the topic, the QoS
    structure and the reader, but the first does not delete the type
    support and the second captured the content-filtered topic while it
    was still null. Nothing else is held. *)
Theorem subscriber_creation_leftovers (legacy cft_name : bool)
    (O : Endpoint.Oracles) :
  Endpoint.cooperative O →
  fst (Endpoint.Subscriber_create legacy cft_name O) = None →
  Endpoint.outstanding (snd (Endpoint.Subscriber_create legacy cft_name O))
  = match Endpoint.register_type_support O, Endpoint.assert_topic O with
    | Some (ts, _), Some _ =>
        (if cft_name then
           match Endpoint.create_contentfilteredtopic O with
           | Endpoint.CftCreated c => [Endpoint.ContentFilteredTopic c]
           | _ => []
           end
         else []) ++ [Endpoint.TypeSupport ts]
    | Some (ts, _), None => [Endpoint.TypeSupport ts]
    | None, _ => []
    end.
Proof. apply Subscriber_create_failed. Qed.

Lemma subscriber_creation_leftovers_witness :
  Endpoint.outstanding
    (snd (Endpoint.Subscriber_create false true EndpointExamples.no_entity))
  = [Endpoint.ContentFilteredTopic 3; Endpoint.TypeSupport 1].
Proof.
  apply (subscriber_creation_leftovers false true EndpointExamples.no_entity).
  - apply cooperative_no_entity.
  - reflexivity.
Defined.

(** X20. When the engine honours every deletion, a publisher or
    subscription made by [rmw_connextdds_create_publisher] or
    [rmw_connextdds_create_subscriber] is destroyed by
    [rmw_connextdds_destroy_publisher] or
    [rmw_connextdds_destroy_subscriber] with [RMW_RET_OK], and nothing
    that the creation acquired is held afterwards. *)
Theorem endpoint_create_destroy (legacy internal : bool)
    (O : Endpoint.Oracles) :
  Endpoint.cooperative O →
  (∀ h p pub l,
     Endpoint.rmw_connextdds_create_publisher legacy internal O
       = (Some (h, (p, pub)), l) →
     ∃ l', Endpoint.rmw_connextdds_destroy_publisher O h (Some (p, pub))
             = (RMW_RET_OK, l') ∧
           Endpoint.outstanding (l ++ l') = [])
  ∧ (∀ h p sub l,
       Endpoint.rmw_connextdds_create_subscriber legacy internal O
         = (Some (h, (p, sub)), l) →
       ∃ l', Endpoint.rmw_connextdds_destroy_subscriber O h (Some (p, sub))
               = (RMW_RET_OK, l') ∧
             Endpoint.outstanding (l ++ l') = []).
Proof.
  intros Hco. split.
  - intros h p pub l. by apply create_destroy_publisher.
  - intros h p sub l. by apply create_destroy_subscriber.
Qed.

Lemma endpoint_create_destroy_witness :
  ∃ l',
    Endpoint.rmw_connextdds_destroy_publisher EndpointExamples.all_succeed 6
      (Some (5, {| Endpoint.pub_dds_writer := 4;
                   Endpoint.pub_type_support := 1;
                   Endpoint.pub_created_topic := true;
                   Endpoint.pub_dds_topic := 2 |}))
    = (RMW_RET_OK, l') ∧
    Endpoint.outstanding
      (snd (Endpoint.rmw_connextdds_create_publisher false false
              EndpointExamples.all_succeed) ++ l') = [].
Proof.
  refine (proj1 (endpoint_create_destroy false false
                   EndpointExamples.all_succeed _) 6 5 _ _ _).
  - apply cooperative_all_succeed.
  - reflexivity.
Defined.

(** X21. Creating a guard condition or a wait set either returns a
    handle together with its implementation object, which the matching
    destroy function gives back in full, or returns null holding
    nothing: the object allocated first is freed when the second
    allocation fails. *)
Theorem guard_condition_and_waitset_creation (O : Endpoint.Oracles) :
  match Endpoint.rmw_connextdds_create_guard_condition O with
  | (None, l) => Endpoint.outstanding l = []
  | (Some (gcond_handle, gcond), l) =>
      Endpoint.outstanding l
        = [Endpoint.Handle gcond_handle; Endpoint.Impl gcond] ∧
      Endpoint.outstanding
        (l ++ snd (Endpoint.rmw_connextdds_destroy_guard_condition
                     gcond_handle gcond)) = []
  end
  ∧ match Endpoint.rmw_connextdds_create_waitset O with
    | (None, l) => Endpoint.outstanding l = []
    | (Some (rmw_ws, ws_impl), l) =>
        Endpoint.outstanding l
          = [Endpoint.Impl ws_impl; Endpoint.Handle rmw_ws] ∧
        Endpoint.outstanding
          (l ++ snd (Endpoint.rmw_connextdds_destroy_waitset rmw_ws ws_impl))
        = []
    end.
Proof.
  unfold Endpoint.rmw_connextdds_create_guard_condition,
    Endpoint.rmw_connextdds_create_waitset,
    Endpoint.rmw_connextdds_destroy_guard_condition,
    Endpoint.rmw_connextdds_destroy_waitset.
  destruct (Endpoint.new_impl O) as [p|],
    (Endpoint.allocate_handle O) as [h|];
    cbn [app snd Endpoint.outstanding Endpoint.outstanding_from
           Endpoint.remove_first];
    repeat first
      [ rewrite decide_True by done
      | rewrite decide_False by discriminate
      | progress cbn [Endpoint.outstanding_from Endpoint.remove_first] ];
    done.
Qed.

(** ** Construction of a client, at every point of failure *)

Lemma fresh_removed (x : ptr) (X : gset ptr) :
  x ∉ X → ({[x]} ∪ X) ∖ {[x]} = X.
Proof.
  intros Hx. apply set_eq. intros y.
  rewrite elem_of_difference, elem_of_union, !elem_of_singleton.
  split.
  - intros [[-> | Hy] Hne]; [by destruct Hne|done].
  - intros Hy. split; [by right|]. intros ->. by apply Hx.
Qed.

Section client.
Import Create.

Lemma client_scope_exit_empty F c s :
  c ∉ impls s →
  client_scope_exit F c {| pub := None; sub := None |} (allocate_impl c s)
  = s.
Proof.
  intros Hc. unfold client_scope_exit, Client_finalize, delete_impl,
    allocate_impl. cbn. rewrite fresh_removed by done. by destruct s.
Qed.

Lemma client_scope_exit_publisher F c p s :
  c ∉ impls s → p ∉ endpoints s →
  Publisher_finalize F p = RMW_RET_OK →
  client_scope_exit F c {| pub := Some p; sub := None |}
    (allocate_endpoint p (allocate_impl c s))
  = mark_finalized p s.
Proof.
  intros Hc Hp Hf. unfold client_scope_exit, Client_finalize, delete_impl,
    allocate_impl, allocate_endpoint, delete_endpoint, mark_finalized.
  cbn. rewrite Hf. rewrite decide_False by (intros Hne; by apply Hne).
  cbn. by rewrite !fresh_removed by done.
Qed.

Lemma Client_create_failed F s :
  (∀ c, new_impl F = Some c → c ∉ impls s) →
  (∀ p, Publisher_create F = Some p → p ∉ endpoints s) →
  (∀ p, Publisher_finalize F p = RMW_RET_OK) →
  fst (Client_create F s) = None →
  impls (snd (Client_create F s)) = impls s ∧
  endpoints (snd (Client_create F s)) = endpoints s ∧
  (∀ p, p ∈ finalized (snd (Client_create F s)) →
        p ∈ finalized s ∨ Publisher_create F = Some p).
Proof.
  intros Hc Hp Hf. unfold Client_create.
  destruct (new_impl F) as [c|]; [|by auto].
  specialize (Hc c eq_refl).
  destruct (negb (type_supports_found F)).
  { intros _. cbn [snd]. rewrite client_scope_exit_empty by done. auto. }
  destruct (Publisher_create F) as [p|].
  2:{ intros _. cbn [snd]. rewrite client_scope_exit_empty by done. auto. }
  specialize (Hp p eq_refl).
  assert (∀ s', s' = mark_finalized p s →
                impls s' = impls s ∧ endpoints s' = endpoints s ∧
                ∀ q, q ∈ finalized s' → q ∈ finalized s ∨ Some p = Some q)
    as Hdone.
  { intros s' ->. cbn. split; [done|]. split; [done|].
    intros q [->%elem_of_singleton | Hq]%elem_of_union; auto. }
  destruct (negb (alloc_cft_name F)).
  { intros _. cbn [snd]. apply Hdone.
    by apply client_scope_exit_publisher. }
  destruct (negb (alloc_cft_filter F)).
  { intros _. cbn [snd]. apply Hdone.
    by apply client_scope_exit_publisher. }
  destruct (Subscriber_create F) as [r|]; [done|].
  intros _. cbn [snd]. apply Hdone. by apply client_scope_exit_publisher.
Qed.

End client.

(** X22. Whichever step makes [RMW_Connext_Client::create] return null
    (allocation of the client, lookup of the type supports, creation of
    the publisher, allocation of the filter strings, creation of the
    subscriber), the client object and the endpoint objects that exist
    afterwards are those that existed before the call, provided the
    publisher's [finalize] succeeds: the client object is deleted and
    the request publisher, if it had been created, is finalized and
    deleted, and nothing else is finalized. Only these objects are
    counted: what a failed [RMW_Connext_Subscriber::create] leaves
    behind in the engine is the subject of X19. *)
Theorem Client_create_deletes_its_objects (F : Create.Factory)
    (s : Create.Store) :
  (∀ c, Create.new_impl F = Some c → c ∉ Create.impls s) →
  (∀ p, Create.Publisher_create F = Some p → p ∉ Create.endpoints s) →
  (∀ p, Create.Publisher_finalize F p = RMW_RET_OK) →
  fst (Create.Client_create F s) = None →
  Create.impls (snd (Create.Client_create F s)) = Create.impls s ∧
  Create.endpoints (snd (Create.Client_create F s)) = Create.endpoints s ∧
  (∀ p, p ∈ Create.finalized (snd (Create.Client_create F s)) →
        p ∈ Create.finalized s ∨ Create.Publisher_create F = Some p).
Proof. apply Client_create_failed. Qed.

Lemma Client_create_deletes_its_objects_witness :
  Create.impls
    (snd (Create.Client_create Scenario.subscriber_fails Scenario.empty_store))
  = Create.impls Scenario.empty_store.
Proof.
  refine (proj1 (Client_create_deletes_its_objects
                   Scenario.subscriber_fails Scenario.empty_store _ _ _ _)).
  - intros c _. apply not_elem_of_empty.
  - intros p _. apply not_elem_of_empty.
  - intros p. reflexivity.
  - reflexivity.
Defined.

(** ** What a successful [wait] reports *)

(** X23. A [wait] that found the wait set free and returns
    [RMW_RET_OK] has gone through the engine's multi-wait, which
    returned [DDS_RETCODE_OK], and hands back the caller's arrays with
    exactly the ready sources left non-null, readiness being judged on
    the wait set as it is when [process_wait] starts: the requested
    lists, the active conditions that the multi-wait stored and the
    event cache that [attach] left. *)
Theorem wait_ok_reports_ready (E : Engine) (H : Heap) (this : ptr)
    (a : wait_args) (wait_timeout : option rmw_time_t) (w : World)
    (arrays : wait_arrays) (w' : World) :
  yield_keeps E this →
  state (ws_at w this) = RMW_CONNEXT_WAITSET_FREE →
  WaitSet.wait E H this a wait_timeout w = (Returned RMW_RET_OK, arrays, w') →
  ∃ wait_duration w1,
    WaitSet.wait_acquire E H this a wait_timeout w = (inr wait_duration, w1) ∧
    fst (DDS_WaitSet_wait E (blocked_world this w1) this wait_duration)
      = DDS_RETCODE_OK ∧
    arrays
      = ready_arrays E H
          (ws_at (releasing_world E this wait_duration w1) this) a.
Proof.
  intros Hy Hfree Hwait.
  destruct (WaitSet.wait_acquire E H this a wait_timeout w) as [r w1] eqn:Hacq.
  rewrite (wait_free E H this a wait_timeout w r w1 Hfree Hacq) in Hwait.
  destruct r as [rc0|d].
  { apply wait_acquire_early in Hacq.
    apply leave_armed in Hwait as ([= <-] & _). done. }
  exists d, w1. split; [done|].
  apply (wait_acquire_attached E H this a wait_timeout w d w1 Hy) in Hacq.
  destruct (fst (DDS_WaitSet_wait E (blocked_world this w1) this d))
    as [| |code] eqn:Hengine.
  3:{ destruct (wait_blocked_engine_failed E H this a d _ code Hengine)
        as [w0 Hb].
      rewrite Hb in Hwait. by apply leave_armed in Hwait as ([=] & _). }
  all: rewrite wait_blocked_unfold in Hwait by (rewrite Hengine; done).
  all: destruct (WaitSet.process_wait_loops E H this (arrays_of a) 0 _)
         as [dm w''] eqn:Hdm.
  all: apply process_wait_loops_ready in Hdm as [Harr Hact];
         [|by apply releasing_world_attached].
  all: rewrite Hengine in Hwait.
  all: destruct (negb (dm_failed dm) && dm_valid dm);
         [|by apply leave_armed in Hwait as ([=] & _)].
  all: destruct (negb _) eqn:Hassert; [done|].
  all: case_decide; try done; try congruence.
  rewrite leave_unarmed in Hwait. injection Hwait as <- _.
  by split.
Qed.

Lemma wait_ok_reports_ready_witness :
  ∃ wait_duration w1,
    WaitSet.wait_acquire Scenario.busy Scenario.heap 7 Scenario.some_sources
      (Some Scenario.one_second) Scenario.empty_world
    = (inr wait_duration, w1) ∧
    fst (DDS_WaitSet_wait Scenario.busy (blocked_world 7 w1) 7 wait_duration)
      = DDS_RETCODE_OK ∧
    snd (fst (WaitSet.wait Scenario.busy Scenario.heap 7
                Scenario.some_sources (Some Scenario.one_second)
                Scenario.empty_world))
      = ready_arrays Scenario.busy Scenario.heap
          (ws_at (releasing_world Scenario.busy 7 wait_duration w1) 7)
          Scenario.some_sources.
Proof.
  apply (wait_ok_reports_ready Scenario.busy Scenario.heap 7
           Scenario.some_sources (Some Scenario.one_second)
           Scenario.empty_world _
           (snd (WaitSet.wait Scenario.busy Scenario.heap 7
                   Scenario.some_sources (Some Scenario.one_second)
                   Scenario.empty_world))).
  - intros w. reflexivity.
  - reflexivity.
  - vm_compute. reflexivity.
Defined.

(** ** Conditions marked deleted *)

Global Instance same_deleted_preorder : PreOrder same_deleted.
Proof.
  split.
  - by intros w c.
  - intros w1 w2 w3 H12 H23 c. by rewrite H23, H12.
Qed.

Lemma same_deleted_conds w w' : conds w' = conds w → same_deleted w w'.
Proof. intros Hc c. unfold cond_at. by rewrite Hc. Qed.

Section deleted.
Context (E : Engine) (H : Heap).
Hypothesis Hyield : yield_keeps_deleted E.

Lemma keeps_del_log_call c : keeps same_deleted (log_call c).
Proof. apply keeps_modify. intros w. by apply same_deleted_conds. Qed.

Lemma keeps_del_error_set msg :
  keeps same_deleted (RMW_CONNEXT_LOG_ERROR_SET msg).
Proof. apply keeps_modify. intros w. by apply same_deleted_conds. Qed.

Lemma keeps_del_set_state this s : keeps same_deleted (set_state this s).
Proof. apply keeps_modify. intros w. by apply same_deleted_conds. Qed.

Lemma keeps_del_update_lists this f :
  keeps same_deleted (update_lists this f).
Proof. apply keeps_modify. intros w. by apply same_deleted_conds. Qed.

Lemma keeps_del_set_attached_waitset c v :
  keeps same_deleted (set_attached_waitset c v).
Proof.
  apply keeps_modify. intros w c'. unfold cond_at, set_cond. cbn.
  destruct (decide (c' = c)) as [->|Hne].
  - by rewrite lookup_total_insert_eq.
  - by rewrite lookup_total_insert_ne.
Qed.

Lemma keeps_del_cache_index this e :
  keeps same_deleted (WaitSet.cache_index this e).
Proof.
  intros w x w' Hidx. apply cache_index_lookups in Hidx as (_ & Hc & _).
  by apply same_deleted_conds.
Qed.

Hint Resolve keeps_del_log_call keeps_del_error_set keeps_del_set_state
  keeps_del_update_lists keeps_del_set_attached_waitset
  keeps_del_cache_index : keeps.

Lemma keeps_del_Condition_detach c :
  keeps same_deleted (Condition.detach E c).
Proof. unfold Condition.detach. repeat keeps_step. Qed.

Lemma keeps_del_Condition_attach c ws :
  keeps same_deleted (Condition.attach E c ws).
Proof. unfold Condition.attach. repeat keeps_step. Qed.

Lemma keeps_del_Condition_attach_data c :
  keeps same_deleted (Condition.attach_data E c).
Proof. unfold Condition.attach_data. repeat keeps_step. Qed.

Lemma keeps_del_Condition_reset_statuses c :
  keeps same_deleted (Condition.reset_statuses E c).
Proof. unfold Condition.reset_statuses. repeat keeps_step. Qed.

Lemma keeps_del_Condition_enable_statuses c m :
  keeps same_deleted (Condition.enable_statuses E c m).
Proof. unfold Condition.enable_statuses. repeat keeps_step. Qed.

Hint Resolve keeps_del_Condition_detach keeps_del_Condition_attach
  keeps_del_Condition_attach_data keeps_del_Condition_reset_statuses
  keeps_del_Condition_enable_statuses : keeps.

Lemma keeps_del_detach_each cs failed :
  keeps same_deleted (WaitSet.detach_each E cs failed).
Proof.
  revert failed. induction cs as [|c cs IH]; intros failed;
    cbn [WaitSet.detach_each]; repeat keeps_step.
Qed.

Lemma keeps_del_detach_events this es failed :
  keeps same_deleted (WaitSet.detach_events E H this es failed).
Proof.
  revert failed. induction es as [|e es IH]; intros failed;
    cbn [WaitSet.detach_events]; repeat keeps_step.
Qed.

Hint Resolve keeps_del_detach_each keeps_del_detach_events : keeps.

Lemma keeps_del_detach this : keeps same_deleted (WaitSet.detach E H this).
Proof. unfold WaitSet.detach. repeat keeps_step. Qed.

Lemma keeps_del_is_attached_events this es c :
  keeps same_deleted (WaitSet.is_attached_events H this es c).
Proof.
  induction es as [|e es IH]; cbn [WaitSet.is_attached_events];
    repeat keeps_step.
Qed.

Hint Resolve keeps_del_detach keeps_del_is_attached_events : keeps.

Lemma keeps_del_is_attached this c :
  keeps same_deleted (WaitSet.is_attached H this c).
Proof. unfold WaitSet.is_attached. repeat keeps_step. Qed.

Hint Resolve keeps_del_is_attached : keeps.

Lemma keeps_del_invalidate this c :
  keeps same_deleted (WaitSet.invalidate E H this c).
Proof using Hyield.
  unfold WaitSet.invalidate, WaitSet.state_cond_wait.
  assert (keeps same_deleted (modify (yield E))) as Hy.
  { apply keeps_modify. apply Hyield. }
  repeat keeps_step.
Qed.

Hint Resolve keeps_del_invalidate : keeps.

Lemma keeps_del_displace this c :
  keeps same_deleted (WaitSet.displace E H this c).
Proof using Hyield. unfold WaitSet.displace. repeat keeps_step. Qed.

Hint Resolve keeps_del_displace : keeps.

(** A block that tests the flag after [displace] and goes on with a
    continuation that leaves the flags alone returns [RMW_RET_OK] only
    when the condition was not marked deleted. *)
Lemma guarded_ok this cond (k : bool → M rmw_ret_t) w w' :
  (∀ d, keeps same_deleted (k d)) →
  (detached ← WaitSet.displace E H this cond;
   w ← get;
   if deleted (cond_at w cond) then ret RMW_RET_ERROR else k detached) w
  = (RMW_RET_OK, w') →
  deleted (cond_at w cond) = false ∧ same_deleted w w'.
Proof using Hyield.
  intros Hk (d & w1 & Hd%keeps_del_displace & Hr)%bind_inv.
  rewrite bind_get_eq in Hr.
  destruct (deleted (cond_at w1 cond)) eqn:Hdel; [done|].
  apply Hk in Hr. split; [by rewrite <- Hd|]. by etransitivity.
Qed.

Lemma attach_reader_ok this cond w w' :
  WaitSet.attach_reader E H this cond w = (RMW_RET_OK, w') →
  deleted (cond_at w cond) = false ∧ same_deleted w w'.
Proof using Hyield.
  unfold WaitSet.attach_reader. apply guarded_ok.
  intros d. repeat keeps_step.
Qed.

Lemma attach_readers_ok this (f : ptr → ptr) (g : list ptr → RMW_Connext_WaitSet → RMW_Connext_WaitSet)
    (get_list : RMW_Connext_WaitSet → list ptr)
    (loop : list ptr → M rmw_ret_t) :
  (∀ x rest,
     loop (x :: rest)
     = (check! WaitSet.attach_reader E H this (f x);
        w ← get;
        update_lists this (g (get_list (ws_at w this) ++ [x]));;
        loop rest)) →
  loop [] = ret RMW_RET_OK →
  ∀ l w w',
    loop l w = (RMW_RET_OK, w') →
    Forall (λ x, deleted (cond_at w (f x)) = false) l ∧ same_deleted w w'.
Proof using Hyield.
  intros Hcons Hnil l. induction l as [|x l IH]; intros w w'.
  - rewrite Hnil. by intros [= <-].
  - rewrite Hcons.
    intros (w1 & [Hdel H1]%attach_reader_ok & Hr)%check_inv_ok.
    rewrite bind_get_eq, bind_unit_eq in Hr.
    apply IH in Hr as [Hall H2].
    assert (same_deleted w1 (snd (update_lists this
              (g (get_list (ws_at w1 this) ++ [x])) w1))) as Hu.
    { by apply same_deleted_conds. }
    split.
    + constructor; [done|].
      eapply Forall_impl; [exact Hall|]. intros y Hy. cbv beta in *.
      by rewrite <- (H1 (f y)), <- (Hu (f y)).
    + etransitivity; [exact H1|]. etransitivity; [exact Hu|done].
Qed.

Lemma attach_subscribers_deleted this l w w' :
  WaitSet.attach_subscribers E H this l w = (RMW_RET_OK, w') →
  Forall (λ x, deleted (cond_at w (subscriber_condition H x)) = false) l ∧
  same_deleted w w'.
Proof using Hyield.
  by apply (attach_readers_ok this (subscriber_condition H) with_subscribers
              attached_subscribers).
Qed.

Lemma attach_clients_deleted this l w w' :
  WaitSet.attach_clients E H this l w = (RMW_RET_OK, w') →
  Forall (λ x, deleted
                 (cond_at w (subscriber_condition H (client_subscriber H x)))
               = false) l ∧
  same_deleted w w'.
Proof using Hyield.
  by apply (attach_readers_ok this
              (λ c, subscriber_condition H (client_subscriber H c))
              with_clients attached_clients).
Qed.

Lemma attach_services_deleted this l w w' :
  WaitSet.attach_services E H this l w = (RMW_RET_OK, w') →
  Forall (λ x, deleted
                 (cond_at w (subscriber_condition H (service_subscriber H x)))
               = false) l ∧
  same_deleted w w'.
Proof using Hyield.
  by apply (attach_readers_ok this
              (λ s, subscriber_condition H (service_subscriber H s))
              with_services attached_services).
Qed.

Lemma reset_events_deleted this l w w' :
  WaitSet.reset_events E H this l w = (RMW_RET_OK, w') →
  Forall (λ e, deleted (cond_at w (Event_condition H (event_at H e)))
               = false) l ∧
  same_deleted w w'.
Proof using Hyield.
  revert w. induction l as [|e l IH]; intros w;
    cbn [WaitSet.reset_events].
  - by intros [= <-].
  - intros (d & w1 & Hd%keeps_del_displace & Hr)%bind_inv.
    rewrite bind_get_eq in Hr.
    destruct (deleted (cond_at w1 _)) eqn:Hdel; [done|].
    apply bind_inv in Hr as (u & w2 & H2 & Hr).
    assert (same_deleted w1 w2) as H12.
    { revert H2. destruct d; [apply keeps_del_set_attached_waitset|].
      intros [= _ <-]. reflexivity. }
    apply check_inv_ok in Hr
      as (w3 & H3%keeps_del_Condition_reset_statuses & Hr).
    apply IH in Hr as [Hall H4].
    assert (same_deleted w w3) as H03.
    { etransitivity; [exact Hd|]. by etransitivity. }
    split.
    + constructor; [by rewrite <- Hd|].
      eapply Forall_impl; [exact Hall|]. intros y Hy. cbv beta in *.
      by rewrite <- H03.
    + by etransitivity.
Qed.

Lemma attach_guard_conditions_deleted this l w w' :
  WaitSet.attach_guard_conditions E H this l w = (RMW_RET_OK, w') →
  Forall (λ gc, deleted (cond_at w gc) = false) l ∧ same_deleted w w'.
Proof using Hyield.
  revert w. induction l as [|gc l IH]; intros w;
    cbn [WaitSet.attach_guard_conditions].
  - by intros [= <-].
  - intros (d & w1 & Hd%keeps_del_displace & Hr)%bind_inv.
    rewrite bind_get_eq in Hr.
    destruct (deleted (cond_at w1 gc)) eqn:Hdel; [done|].
    apply bind_inv in Hr as (u & w2 & H2 & Hr).
    assert (same_deleted w1 w2) as H12.
    { revert H2. destruct d; [apply keeps_del_set_attached_waitset|].
      intros [= _ <-]. reflexivity. }
    apply check_inv_ok in Hr
      as (w3 & H3%keeps_del_Condition_attach & Hr).
    rewrite bind_get_eq, bind_unit_eq in Hr.
    apply IH in Hr as [Hall H4].
    assert (same_deleted w w3) as H03.
    { etransitivity; [exact Hd|]. by etransitivity. }
    split.
    + constructor; [by rewrite <- Hd|].
      eapply Forall_impl; [exact Hall|]. intros y Hy. cbv beta in *.
      by rewrite <- H03.
    + etransitivity; [exact H03|]. etransitivity; [|exact H4].
      by apply same_deleted_conds.
Qed.

Lemma keeps_del_attach_events this l :
  keeps same_deleted (WaitSet.attach_events E H this l).
Proof.
  induction l as [|e l IH]; cbn [WaitSet.attach_events]; repeat keeps_step.
Qed.

Lemma for_each_deleted (loop : list ptr → M rmw_ret_t) (f : ptr → ptr)
    xs w w' :
  (∀ l w w', loop l w = (RMW_RET_OK, w') →
     Forall (λ x, deleted (cond_at w (f x)) = false) l ∧ same_deleted w w') →
  WaitSet.for_each loop xs w = (RMW_RET_OK, w') →
  Forall (λ c, deleted (cond_at w c) = false) (f <$> requested xs) ∧
  same_deleted w w'.
Proof.
  intros Hloop. destruct xs as [l|]; cbn.
  - intros [Hall Hw]%Hloop. split; [|done]. by apply Forall_fmap.
  - intros [= <-]. split; [constructor|reflexivity].
Qed.

Lemma Forall_deleted_back w w1 (l : list ptr) :
  same_deleted w w1 →
  Forall (λ c, deleted (cond_at w1 c) = false) l →
  Forall (λ c, deleted (cond_at w c) = false) l.
Proof.
  intros Hw Hall. eapply Forall_impl; [exact Hall|].
  intros c Hc. cbv beta in *. by rewrite <- (Hw c).
Qed.

Lemma reattach_deleted this a w w' :
  WaitSet.reattach E H this a w = (RMW_RET_OK, w') →
  Forall (λ c, deleted (cond_at w c) = false) (requested_conds H a) ∧
  same_deleted w w'.
Proof using Hyield.
  unfold WaitSet.reattach.
  intros (w1 & H1%keeps_del_detach & Hr)%check_inv_ok.
  apply check_inv_ok in Hr as (w2 & H2 & Hr).
  apply (for_each_deleted _ (λ e, Event_condition H (event_at H e))) in H2
    as [Hevs H2]; [|apply reset_events_deleted].
  apply check_inv_ok in Hr as (w3 & H3 & Hr).
  apply (for_each_deleted _ (subscriber_condition H)) in H3
    as [Hsubs H3]; [|apply attach_subscribers_deleted].
  apply check_inv_ok in Hr as (w4 & H4 & Hr).
  apply (for_each_deleted _
           (λ c, subscriber_condition H (client_subscriber H c))) in H4
    as [Hcls H4]; [|apply attach_clients_deleted].
  apply check_inv_ok in Hr as (w5 & H5 & Hr).
  apply (for_each_deleted _
           (λ s, subscriber_condition H (service_subscriber H s))) in H5
    as [Hsrvs H5]; [|apply attach_services_deleted].
  apply check_inv_ok in Hr as (w6 & H6 & Hr).
  assert (same_deleted w5 w6) as H56.
  { apply for_each_inv in H6 as [(_ & _ & ->)|H6]; [reflexivity|].
    by apply keeps_del_attach_events in H6. }
  apply check_inv_ok in Hr as (w7 & H7 & Hr).
  apply (for_each_deleted _ id) in H7
    as [Hgcs H7]; [|apply attach_guard_conditions_deleted].
  rewrite list_fmap_id in Hgcs.
  injection Hr as <-.
  assert (same_deleted w w2) as H02 by (by etransitivity).
  assert (same_deleted w w3) as H03 by (by etransitivity).
  assert (same_deleted w w4) as H04 by (by etransitivity).
  assert (same_deleted w w5) as H05 by (by etransitivity).
  assert (same_deleted w w6) as H06 by (by etransitivity).
  split; [|by etransitivity].
  unfold requested_conds. rewrite !Forall_app. repeat split.
  - by apply (Forall_deleted_back w w2).
  - by apply (Forall_deleted_back w w6).
  - by apply (Forall_deleted_back w w3).
  - by apply (Forall_deleted_back w w4).
  - by apply (Forall_deleted_back w w1).
Qed.

End deleted.

(** X24. When the requested sources differ from the attached ones,
    [attach] returns [RMW_RET_OK] only if none of the conditions behind
    the requested subscriptions, guard conditions, clients, services
    and events is marked deleted; and [attach] leaves every such mark
    as it found it. Other threads are assumed not to change the marks
    while [invalidate] sleeps. *)
Theorem attach_refuses_deleted (E : Engine) (H : Heap) (this : ptr)
    (a : wait_args) (w w' : World) :
  yield_keeps_deleted E →
  ¬ unchanged_sources (ws_at w this) a →
  WaitSet.attach E H this a w = (RMW_RET_OK, w') →
  Forall (λ c, deleted (cond_at w c) = false) (requested_conds H a) ∧
  same_deleted w w'.
Proof.
  intros Hyield Hchanged. unfold WaitSet.attach. rewrite bind_get_eq.
  destruct (WaitSet.refresh_attach (ws_at w this) a) eqn:Hrefresh; cbn [negb].
  - by apply reattach_deleted.
  - by apply refresh_attach_false in Hrefresh.
Qed.

Lemma attach_refuses_deleted_witness :
  Forall (λ c, deleted (cond_at Scenario.empty_world c) = false)
    (requested_conds Scenario.heap Scenario.some_sources) ∧
  same_deleted Scenario.empty_world
    (snd (WaitSet.attach Scenario.quiet Scenario.heap 7
            Scenario.some_sources Scenario.empty_world)).
Proof.
  apply (attach_refuses_deleted Scenario.quiet Scenario.heap 7
           Scenario.some_sources Scenario.empty_world
           (snd (WaitSet.attach Scenario.quiet Scenario.heap 7
                   Scenario.some_sources Scenario.empty_world))).
  - intros w c. reflexivity.
  - intros (Hsubs & _). destruct Hsubs as [Hlen _]. vm_compute in Hlen.
    discriminate Hlen.
  - vm_compute. reflexivity.
Defined.

(** ** The assertion at the end of [wait] *)



